(* ===== verification/_CoqProject ===== *)
-Q . S2P
Prelude.v
Extern.v
WakerReg.v
State.v
Sim.v
Invariant.v
Nic.v
Executor.v
Progress.v
Utf8.v
Socket.v
Moves.v
Tokens.v
Device.v
Syscalls.v
Answer.v
Trace.v
Timeout.v
Park.v
ParkLink.v
Tcpstream.v
Dummy.v
Link.v
Others.v
Ports.v
Abi.v
Cmath.v
Build.v
BuildScript.v
Netbench.v
NetbenchMain.v
NetbenchHermit.v
NetbenchLatency.v
Numeric.v
Rayon.v
Morton.v
Matmul.v
MatmulSpec.v
MatmulExact.v
MatmulDemo.v
MatmulTest.v
Laplace.v
Demo.v
Micro.v
Httpd.v
