(* ===== verification/Prelude.v ===== *)
(** * rusty-hermit: verification library (root file)

    rusty-hermit lets Rust programs run on the unikernel RustyHermit.  The code verified
    here is the part of it that is linked into every program, and what is built on it:

    - hermit-sys: the network stack in user space ([hermit-sys/src/net/], on the crate
      smoltcp), its stub without smoltcp ([dummy.rs]), the entry points ([lib.rs]), the C
      mathematics functions ([cmath.rs]) and the script that builds the kernel
      ([build.rs]);
    - hermit-abi: what the standard library of Rust declares and calls;
    - benches/netbench and benches/micro: the programs that measure the network, the
      scheduler, system calls and memory;
    - examples/demo: a program of twelve tests, among them matrix multiplication in Z-order
      and Strassen's algorithm, the Laplace equation and pi; examples/httpd and hello_world.

    ** How the parts of the network stack interact

    One mutex, [NIC], protects the interface: the smoltcp interface, the socket
    set, an optional DHCP client and a slot for one waker.  A system call ([sys_tcp_*])
    builds the future of an [async fn] of [AsyncSocket] and drives it with [block_on] or
    [poll_on].  Each access to a socket locks [NIC], leaves the waker of the thread with the
    socket when it has to wait, and wakes the waker in the slot.  That waker belongs to
    the one task of the executor, [network_run], which polls the interface, puts its
    waker back into the slot and stays pending for ever.  Waking it puts it into [QUEUE];
    [run_executor] runs what is in the queue.  Polling the interface wakes the
    threads whose sockets made progress: [ThreadNotify::wake_by_ref] sets the flag
    [unparked] and calls the kernel when the flag was clear.  A second thread, started by
    [network_init], polls the interface whenever the kernel gives it the processor.

    ** Which file models which part

    - Prelude: [Result], [Poll], machine integers; the effect monad [M] whose
      computations end as [Done], [Panicked], [Deadlock] or [Diverged]; the loop; weakest
      preconditions [wp] with their rules, tactics and hint databases.
    - Extern: type classes for the code that is called and not part of the
      repository: [Smoltcp], [AsyncTask], [Kernel], and their documented behaviour
      [SmoltcpLaws], [AsyncTaskLaws].  They are parameters of the model.  smoltcp panics when an
      interface is built with, or updated to, an address that is not unicast ([AddressChecks]);
      that the DHCP server leases unicast addresses is [UnicastLeases].  [PollBacklog] says that
      at one timestamp only finitely many polls of the interface find something to do; it allows
      the timers of smoltcp (retransmission, keep-alive) to make work at later ones.
    - Sim: small executable instances of these classes, on which witnesses are evaluated; the
      peer of a connection sends back what it receives.
    - WakerReg: [net/waker.rs], the slot for one waker.
    - State: the statics of [net/mod.rs] and [net/executor.rs] as one record [World]; the
      discipline of the mutex (locking what one already holds is [Deadlock], a panic
      in a critical section poisons the mutex); system calls, recorded in the log
      [klog]; [ThreadNotify]; the waking and scheduling of tasks.
    - Invariant: the invariant of the stack and what is asked of the other threads.
    - Nic: [NetworkState] and the methods of [NetworkInterface] ([net/mod.rs]).
    - Executor: [net/executor.rs] and [network_run]: [run_executor], [spawn], [poll_on],
      [block_on].
    - Progress: when [run_executor] ends and when it does not.
    - Utf8: the check of the standard library that [connect] uses.
    - Socket: [AsyncSocket] ([net/mod.rs]); every [async fn] is the state machine that the
      compiler makes of it, a state per suspension point and a poll function.
    - Moves: what a computation can do in one step ([Steps]), and that whole programs move by
      such steps; Trace, Timeout, ParkLink and Ports are built on it.
    - Tokens, Device: [net/device.rs]: the tokens with a ledger of the driver's buffers; the
      net-mask and the constructors.
    - Syscalls: [network_init], the network thread, [sys_network_init] and the
      [sys_tcp_*] functions ([net/mod.rs], [lib.rs]).
    - Answer: when a read or a write is bound to return.
    - Trace: which system calls the network calls make, as languages of traces.
    - Timeout: that [connect] with a timeout returns, under laws of the clock.
    - Park: the loop of [block_on] against [wake_by_ref] and the timers of the kernel, one
      atomic access at a time.  ParkLink: that a call of [block_on] is a run of Park.
    - Tcpstream: [hermit-abi/src/tcpstream.rs] and [tcplistener.rs] as an interface
      [TcpApi] with a contract [TcpApiSpec]; Dummy ([dummy.rs]) and Link (the network stack)
      are its two implementations.
    - Others: what the other threads of the program do to the shared state, one critical
      section, task or flag at a time, and all threads interleaved.  Ports: the local ports that
      the connections of all threads get, over such runs.
    - Abi: [hermit-abi/src/lib.rs], constants and wrappers.
    - Cmath: [cmath.rs], every export, over a class [Libm].
    - Build, BuildScript: the decisions of [build.rs], and the script that carries them out
      with the disk, the commands, llvm_tools and walkdir as classes.
    - Netbench, NetbenchMain: [benches/netbench], the message loops, checks and rounds; the
      configuration, the numbers it reads, and the four [main] functions.  NetbenchHermit: the
      same programs over the standard library, hermit-abi and the network stack.
      NetbenchLatency: what the latency client and server exchange there.
    - Numeric: number types as a class [Num], with exact arithmetic on the integers that fit,
      and the IEEE formats of the standard library's [SpecFloat] as instances.
    - Rayon: the fork-join operations of the crate rayon as a class with laws.
    - Morton, Matmul: [tests/matmul.rs] of the demo, the counter of splayed bits and the four
      multiplications on memory that may be uninitialised.  MatmulSpec: the products they are
      to compute.  MatmulExact: exactness on integers that fit.  MatmulDemo: that they agree
      in [f32], and what the demo computes.  MatmulTest: the unit tests of matmul.rs.
    - Laplace: [tests/laplace.rs], the iteration on two grids, against the Jacobi iteration.
    - Demo: [tests/mod.rs] and the main functions of the demo on a machine with files and an
      output.
    - Micro: [benches/micro].  Httpd: [examples/httpd] and [examples/hello_world].

    ** How state and operations correspond

    A function of the program is a definition with its name; a static is a field of
    [World] with its name.  A method with [&mut self] takes the value and returns it, its
    caller stores it back under the lock; a caller's buffer comes back with the result.
    [debug!] and [info!] have no effect on the state and are left out, and so is [println!] in
    hermit-sys; in the programs, where the output is the result, lines are kept as the
    arguments of their [println!], with measured values left open.

    Threads: a definition is the run of one thread.  Between its accesses to shared
    state, at each [Point] (a lock, an access to the queue or to a flag, a system call),
    the environment [env] replaces the shared state by any other; while the thread holds
    the lock it can only change the kernel.  The theorems hold for every environment
    that keeps the invariant ([EnvLaws]).  Others discharges this assumption: its
    [other_step] is a step of the kernel (packets that arrive included) or an action of
    another thread, built from the definitions of this development (a critical section with
    its body, the start and the end of a task, an access to a flag); any sequence of them
    keeps the laws - the network task among them, which is queued, running or asleep with its
    waker in the slot, and never done -, and a call that returns is a sequence of such actions between those of
    its environment.  The bring-up is not among the actions: it is over before the program
    has other threads.  Park drops this granularity for the one protocol that works without a lock:
    there every atomic access and every system call is a step of a transition system,
    and any number of wakers interleave with the waiting thread; ParkLink puts a run of [block_on]
    as Executor has it side by side with a run of that system, access by access, with the flag
    and the kernel in the same state at each of them.

    Loops: [loop] takes a bound on its rounds and ends as [Diverged] when it is exhausted.
    [wp true] excludes [Diverged], so it states termination; [wp false] allows it and is
    used where the program may wait for ever by design (a read with no data).  The bound
    is a parameter everywhere, and the termination theorems say how much is enough: two
    rounds for [run_executor] with one task, one more than the backlog of packets at its
    timestamp for [poll_common], which ends exactly when one of its polls finds nothing to do,
    one round for a call on a socket that is ready, the length of a message and
    the attempts in vain for the loops of netbench, the side of the matrix for a counter of
    splayed bits.  The recursion of the multiplications takes a [depth], which has to exceed
    the number of halvings down to blocks of side 32.  A theorem that a loop spins holds for
    every bound (for [seq_matmulz] at side 2^16, every bound below 2^31).

    ** What the theorems show

    - The stack is safe to use (Syscalls, Others, Link, Ports): after bring-up no sequence of
      calls by a thread on its own handles panics, deadlocks on the lock or loses the network
      task, whatever the other threads of the program do; no task is polled by two threads
      at once; the same safety for every client of hermit-abi, proved against the interface, but
      for the one panic of [shutdown]; connections get different local ports.
    - Pending futures are woken (Socket, WakerReg, Executor, Park): a pending poll has left
      its waker with the socket, in the list for its direction, and the network task is awake; a wakeup before the wait is
      consumed; with an atomic wait no wakeup is lost, and with the wait as it is written
      one can be.  Every blocking call of the stack follows this protocol (ParkLink).
    - Termination (Progress, Nic, Syscalls, Answer), and the runs that do not end.
    - Functional contracts: reading and writing, connecting, closing after flushing,
      the leases of DHCP, static configuration, net-masks, with the panics on strings and
      addresses that do not fit.
    - Buffers (Tokens): whatever smoltcp does through the [Device] trait, no buffer of the driver
      is lost or given back twice.
    - A timeout is kept (Timeout, Executor): [connect] with a timeout returns, and no blocking
      call gives up before its deadline or after a poll that was ready.
    - The network benchmarks (Netbench, NetbenchMain, NetbenchHermit, NetbenchLatency): over any
      stream that works the bandwidth client sends exactly its bytes and the latency server
      echoes; on RustyHermit client and server move what they report, when they are not asked
      for the non-blocking mode, which the stack refuses.
    - The demo (MatmulDemo, MatmulTest, Laplace, Demo): the parallel and the Strassen multiplication
      give the exact product when the integers fit, so that the unit tests pass and the demo
      reports its tests; the Laplace solver computes the Jacobi iteration.
    - System calls (Trace): the polling mode is switched on and off in pairs; a thread that
      asks to be blocked yields next.
    - Build script (BuildScript): a run that ends well has run exactly the commands of the plan,
      and it ends well, with the library where the program is linked from, when cargo and the
      llvm tools do what they are documented to do ([ToolLaws]).
    - C functions, benchmarks, constants: what they compute, and the inputs on which they do
      something else than they mean to.

    ** What is not modelled

    smoltcp, async_task, libm, rayon, clap, tiny_http, llvm_tools, walkdir and the kernel are
    parameters.  Of the standard library the model has what the code uses of it, among it the
    [TcpStream] of the hermit target, which forwards to hermit-abi (NetbenchHermit); that a
    stream closes its handle when it is dropped is left out there.  Not modelled are the loggers, which only print, the sending of messages to
    the serial log ([debug!], [info!]), and measured times: a clock is modelled where the
    program decides by it.  Of the micro benchmarks the variants for Linux are left out. *)

From stdpp Require Export base option list gmap strings.
From Stdlib Require Export ZArith Lia.

(** ** Rust data the whole development uses *)

(** [Result<A, E>]. *)
Inductive result (A E : Type) : Type :=
| Ok (a : A)
| Err (e : E).
Arguments Ok {A E} a.
Arguments Err {A E} e.

#[global] Instance result_eq_dec {A E} `{EqDecision A, EqDecision E} : EqDecision (result A E).
Proof. solve_decision. Defined.

(** [core::task::Poll<A>]. *)
Inductive poll (A : Type) : Type :=
| Ready (a : A)
| Pending.
Arguments Ready {A} a.
Arguments Pending {A}.

(** [Result::map_err]. *)
Definition map_err {A E F} (f : E → F) (r : result A E) : result A F :=
  match r with Ok a => Ok a | Err e => Err (f e) end.

(** [Result::is_ok]. *)
Definition is_ok {A E} (r : result A E) : bool :=
  match r with Ok _ => true | Err _ => false end.

(** The [?] operator on a pure result, with the [From] conversion the identity. *)
Definition result_bind {A B E} (r : result A E) (k : A → result B E) : result B E :=
  match r with Ok a => k a | Err e => Err e end.

(** ** Machine integers: a [w]-bit unsigned integer is a [Z] in [0, 2^w). *)
Definition wrap (w z : Z) : Z := z mod 2 ^ w.
Definition in_width (w z : Z) : Prop := (0 ≤ z < 2 ^ w)%Z.

Lemma wrap_in_width w z : (0 ≤ w)%Z → in_width w (wrap w z).
Proof. intros. apply Z.mod_pos_bound. by apply Z.pow_pos_nonneg. Qed.

Lemma wrap_small w z : in_width w z → wrap w z = z.
Proof. intros. by apply Z.mod_small. Qed.

(** [trailing_zeros] of an [n]-bit integer: the zero bits below the lowest one bit, [n]
    at most. *)
Fixpoint trailing_zeros (n : nat) (z : Z) : Z :=
  match n with
  | O => 0
  | S n' => if Z.testbit z 0 then 0 else 1 + trailing_zeros n' (Z.shiftr z 1)
  end%Z.

(** [count_ones]. *)
Fixpoint pos_ones (p : positive) : Z :=
  match p with
  | xH => 1
  | xO p' => pos_ones p'
  | xI p' => 1 + pos_ones p'
  end%Z.
Definition count_ones (z : Z) : Z := match z with Zpos p => pos_ones p | _ => 0%Z end.

Lemma trailing_zeros_bound n z : (0 ≤ trailing_zeros n z ≤ Z.of_nat n)%Z.
Proof.
  revert z. induction n as [|n IH]; intros z; [by simpl|].
  cbn [trailing_zeros]. destruct (Z.testbit z 0); [lia|]. specialize (IH (Z.shiftr z 1)). lia.
Qed.

Lemma trailing_zeros_pow2 n k : k < n → trailing_zeros n (2 ^ Z.of_nat k) = Z.of_nat k.
Proof.
  revert n. induction k as [|k IH]; intros [|n] Hlt; [lia|done|lia|].
  cbn [trailing_zeros]. rewrite Nat2Z.inj_succ, Z.pow_succ_r, Z.testbit_even_0 by lia.
  rewrite Z.shiftr_div_pow2, Z.mul_comm, Z.pow_1_r, Z.div_mul, IH by lia. lia.
Qed.

Lemma count_ones_pow2 k : count_ones (2 ^ Z.of_nat k) = 1%Z.
Proof.
  induction k as [|k IH]; [done|]. rewrite Nat2Z.inj_succ, Z.pow_succ_r by lia.
  by destruct (2 ^ Z.of_nat k)%Z.
Qed.

(** The message of an index that is not checked statically. *)
Definition BOUNDS : string := "index out of bounds".

(** ** The effect monad

    A computation of the program runs on a state [W] and ends in one of four
    ways.  [Deadlock] is the outcome of a thread that locks a [Mutex] it already
    holds; [Diverged] says that the loop bound was exhausted, so a theorem
    that excludes it is a termination theorem. *)
Inductive outcome (W A : Type) : Type :=
| Done (a : A) (w : W)
| Panicked (msg : string) (w : W)
| Deadlock (w : W)
| Diverged (w : W).
Arguments Done {W A} a w.
Arguments Panicked {W A} msg w.
Arguments Deadlock {W A} w.
Arguments Diverged {W A} w.

Definition M (W A : Type) : Type := W → outcome W A.

#[global] Instance M_ret W : MRet (M W) := λ A a w, Done a w.
#[global] Instance M_bind W : MBind (M W) := λ A B k m w,
  match m w with
  | Done a w' => k a w'
  | Panicked s w' => Panicked s w'
  | Deadlock w' => Deadlock w'
  | Diverged w' => Diverged w'
  end.

(** A primitive step, written as a function of the state. *)
Definition prim {W A} (f : W → outcome W A) : M W A := f.
Definition panic {W A} (msg : string) : M W A := λ w, Panicked msg w.
Definition gets {W A} (f : W → A) : M W A := λ w, Done (f w) w.
Definition modify {W} (f : W → W) : M W unit := λ w, Done tt (f w).

(** [Option::unwrap] / [Option::expect] and [Result::unwrap]. *)
Definition unwrap_opt {W A} (msg : string) (o : option A) : M W A :=
  match o with Some a => mret a | None => panic msg end.
Definition unwrap_res {W A E} (msg : string) (r : result A E) : M W A :=
  match r with Ok a => mret a | Err _ => panic msg end.

(** A Rust [loop]/[while]: the body says whether to go round again ([inl]) or
    to leave the loop ([inr]); [fuel] bounds the number of rounds. *)
Fixpoint loop {W S R} (fuel : nat) (body : S → M W (S + R)) (s : S) : M W R :=
  match fuel with
  | O => λ w, Diverged w
  | S fuel' =>
      r ← body s;
      match r with
      | inl s' => loop fuel' body s'
      | inr a => mret a
      end
  end.

(** [for i in from..from + n]; [s] is the state that the body changes. *)
Fixpoint for_range {W S} (from n : nat) (body : nat → S → M W S) (s : S) : M W S :=
  match n with
  | O => mret s
  | Datatypes.S n' => s' ← body from s; for_range (Datatypes.S from) n' body s'
  end.

(** The steps of a computation that returned. *)
Lemma bind_done {W A B} (m : M W A) (k : A → M W B) w b w' :
  (m ≫= k) w = Done b w' → ∃ a w1, m w = Done a w1 ∧ k a w1 = Done b w'.
Proof. unfold mbind, M_bind. destruct (m w) as [a w1| | |]; naive_solver. Qed.

(** ** Weakest preconditions

    [wp total m Q E w]: from state [w] the computation [m] never deadlocks, a
    normal end satisfies [Q], a panic satisfies [E], and, when [total] is
    [true], [m] does not exhaust its loop bounds. *)
Definition wp {W A} (total : bool) (m : M W A) (Q : A → W → Prop)
    (E : string → W → Prop) (w : W) : Prop :=
  match m w with
  | Done a w' => Q a w'
  | Panicked s w' => E s w'
  | Deadlock _ => False
  | Diverged _ => total = false
  end.

Section wp.
Context {W : Type}.
Implicit Types (w : W) (t : bool) (E : string → W → Prop).

Lemma wp_ret {A} t (a : A) Q E w : wp t (mret a) Q E w ↔ Q a w.
Proof. done. Qed.

Lemma wp_bind {A B} t (m : M W A) (k : A → M W B) Q E w :
  wp t (m ≫= k) Q E w ↔ wp t m (λ a, wp t (k a) Q E) E w.
Proof. unfold wp, mbind, M_bind. by destruct (m w). Qed.

Lemma wp_panic {A} t msg (Q : A → W → Prop) E w : wp t (panic msg) Q E w ↔ E msg w.
Proof. done. Qed.

Lemma wp_gets {A} t (f : W → A) Q E w : wp t (gets f) Q E w ↔ Q (f w) w.
Proof. done. Qed.

Lemma wp_modify t (f : W → W) Q E w : wp t (modify f) Q E w ↔ Q tt (f w).
Proof. done. Qed.

Lemma wp_mono {A} t (m : M W A) (Q Q' : A → W → Prop) E E' w :
  wp t m Q E w → (∀ a w', Q a w' → Q' a w') → (∀ s w', E s w' → E' s w') →
  wp t m Q' E' w.
Proof. unfold wp. destruct (m w); naive_solver. Qed.

Lemma wp_conseq {A} t (m : M W A) (Q Q' : A → W → Prop) E w :
  wp t m Q E w → (∀ a w', Q a w' → Q' a w') → wp t m Q' E w.
Proof. intros H HQ. by eapply wp_mono. Qed.

Lemma wp_total_partial {A} t (m : M W A) (Q : A → W → Prop) E w :
  wp true m Q E w → wp t m Q E w.
Proof. unfold wp. by destruct (m w). Qed.

Lemma wp_done {A} t (m : M W A) (Q : A → W → Prop) E w a w' :
  wp t m Q E w → m w = Done a w' → Q a w'.
Proof. unfold wp. intros H Hm. by rewrite Hm in H. Qed.

(** A computation that is total and cannot panic does return. *)
Lemma wp_returns {A} (m : M W A) (Q : A → W → Prop) w :
  wp true m Q (λ _ _, False) w → ∃ a w', m w = Done a w' ∧ Q a w'.
Proof. unfold wp. destruct (m w); naive_solver. Qed.

(** What holds of every end holds of the end that is reached. *)
Lemma wp_and {A} t (m : M W A) (Q Q' : A → W → Prop) E w :
  wp t m Q E w → wp false m Q' (λ _ _, True) w →
  wp t m (λ a w', Q a w' ∧ Q' a w') E w.
Proof. unfold wp. destruct (m w); naive_solver. Qed.

Lemma wp_returned {A} t (m : M W A) (Q Q' : A → W → Prop) E w :
  wp t m Q E w → (∀ a w', m w = Done a w' → Q' a w') →
  wp t m (λ a w', Q a w' ∧ Q' a w') E w.
Proof. unfold wp. destruct (m w); naive_solver. Qed.

Lemma wp_loop_S {S R} t n (body : S → M W (S + R)) s Q E w :
  wp t (loop (Datatypes.S n) body s) Q E w ↔
  wp t (body s) (λ r, wp t (match r with
                            | inl s' => loop n body s'
                            | inr a => mret a end) Q E) E w.
Proof. simpl. by rewrite wp_bind. Qed.

(** The rule for loops: an invariant and, for total correctness, a measure that
    every further round decreases. *)
Lemma wp_loop {S R} t (I : S → W → Prop) (mu : S → W → nat)
    (body : S → M W (S + R)) Q E n s w :
  (∀ s w, I s w →
     wp t (body s) (λ r w', match r with
       | inl s' => I s' w' ∧ (t = true → mu s' w' < mu s w)
       | inr a => Q a w'
       end) E w) →
  I s w → (t = true → mu s w < n) → wp t (loop n body s) Q E w.
Proof.
  intros Hbody. revert s w. induction n as [|n IH]; intros s w HI Hmu.
  { unfold wp; simpl. destruct t; [|done]. specialize (Hmu eq_refl). lia. }
  apply wp_loop_S. eapply wp_mono; [by apply Hbody| |done].
  intros [s'|a] w' H; [|done]. destruct H as [HI' Hlt].
  apply IH; [done|]. intros ->. specialize (Hmu eq_refl). specialize (Hlt eq_refl). lia.
Qed.

(** The rule for a range: an invariant of the index, the state and the world. *)
Lemma wp_for_range {S} t (I : nat → S → W → Prop) (body : nat → S → M W S) E from n s w :
  (∀ i s w, from ≤ i < from + n → I i s w →
     wp t (body i s) (λ s' w', I (Datatypes.S i) s' w') E w) →
  I from s w → wp t (for_range from n body s) (λ s' w', I (from + n) s' w') E w.
Proof.
  revert from s w. induction n as [|n IH]; intros from s w Hbody HI; simpl.
  { by rewrite Nat.add_0_r. }
  apply wp_bind. eapply wp_mono; [apply Hbody; [lia|done]| |done]. cbv beta. intros s' w' HI'.
  rewrite Nat.add_succ_r. apply (IH (Datatypes.S from)); [|done]. intros. apply Hbody; [lia|done].
Qed.

(** A loop that returns has ended with a body that was started in a state the earlier rounds
    led to. *)
Lemma loop_done {S R} (I : S → W → Prop) (body : S → M W (S + R)) n s w r w' :
  (∀ s w s' w', I s w → body s w = Done (inl s') w' → I s' w') →
  I s w → loop n body s w = Done r w' → ∃ s1 w1, I s1 w1 ∧ body s1 w1 = Done (inr r) w'.
Proof.
  intros Hbody. revert s w. induction n as [|n IH]; intros s w HI; simpl; [done|].
  unfold mbind, M_bind. destruct (body s w) as [[s'|a] w1| | |] eqn:Hb; try done.
  - apply IH. by eapply Hbody.
  - intros [= <- <-]. eauto.
Qed.

(** More fuel does not change the outcome of a loop that ended. *)
Lemma loop_fuel_mono {S R} (body : S → M W (S + R)) n m s w :
  n ≤ m → (∀ w', loop n body s w ≠ Diverged w') →
  loop m body s w = loop n body s w.
Proof.
  revert m s w. induction n as [|n IH]; intros m s w Hle Hnd.
  { by destruct (Hnd w). }
  destruct m as [|m]; [lia|]. simpl in *. unfold mbind, M_bind in *.
  destruct (body s w) as [[s'|a] w'| | |] eqn:Hb; try done.
  apply IH; [lia|done].
Qed.

(** A body that always goes round again and keeps an invariant never ends. *)
Lemma loop_diverges {S R} (I : S → W → Prop) (body : S → M W (S + R)) n s w :
  (∀ s w, I s w → ∃ s' w', body s w = Done (inl s') w' ∧ I s' w') →
  I s w → ∃ w', loop n body s w = Diverged w'.
Proof.
  intros Hbody. revert s w. induction n as [|n IH]; intros s w HI; simpl; [eauto|].
  destruct (Hbody s w HI) as (s' & w' & Hb & HI').
  unfold mbind, M_bind. rewrite Hb. by apply IH.
Qed.
End wp.

Create HintDb hermit discriminated.
Create Rewrite HintDb wp.
#[export] Hint Rewrite @wp_ret @wp_bind @wp_panic @wp_gets @wp_modify : wp.

(** Symbolic execution of the straight-line part of a computation. *)
Ltac wp_run := repeat (autorewrite with wp; simpl).

(** Use the specification [lem] of the first call of a computation. *)
Tactic Notation "wp_call" uconstr(lem) :=
  wp_run; eapply wp_conseq; [by apply lem | cbv beta].
