(* ===== verification/Extern.v ===== *)
(** * Interfaces to the code the program calls and does not contain

    hermit-sys is written against three crates and the kernel: [smoltcp]
    (sockets, the Ethernet interface, DHCP, time), [async_task] (the heap cell of a
    spawned future) and the [sys_*] functions of the kernel.  Each is a type class
    of operations that the model takes as a parameter, and a second class with the
    documented behaviour that some theorems rely on.  Nothing here is a
    model of that code. *)

From S2P Require Import Prelude.

(** Thread identifiers ([type Tid = u32]) and the identity of a spawned task. *)
Definition Tid : Type := Z.
Definition TaskId : Type := nat.

(** The two kinds of [core::task::Waker] the program creates: the one made from
    the [Arc<ThreadNotify>] of a thread ([thread_notify.clone().into()]), and the
    one [async_task] hands to a spawned future when it polls it. *)
Inductive Waker : Type :=
| ThreadWaker (thread : Tid)
| TaskWaker (task : TaskId).

#[global] Instance Waker_eq_dec : EqDecision Waker.
Proof. solve_decision. Defined.

(** [smoltcp::Error]; the source names the first three. *)
Inductive SmolError : Type :=
| Illegal
| Unaddressable
| Exhausted
| OtherError (code : Z).

#[global] Instance SmolError_eq_dec : EqDecision SmolError.
Proof. solve_decision. Defined.

(** [smoltcp::socket::TcpState], the states of RFC 793. *)
Inductive TcpState : Type :=
| Closed | Listen | SynSent | SynReceived | Established | FinWait1 | FinWait2
| CloseWait | Closing | LastAck | TimeWait.

#[global] Instance TcpState_eq_dec : EqDecision TcpState.
Proof. solve_decision. Defined.

(** [smoltcp::dhcp::Dhcpv4Config], the public fields the source reads. *)
Record Dhcpv4Config (Cidr Addr : Type) : Type := mkDhcpv4Config {
  dhcp_address : option Cidr;
  dhcp_router : option Addr;
  dhcp_dns_servers : list (option Addr);
}.
Arguments mkDhcpv4Config {Cidr Addr}.
Arguments dhcp_address {Cidr Addr}.
Arguments dhcp_router {Cidr Addr}.
Arguments dhcp_dns_servers {Cidr Addr}.

(** The part of smoltcp the program uses.  An operation that may wake wakers
    registered with a socket returns the wakers it wakes, in order. *)
Class Smoltcp : Type := {
  (* smoltcp::time *)
  Instant : Type;
  Duration : Type;
  from_millis : Z → Duration;
  total_millis : Duration → Z;
  instant_add : Instant → Duration → Instant;
  instant_ge : Instant → Instant → bool;
  (* smoltcp::wire *)
  IpAddress : Type;
  IpCidr : Type;
  Ipv4Address : Type;
  Ipv4Cidr : Type;
  ip_from_str : list Z → option IpAddress;
  ipv4_new : Z → Z → Z → Z → Ipv4Address;
  ipaddr_v4 : Z → Z → Z → Z → IpAddress;
  ipaddr_from_v4 : Ipv4Address → IpAddress;
  ipv4_unspecified : Ipv4Address;
  ipv4_is_unspecified : Ipv4Address → bool;
  ipcidr_new : IpAddress → Z → IpCidr;
  ipcidr_Ipv4 : Ipv4Cidr → IpCidr;
  ipv4cidr_new : Ipv4Address → Z → Ipv4Cidr;
  cidr_address : Ipv4Cidr → Ipv4Address;
  cidr_eqb : Ipv4Cidr → Ipv4Cidr → bool;
  (* smoltcp::socket *)
  TcpSocket : Type;
  tcp_new : Z → Z → TcpSocket;
  tcp_state : TcpSocket → TcpState;
  tcp_is_active : TcpSocket → bool;
  tcp_can_recv : TcpSocket → bool;
  tcp_may_recv : TcpSocket → bool;
  tcp_can_send : TcpSocket → bool;
  tcp_send_queue : TcpSocket → Z;
  tcp_remote_endpoint : TcpSocket → IpAddress * Z;
  tcp_connect : TcpSocket → IpAddress * Z → Z →
                result unit SmolError * TcpSocket * list Waker;
  tcp_listen : TcpSocket → Z → result unit SmolError * TcpSocket * list Waker;
  tcp_close : TcpSocket → TcpSocket * list Waker;
  (* the result, the buffer afterwards, the socket afterwards, the wakers woken *)
  tcp_recv_slice : TcpSocket → list Z →
                   result nat SmolError * list Z * TcpSocket * list Waker;
  tcp_send_slice : TcpSocket → list Z → result nat SmolError * TcpSocket * list Waker;
  tcp_set_keep_alive : TcpSocket → option Duration → TcpSocket;
  tcp_register_send_waker : TcpSocket → Waker → TcpSocket * list Waker;
  tcp_register_recv_waker : TcpSocket → Waker → TcpSocket * list Waker;
  SocketHandle : Type;
  SocketSet : Type;
  sockets_new : SocketSet;
  sockets_add : SocketSet → TcpSocket → SocketHandle * SocketSet;
  (* [None] when the handle is not of the set: [SocketSet::get] panics *)
  sockets_get : SocketSet → SocketHandle → option TcpSocket;
  sockets_put : SocketSet → SocketHandle → TcpSocket → SocketSet;
  (* smoltcp::iface *)
  Routes : Type;
  routes_new : Routes;
  (* [None] when the table is full *)
  add_default_ipv4_route : Routes → Ipv4Address → option Routes;
  Iface : Type;
  (* MTU of the device, MAC address, IP addresses, routes *)
  (* [None] when the builder panics: it takes unicast addresses only *)
  iface_build : Z → list Z → list IpCidr → Routes → option Iface;
  iface_ip_addrs : Iface → list IpCidr;
  (* the addresses after [update_ip_addrs]; [None] when it panics, see above *)
  iface_set_ip_addrs : Iface → list IpCidr → option Iface;
  iface_routes : Iface → Routes;
  iface_set_routes : Iface → Routes → Iface;
  iface_poll : Iface → SocketSet → Instant →
               result bool SmolError * Iface * SocketSet * list Waker;
  iface_poll_delay : Iface → SocketSet → Instant → option Duration;
  (* smoltcp::dhcp *)
  Dhcpv4Client : Type;
  (* [Dhcpv4Client::new] adds a raw socket with the two buffers to the set *)
  dhcp_new : SocketSet → Z → Z → Instant → Dhcpv4Client * SocketSet;
  dhcp_poll : Dhcpv4Client → Iface → SocketSet → Instant →
              result (option (Dhcpv4Config Ipv4Cidr Ipv4Address)) SmolError *
              Dhcpv4Client * Iface * SocketSet * list Waker;
}.

(** Which addresses an interface takes: the builder and [update_ip_addrs] are documented to
    panic on an IP address that is not unicast (or unspecified) and the builder on a MAC
    address that is not unicast. *)
Class AddressChecks (smol : Smoltcp) : Type := {
  cidr_accepted : IpCidr → bool;
  mac_unicast : list Z → bool;
  iface_build_checks mtu mac addrs rts :
    is_Some (iface_build mtu mac addrs rts) ↔
    mac_unicast mac = true ∧ forallb cidr_accepted addrs = true;
  iface_set_ip_addrs_checks i addrs :
    is_Some (iface_set_ip_addrs i addrs) ↔ forallb cidr_accepted addrs = true;
  (* the addresses of an interface have been checked when they were set *)
  iface_ip_addrs_checked i : forallb cidr_accepted (iface_ip_addrs i) = true;
  unspecified_accepted :
    cidr_accepted (ipcidr_new (ipaddr_from_v4 ipv4_unspecified) 0) = true;
}.

(** The DHCP server of the network leases addresses that a host can have.  This is about the
    network, not about smoltcp: what the program does with another lease is a theorem of its
    own. *)
Class UnicastLeases (smol : Smoltcp) {checks : AddressChecks smol} : Prop := {
  dhcp_poll_unicast c i ss t config c' i' ss' ws cidr :
    dhcp_poll c i ss t = (Ok (Some config), c', i', ss', ws) →
    dhcp_address config = Some cidr →
    ipv4_is_unspecified (cidr_address cidr) = false →
    cidr_accepted (ipcidr_Ipv4 cidr) = true;
}.

(** Documented behaviour of the socket set, of the waker registrations and of the addresses. *)
Class SmoltcpLaws (smol : Smoltcp) : Type := {
  #[global] address_checks :: AddressChecks smol;
  #[global] unicast_leases :: UnicastLeases smol;
  #[global] SocketHandle_eq_dec :: EqDecision SocketHandle;
  sockets_get_put ss h s s' :
    sockets_get ss h = Some s → sockets_get (sockets_put ss h s') h = Some s';
  sockets_get_put_ne ss h h' s' :
    h ≠ h' → sockets_get (sockets_put ss h s') h' = sockets_get ss h';
  sockets_add_fresh ss s :
    sockets_get ss (sockets_add ss s).1 = None;
  sockets_get_add ss s :
    sockets_get (sockets_add ss s).2 (sockets_add ss s).1 = Some s;
  sockets_get_add_ne ss s h :
    h ≠ (sockets_add ss s).1 →
    sockets_get (sockets_add ss s).2 h = sockets_get ss h;
  (* the wakers registered for sending and for receiving *)
  send_wakers : TcpSocket → list Waker;
  recv_wakers : TcpSocket → list Waker;
  register_send_waker_in s w : w ∈ send_wakers (tcp_register_send_waker s w).1;
  register_recv_waker_in s w : w ∈ recv_wakers (tcp_register_recv_waker s w).1;
  (* data is copied to the front of the buffer, the rest of it is untouched *)
  recv_slice_spec s buf n buf' s' ws :
    tcp_recv_slice s buf = (Ok n, buf', s', ws) →
    n ≤ length buf ∧ length buf' = length buf ∧ drop n buf' = drop n buf;
  recv_slice_err s buf e buf' s' ws :
    tcp_recv_slice s buf = (Err e, buf', s', ws) → buf' = buf;
  send_slice_spec s buf n s' ws :
    tcp_send_slice s buf = (Ok n, s', ws) → n ≤ length buf;
  (* only [SocketSet::remove] takes a socket out of the set *)
  iface_poll_keeps i ss t r i' ss' ws h :
    iface_poll i ss t = (r, i', ss', ws) →
    is_Some (sockets_get ss h) → is_Some (sockets_get ss' h);
  dhcp_poll_keeps c i ss t r c' i' ss' ws h :
    dhcp_poll c i ss t = (r, c', i', ss', ws) →
    is_Some (sockets_get ss h) → is_Some (sockets_get ss' h);
  (* a table on a [BTreeMap] is never full *)
  default_route_fits r a : is_Some (add_default_ipv4_route r a);
}.

(** [EthernetInterface::poll] reports whether packets were processed or emitted: at any one
    instant [t] the frames in the receive queue of the device and the packets that are due for
    sending at [t] are finitely many, and a poll at [t] that does not answer [Ok(false)] has
    taken one off.  As time goes on more can fall due (a retransmission, a keep-alive): polls
    at two instants are not compared. *)
Class PollBacklog (smol : Smoltcp) (bound : nat) : Type := {
  backlog : Instant → Iface → SocketSet → nat;
  backlog_bound t i ss : backlog t i ss < bound;
  backlog_decreases t i ss r i' ss' ws :
    iface_poll i ss t = (r, i', ss', ws) → r ≠ Ok false →
    backlog t i' ss' < backlog t i ss;
}.

(** The state of the heap cell that [async_task] allocates for a spawned future. *)
Class AsyncTask : Type := {
  Header : Type;
  (* after [async_task::spawn]: the returned [Runnable] exists *)
  at_spawned : Header;
  (* [Waker::wake]; [true] when it calls the schedule function *)
  at_wake : Header → Header * bool;
  (* [Runnable::run] just before it polls the future *)
  at_run : Header → Header;
  (* [Runnable::run] after the poll ([true]: the future is ready); [true] when it
     calls the schedule function because the task was woken meanwhile *)
  at_ran : Header → bool → Header * bool;
}.

(** The life cycle that the documentation of [async_task] describes. *)
Inductive Phase : Type := Scheduled | Running | RunningWoken | Idle | Completed.

#[global] Instance Phase_eq_dec : EqDecision Phase.
Proof. solve_decision. Defined.

Definition phase_wake (p : Phase) : Phase * bool :=
  match p with
  | Idle => (Scheduled, true)
  | Running => (RunningWoken, false)
  | p => (p, false)
  end.

Definition phase_ran (p : Phase) (ready : bool) : Phase * bool :=
  if ready then (Completed, false)
  else match p with
       | RunningWoken => (Scheduled, true)
       | _ => (Idle, false)
       end.

Class AsyncTaskLaws (at_ : AsyncTask) : Type := {
  phase : Header → Phase;
  phase_spawned : phase at_spawned = Scheduled;
  phase_at_wake h :
    (phase (at_wake h).1, (at_wake h).2) = phase_wake (phase h);
  phase_at_run h : phase h = Scheduled → phase (at_run h) = Running;
  phase_at_ran h r : phase h = Running ∨ phase h = RunningWoken →
    (phase (at_ran h r).1, (at_ran h r).2) = phase_ran (phase h) r;
}.

(** The kernel, as far as its answers go: the clock, the time-stamp counter, the
    device parameters and the result of spawning a thread. *)
Class Kernel (smol : Smoltcp) : Type := {
  KState : Type;
  clock_now : KState → Instant * KState;
  timestamp_counter : KState → Z * KState;
  sys_get_mtu : KState → result Z unit;
  sys_get_mac_address : KState → result (list Z) unit;
  sys_spawn_result : KState → Z * Tid * KState;
}.
