(* ===== verification/WakerReg.v ===== *)
(** * [hermit-sys/src/net/waker.rs]: the waker slot of the network interface

    [WakerRegistration] keeps at most one waker.  The operations are generic in
    the state [W] and in the effect [wake_waker] of waking a waker, which the
    file State.v supplies. *)

From S2P Require Import Prelude Extern.

Record WakerRegistration : Type := mkWakerRegistration {
  wr_waker : option Waker;
}.

(** [Waker::will_wake]: two wakers of the program wake the same task exactly when
    they are the same waker. *)
Definition will_wake (w1 w2 : Waker) : bool := bool_decide (w1 = w2).

Definition wr_new : WakerRegistration := mkWakerRegistration None.

Section ops.
Context {W : Type} (wake_waker : Waker → M W unit).

(** The old waker is replaced first and woken afterwards. *)
Definition wr_replace_and_wake (r : WakerRegistration) (w : Waker) : M W WakerRegistration :=
  let old := wr_waker r in
  let r' := mkWakerRegistration (Some w) in
  match old with
  | Some old_waker => _ ← wake_waker old_waker; mret r'
  | None => mret r'
  end.

Definition wr_register (r : WakerRegistration) (w : Waker) : M W WakerRegistration :=
  match wr_waker r with
  | Some w2 => if will_wake w2 w then mret r else wr_replace_and_wake r w
  | None => wr_replace_and_wake r w
  end.

Definition wr_wake (r : WakerRegistration) : M W WakerRegistration :=
  let r' := mkWakerRegistration None in
  match wr_waker r with
  | Some w => _ ← wake_waker w; mret r'
  | None => mret r'
  end.
End ops.

Lemma will_wake_true w1 w2 : will_wake w1 w2 = true ↔ w1 = w2.
Proof. apply bool_decide_eq_true. Qed.

Lemma will_wake_refl w : will_wake w w = true.
Proof. by apply will_wake_true. Qed.

Section spec.
Context {W : Type} (wake_waker : Waker → M W unit).

(** What a registration promises: the wakers it wakes on the way and the slot
    it leaves, as a function of the slot it finds. *)
Definition register_wakes (r : WakerRegistration) (w : Waker) : list Waker :=
  match wr_waker r with
  | Some w2 => if decide (w2 = w) then [] else [w2]
  | None => []
  end.

Fixpoint wake_list (ws : list Waker) : M W unit :=
  match ws with
  | [] => mret tt
  | w :: ws => _ ← wake_waker w; wake_list ws
  end.

Lemma wr_register_unfold r w :
  wr_register wake_waker r w =
  match wr_waker r with
  | Some w2 => if decide (w2 = w) then mret r
               else _ ← wake_waker w2; mret (mkWakerRegistration (Some w))
  | None => mret (mkWakerRegistration (Some w))
  end.
Proof.
  unfold wr_register, wr_replace_and_wake, will_wake.
  destruct (wr_waker r) as [w2|]; [|done].
  case_bool_decide; by case_decide.
Qed.

(** C20: Registering leaves the new waker in the slot and wakes exactly the waker that it
    displaces: one that was registered and would wake another task, once, and nobody
    when the slot was empty or held a waker of the same task.  Waking empties the slot
    and wakes the registered waker once; waking again does nothing. *)
Theorem waker_slot_refines r w (st : W) :
  wr_register wake_waker r w st =
    (_ ← wake_list (register_wakes r w); mret (mkWakerRegistration (Some w))) st ∧
  wr_wake wake_waker r st =
    (_ ← wake_list (option_list (wr_waker r)); mret wr_new) st ∧
  wr_wake wake_waker wr_new st = Done wr_new st.
Proof.
  rewrite wr_register_unfold. unfold register_wakes, wr_wake, wr_new, mbind, M_bind, mret, M_ret.
  destruct r as [[w2|]]; simpl; [|done].
  case_decide as Heq; simpl; [subst|]; unfold mbind, M_bind, mret, M_ret; split_and!;
    try done; by destruct (wake_waker _ st).
Qed.
End spec.
