(* ===== verification/State.v ===== *)
(** * The shared state of the network stack and the primitive effects on it

    The statics of [hermit-sys/src/net] ([NIC], [LOCAL_ENDPOINT], [QUEUE], the
    thread-local [CURRENT_THREAD_NOTIFY]) as one record [World], the
    [Mutex] discipline, the system calls and the waking of a waker.

    Other threads and the kernel run between the accesses of a thread to shared
    state: the environment [env] may change the world at every [Point]. *)

From S2P Require Import Prelude Extern WakerReg.

(** The system calls without a result, as the kernel sees them. *)
Inductive KCall : Type :=
| sys_wakeup_task (tid : Tid)
| sys_set_network_polling_mode (value : bool)
| sys_block_current_task_with_timeout (timeout : Z)
| sys_block_current_task
| sys_yield
| sys_netwait
| sys_spawn (func : string) (arg : Z) (prio : Z) (selector : Z).

(** Where the environment of a thread can act: when it waits for the [NIC] lock, at
    an access to the queue or to an atomic flag, and in a system call. *)
Inductive Point : Type :=
| AtLock
| AtPop
| AtSwap
| AtStore
| AtCall (c : KCall).

Section State.
Context {smol : Smoltcp} {kern : Kernel smol} {at_ : AsyncTask}.

(** [struct NetworkInterface<HermitNet>]; [dhcp] is present exactly when the crate
    is built with the feature [dhcpv4]: the client and [prev_cidr]. *)
Record NetworkInterface : Type := mkNetworkInterface {
  iface : Iface;
  sockets : SocketSet;
  dhcp : option (Dhcpv4Client * Ipv4Cidr);
  waker : WakerRegistration;
}.

Inductive NetworkState : Type :=
| Missing
| InitializationFailed
| Initialized (nic : NetworkInterface).

(** [struct ThreadNotify]. *)
Record ThreadNotify : Type := mkThreadNotify {
  tn_thread : Tid;
  tn_unparked : bool;
}.

(** The futures the program spawns: [network_run()] is the only one. *)
Inductive TaskFuture : Type := NetworkRun.

Record Task : Type := mkTask {
  task_header : Header;
  task_future : TaskFuture;
}.

(** [Mutex<NetworkState>] of the standard library. *)
Record NicMutex : Type := mkNicMutex {
  locked : bool;
  poisoned : bool;
  data : NetworkState;
}.

Record World : Type := mkWorld {
  NIC : NicMutex;
  LOCAL_ENDPOINT : Z;
  QUEUE : list TaskId;
  tasks : gmap TaskId Task;
  notifies : gmap Tid ThreadNotify;
  kernel : KState;
  self : Tid;
  current : option TaskId;  (* the task whose [Runnable::run] is on the stack *)
  klog : list KCall;        (* the system calls the thread has made, in order *)
}.

Definition set_NIC (f : NicMutex → NicMutex) (w : World) : World :=
  mkWorld (f (NIC w)) (LOCAL_ENDPOINT w) (QUEUE w) (tasks w) (notifies w)
          (kernel w) (self w) (current w) (klog w).
Definition set_LOCAL_ENDPOINT (f : Z → Z) (w : World) : World :=
  mkWorld (NIC w) (f (LOCAL_ENDPOINT w)) (QUEUE w) (tasks w) (notifies w)
          (kernel w) (self w) (current w) (klog w).
Definition set_QUEUE (f : list TaskId → list TaskId) (w : World) : World :=
  mkWorld (NIC w) (LOCAL_ENDPOINT w) (f (QUEUE w)) (tasks w) (notifies w)
          (kernel w) (self w) (current w) (klog w).
Definition set_tasks (f : gmap TaskId Task → gmap TaskId Task) (w : World) : World :=
  mkWorld (NIC w) (LOCAL_ENDPOINT w) (QUEUE w) (f (tasks w)) (notifies w)
          (kernel w) (self w) (current w) (klog w).
Definition set_notifies (f : gmap Tid ThreadNotify → gmap Tid ThreadNotify)
    (w : World) : World :=
  mkWorld (NIC w) (LOCAL_ENDPOINT w) (QUEUE w) (tasks w) (f (notifies w))
          (kernel w) (self w) (current w) (klog w).
Definition set_kernel (f : KState → KState) (w : World) : World :=
  mkWorld (NIC w) (LOCAL_ENDPOINT w) (QUEUE w) (tasks w) (notifies w)
          (f (kernel w)) (self w) (current w) (klog w).
Definition set_klog (f : list KCall → list KCall) (w : World) : World :=
  mkWorld (NIC w) (LOCAL_ENDPOINT w) (QUEUE w) (tasks w) (notifies w)
          (kernel w) (self w) (current w) (f (klog w)).

Definition set_current (c : option TaskId) (w : World) : World :=
  mkWorld (NIC w) (LOCAL_ENDPOINT w) (QUEUE w) (tasks w) (notifies w)
          (kernel w) (self w) c (klog w).

Definition set_data (st : NetworkState) (w : World) : World :=
  set_NIC (λ m, mkNicMutex (locked m) (poisoned m) st) w.

(** The state at program start. *)
Definition boot (k : KState) (tid : Tid) : World :=
  mkWorld (mkNicMutex false false Missing) 0 [] ∅ ∅ k tid None [].
End State.

(** The other threads and the kernel. *)
Class Environment {smol : Smoltcp} (kern : Kernel smol) (at_ : AsyncTask) : Type :=
  env : Point → World → World.

Section Effects.
Context {smol : Smoltcp} {kern : Kernel smol} {at_ : AsyncTask}
        {envt : Environment kern at_}.

(** The environment acts.  Which thread runs, which task it is running and what it
    has asked the kernel are the thread's own.  A critical section of [NIC] is one
    step: while the thread holds the lock the other threads can reach neither the
    interface nor anything that is only touched under it, and the kernel alone
    goes on.  At the other points the others have given the lock back by the time
    the thread goes on (a thread that finds it taken waits in [lock]). *)
Definition interfere (p : Point) : M World unit :=
  modify (λ w, let w' := env p w in
    if locked (NIC w) then set_kernel (λ _, kernel w') w
    else mkWorld (mkNicMutex false (poisoned (NIC w')) (data (NIC w')))
                 (LOCAL_ENDPOINT w') (QUEUE w') (tasks w') (notifies w') (kernel w')
                 (self w) (current w) (klog w)).

(** A system call: recorded, then the kernel and the other threads act. *)
Definition syscall (c : KCall) : M World unit :=
  _ ← modify (set_klog (λ l, l ++ [c]));
  interfere (AtCall c).

(** [Instant::now()]. *)
Definition instant_now : M World Instant := λ w,
  let '(t, k) := clock_now (kernel w) in Done t (set_kernel (λ _, k) w).

(** Taking the lock. *)
Definition nic_acquire : M World unit := prim (λ w,
  if locked (NIC w) then Deadlock w
  else if poisoned (NIC w) then Panicked "PoisonError" w
  else Done tt (set_NIC (λ m, mkNicMutex true (poisoned m) (data m)) w)).

(** [NIC.lock().unwrap()]: waits while another thread holds the lock. *)
Definition nic_lock : M World unit :=
  _ ← interfere AtLock;
  nic_acquire.

(** Drop of the guard at the end of its scope; when the scope is left by a panic
    the mutex is poisoned. *)
Definition nic_unlock (panicking : bool) (w : World) : World :=
  set_NIC (λ m, mkNicMutex false (poisoned m || panicking) (data m)) w.

(** A scope that owns the guard of [NIC]. *)
Definition guarded {A} (body : M World A) : M World A := prim (λ w,
  match body w with
  | Done a w' => Done a (nic_unlock false w')
  | Panicked s w' => Panicked s (nic_unlock true w')
  | Deadlock w' => Deadlock w'
  | Diverged w' => Diverged w'
  end).

Definition with_guard {A} (body : M World A) : M World A :=
  _ ← nic_lock;
  guarded body.

(** What the other threads see of it: one step, taken once the lock is free. *)
Definition critical {A} (body : M World A) : M World A :=
  _ ← nic_acquire;
  guarded body.

(** ** ThreadNotify ([executor.rs]) *)

(** [ThreadNotify::new]: [sys_getpid] answers with the running thread. *)
Definition thread_notify_new (w : World) : ThreadNotify :=
  mkThreadNotify (self w) false.

(** [CURRENT_THREAD_NOTIFY.with]: the thread-local is created at its first use. *)
Definition current_thread_notify : M World Tid := λ w,
  match notifies w !! self w with
  | Some tn => Done (tn_thread tn) w
  | None => let tn := thread_notify_new w in
            Done (tn_thread tn) (set_notifies (insert (self w) tn) w)
  end.

(** [self.unparked.swap(value)]: atomic, the old value is returned.  A waker keeps
    its [Arc<ThreadNotify>] alive, so the flag of a waker always exists. *)
Definition unparked_swap (tid : Tid) (value : bool) : M World bool :=
  _ ← interfere AtSwap;
  prim (λ w,
    match notifies w !! tid with
    | Some tn => Done (tn_unparked tn)
                      (set_notifies (insert tid (mkThreadNotify (tn_thread tn) value)) w)
    | None => Done false w
    end).

Definition unparked_store (tid : Tid) (value : bool) : M World unit :=
  _ ← interfere AtStore;
  modify (set_notifies (alter (λ tn, mkThreadNotify (tn_thread tn) value) tid)).

(** [ThreadNotify::wake_by_ref]. *)
Definition thread_notify_wake_by_ref (tid : Tid) : M World unit :=
  unparked ← unparked_swap tid true;
  if negb unparked then syscall (sys_wakeup_task tid) else mret tt.

(** [ThreadNotify::wake]. *)
Definition thread_notify_wake (tid : Tid) : M World unit :=
  thread_notify_wake_by_ref tid.

(** ** Tasks *)

(** The closure [schedule] of [spawn]: [QUEUE.push(runnable).unwrap()]; the queue is
    unbounded and never closed, so the push does not fail. *)
Definition schedule (t : TaskId) : M World unit := modify (set_QUEUE (λ q, q ++ [t])).

Definition set_header (t : TaskId) (h : Header) (w : World) : World :=
  set_tasks (alter (λ tk, mkTask h (task_future tk)) t) w.

(** Waking the waker of a task: [async_task] decides whether to schedule it. *)
Definition task_wake (t : TaskId) : M World unit := λ w,
  match tasks w !! t with
  | Some tk =>
      let '(h, sched) := at_wake (task_header tk) in
      (_ ← modify (set_header t h); if sched then schedule t else mret tt) w
  | None => Done tt w
  end.

(** [Waker::wake]. *)
Definition wake_waker (wk : Waker) : M World unit :=
  match wk with
  | ThreadWaker tid => thread_notify_wake tid
  | TaskWaker t => task_wake t
  end.

Definition wake_wakers (ws : list Waker) : M World unit := wake_list wake_waker ws.
End Effects.
