(* ===== verification/Sim.v ===== *)
(** * A concrete instance of the interfaces

    Small executable stand-ins for the parameters of the model, on which
    the witnesses of the theorems are evaluated.  They satisfy the laws that the
    theorems assume; no theorem is about them. *)

From S2P Require Import Prelude Extern WakerReg State.

(** The value and the last state of a run that returns; evaluating them does not
    evaluate the proofs and dictionaries inside the state. *)
Definition value_of {W A} (o : outcome W A) : option A :=
  match o with Done a _ => Some a | _ => None end.
Definition final {W A} (w0 : W) (o : outcome W A) : W :=
  match o with Done _ w => w | _ => w0 end.

Lemma run_returns {W A} (w0 : W) (o : outcome W A) a :
  value_of o = Some a → o = Done a (final w0 o).
Proof. destruct o; simpl; congruence. Defined.

Record SimTcp : Type := mkSimTcp {
  st_state : TcpState;
  st_rx : list Z;
  st_tx : list Z;
  st_peer : list Z * Z;
  st_local : Z;
  st_send : list Waker;
  st_recv : list Waker;
}.

Definition sim_new : SimTcp := mkSimTcp Closed [] [] ([], 0%Z) 0%Z [] [].

Definition sim_set_state (st : TcpState) (s : SimTcp) : SimTcp :=
  mkSimTcp st (st_rx s) (st_tx s) (st_peer s) (st_local s) [] [].

Definition sim_recv (s : SimTcp) (buf : list Z)
    : result nat SmolError * list Z * SimTcp * list Waker :=
  let n := min (length (st_rx s)) (length buf) in
  (Ok n, take n (st_rx s) ++ drop n buf,
   mkSimTcp (st_state s) (drop n (st_rx s)) (st_tx s) (st_peer s) (st_local s) (st_send s) (st_recv s),
   []).

Definition sim_send (s : SimTcp) (buf : list Z) : result nat SmolError * SimTcp * list Waker :=
  let n := min (length buf) (4 - length (st_tx s)) in
  (Ok n, mkSimTcp (st_state s) (st_rx s) (st_tx s ++ take n buf) (st_peer s) (st_local s)
                  (st_send s) (st_recv s), []).

(** The peer answers a connection request, calls and sends a hundred zeros when someone listens,
    takes part in closing, and sends back what is in the send buffer, one
    round after the other. *)
Definition sim_step (s : SimTcp) : SimTcp * list Waker :=
  match st_state s with
  | Listen => (mkSimTcp Established (repeat 0%Z 100) (st_tx s) (st_peer s) (st_local s) [] [], st_send s ++ st_recv s)
  | SynSent => (sim_set_state Established s, st_send s ++ st_recv s)
  | FinWait1 => (sim_set_state FinWait2 s, st_send s ++ st_recv s)
  | _ => match st_tx s with
         | [] => (mkSimTcp (st_state s) (st_rx s) [] (st_peer s) (st_local s) [] (st_recv s), st_send s)
         | tx => (mkSimTcp (st_state s) (st_rx s ++ tx) [] (st_peer s) (st_local s) [] [],
                  st_send s ++ st_recv s)
         end
  end.

Record SimIface : Type := mkSimIface {
  si_addrs : list Z;
  si_routes : list Z;
  si_work : bool;  (* packets are waiting *)
}.

Definition sim_poll (i : SimIface) (ss : gmap nat SimTcp) (now : Z)
    : result bool SmolError * SimIface * gmap nat SimTcp * list Waker :=
  if si_work i
  then (Ok true, mkSimIface (si_addrs i) (si_routes i) false, fst ∘ sim_step <$> ss,
        concat ((λ x, (sim_step x.2).2) <$> map_to_list ss))
  else (Ok false, i, ss, []).

(** The addresses that an interface takes. *)
Definition sim_unicast (a : Z) : bool := (a <? 224)%Z.
Definition sim_mac_unicast (mac : list Z) : bool :=
  match mac with b :: _ => Z.even b | [] => false end.

(** The instance is generic in the [poll] of the interface. *)
Definition SimPoll : Type :=
  SimIface → gmap nat SimTcp → Z →
  result bool SmolError * SimIface * gmap nat SimTcp * list Waker.

Definition sim_with (sim_poll : SimPoll) : Smoltcp := {|
  Instant := Z;
  Duration := Z;
  from_millis d := d;
  total_millis d := d;
  instant_add := Z.add;
  instant_ge a b := (b <=? a)%Z;
  IpAddress := list Z;
  IpCidr := Z;
  Ipv4Address := Z;
  Ipv4Cidr := Z;
  ip_from_str bs := match bs with [] => None | _ => Some bs end;
  ipv4_new _ _ _ d := d;
  ipaddr_v4 a b c d := [a; b; c; d];
  ipaddr_from_v4 a := [a];
  ipv4_unspecified := 0%Z;
  ipv4_is_unspecified a := (a =? 0)%Z;
  ipcidr_new _ p := p;
  ipcidr_Ipv4 c := c;
  ipv4cidr_new a _ := a;
  cidr_address c := c;
  cidr_eqb := Z.eqb;
  TcpSocket := SimTcp;
  tcp_new _ _ := sim_new;
  tcp_state := st_state;
  tcp_is_active s := bool_decide (st_state s = Established);
  tcp_can_recv s := negb (length (st_rx s) =? 0)%nat;
  tcp_may_recv s := bool_decide (st_state s = Established) || negb (length (st_rx s) =? 0)%nat;
  tcp_can_send s := (length (st_tx s) <? 4)%nat;
  tcp_send_queue s := Z.of_nat (length (st_tx s));
  tcp_remote_endpoint := st_peer;
  tcp_connect s peer local :=
    if decide (st_state s = Closed)
    then (Ok tt, mkSimTcp SynSent (st_rx s) (st_tx s) peer local (st_send s) (st_recv s), [])
    else (Err Illegal, s, []);
  tcp_listen s port :=
    if decide (port = 0%Z) then (Err Unaddressable, s, []) else (Ok tt, sim_set_state Listen s, []);
  tcp_close s := (sim_set_state FinWait1 s, st_send s ++ st_recv s);
  tcp_recv_slice := sim_recv;
  tcp_send_slice := sim_send;
  tcp_set_keep_alive s _ := s;
  tcp_register_send_waker s w :=
    (mkSimTcp (st_state s) (st_rx s) (st_tx s) (st_peer s) (st_local s) [w] (st_recv s), []);
  tcp_register_recv_waker s w :=
    (mkSimTcp (st_state s) (st_rx s) (st_tx s) (st_peer s) (st_local s) (st_send s) [w], []);
  SocketHandle := nat;
  SocketSet := gmap nat SimTcp;
  sockets_new := ∅;
  sockets_add ss s := let h := fresh (dom ss) in (h, <[h := s]> ss);
  sockets_get ss h := ss !! h;
  sockets_put ss h s := <[h := s]> ss;
  Routes := list Z;
  routes_new := [];
  add_default_ipv4_route r a := Some [a];
  Iface := SimIface;
  iface_build mtu mac addrs rts :=
    if sim_mac_unicast mac && forallb sim_unicast addrs then Some (mkSimIface addrs rts true)
    else None;
  iface_ip_addrs i := List.filter sim_unicast (si_addrs i);
  iface_set_ip_addrs i l :=
    if forallb sim_unicast l then Some (mkSimIface l (si_routes i) (si_work i)) else None;
  iface_routes := si_routes;
  iface_set_routes i r := mkSimIface (si_addrs i) r (si_work i);
  iface_poll := sim_poll;
  iface_poll_delay i ss t := if si_work i then Some 50%Z else None;
  Dhcpv4Client := unit;
  dhcp_new ss _ _ _ := (tt, ss);
  dhcp_poll c i ss _ := (Ok (Some (mkDhcpv4Config (Some 7%Z) (Some 9%Z) [])), c, i, ss, []);
|}.

#[export] Instance sim : Smoltcp := sim_with sim_poll.

(** An interface whose [poll] always fails. *)
Definition sim_fail : SimPoll := λ i ss _, (Err Exhausted, i, ss, []).

Lemma if_is_Some {A} (b : bool) (x : A) : is_Some (if b then Some x else None) ↔ b = true.
Proof. destruct b; split; intros H; [done|by exists x|by destruct H|done]. Qed.

Definition sim_checks (f : SimPoll) : AddressChecks (sim_with f).
Proof.
  refine {| cidr_accepted := sim_unicast : @IpCidr (sim_with f) → bool;
            mac_unicast := sim_mac_unicast |}; simpl.
  - intros _ mac addrs rts. rewrite <- andb_true_iff.
    apply if_is_Some.
  - intros i addrs. apply if_is_Some.
  - intros i. apply forallb_forall. intros a Ha. exact (proj2 (proj1 (List.filter_In _ _ _) Ha)).
  - reflexivity.
Defined.

Lemma sim_leases (f : SimPoll) : UnicastLeases (checks := sim_checks f) (sim_with f).
Proof.
  split; simpl. intros c i ss t config c' i' ss' ws cidr Hpoll Ha _.
  injection Hpoll as <- _ _ _ _. simpl in Ha. by injection Ha as <-.
Qed.

Lemma sim_laws_with (f : SimPoll) :
  (∀ i ss t r i' ss' ws h, f i ss t = (r, i', ss', ws) →
     is_Some (ss !! h) → is_Some (ss' !! h)) → SmoltcpLaws (sim_with f).
Proof.
  intros Hkeep.
  refine {| address_checks := sim_checks f; unicast_leases := sim_leases f;
            SocketHandle_eq_dec := Nat.eq_dec : EqDecision (@SocketHandle (sim_with f));
            send_wakers := st_send : @TcpSocket (sim_with f) → _;
            recv_wakers := st_recv |}; simpl.
  - intros. apply lookup_insert_eq.
  - intros. by apply lookup_insert_ne.
  - intros ss s. apply not_elem_of_dom, is_fresh.
  - intros. apply lookup_insert_eq.
  - intros. by apply lookup_insert_ne.
  - intros. apply list_elem_of_here.
  - intros. apply list_elem_of_here.
  - intros s buf n buf' s' ws [= <- <- _ _].
    rewrite length_app, length_take, length_drop, drop_app_length'; [|rewrite length_take; lia].
    split_and!; [lia|lia|done].
  - intros s buf e buf' s' ws [=].
  - intros s buf n s' ws [= <- _ _]. lia.
  - exact Hkeep.
  - by intros; simplify_eq.
  - eauto.
Defined.

#[export] Instance sim_laws : SmoltcpLaws sim.
Proof.
  apply sim_laws_with.
  unfold sim_poll. intros i ss t r i' ss' ws h Heq Hh. destruct (si_work i); simplify_eq; [|done].
  rewrite lookup_fmap. by apply fmap_is_Some.
Defined.

#[export] Instance sim_fail_laws : SmoltcpLaws (sim_with sim_fail).
Proof. apply sim_laws_with. unfold sim_fail. by intros; simplify_eq. Defined.

#[export] Instance sim_backlog : PollBacklog sim 2.
Proof.
  refine {| backlog (_ : @Instant sim) (i : @Iface sim) (_ : @SocketSet sim) := if si_work i then 1 else 0 |}; simpl.
  - intros _ i _. destruct (si_work i); lia.
  - unfold sim_poll. intros t i ss r i' ss' ws Heq Hr. destruct (si_work i); simplify_eq. simpl. lia.
Defined.

#[export] Instance sim_task : AsyncTask := {|
  Header := Phase;
  at_spawned := Scheduled;
  at_wake := phase_wake;
  at_run _ := Running;
  at_ran := phase_ran;
|}.

#[export] Instance sim_task_laws : AsyncTaskLaws sim_task.
Proof.
  refine {| phase := (λ h, h) : @Header sim_task → Phase |}; simpl; [done| |done|].
  - intros h. by destruct (phase_wake h).
  - intros h r _. by destruct (phase_ran h r).
Defined.

(** The clock advances by a millisecond with every reading. *)
Definition sim_kernel_with (f : SimPoll) : Kernel (sim_with f) :=
  @Build_Kernel (sim_with f) Z
    (λ k, (k, (k + 1)%Z))
    (λ k, (k, (k + 1)%Z))
    (λ _, Ok 1500%Z)
    (λ _, Ok [2; 0; 0; 0; 0; 1]%Z)
    (λ k, (0%Z, 7%Z, k)).

#[export] Instance sim_kernel : Kernel sim := sim_kernel_with sim_poll.

(** No other thread runs. *)
#[export] Instance sim_quiet : Environment sim_kernel sim_task := λ _ w, w.

Definition sim_socket (st : TcpState) : SimTcp := mkSimTcp st [] [] ([10; 0; 5; 1]%Z, 80%Z) 0%Z [] [].

(** Packets arrive whenever the lock of the interface is free. *)
Definition sim_busy : Environment sim_kernel sim_task := λ p w,
  match p, data (NIC w) with
  | AtLock, Initialized nic =>
      set_data (Initialized (mkNetworkInterface (smol := sim)
        (mkSimIface (si_addrs (iface nic)) (si_routes (iface nic)) true)
        (sockets nic) (dhcp nic) (waker nic))) w
  | _, _ => w
  end.

Definition sim_nic (work : bool) (ss : gmap nat SimTcp) (wk : option Waker) : NetworkInterface :=
  mkNetworkInterface (smol := sim) (mkSimIface [] [] work) ss None (mkWakerRegistration wk).

(** A world with one network task, in the given phase. *)
Definition sim_world (nic : NetworkInterface) (p : Phase) (q : list TaskId) : World :=
  mkWorld (at_ := sim_task) (kern := sim_kernel) (mkNicMutex false false (Initialized nic))
          65535 q {[ 0%nat := mkTask (at_ := sim_task) p NetworkRun ]} ∅ 100%Z 5%Z None [].
