(* ===== verification/Invariant.v ===== *)
(** * The invariant of the network stack

    A spawned network task is never lost: it is in the queue exactly once, or it
    runs, or its waker sits in the slot of the interface, so that the next access
    to a socket schedules it again.  This file states it, with what other threads
    are assumed to respect, and proves it of the primitive effects. *)

From S2P Require Import Prelude Extern WakerReg State Sim.

Section Invariant.
Context {smol : Smoltcp} {kern : Kernel smol} {at_ : AsyncTask}
        {envt : Environment kern at_} {atl : AsyncTaskLaws at_}.
Implicit Types (w : World) (t : TaskId) (slot : option Waker).

Definition phase_of w t : option Phase := (λ tk, phase (task_header tk)) <$> tasks w !! t.

Definition running w t : Prop := phase_of w t = Some Running ∨ phase_of w t = Some RunningWoken.

Definition qcount (q : list TaskId) t : nat := count_occ Nat.eq_dec q t.

(** What the phase of a task says about the queue and the slot; [network_run] never completes. *)
Definition task_ok slot (q : list TaskId) t (p : Phase) : Prop :=
  match p with
  | Scheduled => qcount q t = 1
  | Idle => qcount q t = 0 ∧ slot = Some (TaskWaker t)
  | Running | RunningWoken => qcount q t = 0
  | Completed => False
  end.

Definition slot_inv slot w : Prop :=
  (∀ t p, phase_of w t = Some p → task_ok slot (QUEUE w) t p) ∧
  (∀ t, t ∈ QUEUE w → is_Some (tasks w !! t)).

Definition slot_of (st : NetworkState) : option Waker :=
  match st with Initialized nic => wr_waker (waker nic) | _ => None end.

Definition handles_ok (hs : SocketHandle → Prop) (nic : NetworkInterface) : Prop :=
  ∀ h, hs h → is_Some (sockets_get (sockets nic) h).

(** Some network task exists. *)
Definition alive w : Prop := ∃ t, is_Some (tasks w !! t).

(** Between two critical sections: the lock is free, the interface is up, the
    sockets of [hs] exist and no task is lost. *)
Definition net_inv (hs : SocketHandle → Prop) w : Prop :=
  locked (NIC w) = false ∧ poisoned (NIC w) = false ∧
  slot_inv (slot_of (data (NIC w))) w ∧
  ∃ nic, data (NIC w) = Initialized nic ∧ handles_ok hs nic.

(** The task is queued exactly once, or runs, or sleeps with its waker in the slot. *)
Definition task_kept w t : Prop :=
  (phase_of w t = Some Scheduled ∧ qcount (QUEUE w) t = 1) ∨ running w t ∨
  (phase_of w t = Some Idle ∧ slot_of (data (NIC w)) = Some (TaskWaker t)).

(** There is a network task, and none is lost. *)
Definition no_task_lost w : Prop := alive w ∧ ∀ t, is_Some (tasks w !! t) → task_kept w t.

(** Inside a critical section that works on [nic]. *)
Definition cs_inv (hs : SocketHandle → Prop) (nic : NetworkInterface) w : Prop :=
  locked (NIC w) = true ∧ poisoned (NIC w) = false ∧
  slot_inv (wr_waker (waker nic)) w ∧ handles_ok hs nic.

(** What the thread may rely on inside its own step: the mutex and its own task
    are left alone, and no task goes to sleep. *)
Definition frame w w' : Prop :=
  NIC w' = NIC w ∧ current w' = current w ∧
  (∀ t, phase_of w' t = Some Idle → phase_of w t = Some Idle) ∧
  (∀ t, running w t → running w' t) ∧
  (∀ t, is_Some (tasks w !! t) → is_Some (tasks w' !! t)).

(** Before the network is brought up: there is no interface, nothing is spawned and the lock
    is free. *)
Definition no_interface (st : NetworkState) : Prop :=
  match st with Initialized _ => False | _ => True end.

Definition boot_inv w : Prop :=
  locked (NIC w) = false ∧ poisoned (NIC w) = false ∧ no_interface (data (NIC w)) ∧
  tasks w = ∅ ∧ QUEUE w = [].

(** The other threads run the same program: they keep the invariant, and neither finish the
    task that this thread is running nor drop one; before the network is up they
    leave it alone. *)
Class EnvLaws : Prop := {
  env_boot p w : boot_inv w → boot_inv (env p w);
  env_inv p hs w : net_inv hs w → net_inv hs (env p w);
  env_running p hs w t :
    net_inv hs w → current w = Some t → running w t → running (env p w) t;
  env_tasks p hs w t :
    net_inv hs w → is_Some (tasks w !! t) → is_Some (tasks (env p w) !! t);
}.
End Invariant.

#[export] Hint Unfold frame : hermit.

Section Lemmas.
Context {smol : Smoltcp} {kern : Kernel smol} {at_ : AsyncTask}
        {envt : Environment kern at_} {atl : AsyncTaskLaws at_}.
Implicit Types (w : World) (t : TaskId) (slot : option Waker).

#[export] Instance frame_refl : Reflexive frame.
Proof. by intros w; split_and!. Qed.

#[export] Instance frame_trans : Transitive frame.
Proof. intros w1 w2 w3 (?&?&?&?&?) (?&?&?&?&?); split_and!; try congruence; eauto. Qed.

(** States that differ neither in the tasks nor in the queue. *)
Lemma slot_inv_ext slot w w' :
  tasks w' = tasks w → QUEUE w' = QUEUE w → slot_inv slot w → slot_inv slot w'.
Proof. unfold slot_inv, phase_of. by intros -> ->. Qed.

Lemma phase_of_set_header t t' h w :
  phase_of (set_header t h w) t' =
  if decide (t = t') then (λ _, phase h) <$> phase_of w t' else phase_of w t'.
Proof.
  unfold phase_of, set_header; simpl. rewrite lookup_alter.
  case_decide; simplify_eq; [|done]. by destruct (tasks w !! t').
Qed.

(** Giving a task a header moves it between the phases; the queue must agree. *)
Lemma slot_inv_step slot w t h q :
  slot_inv slot w →
  (∀ t', t' ≠ t → qcount q t' = qcount (QUEUE w) t') →
  (∀ t', t' ∈ q → t' = t ∨ t' ∈ QUEUE w) →
  is_Some (tasks w !! t) →
  task_ok slot q t (phase h) →
  slot_inv slot (set_QUEUE (λ _, q) (set_header t h w)).
Proof.
  intros [Hp Hq] Hne Hin Ht Hok. split.
  - intros t' p. change (phase_of (set_QUEUE _ ?x) t') with (phase_of x t').
    rewrite phase_of_set_header. case_decide as Heq.
    + subst t'. intros Hx. apply fmap_Some in Hx as (? & _ & ->). done.
    + intros Hx. specialize (Hp _ _ Hx). simpl.
      destruct p; simpl in *; [rewrite Hne; auto..|done].
  - intros t' Ht'. simpl in *. rewrite lookup_alter_is_Some.
    destruct (Hin t' Ht') as [->|]; auto.
Qed.

Lemma qcount_app q t t' : qcount (q ++ [t]) t' = qcount q t' + if decide (t = t') then 1 else 0.
Proof.
  unfold qcount. rewrite count_occ_app. simpl.
  destruct (Nat.eq_dec t t'); case_decide; done.
Qed.

Lemma qcount_cons_eq q t : qcount (t :: q) t = S (qcount q t).
Proof. unfold qcount. by rewrite count_occ_cons_eq. Qed.

Lemma qcount_cons_ne q t t' : t ≠ t' → qcount (t :: q) t' = qcount q t'.
Proof. intros. unfold qcount. by rewrite count_occ_cons_neq. Qed.

#[local] Opaque qcount.

Lemma qcount_notin q t : t ∉ q → qcount q t = 0.
Proof.
  intros Ht. rewrite list_elem_of_In in Ht.
  by apply (count_occ_not_In Nat.eq_dec).
Qed.

(** A new task is scheduled once. *)
Lemma slot_inv_spawn slot w t f :
  slot_inv slot w → t ∉ dom (tasks w) →
  slot_inv slot (set_QUEUE (λ q, q ++ [t]) (set_tasks (insert t (mkTask at_spawned f)) w)).
Proof.
  intros [Hp Hq] Ht. rewrite not_elem_of_dom in Ht.
  assert (Hcount : qcount (QUEUE w) t = 0).
  { apply qcount_notin. intros Hin. destruct (Hq _ Hin). congruence. }
  split.
  - intros t' p. unfold phase_of; simpl. rewrite lookup_insert. case_decide as Heq.
    + subst. simpl. intros [= <-]. rewrite phase_spawned. simpl.
      rewrite qcount_app, decide_True by done. lia.
    + intros Hx. specialize (Hp _ _ Hx).
      destruct p; simpl in *;
        [rewrite qcount_app, decide_False by done; rewrite Nat.add_0_r; done..|done].
  - simpl. intros t' Hin. rewrite lookup_insert. case_decide; [by eauto|].
    apply elem_of_app in Hin as [Hin|Hin]; [by apply Hq|].
    apply list_elem_of_singleton in Hin. congruence.
Qed.

(** Waking a task that is in the books keeps the books. *)
Lemma task_wake_ok slot w t :
  slot_inv slot w →
  ∃ w', task_wake t w = Done tt w' ∧ slot_inv slot w' ∧ frame w w' ∧
        phase_of w' t ≠ Some Idle.
Proof.
  intros Hinv. unfold task_wake.
  destruct (tasks w !! t) as [tk|] eqn:Htk.
  2:{ eexists; split_and!; try done. unfold phase_of. by rewrite Htk. }
  assert (Hph : phase_of w t = Some (phase (task_header tk))).
  { unfold phase_of. by rewrite Htk. }
  pose proof (proj1 Hinv _ _ Hph) as Hok.
  pose proof (phase_at_wake (task_header tk)) as Hw.
  destruct (at_wake (task_header tk)) as [h sched]; simpl in Hw.
  assert (Hnone : is_Some (tasks w !! t)) by eauto.
  set (q' := if sched then QUEUE w ++ [t] else QUEUE w).
  assert (Hok' : task_ok slot q' t (phase h)).
  { subst q'. destruct (phase (task_header tk)); injection Hw as Hh ->; rewrite Hh; simpl in *;
      rewrite ?qcount_app, ?decide_True by done; try done.
    destruct Hok; lia. }
  exists (set_QUEUE (λ _, q') (set_header t h w)). split_and!.
  - destruct sched; [done|]. unfold mbind, M_bind, modify, mret, M_ret. by destruct w.
  - apply slot_inv_step; try done.
    + intros t' Ht'. subst q'. destruct sched; [|done].
      rewrite qcount_app, decide_False by done. lia.
    + intros t'. subst q'. destruct sched; [|by right].
      rewrite elem_of_app, list_elem_of_singleton. tauto.
  - split_and!; try done.
    + intros t'. change (phase_of (set_QUEUE _ ?x) t') with (phase_of x t').
      rewrite phase_of_set_header. case_decide; [subst|done]. rewrite Hph. simpl.
      intros [= Hh]. rewrite Hh in Hw.
      destruct (phase (task_header tk)); simpl in Hw; congruence.
    + unfold running. intros t'. change (phase_of (set_QUEUE _ ?x) t') with (phase_of x t').
      rewrite phase_of_set_header. case_decide; [subst|done]. rewrite Hph. simpl.
      destruct (phase (task_header tk)); simpl in Hw; intros []; naive_solver congruence.
    + intros t' Ht'; simpl. by rewrite lookup_alter_is_Some.
  - change (phase_of (set_QUEUE _ ?x) t) with (phase_of x t).
    rewrite phase_of_set_header, decide_True, Hph by done. simpl.
    intros [= Hh]. rewrite Hh in Hw.
    destruct (phase (task_header tk)); simpl in Hw; congruence.
Qed.

(** ** Primitive effects inside a critical section *)

Lemma cs_kernel hs nic k w : cs_inv hs nic w → cs_inv hs nic (set_kernel k w).
Proof. done. Qed.

Lemma frame_kernel k w : frame w (set_kernel k w).
Proof. by split_and!. Qed.

Lemma frame_klog k w : frame w (set_klog k w).
Proof. by split_and!. Qed.

(** What a step inside a critical section on [nic] may do. *)
Definition cs_step (hs : SocketHandle → Prop) (nic : NetworkInterface) w w' : Prop :=
  cs_inv hs nic w' ∧ frame w w'.

Lemma wp_interfere_cs tot hs nic p w E :
  cs_inv hs nic w → wp tot (interfere p) (λ _, cs_step hs nic w) E w.
Proof.
  intros Hcs. unfold interfere. apply wp_modify. destruct Hcs as (Hl & Hcs). rewrite Hl.
  split; [by apply cs_kernel|apply frame_kernel].
Qed.

Lemma cs_step_trans hs nic w1 w2 w3 :
  frame w1 w2 → cs_step hs nic w2 w3 → cs_step hs nic w1 w3.
Proof. intros ? []; split; [done|by etrans]. Qed.

Lemma wp_syscall_cs tot hs nic c w E :
  cs_inv hs nic w → wp tot (syscall c) (λ _, cs_step hs nic w) E w.
Proof.
  intros Hcs. unfold syscall. wp_run.
  wp_call (wp_interfere_cs tot hs nic).
  intros _ w' Hs. eapply cs_step_trans; [apply frame_klog|done].
Qed.

Lemma cs_inv_slot hs nic w w' :
  cs_inv hs nic w → NIC w' = NIC w → slot_inv (wr_waker (waker nic)) w' → cs_inv hs nic w'.
Proof. intros (?&?&?&?) HN Hs. unfold cs_inv. by rewrite HN. Qed.

Lemma cs_step_notifies hs nic f w :
  cs_inv hs nic w → cs_step hs nic w (set_notifies f w).
Proof. done. Qed.

Lemma wp_unparked_swap_cs tot hs nic tid b w E :
  cs_inv hs nic w → wp tot (unparked_swap tid b) (λ _, cs_step hs nic w) E w.
Proof.
  intros Hcs. unfold unparked_swap. wp_run.
  wp_call (wp_interfere_cs tot hs nic).
  intros _ w' [Hcs' Hf]. unfold wp, prim.
  destruct (notifies w' !! tid); [|done].
  eapply cs_step_trans; [done|]. by apply cs_step_notifies.
Qed.

(** Waking a waker under the lock never fails and leaves its task awake. *)
Lemma wp_wake_waker_cs tot hs nic wk w E :
  cs_inv hs nic w →
  wp tot (wake_waker wk) (λ _ w', cs_step hs nic w w' ∧
    ∀ t, wk = TaskWaker t → phase_of w' t ≠ Some Idle) E w.
Proof.
  intros Hcs. destruct wk as [tid|t]; simpl.
  - unfold thread_notify_wake, thread_notify_wake_by_ref. wp_run.
    wp_call (wp_unparked_swap_cs tot hs nic).
    intros [] w' [Hcs' Hf]; simpl; wp_run; [done|].
    wp_call (wp_syscall_cs tot hs nic).
    intros _ w'' Hs. split; [by eapply cs_step_trans|done].
  - destruct (task_wake_ok (wr_waker (waker nic)) w t) as (w' & Hw & Hs & Hf & Hi).
    { apply Hcs. }
    unfold wp. rewrite Hw. split; [|by intros ? [= ->]].
    split; [|done]. eapply cs_inv_slot; [done|apply Hf|done].
Qed.

Lemma wp_wake_wakers_cs tot hs nic ws w E :
  cs_inv hs nic w → wp tot (wake_wakers ws) (λ _, cs_step hs nic w) E w.
Proof.
  revert w. unfold wake_wakers.
  induction ws as [|wk ws IH]; intros w Hcs; simpl; [by apply wp_ret|].
  wp_run. wp_call (wp_wake_waker_cs tot hs nic).
  intros _ w' [[Hcs' Hf] _]. wp_call IH.
  intros _ w''. by apply cs_step_trans.
Qed.

Lemma wp_instant_now_cs tot hs nic w E :
  cs_inv hs nic w → wp tot instant_now (λ _, cs_step hs nic w) E w.
Proof. intros Hcs. unfold wp, instant_now. by destruct (clock_now (kernel w)). Qed.

(** Once no task waits in the slot, the slot may be given to any waker. *)
Lemma slot_inv_retarget slot slot' w :
  slot_inv slot w → (∀ t, phase_of w t = Some Idle → slot' = Some (TaskWaker t)) →
  slot_inv slot' w.
Proof.
  intros [Hp Hq] Hi. split; [|done]. intros t p Ht. specialize (Hp t p Ht).
  destruct p; try done. destruct Hp. split; [done|by apply Hi].
Qed.

Lemma net_inv_no_task_lost hs w : net_inv hs w → alive w → no_task_lost w.
Proof.
  intros (_ & _ & Hs & _) Ha. split; [done|]. intros t [tk Htk].
  assert (Hph : phase_of w t = Some (phase (task_header tk))) by (unfold phase_of; by rewrite Htk).
  pose proof (proj1 Hs _ _ Hph) as Hok. unfold task_kept, running. rewrite Hph.
  destruct (phase (task_header tk)); simpl in Hok; naive_solver.
Qed.

(** A task that sleeps is the one in the slot. *)
Lemma idle_in_slot slot w t :
  slot_inv slot w → phase_of w t = Some Idle → slot = Some (TaskWaker t).
Proof. intros [Hp _] Hi. by destruct (Hp _ _ Hi). Qed.

Definition with_slot (o : option Waker) (nic : NetworkInterface) : NetworkInterface :=
  mkNetworkInterface (iface nic) (sockets nic) (dhcp nic) (mkWakerRegistration o).

Lemma cs_inv_retarget hs nic o w :
  cs_inv hs nic w → (∀ t, phase_of w t = Some Idle → o = Some (TaskWaker t)) →
  cs_inv hs (with_slot o nic) w.
Proof.
  intros (?&?&Hs&?) Hi. split_and!; try done. by eapply slot_inv_retarget.
Qed.

(** [wr_wake]: afterwards the slot is empty and no task sleeps. *)
Lemma wp_wr_wake_cs tot hs nic w E :
  cs_inv hs nic w →
  wp tot (wr_wake wake_waker (waker nic)) (λ r w', r = wr_new ∧
    cs_step hs (with_slot None nic) w w' ∧ ∀ t, phase_of w' t ≠ Some Idle) E w.
Proof.
  intros Hcs. unfold wr_wake.
  assert (Hend : ∀ w', cs_inv hs nic w' → frame w w' →
    (∀ t, wr_waker (waker nic) = Some (TaskWaker t) → phase_of w' t ≠ Some Idle) →
    cs_step hs (with_slot None nic) w w' ∧ ∀ t, phase_of w' t ≠ Some Idle).
  { intros w' Hcs' Hf Hslot.
    assert (Hno : ∀ t, phase_of w' t ≠ Some Idle).
    { intros t Hi. apply (Hslot t); [|done]. eapply idle_in_slot; [apply Hcs'|done]. }
    split; [|done]. split; [|done]. apply cs_inv_retarget; [done|].
    intros t Hi. by destruct (Hno t). }
  destruct (wr_waker (waker nic)) as [wk|] eqn:Hwk; wp_run.
  - wp_call (wp_wake_waker_cs tot hs nic).
    intros _ w' [[Hcs' Hf] Hi]. wp_run. split; [done|]. apply Hend; [done|done|].
    intros t [= ->]. by apply Hi.
  - split; [done|]. by apply Hend.
Qed.

(** [wr_register]: the slot holds the new waker, and a task that was in it is
    awake unless it is the one that registers. *)
Lemma wp_wr_register_cs tot hs nic wk w E :
  cs_inv hs nic w →
  wp tot (wr_register wake_waker (waker nic) wk) (λ r w',
    r = mkWakerRegistration (Some wk) ∧ cs_step hs (with_slot (Some wk) nic) w w') E w.
Proof.
  intros Hcs. rewrite wr_register_unfold.
  assert (Hend : ∀ w', cs_inv hs nic w' → frame w w' →
    (∀ t, wr_waker (waker nic) = Some (TaskWaker t) → wk ≠ TaskWaker t →
          phase_of w' t ≠ Some Idle) →
    cs_step hs (with_slot (Some wk) nic) w w').
  { intros w' Hcs' Hf Hslot. split; [|done]. apply cs_inv_retarget; [done|].
    intros t Hi. destruct (decide (wk = TaskWaker t)) as [->|Hne]; [done|].
    destruct (Hslot t); [|done..]. eapply idle_in_slot; [apply Hcs'|done]. }
  destruct (wr_waker (waker nic)) as [w2|] eqn:Hw2.
  - case_decide as Heq; wp_run.
    + subst. split; [destruct (waker nic); simpl in *; congruence|].
      apply Hend; [done|done|]. by intros t [= ->].
    + wp_call (wp_wake_waker_cs tot hs nic).
      intros _ w' [[Hcs' Hf] Hi]. wp_run. split; [done|].
      apply Hend; [done|done|]. intros t [= ->] _. by apply Hi.
  - wp_run. split; [done|]. by apply Hend.
Qed.

(** ** Entering and leaving a critical section *)

(** What a critical section does to the tasks that run or exist: nothing. *)
Definition gentle w w' : Prop :=
  current w' = current w ∧ (∀ t, running w t → running w' t) ∧
  (∀ t, is_Some (tasks w !! t) → is_Some (tasks w' !! t)).

#[export] Instance gentle_refl : Reflexive gentle.
Proof. by split. Qed.

#[export] Instance gentle_trans : Transitive gentle.
Proof. intros w1 w2 w3 (Hc1 & Hr1 & Ht1) (Hc2 & Hr2 & Ht2). split_and!; [congruence|auto..]. Qed.

Lemma frame_gentle w w' : frame w w' → gentle w w'.
Proof. by intros (?&?&?&?&?). Qed.

(** A whole critical section, from one state with the lock free to the next. *)
Definition section_step (hs : SocketHandle → Prop) w w' : Prop := net_inv hs w' ∧ gentle w w'.

Lemma net_inv_unlock hs nic w :
  cs_inv hs nic w → data (NIC w) = Initialized nic → net_inv hs (nic_unlock false w).
Proof.
  intros (Hl & Hp & Hs & Hh) Hd. unfold net_inv, nic_unlock; simpl.
  rewrite Hp, Hd; simpl. split_and!; try done. by exists nic.
Qed.

(** Storing the interface and dropping the guard. *)
Lemma net_inv_store hs nic w :
  cs_inv hs nic w → net_inv hs (nic_unlock false (set_data (Initialized nic) w)).
Proof. intros Hcs. by apply (net_inv_unlock hs nic). Qed.

(** The body finds the interface under the lock, works under [cs_inv] and stores its own. *)
Lemma wp_critical {A} tot hs (body : M World A) Q w :
  net_inv hs w →
  (∀ nic w1, data (NIC w) = Initialized nic → data (NIC w1) = Initialized nic →
     cs_inv hs nic w1 → gentle w w1 →
     wp tot body (λ a w', Q a (nic_unlock false w')) (λ _ _, False) w1) →
  wp tot (critical body) Q (λ _ _, False) w.
Proof.
  intros (Hl & Hp & Hs & nic & Hd & Hh) Hbody. unfold critical, nic_acquire. wp_run.
  unfold wp at 1, prim at 1. rewrite Hl, Hp.
  set (w1 := set_NIC _ w). rewrite Hd in Hs.
  specialize (Hbody nic w1 Hd Hd (conj eq_refl (conj Hp (conj Hs Hh)))
    (conj eq_refl (conj (λ t H, H) (λ t H, H)))).
  unfold wp, guarded, prim in *. by destruct (body w1).
Qed.

(** What a thread keeps across a step outside of any critical section. *)
Definition stable w w' : Prop :=
  current w' = current w ∧ (∀ t, current w = Some t → running w t → running w' t) ∧
  (∀ t, is_Some (tasks w !! t) → is_Some (tasks w' !! t)).

#[export] Instance stable_refl : Reflexive stable.
Proof. by split. Qed.

#[export] Instance stable_trans : Transitive stable.
Proof.
  intros w1 w2 w3 (Hc1 & Hr1 & Ht1) (Hc2 & Hr2 & Ht2). split_and!; [congruence| |auto].
  intros t Ht Hr. apply Hr2; [congruence|by apply Hr1].
Qed.

Lemma gentle_stable w w' : gentle w w' → stable w w'.
Proof. intros (? & ? & ?). split_and!; auto. Qed.

Lemma frame_stable w w' : frame w w' → stable w w'.
Proof. intros (?&?&?&?&?). split_and!; [done|auto..]. Qed.

Lemma stable_alive w w' : stable w w' → alive w → alive w'.
Proof. intros (_ & _ & Ht) [t H]. exists t. auto. Qed.

Context {envl : EnvLaws}.

Definition step_inv (hs : SocketHandle → Prop) w w' : Prop :=
  net_inv hs w' ∧ stable w w'.

Lemma step_inv_trans hs w1 w2 w3 : stable w1 w2 → step_inv hs w2 w3 → step_inv hs w1 w3.
Proof. intros ? []. split; [done|by etrans]. Qed.

Lemma wp_interfere tot hs p w E :
  net_inv hs w → wp tot (interfere p) (λ _, step_inv hs w) E w.
Proof.
  intros Hinv. pose proof (env_inv p hs w Hinv) as (?&?&?&?).
  unfold interfere. apply wp_modify. rewrite (proj1 Hinv). split.
  - by split_and!.
  - split; [done|]. split; intros t; [intros Hc Hr; by apply (env_running p hs w t)|].
    intros Ht. by apply (env_tasks p hs w t).
Qed.

Lemma wp_syscall tot hs c w E :
  net_inv hs w → wp tot (syscall c) (λ _, step_inv hs w) E w.
Proof. intros Hinv. unfold syscall. wp_run. by wp_call (wp_interfere tot hs). Qed.

Lemma wp_instant_now tot hs w E :
  net_inv hs w → wp tot instant_now (λ _, step_inv hs w) E w.
Proof. intros Hinv. unfold wp, instant_now. by destruct (clock_now (kernel w)). Qed.

Lemma wp_unparked_swap tot hs tid b w E :
  net_inv hs w → wp tot (unparked_swap tid b) (λ _, step_inv hs w) E w.
Proof.
  intros Hinv. unfold unparked_swap. wp_run.
  wp_call (wp_interfere tot hs). intros _ w' [Hinv' Hs]. unfold wp, prim.
  destruct (notifies w' !! tid); by eapply step_inv_trans.
Qed.

Lemma wp_unparked_store tot hs tid b w E :
  net_inv hs w → wp tot (unparked_store tid b) (λ _, step_inv hs w) E w.
Proof.
  intros Hinv. unfold unparked_store. wp_run.
  wp_call (wp_interfere tot hs). intros _ w' [Hinv' Hs]. wp_run.
  by eapply step_inv_trans.
Qed.

Lemma wp_current_thread_notify tot hs w E :
  net_inv hs w → wp tot current_thread_notify (λ _, step_inv hs w) E w.
Proof.
  intros Hinv. unfold wp, current_thread_notify. by destruct (notifies w !! self w).
Qed.

Lemma with_guard_unfold {A} (body : M World A) w :
  with_guard body w = (_ ← interfere AtLock; critical body) w.
Proof. unfold with_guard, nic_lock, critical, mbind, M_bind. by destruct (interfere AtLock w). Qed.

(** A guard scope: the other threads act until the lock is free; then the critical section is
    one step. *)
Lemma wp_section {A} tot hs (hs' : A → SocketHandle → Prop) (body : M World A)
    (P : A → World → Prop) w :
  net_inv hs w →
  (∀ w1, net_inv hs w1 → data (NIC w1) = data (NIC (env AtLock w)) →
     wp tot (critical body) (λ a w', section_step (hs' a) w1 w' ∧ P a w') (λ _ _, False) w1) →
  wp tot (with_guard body) (λ a w', step_inv (hs' a) w w' ∧ P a w') (λ _ _, False) w.
Proof.
  intros Hinv Hbody. unfold wp. rewrite with_guard_unfold. fold (wp tot (_ ← interfere AtLock; critical body)
    (λ a w', step_inv (hs' a) w w' ∧ P a w') (λ _ _, False) w).
  wp_run. pose proof (wp_interfere tot hs AtLock w (λ _ _, False) Hinv) as Hint.
  unfold interfere in *. apply wp_modify. unfold modify, wp in Hint.
  rewrite (proj1 Hinv) in *. destruct Hint as [Hinv1 Hst1].
  eapply wp_conseq; [by apply Hbody|cbv beta].
  intros a w' [[Hinv' Hc'] HP]. split; [|done]. split; [done|]. etrans; [exact Hst1|].
  by apply gentle_stable.
Qed.

Lemma wp_section0 {A} tot hs (body : M World A) w :
  net_inv hs w →
  (∀ w1, net_inv hs w1 → data (NIC w1) = data (NIC (env AtLock w)) →
     wp tot (critical body) (λ _, section_step hs w1) (λ _ _, False) w1) →
  wp tot (with_guard body) (λ _, step_inv hs w) (λ _ _, False) w.
Proof.
  intros Hinv Hbody. eapply wp_conseq; [apply (wp_section tot hs (λ _, hs) body (λ _ _, True))|].
  - done.
  - intros w1 H1 Hd1. eapply wp_conseq; [by apply Hbody|done].
  - by intros a w' [? _].
Qed.
End Lemmas.

#[global] Opaque qcount.
#[export] Hint Resolve cs_kernel frame_kernel frame_klog frame_stable frame_gentle net_inv_store : hermit.

(** ** The concrete instance keeps the rules *)

#[export] Instance sim_quiet_laws : EnvLaws (envt := sim_quiet).
Proof. split; by intros. Defined.

(** A world with the network task asleep in the slot. *)
Definition sim_ready (ss : gmap nat SimTcp) : World :=
  sim_world (sim_nic true ss (Some (TaskWaker 0))) Idle [].

Lemma sim_ready_inv ss : net_inv (at_ := sim_task) (λ h, is_Some (ss !! h)) (sim_ready ss).
Proof.
  split_and!; [done|done| |].
  - split.
    + intros t p Hp. unfold phase_of, sim_ready, sim_world in Hp; simpl in Hp.
      destruct (decide (t = 0)) as [->|Ht].
      * rewrite lookup_singleton_eq in Hp. simplify_eq/=. split; [|done].
        apply qcount_notin, not_elem_of_nil.
      * by rewrite lookup_singleton_ne in Hp.
    + intros t Hin. by apply elem_of_nil in Hin.
  - eexists; split; [done|]. by intros h.
Defined.
