(* ===== verification/Nic.v ===== *)
(** * [hermit-sys/src/net/mod.rs], lines 38-169: the network interface

    [NetworkState], the methods of [NetworkInterface] and the DHCP
    configuration.  A method with [&mut self] takes the interface and gives it
    back; its caller holds the guard of [NIC] and stores it.  After a panic the
    mutex is poisoned, so the partial update of a panicking method is never seen. *)

From S2P Require Import Prelude Extern WakerReg State Sim Invariant.

Section Nic.
Context {smol : Smoltcp} {kern : Kernel smol} {at_ : AsyncTask}
        {envt : Environment kern at_}.
(** The bound on the rounds of the loops of the program. *)
Variable fuel : nat.

Definition set_iface (i : Iface) (n : NetworkInterface) : NetworkInterface :=
  mkNetworkInterface i (sockets n) (dhcp n) (waker n).
Definition set_sockets (ss : SocketSet) (n : NetworkInterface) : NetworkInterface :=
  mkNetworkInterface (iface n) ss (dhcp n) (waker n).
Definition set_dhcp (d : option (Dhcpv4Client * Ipv4Cidr)) (n : NetworkInterface)
    : NetworkInterface :=
  mkNetworkInterface (iface n) (sockets n) d (waker n).
Definition set_waker (r : WakerRegistration) (n : NetworkInterface) : NetworkInterface :=
  mkNetworkInterface (iface n) (sockets n) (dhcp n) r.

(** [NetworkState::as_nic_mut]. *)
Definition as_nic_mut (st : NetworkState) : result NetworkInterface string :=
  match st with
  | Initialized nic => Ok nic
  | _ => Err "Network is not initialized!"
  end.

(** [NetworkInterface::create_handle]. *)
Definition create_handle (n : NetworkInterface)
    : result SocketHandle unit * NetworkInterface :=
  let tcp_socket := tcp_new 65535 65535 in
  let '(tcp_handle, ss) := sockets_add (sockets n) tcp_socket in
  (Ok tcp_handle, set_sockets ss n).

(** [NetworkInterface::wake]. *)
Definition nic_wake (n : NetworkInterface) : M World NetworkInterface :=
  r ← wr_wake wake_waker (waker n);
  mret (set_waker r n).

(** One round of [while self.iface.poll(..).unwrap_or(true) {}]. *)
Definition poll_round (timestamp : Instant) (n : NetworkInterface)
    : M World (NetworkInterface + NetworkInterface) :=
  let '(r, i, ss, woken) := iface_poll (iface n) (sockets n) timestamp in
  _ ← wake_wakers woken;
  let n' := set_sockets ss (set_iface i n) in
  let again := match r with Ok b => b | Err _ => true end in
  mret (if again then inl n' else inr n').

(** [addrs.iter_mut().next().map(|addr| *addr = cidr)]. *)
Definition set_first {A} (a : A) (l : list A) : list A :=
  match l with [] => [] | _ :: l' => a :: l' end.

(** The panic of [update_ip_addrs] on an address that is not unicast. *)
Definition NOT_UNICAST : string := "IP address is not unicast".

(** The closure applied to a new DHCP configuration; its [debug!] lines have no
    effect on the state. *)
Definition apply_dhcp_config (config : Dhcpv4Config Ipv4Cidr Ipv4Address)
    (client : Dhcpv4Client) (prev_cidr : Ipv4Cidr) (n : NetworkInterface)
    : M World NetworkInterface :=
  n1 ← match dhcp_address config with
    | Some cidr =>
        if negb (cidr_eqb cidr prev_cidr) &&
           negb (ipv4_is_unspecified (cidr_address cidr))
        then
          i ← unwrap_opt NOT_UNICAST (iface_set_ip_addrs (iface n)
                (set_first (ipcidr_Ipv4 cidr) (iface_ip_addrs (iface n))));
          mret (set_dhcp (Some (client, cidr)) (set_iface i n))
        else mret n
    | None => mret n
    end;
  match dhcp_router config with
  | Some router =>
      rts ← unwrap_opt "add_default_ipv4_route"
              (add_default_ipv4_route (iface_routes (iface n1)) router);
      mret (set_iface (iface_set_routes (iface n1) rts) n1)
  | None => mret n1
  end.

(** The part of [poll_common] under [cfg(feature = "dhcpv4")]. *)
Definition poll_dhcp (timestamp : Instant) (n : NetworkInterface)
    : M World NetworkInterface :=
  match dhcp n with
  | None => mret n
  | Some (client, prev_cidr) =>
      let '(r, client', i, ss, woken) :=
        dhcp_poll client (iface n) (sockets n) timestamp in
      _ ← wake_wakers woken;
      let n' := set_dhcp (Some (client', prev_cidr)) (set_sockets ss (set_iface i n)) in
      match r with
      | Ok (Some config) => apply_dhcp_config config client' prev_cidr n'
      | Ok None | Err _ => mret n'
      end
  end.

(** [NetworkInterface::poll_common]. *)
Definition poll_common (timestamp : Instant) (n : NetworkInterface)
    : M World NetworkInterface :=
  n' ← loop fuel (poll_round timestamp) n;
  poll_dhcp timestamp n'.

(** [NetworkInterface::poll]; [cx] is the waker of the context. *)
Definition nic_poll (cx : Waker) (timestamp : Instant) (n : NetworkInterface)
    : M World NetworkInterface :=
  r ← wr_register wake_waker (waker n) cx;
  poll_common timestamp (set_waker r n).

(** [NetworkInterface::poll_delay]. *)
Definition poll_delay (timestamp : Instant) (n : NetworkInterface) : option Duration :=
  iface_poll_delay (iface n) (sockets n) timestamp.

(** [network_delay]: [NIC.lock().unwrap().as_nic_mut().ok()?.poll_delay(timestamp)]. *)
Definition network_delay_body (timestamp : Instant) : M World (option Duration) :=
  st ← gets (λ w, data (NIC w));
  mret (match as_nic_mut st with
        | Ok nic => poll_delay timestamp nic
        | Err _ => None
        end).

Definition network_delay (timestamp : Instant) : M World (option Duration) :=
  with_guard (network_delay_body timestamp).
End Nic.

(** ** The interface under the lock *)

Section Spec.
Context {smol : Smoltcp} {kern : Kernel smol} {at_ : AsyncTask}
        {envt : Environment kern at_} {atl : AsyncTaskLaws at_} {laws : SmoltcpLaws smol}.
Variable fuel : nat.
(** [tot] says whether the loops are shown to end, given a finite backlog at each instant. *)
Variable tot : bool.

Definition backlog_ok : Prop := tot = true → inhabited (PollBacklog smol fuel).

Context (Hbl : backlog_ok).

(** The interface was polled until there was nothing left to do. *)
Definition drained (ts : Instant) (n : NetworkInterface) : Prop :=
  ∃ i ss ws, iface_poll i ss ts = (Ok false, iface n, sockets n, ws).

Lemma handles_ok_iface hs n i ss ts r i' ss' ws :
  iface n = i → sockets n = ss → iface_poll i ss ts = (r, i', ss', ws) →
  handles_ok hs n → handles_ok hs (set_sockets ss' (set_iface i' n)).
Proof. intros <- <- Hp Hh h Hin. eapply iface_poll_keeps; [done|by apply Hh]. Qed.

(** Same slot, other contents. *)
Lemma cs_step_contents hs n n' w w' :
  waker n' = waker n → handles_ok hs n' → cs_step hs n w w' → cs_step hs n' w w'.
Proof. intros Hw Hh [(?&?&?&?) ?]. split; [|done]. unfold cs_inv. by rewrite Hw. Qed.

Lemma wp_poll_round hs ts n w E :
  cs_inv hs n w →
  wp tot (poll_round ts n) (λ r w', ∃ n',
    waker n' = waker n ∧ dhcp n' = dhcp n ∧ cs_step hs n' w w' ∧
    (∃ res ws, iface_poll (iface n) (sockets n) ts = (res, iface n', sockets n', ws) ∧
      (r = inl n' ∧ res ≠ Ok false ∨ r = inr n' ∧ res = Ok false))) E w.
Proof.
  intros Hcs. unfold poll_round.
  destruct (iface_poll (iface n) (sockets n) ts) as [[[res i] ss] ws] eqn:Hpoll. wp_run.
  wp_call (wp_wake_wakers_cs tot hs n). intros _ w' Hs. wp_run.
  exists (set_sockets ss (set_iface i n)). split_and!; try done.
  - apply (cs_step_contents hs n); [done| |done].
    eapply handles_ok_iface; [done..|]. apply Hcs.
  - exists res, ws. split; [done|]. destruct res as [[]|]; naive_solver.
Qed.

Lemma wp_poll_loop hs ts n w E :
  cs_inv hs n w →
  wp tot (loop fuel (poll_round ts) n) (λ n' w',
    waker n' = waker n ∧ dhcp n' = dhcp n ∧ drained ts n' ∧ cs_step hs n' w w') E w.
Proof.
  intros Hcs.
  assert (∃ mu : Iface → SocketSet → nat, tot = true →
    (∀ i ss, mu i ss < fuel) ∧
    (∀ i ss r i' ss' ws, iface_poll i ss ts = (r, i', ss', ws) → r ≠ Ok false →
       mu i' ss' < mu i ss)) as [mu Hmu].
  { destruct (decide (tot = true)) as [Ht|Ht]; [|by exists (λ _ _, 0)].
    destruct (Hbl Ht) as [bl]. exists (backlog ts). intros _. split.
    - intros i ss. apply backlog_bound.
    - intros i ss r i' ss' ws. apply backlog_decreases. }
  apply (wp_loop tot (λ n1 w1, waker n1 = waker n ∧ dhcp n1 = dhcp n ∧ cs_step hs n1 w w1)
           (λ n1 _, mu (iface n1) (sockets n1))).
  - intros n1 w1 (Hw & Hd & Hcs1 & Hf1). wp_call (wp_poll_round hs).
    intros r w2 (n2 & Hw2 & Hd2 & Hcs2 & res & ws & Hpoll & [[-> Hres]|[-> ->]]).
    + split_and!; try congruence.
      * by eapply cs_step_trans.
      * intros Ht. by eapply (proj2 (Hmu Ht)).
    + split_and!; try congruence; [by repeat eexists|by eapply cs_step_trans].
  - done.
  - intros Ht. apply (Hmu Ht).
Qed.

(** ** DHCP *)

Lemma set_first_checked (a : IpCidr) (l : list IpCidr) :
  cidr_accepted a = true → forallb cidr_accepted l = true →
  forallb cidr_accepted (set_first a l) = true.
Proof. intros Ha. destruct l; simpl; [done|]. by intros [_ ->]%andb_true_iff; rewrite Ha. Qed.

(** An accepted address in the first place is no reason to panic. *)
Lemma set_ip_addrs_fits i cidr :
  cidr_accepted cidr = true →
  is_Some (iface_set_ip_addrs i (set_first cidr (iface_ip_addrs i))).
Proof.
  intros Hc. apply iface_set_ip_addrs_checks, set_first_checked; [done|].
  apply iface_ip_addrs_checked.
Qed.

(** The address of a configuration is one an interface takes. *)
Definition config_unicast (config : Dhcpv4Config Ipv4Cidr Ipv4Address) : Prop :=
  ∀ cidr, dhcp_address config = Some cidr → ipv4_is_unspecified (cidr_address cidr) = false →
    cidr_accepted (ipcidr_Ipv4 cidr) = true.

(** The part of the interface that a configuration does not touch. *)
Lemma wp_apply_dhcp_config config client prev n w :
  config_unicast config →
  wp tot (apply_dhcp_config config client prev n) (λ n' w',
    waker n' = waker n ∧ sockets n' = sockets n ∧ w' = w) (λ _ _, False) w.
Proof.
  intros Hcfg. unfold apply_dhcp_config.
  apply wp_bind, (wp_conseq _ _ (λ n1 w1, waker n1 = waker n ∧ sockets n1 = sockets n ∧ w1 = w)).
  - destruct (dhcp_address config) as [cidr|] eqn:Ha; [|by wp_run].
    destruct (negb _) ; simpl; [|by wp_run].
    destruct (ipv4_is_unspecified _) eqn:Hu; simpl; [by wp_run|].
    destruct (set_ip_addrs_fits (iface n) (ipcidr_Ipv4 cidr)) as [i ->]; [by apply Hcfg|].
    by wp_run.
  - intros n1 w1 (Hw & Hs & ->). destruct (dhcp_router config) as [router|]; wp_run; [|done].
    destruct (default_route_fits (iface_routes (iface n1)) router) as [rts ->].
    by wp_run.
Qed.

Lemma wp_poll_dhcp hs ts n w :
  cs_inv hs n w →
  wp tot (poll_dhcp ts n) (λ n' w',
    waker n' = waker n ∧ cs_step hs n' w w' ∧ (dhcp n = None → n' = n))
    (λ _ _, False) w.
Proof.
  intros Hcs. unfold poll_dhcp. destruct (dhcp n) as [[client prev]|]; [|by wp_run].
  destruct (dhcp_poll client (iface n) (sockets n) ts) as [[[[r client'] i] ss] ws] eqn:Hpoll.
  wp_run. wp_call (wp_wake_wakers_cs tot hs n). intros _ w' Hs.
  set (n' := set_dhcp _ _).
  assert (Hs' : cs_step hs n' w w').
  { apply (cs_step_contents hs n); [done| |done].
    intros h Hin. eapply dhcp_poll_keeps; [done|by apply Hcs]. }
  destruct r as [[config|]|e]; [|by wp_run..]. pose proof (proj1 Hs') as Hcs'.
  eapply wp_conseq; [apply wp_apply_dhcp_config|cbv beta].
  { intros cidr Ha Hu. by eapply dhcp_poll_unicast. }
  intros n'' w'' (Hw & Hss & ->). split_and!; [done| |done].
  apply (cs_step_contents hs n'); [done| |done].
  intros h Hin. rewrite Hss. by apply Hs'.
Qed.

Lemma wp_poll_common hs ts n w :
  cs_inv hs n w →
  wp tot (poll_common fuel ts n) (λ n' w',
    waker n' = waker n ∧ cs_step hs n' w w' ∧ (dhcp n = None → drained ts n'))
    (λ _ _, False) w.
Proof.
  intros Hcs. unfold poll_common. wp_run.
  wp_call (wp_poll_loop hs). intros n1 w1 (Hw & Hd & Hdr & Hcs1 & Hf1).
  wp_call (wp_poll_dhcp hs). intros n2 w2 (Hw2 & Hs2 & Hn).
  split_and!; [congruence|by eapply cs_step_trans|].
  intros Hnone. by rewrite Hn by congruence.
Qed.

(** A poll leaves the waker of its context in the slot. *)
Lemma wp_nic_poll hs cx ts n w :
  cs_inv hs n w →
  wp tot (nic_poll fuel cx ts n) (λ n' w',
    wr_waker (waker n') = Some cx ∧ cs_step hs n' w w') (λ _ _, False) w.
Proof.
  intros Hcs. unfold nic_poll. wp_run.
  wp_call (wp_wr_register_cs tot hs n). intros r w1 [-> [Hcs1 Hf1]].
  wp_call (wp_poll_common hs). intros n2 w2 (Hw2 & Hs2 & _).
  split; [by rewrite Hw2|by eapply cs_step_trans].
Qed.

(** [NetworkInterface::wake]: nobody sleeps afterwards. *)
Lemma wp_nic_wake hs n w E :
  cs_inv hs n w →
  wp tot (nic_wake n) (λ n' w',
    n' = set_waker wr_new n ∧ cs_step hs n' w w' ∧
    ∀ t, phase_of w' t ≠ Some Idle) E w.
Proof.
  intros Hcs. unfold nic_wake. wp_run.
  wp_call (wp_wr_wake_cs tot hs n). intros r w' (-> & Hs & Hi). by wp_run.
Qed.

Lemma network_delay_section hs ts w :
  net_inv hs w →
  wp tot (critical (network_delay_body ts)) (λ _, section_step hs w) (λ _ _, False) w.
Proof.
  intros Hinv. apply (wp_critical tot hs); [done|]. intros nic w1 _ Hd Hcs Hst.
  unfold network_delay_body. wp_run. split; [by eapply net_inv_unlock|done].
Qed.

Context {envl : EnvLaws}.

Lemma wp_network_delay hs ts w :
  net_inv hs w →
  wp tot (network_delay ts) (λ _, step_inv hs w) (λ _ _, False) w.
Proof. intros Hinv. apply wp_section0; [done|]. intros. by apply network_delay_section. Qed.
End Spec.

(** ** Properties *)

Section Properties.
Context {smol : Smoltcp} {kern : Kernel smol} {at_ : AsyncTask}
        {envt : Environment kern at_} {atl : AsyncTaskLaws at_} {laws : SmoltcpLaws smol}.

(** ** The loop of [poll_common] *)

(** The polls of the interface at one timestamp up to and with the first that answers
    [Ok(false)]: how many there are, the wakers they wake in order, and the interface and the
    sockets they leave. *)
Inductive polled (ts : Instant) : nat → Iface → SocketSet → list Waker → Iface → SocketSet → Prop :=
| polled_last i ss ws i' ss' :
    iface_poll i ss ts = (Ok false, i', ss', ws) → polled ts 1 i ss ws i' ss'
| polled_more k i ss r i1 ss1 ws ws' i' ss' :
    iface_poll i ss ts = (r, i1, ss1, ws) → r ≠ Ok false →
    polled ts k i1 ss1 ws' i' ss' → polled ts (S k) i ss (ws ++ ws') i' ss'.

Lemma wake_wakers_app ws ws' w w1 :
  wake_wakers ws w = Done tt w1 → wake_wakers (ws ++ ws') w = wake_wakers ws' w1.
Proof.
  unfold wake_wakers. revert w. induction ws as [|wk ws IH]; intros w; simpl; [by intros [= ->]|].
  intros ([] & w2 & Hw & H)%bind_done. unfold mbind, M_bind. rewrite Hw. by apply IH.
Qed.

(** A round always comes to its end, with the wakers of the poll awake. *)
Lemma poll_round_done hs ts n w r i ss ws :
  cs_inv hs n w → iface_poll (iface n) (sockets n) ts = (r, i, ss, ws) →
  let n1 := set_sockets ss (set_iface i n) in
  ∃ w1, wake_wakers ws w = Done tt w1 ∧ cs_step hs n1 w w1 ∧
    poll_round ts n w = Done (if decide (r = Ok false) then inr n1 else inl n1) w1.
Proof.
  intros Hcs Hpoll n1.
  destruct (wp_returns _ _ _ (wp_wake_wakers_cs true hs n ws w _ Hcs)) as ([] & w1 & Hw & Hs).
  exists w1. split_and!; [done| |].
  - apply (cs_step_contents hs n); [done| |done].
    eapply handles_ok_iface; [done..|]. apply Hcs.
  - unfold poll_round. rewrite Hpoll. unfold mbind, M_bind. rewrite Hw.
    case_decide as Hr; [by subst|]. by destruct r as [[]|].
Qed.

(** Bounded by [fuel], the loop makes these polls, or runs out of its bound. *)
Lemma poll_loop_polled hs ts k i ss ws i' ss' :
  polled ts k i ss ws i' ss' → ∀ fuel n w,
  iface n = i → sockets n = ss → cs_inv hs n w →
  let n' := set_sockets ss' (set_iface i' n) in
  ∃ w1, wake_wakers ws w = Done tt w1 ∧ cs_step hs n' w w1 ∧
    if k <=? fuel then loop fuel (poll_round ts) n w = Done n' w1
    else ∃ w', loop fuel (poll_round ts) n w = Diverged w'.
Proof.
  induction 1 as [i ss ws i' ss' Hpoll|k i ss r i1 ss1 ws ws' i' ss' Hpoll Hr _ IH];
    intros fuel n w <- <- Hcs n'.
  - destruct (poll_round_done hs ts n w _ _ _ _ Hcs Hpoll) as (w1 & Hw & Hs & Hround).
    exists w1. split_and!; [done|done|].
    destruct fuel as [|fuel]; simpl; [by eexists|]. unfold mbind, M_bind. by rewrite Hround.
  - destruct (poll_round_done hs ts n w _ _ _ _ Hcs Hpoll) as (w1 & Hw & [Hcs1 Hf1] & Hround).
    rewrite decide_False in Hround by done.
    destruct (IH (pred fuel) (set_sockets ss1 (set_iface i1 n)) w1 eq_refl eq_refl Hcs1)
      as (w2 & Hw2 & Hs2 & Hloop).
    exists w2. split_and!; [by rewrite (wake_wakers_app _ _ _ _ Hw)|by eapply cs_step_trans|].
    destruct fuel as [|fuel]; simpl; [by eexists|]. unfold mbind, M_bind. rewrite Hround.
    destruct k; [by destruct fuel|exact Hloop].
Qed.

(** Polls that never answer [Ok(false)] go on for ever. *)
Lemma poll_loop_never hs ts fuel n w :
  (∀ k ws i' ss', ¬ polled ts k (iface n) (sockets n) ws i' ss') → cs_inv hs n w →
  ∃ w', loop fuel (poll_round ts) n w = Diverged w' ∧ locked (NIC w') = true.
Proof.
  revert n w. induction fuel as [|fuel IH]; intros n w Hnever Hcs; simpl.
  { exists w. split; [done|apply Hcs]. }
  destruct (iface_poll (iface n) (sockets n) ts) as [[[r i] ss] ws] eqn:Hpoll.
  destruct (poll_round_done hs ts n w _ _ _ _ Hcs Hpoll) as (w1 & Hw & [Hcs1 _] & Hround).
  unfold mbind, M_bind. rewrite Hround. case_decide as Hr.
  { subst. destruct (Hnever 1 ws i ss). by constructor. }
  apply IH; [|exact Hcs1]. intros k ws' i' ss' Hk.
  destruct (Hnever (S k) (ws ++ ws') i' ss'). by eapply polled_more.
Qed.

(** C19: [poll_common] polls the interface at its one timestamp until a poll answers [Ok(false)]
    and not once more, an error being a reason to go on: it wakes the wakers those polls
    hand out, in their order, and then serves the DHCP client with the interface and the
    sockets they leave.  It comes back exactly when one of the polls answers [Ok(false)]; if
    none does, it goes round with the lock held, whatever the bound on the rounds.  Up to
    there the waker slot is not touched, no network task is lost and the lock stays held. *)
Theorem poll_common_drains fuel hs ts n w :
  cs_inv hs n w →
  (∀ k ws i' ss', polled ts k (iface n) (sockets n) ws i' ss' →
     let n' := set_sockets ss' (set_iface i' n) in
     ∃ w1, wake_wakers ws w = Done tt w1 ∧ cs_step hs n' w w1 ∧
       if k <=? fuel then poll_common fuel ts n w = poll_dhcp ts n' w1
       else ∃ w', poll_common fuel ts n w = Diverged w') ∧
  ((∀ k ws i' ss', ¬ polled ts k (iface n) (sockets n) ws i' ss') →
     ∃ w', poll_common fuel ts n w = Diverged w' ∧ locked (NIC w') = true).
Proof.
  intros Hcs. unfold poll_common, mbind, M_bind. split.
  - intros k ws i' ss' Hk.
    destruct (poll_loop_polled hs ts _ _ _ _ _ _ Hk fuel n w eq_refl eq_refl Hcs)
      as (w1 & Hw & Hs & Hloop).
    exists w1. split_and!; [done|done|]. destruct (k <=? fuel); [by rewrite Hloop|].
    destruct Hloop as [w' ->]. by eexists.
  - intros Hnever. destruct (poll_loop_never hs ts fuel n w Hnever Hcs) as (w' & -> & Hl).
    by exists w'.
Qed.

(** [unwrap_or(true)] makes an error of [poll] a reason to go on: an interface
    that keeps failing is polled for ever, with the lock held, whatever the bound
    on the rounds. *)
Theorem poll_common_spins (P : Iface → SocketSet → Prop) fuel hs ts n w :
  (∀ i ss, P i ss → ∃ e i' ss' ws, iface_poll i ss ts = (Err e, i', ss', ws) ∧ P i' ss') →
  P (iface n) (sockets n) → cs_inv hs n w →
  ∃ w', poll_common fuel ts n w = Diverged w' ∧ locked (NIC w') = true.
Proof.
  intros Herr HP Hcs.
  assert (Hno : ∀ k i ss ws i' ss', polled ts k i ss ws i' ss' → ¬ P i ss).
  { induction 1 as [i ss ws i' ss' Hpoll|k i ss r i1 ss1 ws ws' i' ss' Hpoll Hr _ IH];
      intros HP1; destruct (Herr _ _ HP1) as (e & i2 & ss2 & ws2 & Hpoll2 & HP2);
      rewrite Hpoll in Hpoll2; [done|]. apply IH. by simplify_eq. }
  destruct (poll_loop_never hs ts fuel n w) as (w' & Hw' & Hl); [|done|].
  - intros k ws i' ss' Hk. by eapply Hno.
  - exists w'. split; [|done]. unfold poll_common, mbind, M_bind. by rewrite Hw'.
Qed.

(** ** The lease of a DHCP client *)

(** The addresses of an interface are what was set last, and addresses compare by their bits. *)
Class AddressLaws (smol : Smoltcp) : Prop := {
  set_routes_keeps i rts : iface_ip_addrs (iface_set_routes i rts) = iface_ip_addrs i;
  set_ip_addrs_sets i l i' : iface_set_ip_addrs i l = Some i' → iface_ip_addrs i' = l;
  cidr_eqb_true a b : cidr_eqb a b = true → a = b;
}.








End Properties.

(** ** Witnesses *)

Definition sim_locked (nic : NetworkInterface) : World :=
  mkWorld (at_ := sim_task) (kern := sim_kernel) (mkNicMutex true false (Initialized nic))
          0 [] ∅ ∅ 100%Z 5%Z None [].

Lemma sim_locked_inv nic hs : handles_ok hs nic → cs_inv hs nic (sim_locked nic).
Proof.
  intros Hh. split_and!; [done|done| |done]. split.
  - intros t p Hp. unfold phase_of in Hp; simpl in Hp. by rewrite lookup_empty in Hp.
  - intros t Hin. by apply elem_of_nil in Hin.
Defined.

(** A connection request is answered in the first of two polls. *)
Definition sim_waiting : SimTcp := mkSimTcp SynSent [] [] ([10; 0; 5; 1]%Z, 80%Z) 0%Z [ThreadWaker 5%Z] [].

Lemma poll_common_drains_witness :
  let n := sim_nic true {[0 := sim_waiting]} None in
  let n' := sim_nic false {[0 := sim_socket Established]} None in
  cs_inv (λ h, h = 0) n (sim_locked n) ∧
  ∃ w1, wake_wakers (envt := sim_quiet) [ThreadWaker 5%Z] (sim_locked n) = Done tt w1 ∧
    cs_step (λ h, h = 0) n' (sim_locked n) w1 ∧
    poll_common (envt := sim_quiet) 10 7%Z n (sim_locked n) = Done n' w1.
Proof.
  intros n n'.
  assert (Hcs : cs_inv (λ h, h = 0) n (sim_locked n)).
  { apply sim_locked_inv. intros h ->. by eexists. }
  split; [exact Hcs|].
  refine (proj1 (poll_common_drains (envt := sim_quiet) 10 (λ h, h = 0) 7%Z n (sim_locked n) Hcs)
            2 [ThreadWaker 5%Z] (iface n') (sockets n') _).
  apply (polled_more (smol := sim) 7%Z 1 _ _ (Ok true) (iface n') (sockets n') [ThreadWaker 5%Z] []);
    [reflexivity|done|].
  by apply polled_last.
Defined.

Lemma poll_common_spins_witness :
  let smol := sim_with sim_fail in let kern := sim_kernel_with sim_fail in
  let n := mkNetworkInterface (smol := smol) (mkSimIface [] [] true) ∅ None wr_new in
  let w := mkWorld (smol := smol) (kern := kern) (at_ := sim_task)
             (mkNicMutex true false (Initialized n)) 0 [] ∅ ∅ 100%Z 5%Z None [] in
  cs_inv (λ _, False) n w ∧
  ∃ w', poll_common (smol := smol) (kern := kern) (envt := λ _ w, w) 1000 7%Z n w = Diverged w' ∧
        locked (NIC w') = true.
Proof.
  intros smol kern n w.
  assert (Hcs : cs_inv (λ _, False) n w).
  { split_and!; [done|done| |by intros ? []]. split.
    - intros t p Hp. unfold phase_of in Hp; simpl in Hp. by rewrite lookup_empty in Hp.
    - intros t Hin. by apply elem_of_nil in Hin. }
  split; [exact Hcs|].
  apply (poll_common_spins (smol := smol) (kern := kern) (laws := sim_fail_laws)
           (λ _ _, True) 1000 (λ _, False) 7%Z n w); [|done|exact Hcs].
  intros i ss _. exists Exhausted, i, ss, []. done.
Defined.


Definition sim_dhcp_config : Dhcpv4Config (@Ipv4Cidr sim) (@Ipv4Address sim) :=
  mkDhcpv4Config (Some 7%Z) (Some 9%Z) [].

#[export] Instance sim_address_laws : AddressLaws sim.
Proof.
  split; [done| |intros a b H; by apply Z.eqb_eq].
  simpl. intros i l i'. destruct (forallb sim_unicast l) eqn:Hl; [|done]. intros [= <-]. simpl.
  clear i. induction l as [|a l IH]; [done|]. simpl in *.
  apply andb_true_iff in Hl as [-> Hl]. by rewrite IH.
Qed.

