(* ===== verification/Executor.v ===== *)
(** * [hermit-sys/src/net/executor.rs]: the executor and the blocking calls *)

From S2P Require Import Prelude Extern WakerReg State Sim Invariant Nic.

Section Executor.
Context {smol : Smoltcp} {kern : Kernel smol} {at_ : AsyncTask}
        {envt : Environment kern at_}.
Variable fuel : nat.

(** A future as the compiler makes it of an [async] block: a state and a poll
    function that is given the waker of the context. *)
Record Fut (T : Type) : Type := mkFut {
  fut_state : Type;
  fut_init : fut_state;
  fut_poll : fut_state → Waker → M World (fut_state * poll T);
}.

(** The closure of [network_run] in [net/mod.rs]: the guard lives for the whole
    match. *)
Definition network_run_body (cx : Waker) : M World (poll unit) :=
  st ← gets (λ w, data (NIC w));
  match st with
  | Initialized nic =>
      now ← instant_now;
      nic' ← nic_poll fuel cx now nic;
      _ ← modify (set_data (Initialized nic'));
      mret Pending
  | _ => mret (Ready tt)
  end.

Definition network_run_poll (cx : Waker) : M World (poll unit) :=
  with_guard (network_run_body cx).

Definition task_poll (f : TaskFuture) (cx : Waker) : M World (poll unit) :=
  match f with NetworkRun => network_run_poll cx end.

(** [Runnable::run]: [async_task] polls the future with the waker of the task, and
    schedules the task again when it was woken meanwhile. *)
Definition task_start (t : TaskId) (tk : Task) (w : World) : World :=
  set_current (Some t) (set_header t (at_run (task_header tk)) w).

Definition task_return (t : TaskId) (p : poll unit) : M World unit :=
  let ready := match p with Ready _ => true | Pending => false end in
  otk ← gets (λ w, tasks w !! t);
  _ ← modify (set_current None);
  match otk with
  | None => mret tt
  | Some tk =>
      let '(h, sched) := at_ran (task_header tk) ready in
      _ ← modify (set_header t h);
      if sched then schedule t else mret tt
  end.

Definition runnable_run (t : TaskId) : M World unit :=
  otk ← gets (λ w, tasks w !! t);
  match otk with
  | None => mret tt
  | Some tk =>
      _ ← modify (task_start t tk);
      p ← task_poll (task_future tk) (TaskWaker t);
      task_return t p
  end.

(** [QUEUE.pop()]. *)
Definition queue_pop : M World (option TaskId) :=
  _ ← interfere AtPop;
  prim (λ w, match QUEUE w with
             | [] => Done None w
             | t :: q => Done (Some t) (set_QUEUE (λ _, q) w)
             end).

(** [run_executor]. *)
Definition run_executor : M World unit :=
  loop fuel (λ _ : unit,
    o ← queue_pop;
    match o with
    | Some runnable => _ ← runnable_run runnable; mret (inl tt)
    | None => mret (inr tt)
    end) tt.

(** [spawn(future).detach()]: the cell is allocated, its [Runnable] scheduled; the
    detached task runs on its own. *)
Definition spawn (f : TaskFuture) : M World TaskId :=
  t ← gets (λ w, fresh (dom (tasks w)));
  _ ← modify (set_tasks (insert t (mkTask at_spawned f)));
  _ ← schedule t;
  mret t.

(** The deadline test of both blocking calls. *)
Definition timed_out (start : Instant) (timeout : option Duration) : M World bool :=
  match timeout with
  | Some duration =>
      now ← instant_now;
      mret (instant_ge now (instant_add start duration))
  | None => mret false
  end.

(** The body of the [loop] of [poll_on]. *)
Definition poll_on_round {T} (f : Fut T) (tid : Tid) (start : Instant)
    (timeout : option Duration) (st : fut_state T f)
    : M World (fut_state T f + result T unit) :=
  '(st', p) ← fut_poll T f st (ThreadWaker tid);
  match p with
  | Ready t =>
      _ ← syscall (sys_set_network_polling_mode false);
      mret (inr (Ok t))
  | Pending =>
      late ← timed_out start timeout;
      if late : bool then
        _ ← syscall (sys_set_network_polling_mode false);
        mret (inr (Err tt))
      else
        _ ← run_executor;
        mret (inl st')
  end.

(** [poll_on]. *)
Definition poll_on {T} (f : Fut T) (timeout : option Duration) : M World (result T unit) :=
  tid ← current_thread_notify;
  _ ← syscall (sys_set_network_polling_mode true);
  start ← instant_now;
  loop fuel (poll_on_round f tid start timeout) (fut_init T f).

(** [delay.is_none() || delay.unwrap() > 100], in milliseconds. *)
Definition should_block (delay : option Z) : bool :=
  match delay with None => true | Some d => (100 <? d)%Z end.

(** The wait of [block_on] after a pending poll. *)
Definition idle (tid : Tid) (delay : option Z) : M World unit :=
  if should_block delay then
    unparked ← unparked_swap tid false;
    if negb unparked then
      _ ← syscall (match delay with
                   | Some d => sys_block_current_task_with_timeout d
                   | None => sys_block_current_task
                   end);
      _ ← syscall sys_yield;
      _ ← unparked_store tid false;
      run_executor
    else mret tt
  else run_executor.

(** The body of the [loop] of [block_on]. *)
Definition block_on_round {T} (f : Fut T) (tid : Tid) (start : Instant)
    (timeout : option Duration) (st : fut_state T f)
    : M World (fut_state T f + result T unit) :=
  '(st', p) ← fut_poll T f st (ThreadWaker tid);
  match p with
  | Ready t => mret (inr (Ok t))
  | Pending =>
      late ← timed_out start timeout;
      if late : bool then mret (inr (Err tt))
      else
        now ← instant_now;
        delay ← network_delay now;
        _ ← idle tid (option_map total_millis delay);
        mret (inl st')
  end.

(** [block_on]. *)
Definition block_on {T} (f : Fut T) (timeout : option Duration)
    : M World (result T unit) :=
  tid ← current_thread_notify;
  start ← instant_now;
  loop fuel (block_on_round f tid start timeout) (fut_init T f).
End Executor.

Arguments mkFut {_ _ _ T}.
Arguments fut_state {_ _ _ T}.
Arguments fut_init {_ _ _ T}.
Arguments fut_poll {_ _ _ T}.

(** ** Specifications *)

Section Spec.
Context {smol : Smoltcp} {kern : Kernel smol} {at_ : AsyncTask}
        {envt : Environment kern at_} {atl : AsyncTaskLaws at_}
        {laws : SmoltcpLaws smol} {envl : EnvLaws}.
Variable fuel : nat.
Implicit Types (w : World) (t : TaskId) (hs : SocketHandle → Prop).

(** A thread that is not running a task, between two of its steps; there is a network task. *)
Definition thread_inv hs w : Prop := net_inv hs w ∧ current w = None ∧ alive w.

Lemma thread_inv_step hs w w' :
  current w = None ∧ alive w → step_inv hs w w' → thread_inv hs w'.
Proof.
  intros [Hc Ha] [Hinv Hs]. split_and!; [done|destruct Hs as [? _]; congruence|].
  by eapply stable_alive.
Qed.

Lemma wp_thread_inv {A} tot (m : M World A) hs w E :
  thread_inv hs w → wp tot m (λ _, step_inv hs w) E w →
  wp tot m (λ _, thread_inv hs) E w.
Proof.
  intros [_ Hc] Hm. eapply wp_conseq; [exact Hm|cbv beta]. intros _ w'. by apply thread_inv_step.
Qed.

(** The network task is pending after a poll, and its waker is in the slot. *)
Lemma network_run_section tot hs cx w :
  backlog_ok fuel tot → net_inv hs w →
  wp tot (critical (network_run_body fuel cx)) (λ p w', section_step hs w w' ∧
    p = Pending ∧ slot_of (data (NIC w')) = Some cx) (λ _ _, False) w.
Proof.
  intros Hbl Hinv. apply (wp_critical tot hs); [done|]. intros nic w1 _ Hd Hcs Hst.
  unfold network_run_body. wp_run. rewrite Hd. wp_run.
  wp_call (wp_instant_now_cs tot hs nic). intros ts w2 [Hcs2 Hf2].
  wp_call (wp_nic_poll fuel tot Hbl hs). intros n' w3 (Hslot & Hcs3 & Hf3). wp_run.
  split; [|done]. split; [by apply net_inv_store|].
  etrans; [exact Hst|]. etrans; [by apply frame_gentle|].
  etrans; [by apply frame_gentle|]. done.
Qed.

Lemma wp_network_run_poll tot hs cx w :
  backlog_ok fuel tot → net_inv hs w →
  wp tot (network_run_poll fuel cx) (λ p w', step_inv hs w w' ∧
    p = Pending ∧ slot_of (data (NIC w')) = Some cx) (λ _ _, False) w.
Proof.
  intros Hbl Hinv. apply (wp_section tot hs (λ _, hs)); [done|].
  intros. by apply network_run_section.
Qed.

(** A task taken off the queue was scheduled, and is queued no more. *)
Lemma popped_phase slot w t q :
  slot_inv slot w → QUEUE w = t :: q →
  phase_of w t = Some Scheduled ∧ qcount q t = 0.
Proof.
  intros [Hp Hq] Hqueue.
  destruct (Hq t) as [tk Htk]; [rewrite Hqueue; apply list_elem_of_here|].
  assert (Hph : phase_of w t = Some (phase (task_header tk))) by (unfold phase_of; by rewrite Htk).
  specialize (Hp _ _ Hph). rewrite Hqueue in Hp. rewrite Hph.
  destruct (phase (task_header tk)); simpl in Hp; [|exfalso; rewrite qcount_cons_eq in Hp..|done];
    [rewrite qcount_cons_eq in Hp; split; [done|lia]|lia|lia|destruct Hp; lia].
Qed.

Lemma phase_of_lookup w t p :
  phase_of w t = Some p → ∃ tk, tasks w !! t = Some tk ∧ phase (task_header tk) = p.
Proof. unfold phase_of. intros (tk & ? & ?)%fmap_Some. by exists tk. Qed.

(** A running task that returns from its poll goes to sleep in the slot, or back
    to the queue when it was woken meanwhile. *)
Lemma slot_inv_ran w t tk :
  slot_inv (Some (TaskWaker t)) w → tasks w !! t = Some tk → running w t →
  slot_inv (Some (TaskWaker t))
    (set_QUEUE (λ q, if (at_ran (task_header tk) false).2 then q ++ [t] else q)
       (set_header t (at_ran (task_header tk) false).1 w)).
Proof.
  intros Hinv Htk Hr.
  assert (Hph : phase_of w t = Some (phase (task_header tk))) by (unfold phase_of; by rewrite Htk).
  unfold running in Hr. rewrite Hph in Hr.
  assert (Hr' : phase (task_header tk) = Running ∨ phase (task_header tk) = RunningWoken).
  { destruct Hr as [[= ->]|[= ->]]; auto. }
  pose proof (proj1 Hinv _ _ Hph) as Hok.
  pose proof (phase_at_ran (task_header tk) false) as Hran.
  destruct (at_ran (task_header tk) false) as [h sched]; simpl in *.
  change (set_QUEUE (λ q, if sched then q ++ [t] else q) (set_header t h w))
    with (set_QUEUE (λ _, if sched then QUEUE w ++ [t] else QUEUE w) (set_header t h w)).
  apply slot_inv_step; try done.
  - intros t' Ht'. destruct sched; [|done]. rewrite qcount_app, decide_False by done. lia.
  - intros t'. destruct sched; [|by right].
    rewrite elem_of_app, list_elem_of_singleton. tauto.
  - specialize (Hran Hr'). destruct Hr' as [Hp|Hp]; rewrite Hp in Hran, Hok;
      injection Hran as Hh ->; rewrite Hh; simpl in *; [done|].
    rewrite qcount_app, decide_True by done. lia.
Qed.

(** Taking a task off the queue and starting it. *)
Lemma net_inv_start hs t q tk w :
  net_inv hs w → QUEUE w = t :: q → tasks w !! t = Some tk →
  net_inv hs (task_start t tk (set_QUEUE (λ _, q) w)) ∧
  running (task_start t tk (set_QUEUE (λ _, q) w)) t.
Proof.
  intros (Hl & Hpo & Hs & nic & Hd & Hh) Hq Htk.
  destruct (popped_phase _ _ _ _ Hs Hq) as [Hph Hq0].
  assert (Hsch : phase (task_header tk) = Scheduled).
  { unfold phase_of in Hph. rewrite Htk in Hph. by injection Hph. }
  set (w1 := task_start t tk _). split.
  - split_and!; [done|done| |by exists nic].
    apply (slot_inv_ext _ (set_QUEUE (λ _, q) (set_header t (at_run (task_header tk)) w)));
      [done..|].
    apply slot_inv_step; [done|..].
    + intros t' Ht'. by rewrite Hq, qcount_cons_ne.
    + intros t' Ht'. right. rewrite Hq. by constructor.
    + eauto.
    + by rewrite (phase_at_run _ Hsch).
  - left. change (phase_of w1 t) with (phase_of (set_header t (at_run (task_header tk)) w) t).
    rewrite phase_of_set_header, decide_True, Hph by done. simpl.
    by rewrite phase_at_run.
Qed.

(** A task that has been polled, with its waker in the slot, returns. *)
Lemma wp_task_return tot hs t w E :
  net_inv hs w → slot_of (data (NIC w)) = Some (TaskWaker t) → running w t →
  wp tot (task_return t Pending) (λ _ w', net_inv hs w' ∧ current w' = None ∧
    (∀ t', t' ≠ t → running w t' → running w' t') ∧
    (∀ t', is_Some (tasks w !! t') → is_Some (tasks w' !! t'))) E w.
Proof.
  intros (Hl & Hp & Hs & nic & Hd & Hh) Hslot Hr. unfold task_return. wp_run.
  destruct (tasks w !! t) as [tk|] eqn:Htk.
  2:{ unfold running, phase_of in Hr. rewrite Htk in Hr. by destruct Hr. }
  rewrite Hslot in Hs. pose proof (slot_inv_ran _ _ _ Hs Htk Hr) as Hs'.
  destruct (at_ran (task_header tk) false) as [h sched]; wp_run.
  assert (Hend : ∀ w', NIC w' = NIC w → current w' = None → slot_inv (Some (TaskWaker t)) w' →
    tasks w' = tasks (set_header t h w) →
    net_inv hs w' ∧ current w' = None ∧ (∀ t', t' ≠ t → running w t' → running w' t') ∧
    (∀ t', is_Some (tasks w !! t') → is_Some (tasks w' !! t'))).
  { intros w' HN Hc' Hs2 Ht'. split; [|split; [done|split]].
    - unfold net_inv. rewrite HN, Hslot. split_and!; eauto.
    - intros t' Hne. unfold running.
      assert (phase_of w' t' = phase_of w t') as ->; [|done].
      transitivity (phase_of (set_header t h w) t'); [unfold phase_of; by rewrite Ht'|].
      by rewrite phase_of_set_header, decide_False.
    - intros t'. rewrite Ht'. simpl. by rewrite lookup_alter_is_Some. }
  destruct sched; unfold schedule; wp_run; by apply Hend.
Qed.

(** [Runnable::run] on a task taken off the queue. *)
Lemma wp_runnable_run tot hs t q w :
  backlog_ok fuel tot →
  thread_inv hs w → QUEUE w = t :: q →
  wp tot (runnable_run fuel t) (λ _, thread_inv hs) (λ _ _, False)
     (set_QUEUE (λ _, q) w).
Proof.
  intros Hbl (Hinv & Hc & t0 & Ht0) Hq. unfold runnable_run. wp_run.
  change (tasks (set_QUEUE _ w)) with (tasks w).
  destruct (proj2 (proj1 (proj2 (proj2 Hinv))) t) as [tk Htk]; [rewrite Hq; apply list_elem_of_here|].
  rewrite Htk. wp_run. destruct (net_inv_start hs t q tk w Hinv Hq Htk) as [Hinv1 Hr1].
  destruct (task_future tk); simpl.
  wp_call (wp_network_run_poll tot hs). intros p w2 ([Hinv2 (Hc2 & Hr2 & Ht2)] & -> & Hslot).
  specialize (Hr2 t eq_refl Hr1).
  wp_call (wp_task_return tot hs t). intros _ w3 (Hinv3 & Hc3 & _ & Ht3). split_and!; [done..|].
  exists t0. apply Ht3, Ht2. simpl. by rewrite lookup_alter_is_Some.
Qed.

(** [run_executor] keeps the network up and loses no task. *)
Lemma wp_run_executor hs w :
  thread_inv hs w → wp false (run_executor fuel) (λ _, thread_inv hs) (λ _ _, False) w.
Proof.
  intros Hinv. unfold run_executor.
  apply (wp_loop false (λ _, thread_inv hs) (λ _ _, 0)); [|done|done].
  clear w Hinv. intros _ w Hinv. unfold queue_pop. wp_run.
  wp_call (wp_thread_inv _ _ _ _ _ Hinv (wp_interfere false hs AtPop w _ (proj1 Hinv))).
  intros _ w1 Hinv1. unfold wp at 1, prim.
  destruct (QUEUE w1) as [|t q] eqn:Hq; wp_run; [done|].
  wp_call (wp_runnable_run false hs t q). intros _ w2 Hinv2. by wp_run.
Qed.

(** What a blocking call needs of the future it drives: from a state the future is
    polled in, a poll keeps the network up and either gives a result that satisfies
    [Q], or leaves the future in such a state again. *)
Record fut_spec {T} hs (f : Fut T) (Q : T → Prop) : Type := {
  fs_inv : fut_state f → Prop;
  fs_init : fs_inv (fut_init f);
  fs_poll st cx w :
    fs_inv st → thread_inv hs w →
    wp false (fut_poll f st cx) (λ r w', thread_inv hs w' ∧
      match r.2 with Ready t => Q t | Pending => fs_inv r.1 end) (λ _ _, False) w;
}.

Definition blocking_post {T} hs (timeout : option Duration) (Q : T → Prop)
    (r : result T unit) w : Prop :=
  thread_inv hs w ∧ match r with Ok t => Q t | Err _ => timeout ≠ None end.

Lemma wp_timed_out hs start timeout w :
  thread_inv hs w →
  wp false (timed_out start timeout) (λ late w', thread_inv hs w' ∧
    (late = true → timeout ≠ None)) (λ _ _, False) w.
Proof.
  intros Hinv. unfold timed_out. destruct timeout as [d|]; wp_run; [|done].
  wp_call (wp_thread_inv _ _ _ _ _ Hinv (wp_instant_now false hs w _ (proj1 Hinv))).
  intros now w' Hinv'. wp_run. done.
Qed.

Lemma wp_idle hs tid delay w :
  thread_inv hs w → wp false (idle fuel tid delay) (λ _, thread_inv hs) (λ _ _, False) w.
Proof.
  intros Hinv. unfold idle. destruct (should_block delay); [|by apply wp_run_executor].
  wp_run.
  wp_call (wp_thread_inv _ _ _ _ _ Hinv (wp_unparked_swap false hs tid false w _ (proj1 Hinv))).
  intros [] w1 Hinv1; simpl; wp_run; [done|].
  wp_call (wp_thread_inv _ _ _ _ _ Hinv1 (wp_syscall false hs _ w1 _ (proj1 Hinv1))).
  intros _ w2 Hinv2.
  wp_call (wp_thread_inv _ _ _ _ _ Hinv2 (wp_syscall false hs _ w2 _ (proj1 Hinv2))).
  intros _ w3 Hinv3.
  wp_call (wp_thread_inv _ _ _ _ _ Hinv3 (wp_unparked_store false hs tid false w3 _ (proj1 Hinv3))).
  intros _ w4 Hinv4. by apply wp_run_executor.
Qed.

Lemma wp_poll_on {T} hs (f : Fut T) timeout Q w :
  fut_spec hs f Q → thread_inv hs w →
  wp false (poll_on fuel f timeout) (blocking_post hs timeout Q) (λ _ _, False) w.
Proof.
  intros Hf Hinv. unfold poll_on.
  wp_call (wp_thread_inv _ _ _ _ _ Hinv (wp_current_thread_notify false hs w _ (proj1 Hinv))).
  intros tid w1 Hinv1.
  wp_call (wp_thread_inv _ _ _ _ _ Hinv1 (wp_syscall false hs _ w1 _ (proj1 Hinv1))).
  intros _ w2 Hinv2.
  wp_call (wp_thread_inv _ _ _ _ _ Hinv2 (wp_instant_now false hs w2 _ (proj1 Hinv2))).
  intros start w3 Hinv3.
  apply (wp_loop false (λ st w, fs_inv _ _ _ Hf st ∧ thread_inv hs w) (λ _ _, 0));
    [|by split; [apply fs_init|]|done].
  intros st w' [Hst Hw']. unfold poll_on_round.
  wp_call (fs_poll _ _ _ Hf). intros [st' p] w4 [Hinv4 Hp]; simpl in Hp.
  destruct p as [t|].
  - wp_call (wp_thread_inv _ _ _ _ _ Hinv4 (wp_syscall false hs _ w4 _ (proj1 Hinv4))).
    intros _ w5 Hinv5. by wp_run.
  - wp_call (wp_timed_out hs). intros [] w5 [Hinv5 Hlate].
    + wp_call (wp_thread_inv _ _ _ _ _ Hinv5 (wp_syscall false hs _ w5 _ (proj1 Hinv5))).
      intros _ w6 Hinv6. wp_run. split; [done|by apply Hlate].
    + wp_call (wp_run_executor hs). intros _ w6 Hinv6. by wp_run.
Qed.

Lemma wp_block_on {T} hs (f : Fut T) timeout Q w :
  fut_spec hs f Q → thread_inv hs w →
  wp false (block_on fuel f timeout) (blocking_post hs timeout Q) (λ _ _, False) w.
Proof.
  intros Hf Hinv. unfold block_on.
  wp_call (wp_thread_inv _ _ _ _ _ Hinv (wp_current_thread_notify false hs w _ (proj1 Hinv))).
  intros tid w1 Hinv1.
  wp_call (wp_thread_inv _ _ _ _ _ Hinv1 (wp_instant_now false hs w1 _ (proj1 Hinv1))).
  intros start w2 Hinv2.
  apply (wp_loop false (λ st w, fs_inv _ _ _ Hf st ∧ thread_inv hs w) (λ _ _, 0));
    [|by split; [apply fs_init|]|done].
  intros st w' [Hst Hw']. unfold block_on_round.
  wp_call (fs_poll _ _ _ Hf). intros [st' p] w3 [Hinv3 Hp]; simpl in Hp.
  destruct p as [t|]; [by wp_run|].
  wp_call (wp_timed_out hs). intros [] w4 [Hinv4 Hlate].
  { wp_run. split; [done|by apply Hlate]. }
  wp_call (wp_thread_inv _ _ _ _ _ Hinv4 (wp_instant_now false hs w4 _ (proj1 Hinv4))).
  intros now w5 Hinv5.
  wp_call (wp_thread_inv _ _ _ _ _ Hinv5 (wp_network_delay false hs now w5 (proj1 Hinv5))).
  intros delay w6 Hinv6.
  wp_call (wp_idle hs). intros _ w7 Hinv7. by wp_run.
Qed.
End Spec.

Lemma sim_ready_thread_inv (ss : gmap nat SimTcp) (hs : nat → Prop) :
  (∀ h, hs h → is_Some (ss !! h)) → thread_inv (at_ := sim_task) hs (sim_ready ss).
Proof.
  intros Hsub. split; [|by split; [|exists 0, (mkTask (at_ := sim_task) Idle NetworkRun)]].
  destruct (sim_ready_inv ss) as (?&?&?&nic&Hd&Hh).
  split_and!; try done. exists nic. split; [done|]. intros h Hin. by apply Hh, Hsub.
Defined.

(** ** Properties *)

Section Properties.
Context {smol : Smoltcp} {kern : Kernel smol} {at_ : AsyncTask}
        {envt : Environment kern at_}.
Variable fuel : nat.
Implicit Types (w : World).

(** The states in which a blocking call polls its future: the first one, and those that a
    pending poll has left. *)
Inductive driven {T} (f : Fut T) (tid : Tid) : fut_state f → Prop :=
| driven_init : driven f tid (fut_init f)
| driven_pending s s' w w' :
    driven f tid s → fut_poll f s (ThreadWaker tid) w = Done (s', Pending) w' → driven f tid s'.

(** The last poll of a blocking call, from world [w] to world [w'], and what the call makes of
    it. *)
Definition last_poll {T} (f : Fut T) (tid : Tid) (start : Instant) (timeout : option Duration)
    (r : result T unit) (w : World) : Prop :=
  ∃ s s' w0, driven f tid s ∧
    match r with
    | Ok t => fut_poll f s (ThreadWaker tid) w0 = Done (s', Ready t) w
    | Err _ => ∃ w1 d, fut_poll f s (ThreadWaker tid) w0 = Done (s', Pending) w1 ∧
        timeout = Some d ∧ instant_ge (clock_now (kernel w1)).1 (instant_add start d) = true ∧
        w = set_kernel (λ _, (clock_now (kernel w1)).2) w1
    end.

Lemma timed_out_done start timeout late w w' :
  timed_out start timeout w = Done late w' →
  late = true → ∃ d, timeout = Some d ∧
    instant_ge (clock_now (kernel w)).1 (instant_add start d) = true ∧
    w' = set_kernel (λ _, (clock_now (kernel w)).2) w.
Proof.
  unfold timed_out, mbind, M_bind, instant_now. destruct timeout as [d|]; [|by intros [= <- _]].
  destruct (clock_now (kernel w)) as [now k]. intros [= <- <-] Hlate. by exists d.
Qed.

Lemma block_on_round_inl {T} (f : Fut T) tid start timeout s s' w w' :
  driven f tid s → block_on_round fuel f tid start timeout s w = Done (inl s') w' →
  driven f tid s'.
Proof.
  intros Hs (x & w1 & Hp & H)%bind_done. destruct x as [s1 [t|]]; [by injection H|].
  apply bind_done in H as ([] & w2 & _ & H); [by injection H|].
  apply bind_done in H as (now & w3 & _ & H). apply bind_done in H as (delay & w4 & _ & H).
  apply bind_done in H as (_ & w5 & _ & H). injection H as <- _. by eapply driven_pending.
Qed.

Lemma block_on_round_inr {T} (f : Fut T) tid start timeout s r w w' :
  driven f tid s → block_on_round fuel f tid start timeout s w = Done (inr r) w' →
  last_poll f tid start timeout r w'.
Proof.
  intros Hs (x & w1 & Hp & H)%bind_done. destruct x as [s1 [t|]].
  { injection H as <- <-. by exists s, s1, w. }
  apply bind_done in H as ([] & w2 & Hlate & H).
  - injection H as <- <-. destruct (timed_out_done _ _ _ _ _ Hlate eq_refl) as (d & ? & ? & ?).
    exists s, s1, w. split; [done|]. by exists w1, d.
  - apply bind_done in H as (now & w3 & _ & H). apply bind_done in H as (delay & w4 & _ & H).
    apply bind_done in H as (_ & w5 & _ & H). by injection H.
Qed.

(** C16: [block_on] returns what the future says.  The future is polled from its first state on,
    each time in the state that the last pending poll has left and never again once it was
    ready; a result is that of the last poll, with the world just as that poll has left it, and
    also when the deadline has passed by then.  An error means that there was a timeout, that
    the last poll was pending, and that the clock, read right after it, showed the time of the
    call plus the timeout or later. *)
Theorem block_on_never_early {T} (f : Fut T) timeout r w w' :
  block_on fuel f timeout w = Done r w' →
  last_poll f (match notifies w !! self w with Some tn => tn_thread tn | None => self w end)
    (clock_now (kernel w)).1 timeout r w'.
Proof.
  intros (tid & w1 & Htid & H)%bind_done. apply bind_done in H as (start & w2 & Hstart & H).
  assert (kernel w1 = kernel w ∧
    tid = match notifies w !! self w with Some tn => tn_thread tn | None => self w end) as [Hk Htn].
  { unfold current_thread_notify in Htid.
    by destruct (notifies w !! self w); injection Htid; intros <- <-. }
  rewrite <- Htn. unfold instant_now in Hstart. rewrite Hk in Hstart.
  destruct (clock_now (kernel w)) as [now k]. injection Hstart as <- <-. simpl.
  apply (loop_done (λ s _, driven f tid s)) in H as (s & w3 & Hs & Hround).
  - by eapply block_on_round_inr.
  - intros s0 w0 s1 w4. apply block_on_round_inl.
  - apply driven_init.
Qed.

(** A wakeup that came before the wait is not slept over: when the flag of the thread
    is set, the wait of [block_on] makes no system call, clears the flag and returns at
    once, so that the future is polled again. *)
Theorem idle_consumes_wakeup tid delay tn w :
  should_block delay = true → locked (NIC w) = false →
  notifies (env AtSwap w) !! tid = Some tn → tn_unparked tn = true →
  ∃ w', idle fuel tid delay w = Done tt w' ∧ klog w' = klog w ∧
        notifies w' !! tid = Some (mkThreadNotify (tn_thread tn) false).
Proof.
  intros Hb Hl Htn Hu. unfold idle. rewrite Hb.
  unfold unparked_swap, interfere, modify, prim, mbind, M_bind. rewrite Hl. simpl.
  rewrite Htn. simpl. rewrite Hu. simpl. eexists. split; [reflexivity|].
  split; [done|]. apply lookup_insert_eq.
Qed.
End Properties.

(** ** Witnesses *)

(** A future that is never ready. *)
Definition sim_never : Fut (smol := sim) (kern := sim_kernel) (at_ := sim_task) unit :=
  mkFut unit tt (λ s _ w, Done (s, Pending) w).

(** It gives up on the first look at the clock that shows 100 or more. *)
Lemma block_on_never_early_witness :
  let w := sim_ready ∅ in
  let run := block_on (envt := sim_quiet) 40 sim_never (Some 10%Z) w in
  run = Done (Err tt) (final w run) ∧
  last_poll sim_never 5%Z 100%Z (Some 10%Z) (Err tt) (final w run).
Proof.
  intros w run.
  assert (Hrun : run = Done (Err tt) (final w run)) by (apply run_returns; vm_compute; reflexivity).
  split; [exact Hrun|].
  exact (block_on_never_early (envt := sim_quiet) 40 sim_never (Some 10%Z) (Err tt) w _ Hrun).
Defined.

Definition sim_woken : World :=
  set_notifies (λ _, {[ 5%Z := mkThreadNotify 5%Z true ]}) (sim_ready ∅).

Lemma idle_consumes_wakeup_witness :
  ∃ w', idle (envt := sim_quiet) 5 5%Z None sim_woken = Done tt w' ∧ klog w' = [] ∧
        notifies w' !! 5%Z = Some (mkThreadNotify 5%Z false).
Proof.
  exact (idle_consumes_wakeup (envt := sim_quiet) 5 5%Z None (mkThreadNotify 5%Z true) sim_woken
           eq_refl eq_refl eq_refl eq_refl).
Defined.
