(* ===== verification/Progress.v ===== *)
(** * When [run_executor] comes to an end

    The blocking calls run the executor between two polls, so that they make progress
    only if [run_executor] returns.  With one network task it does; two network tasks
    would wake each other for ever. *)

From S2P Require Import Prelude Extern WakerReg State Sim Invariant Nic Executor.

(** A waker of a thread: what [block_on] and [poll_on] leave with a socket. *)
Definition is_thread (wk : Waker) : Prop := match wk with ThreadWaker _ => True | TaskWaker _ => False end.

(** Only threads wait for sockets: polling the interface wakes no task, and keeps it
    that way. *)
Class ThreadWakers {smol : Smoltcp} (P : SocketSet → Prop) : Prop := {
  poll_wakes_threads i ss t r i' ss' ws :
    iface_poll i ss t = (r, i', ss', ws) → P ss → P ss' ∧ Forall is_thread ws;
  dhcp_wakes_threads c i ss t r c' i' ss' ws :
    dhcp_poll c i ss t = (r, c', i', ss', ws) → P ss → P ss' ∧ Forall is_thread ws;
}.

Section Progress.
Context {smol : Smoltcp} {kern : Kernel smol} {at_ : AsyncTask}
        {envt : Environment kern at_} {atl : AsyncTaskLaws at_} {laws : SmoltcpLaws smol}.
Context (P : SocketSet → Prop) {tw : ThreadWakers P}.
Variable fuel : nat.
Implicit Types (w : World) (t : TaskId) (nic : NetworkInterface).

(** What the interface may become while no other thread runs a task or registers one: the
    device, the sockets and the DHCP client go on, the waker slot stays, no socket is removed
    and only threads wait for sockets. *)
Definition nic_goes_on nic nic' : Prop :=
  waker nic' = waker nic ∧ (P (sockets nic) → P (sockets nic')) ∧
  ∀ h, is_Some (sockets_get (sockets nic) h) → is_Some (sockets_get (sockets nic') h).

Definition data_goes_on (st st' : NetworkState) : Prop :=
  match st with
  | Initialized nic => ∃ nic', st' = Initialized nic' ∧ nic_goes_on nic nic'
  | _ => st' = st
  end.

(** No other thread of the program uses a socket, runs the task or wakes it.  Packets may arrive
    and be answered, the network thread may poll the interface (see [nic_thread_quiet] in
    Timeout.v), and the kernel and the thread notifications do as they like. *)
Definition quiet_env : Prop :=
  ∀ p w, tasks (env p w) = tasks w ∧ QUEUE (env p w) = QUEUE w ∧
    locked (NIC (env p w)) = locked (NIC w) ∧ poisoned (NIC (env p w)) = poisoned (NIC w) ∧
    data_goes_on (data (NIC w)) (data (NIC (env p w))).

Lemma data_goes_on_slot st st' : data_goes_on st st' → slot_of st' = slot_of st.
Proof. destruct st as [| |nic]; simpl; [by intros ->..|]. intros (nic' & -> & Hw & _). simpl. by rewrite Hw. Qed.

(** The tasks, the queue and the mutex are as they were. *)
Definition still w w' : Prop :=
  tasks w' = tasks w ∧ QUEUE w' = QUEUE w ∧ NIC w' = NIC w.

#[export] Instance still_refl : Reflexive still.
Proof. by intros w. Qed.
#[export] Instance still_trans : Transitive still.
Proof. intros w1 w2 w3 (?&?&?) (?&?&?). split_and!; congruence. Qed.

(** ** Under the lock *)

Lemma wp_interfere_still tot p w E :
  locked (NIC w) = true → wp tot (interfere p) (λ _, still w) E w.
Proof. intros Hl. apply wp_modify. by rewrite Hl. Qed.

Lemma wp_syscall_still tot c w E :
  locked (NIC w) = true → wp tot (syscall c) (λ _, still w) E w.
Proof.
  intros Hl. unfold syscall. wp_run.
  eapply wp_conseq; [by apply wp_interfere_still|]; cbv beta. by intros _ w' (?&?&?).
Qed.

Lemma wp_wake_thread_still tot tid w E :
  locked (NIC w) = true → wp tot (wake_waker (ThreadWaker tid)) (λ _, still w) E w.
Proof.
  intros Hl. simpl. unfold thread_notify_wake, thread_notify_wake_by_ref, unparked_swap.
  wp_run. eapply wp_conseq; [by apply wp_interfere_still|]. cbv beta. intros _ w1 Hs1.
  assert (Hl1 : locked (NIC w1) = true) by (destruct Hs1 as (_&_&HN); by rewrite HN).
  unfold wp at 1, prim. destruct (notifies w1 !! tid) as [tn|].
  - destruct (tn_unparked tn); simpl; wp_run; [done|].
    eapply wp_conseq; [by apply wp_syscall_still|]; cbv beta; intros _ w2 Hs2. etrans; [exact Hs1|exact Hs2].
  - simpl. eapply wp_conseq; [by apply wp_syscall_still|]; cbv beta; intros _ w2 Hs2. by etrans.
Qed.

Lemma wp_wake_threads_still tot ws w E :
  Forall is_thread ws → locked (NIC w) = true →
  wp tot (wake_wakers ws) (λ _, still w) E w.
Proof.
  intros Hws. revert w. unfold wake_wakers.
  induction Hws as [|wk ws Hwk Hws IH]; intros w Hl; simpl; [by apply wp_ret|].
  destruct wk as [tid|t]; [|done]. wp_run.
  eapply wp_conseq; [by apply wp_wake_thread_still|]. cbv beta. intros _ w1 Hs1.
  eapply wp_conseq; [apply IH; destruct Hs1 as (_&_&HN); by rewrite HN|cbv beta].
  intros _ w2 Hs2. by etrans.
Qed.

Lemma wp_instant_now_still tot w E : wp tot instant_now (λ _, still w) E w.
Proof. unfold wp, instant_now. by destruct (clock_now (kernel w)). Qed.

Lemma wp_poll_common_still ts nic w :
  P (sockets nic) → locked (NIC w) = true →
  wp false (poll_common fuel ts nic) (λ nic' w',
    P (sockets nic') ∧ waker nic' = waker nic ∧ still w w') (λ _ _, True) w.
Proof.
  intros HP Hl. unfold poll_common. wp_run.
  eapply wp_conseq.
  { apply (wp_loop false (λ n w', P (sockets n) ∧ waker n = waker nic ∧ still w w') (λ _ _, 0)
      (poll_round ts) (λ n w', P (sockets n) ∧ waker n = waker nic ∧ still w w')
      (λ _ _, True)); [|done|done].
    intros n w1 (HP1 & Hw1 & Hs1). unfold poll_round.
    destruct (iface_poll (iface n) (sockets n) ts) as [[[r i] ss] ws] eqn:Hpoll.
    destruct (poll_wakes_threads _ _ _ _ _ _ _ Hpoll HP1) as [HP2 Hws]. wp_run.
    eapply wp_conseq; [apply wp_wake_threads_still; [done|]|].
    { destruct Hs1 as (_&_&HN). by rewrite HN. }
    cbv beta. intros _ w2 Hs2. wp_run.
    destruct (match r with Ok b => b | Err _ => true end); simpl;
      split_and!; try done; by etrans. }
  cbv beta. intros n w1 (HP1 & Hw1 & Hs1). unfold poll_dhcp.
  destruct (dhcp n) as [[client prev]|]; [|by wp_run].
  destruct (dhcp_poll client (iface n) (sockets n) ts) as [[[[r client'] i] ss] ws] eqn:Hpoll.
  destruct (dhcp_wakes_threads _ _ _ _ _ _ _ _ _ Hpoll HP1) as [HP2 Hws]. wp_run.
  eapply wp_conseq; [apply wp_wake_threads_still; [done|]|].
  { destruct Hs1 as (_&_&HN). by rewrite HN. }
  cbv beta. intros _ w2 Hs2.
  assert (Hs : still w w2) by by etrans.
  destruct r as [[config|]|e]; [|by wp_run..].
  eapply wp_mono; [apply wp_apply_dhcp_config| |done].
  { intros cidr Ha Hu. by eapply dhcp_poll_unicast. }
  cbv beta. intros n2 w3 (Hw2 & Hs3 & ->). simpl in Hw2, Hs3. by rewrite Hs3, Hw2.
Qed.

(** ** One turn of the network task *)

(** The tasks that taking over the slot schedules. *)
Definition wakes (slot : option Waker) t w : list TaskId :=
  match slot with
  | Some (TaskWaker t1) =>
      if decide (t1 = t) then []
      else match tasks w !! t1 with
           | Some tk => if (at_wake (task_header tk)).2 then [t1] else []
           | None => []
           end
  | _ => []
  end.

(** What a turn of [t] does to the books: the queue grows by the tasks woken, the
    others keep their place, and [t] itself is not touched. *)
Definition turn (slot : option Waker) t w w' : Prop :=
  QUEUE w' = QUEUE w ++ wakes slot t w ∧ tasks w' !! t = tasks w !! t ∧
  (∀ t', is_Some (tasks w' !! t') ↔ is_Some (tasks w !! t')).

Lemma turn_still_l slot t w0 w1 w2 : still w0 w1 → turn slot t w1 w2 → turn slot t w0 w2.
Proof.
  intros (Ht&Hq&_) (Hq2&Ht2&Hd). unfold turn, wakes in *. rewrite Ht, Hq in *. done.
Qed.

Lemma turn_still_r slot t w0 w1 w2 : turn slot t w0 w1 → still w1 w2 → turn slot t w0 w2.
Proof. intros (Hq2&Ht2&Hd) (Ht&Hq&_). unfold turn. by rewrite Ht, Hq. Qed.

Lemma wp_register_turn r t w E :
  locked (NIC w) = true →
  wp false (wr_register wake_waker r (TaskWaker t)) (λ r' w',
    r' = mkWakerRegistration (Some (TaskWaker t)) ∧ turn (wr_waker r) t w w' ∧ NIC w' = NIC w)
    E w.
Proof.
  intros Hl. rewrite wr_register_unfold. destruct r as [[[tid|t1]|]]; cbn [wr_waker].
  - rewrite decide_False by done. wp_run.
    eapply wp_conseq; [by apply wp_wake_thread_still|cbv beta].
    intros _ w' (Ht&Hq&HN). wp_run. split_and!; [done| |done].
    unfold turn, wakes. by rewrite app_nil_r, Ht, Hq.
  - unfold turn, wakes. destruct (decide (TaskWaker t1 = TaskWaker t)) as [[= ->]|Hne].
    { rewrite decide_True by done. wp_run. by rewrite app_nil_r. }
    assert (t1 ≠ t) by congruence. rewrite (decide_False (P := t1 = t)) by done.
    wp_run. unfold wp, task_wake. destruct (tasks w !! t1) as [tk|] eqn:Htk.
    2:{ by rewrite app_nil_r. }
    destruct (at_wake (task_header tk)) as [h []]; simpl; split_and!; try done;
      try (by rewrite lookup_alter_ne); try (by rewrite app_nil_r);
      intros t'; by rewrite lookup_alter_is_Some.
  - wp_run. unfold turn, wakes. by rewrite app_nil_r.
Qed.

Context (quiet : quiet_env).

(** The network is up and only threads wait for its sockets. *)
Definition calm w : Prop :=
  ∃ nic, NIC w = mkNicMutex false false (Initialized nic) ∧ P (sockets nic).

Lemma wp_network_run_turn t w :
  calm w →
  wp false (network_run_poll fuel (TaskWaker t)) (λ p w',
    p = Pending ∧ turn (slot_of (data (NIC w))) t w w' ∧ calm w') (λ _ _, True) w.
Proof.
  intros (nic & HN & HP). unfold network_run_poll, network_run_body, with_guard, nic_lock, nic_acquire, guarded, interfere.
  wp_run.
  rewrite HN. simpl. set (w1 := mkWorld _ _ _ _ _ _ _ _ _).
  destruct (quiet AtLock w) as (Ht & Hq & _ & Hp & Hd). rewrite HN in Hp, Hd; simpl in Hp, Hd.
  destruct Hd as (nic1 & Hd & Hwk & HP1 & _). specialize (HP1 HP). rewrite <- Hwk.
  clear nic HN HP Hwk. rename nic1 into nic, HP1 into HP.
  unfold wp, prim; simpl. rewrite Hp; simpl.
  set (w2 := set_NIC _ _).
  assert (Hs2 : tasks w2 = tasks w ∧ QUEUE w2 = QUEUE w) by done.
  assert (HN2 : NIC w2 = mkNicMutex true false (Initialized nic))
    by (subst w2 w1; simpl; by rewrite Hp, Hd).
  clearbody w2. clear w1.
  match goal with |- context [match ?m w2 with _ => _ end] => set (body := m) end.
  cut (wp false body (λ p w', p = Pending ∧ turn (wr_waker (waker nic)) t w w' ∧
         ∃ nic', NIC w' = mkNicMutex true false (Initialized nic') ∧ P (sockets nic'))
         (λ _ _, True) w2).
  { unfold wp. destruct (body w2) as [p w'| | |]; try done.
    intros (-> & Hturn & nic' & HN' & HP'). split_and!; [done|done|].
    exists nic'. simpl. by rewrite HN'. }
  subst body. wp_run. rewrite HN2. simpl. wp_run.
  eapply wp_conseq; [apply wp_instant_now_still|cbv beta]. intros now w3 Hs3. wp_run.
  assert (Hl3 : locked (NIC w3) = true) by (destruct Hs3 as (_&_&H); by rewrite H, HN2).
  unfold nic_poll. wp_run.
  eapply wp_conseq; [by apply wp_register_turn|cbv beta]. intros r w4 (-> & Hturn & HN4).
  eapply wp_conseq; [apply wp_poll_common_still; [done|by rewrite HN4]|cbv beta].
  intros nic' w5 (HP5 & Hw5 & Hs5). wp_run. split_and!; [done| |].
  - change (turn (wr_waker (waker nic)) t w w5).
    assert (Hturn' : turn (wr_waker (waker nic)) t w3 w5) by by eapply turn_still_r.
    apply (turn_still_l _ _ w2) in Hturn'; [|done].
    unfold turn, wakes in *. by rewrite (proj1 Hs2), (proj2 Hs2) in Hturn'.
  - exists nic'. destruct Hs5 as (_&_&HN5). split; [|done].
    destruct Hs3 as (_&_&HN3). unfold set_data, set_NIC; simpl. by rewrite HN5, HN4, HN3, HN2.
Qed.

(** A turn of a scheduled task that was taken off the queue: it goes to sleep. *)
Lemma wp_runnable_turn t w :
  calm w → phase_of w t = Some Scheduled →
  wp false (runnable_run fuel t) (λ _ w',
    QUEUE w' = QUEUE w ++ wakes (slot_of (data (NIC w))) t w ∧ phase_of w' t = Some Idle ∧
    (∀ t', is_Some (tasks w' !! t') ↔ is_Some (tasks w !! t')) ∧ calm w') (λ _ _, True) w.
Proof.
  intros Hcalm Hph. destruct (phase_of_lookup _ _ _ Hph) as (tk & Htk & Hsch).
  unfold runnable_run, task_return. wp_run. rewrite Htk. wp_run.
  set (w1 := task_start _ _ _).
  assert (Hcalm1 : calm w1) by exact Hcalm.
  assert (Hw1 : tasks w1 !! t = Some (mkTask (at_run (task_header tk)) (task_future tk))).
  { subst w1. simpl. by rewrite lookup_alter_eq, Htk. }
  assert (Hd1 : ∀ t', is_Some (tasks w1 !! t') ↔ is_Some (tasks w !! t')).
  { intros t'. subst w1. simpl. by rewrite lookup_alter_is_Some. }
  assert (Hwk : wakes (slot_of (data (NIC w1))) t w1 = wakes (slot_of (data (NIC w))) t w).
  { unfold wakes. subst w1. simpl. destruct (slot_of _) as [[|t1]|]; [done| |done].
    case_decide; [done|]. by rewrite lookup_alter_ne. }
  destruct (task_future tk). simpl.
  eapply wp_conseq; [by apply wp_network_run_turn|cbv beta].
  intros p w2 (-> & (Hq2 & Ht2 & Hd2) & Hcalm2). wp_run. rewrite Ht2, Hw1. wp_run.
  pose proof (phase_at_ran (at_run (task_header tk)) false) as Hran.
  rewrite (phase_at_run _ Hsch) in Hran. specialize (Hran (or_introl eq_refl)).
  destruct (at_ran (at_run (task_header tk)) false) as [h sched]; simpl in Hran.
  injection Hran as Hh ->. wp_run. rewrite Hwk in Hq2. split_and!.
  - done.
  - unfold phase_of; simpl. rewrite lookup_alter_eq, Ht2, Hw1. simpl. by rewrite Hh.
  - intros t'. simpl. by rewrite lookup_alter_is_Some, Hd2.
  - exact Hcalm2.
Qed.

Lemma wp_interfere_calm p w :
  calm w → wp false (interfere p) (λ _ w', calm w' ∧ tasks w' = tasks w ∧
    QUEUE w' = QUEUE w ∧ slot_of (data (NIC w')) = slot_of (data (NIC w))) (λ _ _, True) w.
Proof.
  intros (nic & HN & HP). destruct (quiet p w) as (Ht & Hq & _ & Hp & Hd).
  pose proof (data_goes_on_slot _ _ Hd) as Hslot.
  unfold interfere. apply wp_modify. rewrite HN in *; simpl in *.
  destruct Hd as (nic' & Hd & _ & HP' & _). split_and!; [|done..].
  exists nic'. simpl. rewrite Hp, Hd. auto.
Qed.

(** A quiet environment keeps the rules of the other threads. *)
Lemma quiet_env_laws : EnvLaws.
Proof.
  split; intros p.
  - intros w. destruct (quiet p w) as (Ht & Hq & Hl & Hp & Hd). unfold boot_inv.
    rewrite Ht, Hq, Hl, Hp. intros (?&?&Hn&?&?). split_and!; try done.
    destruct (data (NIC w)); simpl in *; by try rewrite Hd.
  - intros hs w. destruct (quiet p w) as (Ht & Hq & Hl & Hp & Hd).
    unfold net_inv, slot_inv, phase_of. rewrite Ht, Hq, Hl, Hp, (data_goes_on_slot _ _ Hd).
    intros (?&?&?&nic&Hn&Hh). do 3 (split; [done|]). rewrite Hn in Hd.
    destruct Hd as (nic' & Hd & _ & _ & Hk). exists nic'. split; [done|].
    intros h Hin. by apply Hk, Hh.
  - intros hs w t _ _. destruct (quiet p w) as (Ht & _). unfold running, phase_of. by rewrite Ht.
  - intros hs w t _. by destruct (quiet p w) as (-> & _).
Qed.

(** One round of [run_executor], with what both views say about it. *)
Lemma wp_executor_round tot hs w (Q : unit + unit → World → Prop) :
  backlog_ok fuel tot → thread_inv hs w → calm w →
  (∀ w', QUEUE w = [] → thread_inv hs w' → calm w' → QUEUE w' = [] → tasks w' = tasks w →
     Q (inr tt) w') →
  (∀ t q w', QUEUE w = t :: q → thread_inv hs w' → calm w' →
     QUEUE w' = q ++ wakes (slot_of (data (NIC w))) t w → phase_of w' t = Some Idle →
     (∀ t', is_Some (tasks w' !! t') ↔ is_Some (tasks w !! t')) → Q (inl tt) w') →
  wp tot (o ← queue_pop;
          match o with
          | Some runnable => _ ← runnable_run fuel runnable; mret (inl tt)
          | None => mret (inr tt)
          end) Q (λ _ _, False) w.
Proof.
  intros Hbl Hinv Hcalm Hend Hgo. pose proof quiet_env_laws as envl. unfold queue_pop. wp_run.
  eapply wp_conseq.
  { apply wp_and; [|by apply wp_interfere_calm].
    exact (wp_thread_inv _ _ _ _ _ Hinv (wp_interfere tot hs AtPop w _ (proj1 Hinv))). }
  cbv beta. intros _ w1 [Hinv1 (Hcalm1 & Ht1 & Hq1 & Hsl1)].
  unfold wp at 1, prim. destruct (QUEUE w1) as [|t q] eqn:Hq; wp_run; [by apply Hend|].
  assert (Hph : phase_of w1 t = Some Scheduled).
  { destruct Hinv1 as [(_&_&Hs&_) _]. by eapply popped_phase. }
  eapply wp_conseq.
  { apply wp_and; [by apply (wp_runnable_run fuel tot hs t q w1)|].
    apply wp_runnable_turn; [exact Hcalm1|exact Hph]. }
  cbv beta. intros _ w2 [Hinv2 (Hq2 & Hid & Hd & Hcalm2)]. wp_run.
  apply (Hgo t q); [done|done|done| |done|].
  - rewrite Hq2. simpl. rewrite Hsl1. unfold wakes; simpl. by rewrite Ht1.
  - intros t'. rewrite Hd. simpl. by rewrite Ht1.
Qed.

(** A single task is queued at most once. *)
Lemma one_task_queue hs t0 w :
  thread_inv hs w → (∀ t, is_Some (tasks w !! t) → t = t0) → length (QUEUE w) ≤ 1.
Proof.
  intros [(_&_&Hs&_) _] Hone.
  destruct (QUEUE w) as [|t1 [|t2 q]] eqn:Hq; simpl; [lia|lia|].
  assert (t1 = t0) as -> by (apply Hone, (proj2 Hs); rewrite Hq; constructor).
  assert (t2 = t0) as -> by (apply Hone, (proj2 Hs); rewrite Hq; repeat constructor).
  destruct (popped_phase _ _ _ _ Hs Hq) as [_ H0]. rewrite qcount_cons_eq in H0. lia.
Qed.

(** With one task the executor ends; the task runs only if another thread runs it. *)
Lemma wp_run_executor_ends hs t0 w :
  backlog_ok fuel true → 2 ≤ fuel → thread_inv hs w → calm w →
  (∀ t, is_Some (tasks w !! t) → t = t0) →
  wp true (run_executor fuel) (λ _ w', thread_inv hs w' ∧ calm w' ∧ QUEUE w' = [] ∧
    (∀ t, is_Some (tasks w' !! t) → t = t0) ∧ (running w' t0 → running w t0)) (λ _ _, False) w.
Proof.
  intros Hbl Hfuel Hinv Hcalm Hone. unfold run_executor.
  apply (wp_loop true (λ _ w', thread_inv hs w' ∧ calm w' ∧ length (QUEUE w') ≤ 1 ∧
           (∀ t, is_Some (tasks w' !! t) → t = t0) ∧ (running w' t0 → running w t0))
           (λ _ w, length (QUEUE w))).
  - clear Hinv Hcalm Hone. intros _ w1 (Hinv & Hcalm & Hlen & Hone & Hrun).
    apply (wp_executor_round true hs); [done..| |].
    + intros w' _ Hinv' Hcalm' Hq' Ht'. unfold running, phase_of in *. by rewrite Ht'.
    + intros t q w' Hq Hinv' Hcalm' Hq' Hid Hd. rewrite Hq in Hlen; simpl in Hlen.
      assert (q = []) as -> by (destruct q; simpl in Hlen; [done|lia]).
      assert (Ht : t = t0).
      { apply Hone. destruct Hinv as [(_&_&Hs&_) _]. apply (proj2 Hs). rewrite Hq. constructor. }
      assert (Hwk : wakes (slot_of (data (NIC w1))) t w1 = []).
      { unfold wakes. destruct (slot_of _) as [[|t1]|]; [done| |done].
        case_decide as Hne; [done|]. destruct (tasks w1 !! t1) eqn:Ht1; [|done].
        destruct Hne. rewrite Ht. apply Hone. eauto. }
      rewrite Hwk in Hq'. simpl in Hq'. rewrite Hq', Hq. simpl.
      split_and!; [done|done|lia| | |lia].
      * intros t' Ht'. apply Hone. by apply Hd.
      * subst t. unfold running. rewrite Hid. by intros [|].
  - split_and!; [done|done|by eapply one_task_queue|done|done].
  - intros _. pose proof (one_task_queue _ _ _ Hinv Hone). lia.
Qed.

(** A task that exists, is not queued and not run sleeps in the slot. *)
Lemma asleep_in_slot hs t w :
  net_inv hs w → is_Some (tasks w !! t) → QUEUE w = [] → ¬ running w t →
  phase_of w t = Some Idle ∧ slot_of (data (NIC w)) = Some (TaskWaker t).
Proof.
  intros (_ & _ & Hs & _) [tk Htk] Hq Hr.
  assert (Hph : phase_of w t = Some (phase (task_header tk))) by (unfold phase_of; by rewrite Htk).
  pose proof (proj1 Hs _ _ Hph) as Hok. unfold running in Hr. rewrite Hph, Hq in *.
  destruct (phase (task_header tk)); simpl in Hok; [|naive_solver..].
  pose proof (qcount_notin [] t (not_elem_of_nil t)). lia.
Qed.

(** ** Properties *)

(** C11: With one network task, and no other thread that runs or wakes it, [run_executor] comes
    to an end within two rounds, with the queue empty, the network up, and the task asleep
    with its waker in the slot, so that the next access to a socket wakes it.  Packets may
    arrive and other threads may poll the interface meanwhile; at any one instant the
    backlog of packets is taken to be finite. *)
Theorem run_executor_ends hs t0 w :
  backlog_ok fuel true → 2 ≤ fuel → thread_inv hs w → calm w →
  (∀ t, is_Some (tasks w !! t) → t = t0) → ¬ running w t0 →
  wp true (run_executor fuel) (λ _ w', thread_inv hs w' ∧ calm w' ∧ QUEUE w' = [] ∧
    phase_of w' t0 = Some Idle ∧ slot_of (data (NIC w')) = Some (TaskWaker t0))
    (λ _ _, False) w.
Proof.
  intros Hbl Hfuel Hinv Hcalm Hone Hrun.
  eapply wp_conseq; [by apply (wp_run_executor_ends hs t0)|cbv beta].
  intros _ w' (Hinv' & Hc' & Hq' & Hone' & Hr'). do 3 (split; [done|]).
  pose proof Hinv' as (Hnet & _ & t & Ht). assert (t = t0) as -> by by apply Hone'.
  apply (asleep_in_slot hs); auto.
Qed.

(** C17: Two network tasks would wake each other for ever: as soon as one of them is
    scheduled while the other sleeps in the slot, taking over the slot schedules the
    other one, and [run_executor] goes round without end.  The program spawns the task
    once, in [network_init]. *)
Theorem two_network_tasks_livelock hs t1 t2 w :
  thread_inv hs w → calm w → t1 ≠ t2 → QUEUE w = [t2] → phase_of w t1 = Some Idle →
  ∃ w', run_executor fuel w = Diverged w'.
Proof.
  intros Hinv Hcalm Hne Hq Hid.
  cut (wp false (run_executor fuel) (λ _ _, False) (λ _ _, False) w).
  { unfold wp. destruct (run_executor fuel w); try done. eauto. }
  unfold run_executor.
  apply (wp_loop false (λ _ w, thread_inv hs w ∧ calm w ∧
           ∃ t1 t2, t1 ≠ t2 ∧ QUEUE w = [t2] ∧ phase_of w t1 = Some Idle) (λ _ _, 0));
    [|by eauto 10|done].
  clear w t1 t2 Hinv Hcalm Hne Hq Hid. intros _ w (Hinv & Hcalm & t1 & t2 & Hne & Hq & Hid).
  apply (wp_executor_round false hs); [done..|by rewrite Hq|].
  intros t q w' Hq1 Hinv' Hcalm' Hq' Hid' _. rewrite Hq in Hq1. simplify_eq.
  split; [|done]. split_and!; [done|done|]. exists t, t1. split_and!; [done| |done].
  destruct Hinv as [(_&_&Hs&_) _]. rewrite (idle_in_slot _ _ _ Hs Hid) in Hq'.
  rewrite Hq'. unfold wakes. rewrite decide_False by done.
  destruct (phase_of_lookup _ _ _ Hid) as (tk & -> & Hph).
  pose proof (phase_at_wake (task_header tk)) as Hw. rewrite Hph in Hw. simpl in Hw.
  by injection Hw as _ ->.
Qed.
End Progress.

(** ** Witnesses *)

(** No waker is registered with a socket. *)
Definition sim_no_wakers (ss : gmap nat SimTcp) : Prop :=
  map_Forall (λ _ s, Forall is_thread (st_send s) ∧ Forall is_thread (st_recv s)) ss.

#[export] Instance sim_thread_wakers : ThreadWakers (smol := sim) sim_no_wakers.
Proof.
  split; simpl.
  - unfold sim_poll. intros i ss t r i' ss' ws Heq HP. destruct (si_work i); simplify_eq.
    2:{ split; [done|constructor]. }
    split.
    + apply map_Forall_fmap. eapply map_Forall_impl; [exact HP|]. intros h s [Hsend Hrecv].
      unfold compose, sim_step; simpl. destruct (st_state s), (st_tx s); simpl; by repeat constructor.
    + apply Forall_concat, Forall_fmap, Forall_forall. intros [h s] Hin.
      apply elem_of_map_to_list in Hin. destruct (HP _ _ Hin).
      unfold sim_step; simpl. destruct (st_state s), (st_tx s); simpl; try apply Forall_app; done.
  - intros. simplify_eq. split; [done|constructor].
Qed.

(** Nobody else is there, or packets arrive whenever the lock is free. *)
Lemma sim_quiet_env (P : gmap nat SimTcp → Prop) : quiet_env (smol := sim) (envt := sim_quiet) P.
Proof.
  intros p w. do 4 (split; [done|]). unfold env, sim_quiet.
  destruct (data (NIC w)) as [| |nic]; [done..|]. by exists nic.
Qed.

Lemma sim_busy_env (P : gmap nat SimTcp → Prop) : quiet_env (smol := sim) (envt := sim_busy) P.
Proof.
  intros p w. unfold env, sim_busy.
  assert (Hst : ∀ st : NetworkState (smol := sim), data_goes_on P st st).
  { intros [| |nic]; [done..|]. by exists nic. }
  destruct p, (data (NIC w)) as [| |nic] eqn:Hd; rewrite ?Hd; (do 4 (split; [done|])); try apply Hst.
  simpl. eexists. split; [reflexivity|]. done.
Qed.

(** The network task is queued. *)
Definition sim_queued : World :=
  sim_world (sim_nic true {[0 := sim_socket SynSent]} None) Scheduled [0].

Lemma sim_queued_inv : thread_inv (at_ := sim_task) (λ h, h = 0) sim_queued.
Proof.
  split; [|by split; [|exists 0, (mkTask (at_ := sim_task) Scheduled NetworkRun)]].
  split_and!; [done|done| |].
  - split.
    + intros t p Hp. unfold phase_of, sim_queued, sim_world in Hp; simpl in Hp.
      destruct (decide (t = 0)) as [->|Ht].
      * rewrite lookup_singleton_eq in Hp. simplify_eq/=. rewrite qcount_cons_eq.
        f_equal; apply qcount_notin, not_elem_of_nil.
      * by rewrite lookup_singleton_ne in Hp.
    + intros t Hin. apply list_elem_of_singleton in Hin as ->. by eexists.
  - eexists. split; [done|]. intros h ->. by eexists.
Qed.

Lemma run_executor_ends_witness :
  thread_inv (λ h, h = 0) sim_queued ∧
  wp true (run_executor (envt := sim_busy) 2) (λ _ w',
    thread_inv (λ h, h = 0) w' ∧ calm sim_no_wakers w' ∧ QUEUE w' = [] ∧
    phase_of (at_ := sim_task) w' 0 = Some Idle ∧ slot_of (data (NIC w')) = Some (TaskWaker 0))
    (λ _ _, False) sim_queued.
Proof.
  split; [exact sim_queued_inv|].
  apply (run_executor_ends (envt := sim_busy) sim_no_wakers 2 (sim_busy_env _) _ 0).
  - intros _. constructor. exact sim_backlog.
  - constructor.
  - exact sim_queued_inv.
  - eexists. split; [reflexivity|]. apply (map_Forall_singleton (M := gmap nat)).
    split; constructor.
  - intros t Ht. unfold sim_queued, sim_world in Ht; simpl in Ht.
    destruct Ht as [tk Ht]. by apply lookup_singleton_Some in Ht as [<- _].
  - intros [Hr|Hr]; discriminate Hr.
Defined.

(** A second network task sleeps in the slot. *)
Definition sim_two_tasks : World :=
  set_tasks (insert 1 (mkTask (at_ := sim_task) Idle NetworkRun))
    (sim_world (sim_nic true ∅ (Some (TaskWaker 1))) Scheduled [0]).

Lemma sim_two_tasks_inv : thread_inv (at_ := sim_task) (λ _, False) sim_two_tasks.
Proof.
  split; [|by split; [|exists 0, (mkTask (at_ := sim_task) Scheduled NetworkRun)]].
  split_and!; [done|done| |by eexists; split; [done|intros h []]].
  split.
  - intros t p Hp. unfold phase_of, sim_two_tasks, sim_world in Hp; simpl in Hp.
    destruct (decide (t = 1)) as [->|Ht1]; [|destruct (decide (t = 0)) as [->|Ht]].
    + rewrite lookup_insert_eq in Hp. simplify_eq/=. split; [|done].
      rewrite qcount_cons_ne by done. apply qcount_notin, not_elem_of_nil.
    + rewrite lookup_insert_ne, lookup_singleton_eq in Hp by done. simplify_eq/=.
      rewrite qcount_cons_eq. f_equal; apply qcount_notin, not_elem_of_nil.
    + by rewrite lookup_insert_ne, lookup_singleton_ne in Hp.
  - intros t Hin. apply list_elem_of_singleton in Hin as ->. by eexists.
Qed.

Lemma two_network_tasks_livelock_witness :
  ∃ w', run_executor (envt := sim_busy) 50 sim_two_tasks = Diverged w'.
Proof.
  apply (two_network_tasks_livelock (envt := sim_busy) sim_no_wakers 50 (sim_busy_env _)
           (λ _, False) 1 0).
  - exact sim_two_tasks_inv.
  - eexists. split; [reflexivity|]. apply (map_Forall_empty (M := gmap nat)).
  - discriminate.
  - reflexivity.
  - reflexivity.
Defined.
