(* ===== verification/Utf8.v ===== *)
(** * [std::str::from_utf8]

    The check of the standard library that the address given to [connect] is
    UTF-8: bytes are [Z] in [0, 256), the well-formed sequences are those of
    table 3-7 of the Unicode standard. *)

From S2P Require Import Prelude.
#[local] Open Scope Z_scope.

Definition between (lo b hi : Z) : bool := (lo <=? b) && (b <=? hi).

(** The continuation bytes a leading byte asks for: the range of the first one, and
    how many more follow. *)
Definition lead (b : Z) : option (Z * Z * nat) :=
  if between 0xC2 b 0xDF then Some (0x80, 0xBF, 0%nat)
  else if b =? 0xE0 then Some (0xA0, 0xBF, 1%nat)
  else if between 0xE1 b 0xEC then Some (0x80, 0xBF, 1%nat)
  else if b =? 0xED then Some (0x80, 0x9F, 1%nat)
  else if between 0xEE b 0xEF then Some (0x80, 0xBF, 1%nat)
  else if b =? 0xF0 then Some (0x90, 0xBF, 2%nat)
  else if between 0xF1 b 0xF3 then Some (0x80, 0xBF, 2%nat)
  else if b =? 0xF4 then Some (0x80, 0x8F, 2%nat)
  else None.

(** [expect] is the range of the next byte when inside a sequence, with the number
    of bytes of [0x80..0xBF] that follow it. *)
Fixpoint utf8_scan (expect : option (Z * Z * nat)) (bs : list Z) : bool :=
  match bs, expect with
  | [], None => true
  | [], Some _ => false
  | b :: bs', None =>
      if between 0 b 0x7F then utf8_scan None bs'
      else match lead b with
           | Some e => utf8_scan (Some e) bs'
           | None => false
           end
  | b :: bs', Some (lo, hi, more) =>
      between lo b hi &&
      utf8_scan (match more with
                 | O => None
                 | S m => Some (0x80, 0xBF, m)
                 end) bs'
  end.

(** [from_utf8]: the same bytes, as a [&str]. *)
Definition from_utf8 (bs : list Z) : result (list Z) unit :=
  if utf8_scan None bs then Ok bs else Err tt.

Lemma utf8_scan_ascii bs :
  Forall (λ b, 0 ≤ b ≤ 127) bs → utf8_scan None bs = true.
Proof.
  induction 1 as [|b bs Hb _ IH]; [done|]. cbn -[between].
  replace (between 0 b 127) with true; [done|]. unfold between. lia.
Qed.

(** Every ASCII string is UTF-8. *)
Lemma from_utf8_ascii bs : Forall (λ b, 0 ≤ b ≤ 127) bs → from_utf8 bs = Ok bs.
Proof. intros H. unfold from_utf8. by rewrite utf8_scan_ascii. Qed.
