(* ===== verification/Socket.v ===== *)
(** * [hermit-sys/src/net/mod.rs], lines 171-343: [AsyncSocket]

    Every [async fn] is the state machine the compiler makes of it: a state per
    suspension point, and a poll function that runs to the next one. *)

From S2P Require Import Prelude Extern WakerReg State Sim Invariant Nic Executor Utf8.

(** [DEFAULT_KEEP_ALIVE_INTERVAL], in milliseconds. *)
Definition DEFAULT_KEEP_ALIVE_INTERVAL : Z := 75000.

(** What polling a finished [async fn] does. *)
Definition RESUMED : string := "`async fn` resumed after completion".

Section Socket.
Context {smol : Smoltcp} {kern : Kernel smol} {at_ : AsyncTask}
        {envt : Environment kern at_}.

(** [struct AsyncSocket(Handle)]; [From<Handle>] is the constructor. *)
Record AsyncSocket : Type := mkAsyncSocket { as_handle : SocketHandle }.

(** [AsyncSocket::new]. *)
Definition async_socket_new_body : M World AsyncSocket :=
  st ← gets (λ w, data (NIC w));
  nic ← unwrap_res "Network is not initialized!" (as_nic_mut st);
  let '(r, nic') := create_handle nic in
  _ ← modify (set_data (Initialized nic'));
  handle ← unwrap_res "create_handle" r;
  mret (mkAsyncSocket handle).

Definition async_socket_new : M World AsyncSocket := with_guard async_socket_new_body.

(** [AsyncSocket::with]: the socket behind the handle is passed to [f] under the
    lock of [NIC], then the network task is woken. *)
Definition with_body {R} (s : AsyncSocket) (f : TcpSocket → M World (R * TcpSocket))
    : M World R :=
  st ← gets (λ w, data (NIC w));
  nic ← unwrap_res "Network is not initialized!" (as_nic_mut st);
  sock ← unwrap_opt "handle does not refer to a valid socket"
           (sockets_get (sockets nic) (as_handle s));
  '(res, sock') ← f sock;
  let nic' := set_sockets (sockets_put (sockets nic) (as_handle s) sock') nic in
  nic'' ← nic_wake nic';
  _ ← modify (set_data (Initialized nic''));
  mret res.

Definition with_ {R} (s : AsyncSocket) (f : TcpSocket → M World (R * TcpSocket))
    : M World R := with_guard (with_body s f).

(** A smoltcp operation on a socket, with the wakers it wakes. *)
Definition sock_op {R} (x : R * TcpSocket * list Waker) : M World (R * TcpSocket) :=
  let '(r, s, woken) := x in
  _ ← wake_wakers woken;
  mret (r, s).

(** [s.register_send_waker(cx.waker()); Poll::Pending], and the same for receiving. *)
Definition pend_send {T} (s : TcpSocket) (cx : Waker) : M World (poll T * TcpSocket) :=
  let '(s', woken) := tcp_register_send_waker s cx in
  sock_op (Pending, s', woken).
Definition pend_recv {T} (s : TcpSocket) (cx : Waker) : M World (poll T * TcpSocket) :=
  let '(s', woken) := tcp_register_recv_waker s cx in
  sock_op (Pending, s', woken).
Definition ready {T} (s : TcpSocket) (t : T) : M World (poll T * TcpSocket) :=
  mret (Ready t, s).

(** [LOCAL_ENDPOINT.fetch_add(1, SeqCst)]: an [AtomicU16] wraps around. *)
Definition fetch_add_local_endpoint : M World Z := λ w,
  Done (LOCAL_ENDPOINT w) (set_LOCAL_ENDPOINT (λ p, wrap 16 (p + 1)) w).

(** The states that [read], [write] and [close] treat as closed. *)
Definition closed_state (st : TcpState) : bool :=
  match st with
  | FinWait1 | FinWait2 | Closed | Closing | TimeWait => true
  | _ => false
  end.

(** ** connect *)

Inductive ConnectState : Type :=
| ConnectStart (ip : list Z) (port : Z)
| ConnectWait
| ConnectDone.

Definition parse_address (ip : list Z) : result IpAddress SmolError :=
  result_bind (map_err (λ _, Illegal) (from_utf8 ip)) (λ str,
    match ip_from_str str with
    | Some address => Ok address
    | None => Err Illegal
    end).

(** The closure of [poll_fn] in [connect]. *)
Definition connect_check (s : AsyncSocket) (cx : Waker) (sock : TcpSocket)
    : M World (poll (result SocketHandle SmolError) * TcpSocket) :=
  match tcp_state sock with
  | Closed | TimeWait => ready sock (Err Unaddressable)
  | Listen => ready sock (Err Illegal)
  | SynSent | SynReceived => pend_send sock cx
  | _ => ready sock (Ok (as_handle s))
  end.

Definition connect_wait (s : AsyncSocket) (cx : Waker)
    : M World (ConnectState * poll (result SocketHandle SmolError)) :=
  p ← with_ s (connect_check s cx);
  mret (match p with Ready _ => ConnectDone | Pending => ConnectWait end, p).

(** The closure of the first [with] of [connect]. *)
Definition connect_op (address : IpAddress) (port : Z) (sock : TcpSocket)
    : M World (result unit SmolError * TcpSocket) :=
  local ← fetch_add_local_endpoint;
  sock_op (tcp_connect sock (address, port) local).

Definition connect_poll (s : AsyncSocket) (st : ConnectState) (cx : Waker)
    : M World (ConnectState * poll (result SocketHandle SmolError)) :=
  match st with
  | ConnectStart ip port =>
      match parse_address ip with
      | Err e => mret (ConnectDone, Ready (Err e))
      | Ok address =>
          r ← with_ s (connect_op address port);
          match r with
          | Err _ => mret (ConnectDone, Ready (Err Illegal))
          | Ok _ => connect_wait s cx
          end
      end
  | ConnectWait => connect_wait s cx
  | ConnectDone => panic RESUMED
  end.

Definition connect (s : AsyncSocket) (ip : list Z) (port : Z)
    : Fut (result SocketHandle SmolError) :=
  mkFut ConnectState (ConnectStart ip port) (connect_poll s).

(** ** accept *)

Inductive AcceptState : Type :=
| AcceptStart (port : Z)
| AcceptWait
| AcceptDone.

Definition accept_check (cx : Waker) (sock : TcpSocket)
    : M World (poll (result unit SmolError) * TcpSocket) :=
  if tcp_is_active sock then ready sock (Ok tt)
  else match tcp_state sock with
       | Closed | Closing | FinWait1 | FinWait2 => ready sock (Err Illegal)
       | _ => pend_recv sock cx
       end.

(** The tail of [accept]: the keep-alive timer and the address of the peer. *)
Definition accept_finish_body (s : AsyncSocket) : M World (result (IpAddress * Z) SmolError) :=
  st ← gets (λ w, data (NIC w));
  match as_nic_mut st with
  | Err _ => mret (Err Illegal)
  | Ok nic =>
      sock ← unwrap_opt "handle does not refer to a valid socket"
               (sockets_get (sockets nic) (as_handle s));
      let sock' := tcp_set_keep_alive sock
                     (Some (from_millis DEFAULT_KEEP_ALIVE_INTERVAL)) in
      _ ← modify (set_data (Initialized
            (set_sockets (sockets_put (sockets nic) (as_handle s) sock') nic)));
      mret (Ok (tcp_remote_endpoint sock'))
  end.

Definition accept_finish (s : AsyncSocket) : M World (result (IpAddress * Z) SmolError) :=
  with_guard (accept_finish_body s).

Definition accept_wait (s : AsyncSocket) (cx : Waker)
    : M World (AcceptState * poll (result (IpAddress * Z) SmolError)) :=
  p ← with_ s (accept_check cx);
  match p with
  | Pending => mret (AcceptWait, Pending)
  | Ready (Err e) => mret (AcceptDone, Ready (Err e))
  | Ready (Ok _) =>
      r ← accept_finish s;
      mret (AcceptDone, Ready r)
  end.

(** The closure of the first [with] of [accept]. *)
Definition listen_op (port : Z) (sock : TcpSocket)
    : M World (result unit SmolError * TcpSocket) :=
  '(r, sock') ← sock_op (tcp_listen sock port);
  mret (map_err (λ _, Illegal) r, sock').

Definition accept_poll (s : AsyncSocket) (st : AcceptState) (cx : Waker)
    : M World (AcceptState * poll (result (IpAddress * Z) SmolError)) :=
  match st with
  | AcceptStart port =>
      r ← with_ s (listen_op port);
      match r with
      | Err e => mret (AcceptDone, Ready (Err e))
      | Ok _ => accept_wait s cx
      end
  | AcceptWait => accept_wait s cx
  | AcceptDone => panic RESUMED
  end.

Definition accept (s : AsyncSocket) (port : Z) : Fut (result (IpAddress * Z) SmolError) :=
  mkFut AcceptState (AcceptStart port) (accept_poll s).

(** ** read

    The caller's buffer [&mut [u8]] is part of the state of the future and of its
    result. *)

Inductive ReadState : Type :=
| ReadWait (buffer : list Z)
| ReadDone.

Definition read_check (buffer : list Z) (cx : Waker) (sock : TcpSocket)
    : M World (poll (result nat SmolError * list Z) * TcpSocket) :=
  if closed_state (tcp_state sock) then ready sock (Err Illegal, buffer)
  else if tcp_can_recv sock then
    let '(r, buffer', sock', woken) := tcp_recv_slice sock buffer in
    sock_op (Ready (r, buffer'), sock', woken)
  else if negb (tcp_may_recv sock) then ready sock (Ok 0%nat, buffer)
  else pend_recv sock cx.

Definition read_poll (s : AsyncSocket) (st : ReadState) (cx : Waker)
    : M World (ReadState * poll (result nat SmolError * list Z)) :=
  match st with
  | ReadWait buffer =>
      p ← with_ s (read_check buffer cx);
      match p with
      | Ready (r, buffer') =>
          mret (ReadDone, Ready (map_err (λ _, Illegal) r, buffer'))
      | Pending => mret (ReadWait buffer, Pending)
      end
  | ReadDone => panic RESUMED
  end.

Definition read (s : AsyncSocket) (buffer : list Z) : Fut (result nat SmolError * list Z) :=
  mkFut ReadState (ReadWait buffer) (read_poll s).

(** ** write *)

Inductive WriteState : Type := WriteWait (buffer : list Z) | WriteDone.

Definition write_check (buffer : list Z) (cx : Waker) (sock : TcpSocket)
    : M World (poll (result nat SmolError) * TcpSocket) :=
  if closed_state (tcp_state sock) then ready sock (Err Illegal)
  else if negb (tcp_may_recv sock) then ready sock (Ok 0%nat)
  else if tcp_can_send sock then
    '(r, sock') ← sock_op (tcp_send_slice sock buffer);
    ready sock' (map_err (λ _, Illegal) r)
  else pend_send sock cx.

Definition write_poll (s : AsyncSocket) (st : WriteState) (cx : Waker)
    : M World (WriteState * poll (result nat SmolError)) :=
  match st with
  | WriteWait buffer =>
      p ← with_ s (write_check buffer cx);
      mret (match p with Ready _ => WriteDone | Pending => WriteWait buffer end, p)
  | WriteDone => panic RESUMED
  end.

Definition write (s : AsyncSocket) (buffer : list Z) : Fut (result nat SmolError) :=
  mkFut WriteState (WriteWait buffer) (write_poll s).

(** ** close *)

Inductive CloseState : Type :=
| CloseFlush   (* waiting for the send queue to drain *)
| CloseWait_   (* waiting for the socket to leave the open states *)
| CloseDone.

Definition flush_check (cx : Waker) (sock : TcpSocket)
    : M World (poll (result unit SmolError) * TcpSocket) :=
  if closed_state (tcp_state sock) then ready sock (Err Illegal)
  else if (0 <? tcp_send_queue sock)%Z then pend_send sock cx
  else
    let '(sock', woken) := tcp_close sock in
    sock_op (Ready (Ok tt), sock', woken).

Definition closed_check (cx : Waker) (sock : TcpSocket)
    : M World (poll (result unit SmolError) * TcpSocket) :=
  if closed_state (tcp_state sock) then ready sock (Ok tt)
  else pend_send sock cx.

Definition close_wait (s : AsyncSocket) (cx : Waker)
    : M World (CloseState * poll (result unit SmolError)) :=
  p ← with_ s (closed_check cx);
  mret (match p with Ready _ => CloseDone | Pending => CloseWait_ end, p).

Definition close_poll (s : AsyncSocket) (st : CloseState) (cx : Waker)
    : M World (CloseState * poll (result unit SmolError)) :=
  match st with
  | CloseFlush =>
      p ← with_ s (flush_check cx);
      match p with
      | Pending => mret (CloseFlush, Pending)
      | Ready (Err e) => mret (CloseDone, Ready (Err e))
      | Ready (Ok _) => close_wait s cx
      end
  | CloseWait_ => close_wait s cx
  | CloseDone => panic RESUMED
  end.

Definition close (s : AsyncSocket) : Fut (result unit SmolError) :=
  mkFut CloseState CloseFlush (close_poll s).
End Socket.

Arguments sock_op : simpl never.

(** ** Specifications *)

Section Spec.
Context {smol : Smoltcp} {kern : Kernel smol} {at_ : AsyncTask}
        {envt : Environment kern at_} {atl : AsyncTaskLaws at_}
        {laws : SmoltcpLaws smol}.
Implicit Types (w : World) (t : TaskId) (hs : SocketHandle → Prop) (s : AsyncSocket).

(** The socket behind a handle, as the next critical section will find it. *)
Definition socket_at w (h : SocketHandle) : option TcpSocket :=
  match data (NIC w) with
  | Initialized nic => sockets_get (sockets nic) h
  | _ => None
  end.

(** Nobody sleeps. *)
Definition nobody_sleeps w : Prop := ∀ t, phase_of w t ≠ Some Idle.

(** There is a network task, and each one is queued, exactly once, or runs. *)
Definition all_awake w : Prop :=
  alive w ∧ ∀ t, is_Some (tasks w !! t) →
    (phase_of w t = Some Scheduled ∧ qcount (QUEUE w) t = 1) ∨ running w t.

Lemma thread_inv_awake hs w : nobody_sleeps w → thread_inv hs w → all_awake w.
Proof.
  intros Hno (Hinv & _ & Ha). destruct (net_inv_no_task_lost hs w Hinv Ha) as [_ Hk].
  split; [done|]. intros t [?|[?|[Hi _]]]%Hk; [by left|by right|by destruct (Hno t)].
Qed.

Lemma handles_ok_put hs nic h sock :
  handles_ok hs nic → handles_ok hs (set_sockets (sockets_put (sockets nic) h sock) nic).
Proof.
  intros Hh h' Hin; simpl. destruct (decide (h = h')) as [<-|Hne].
  - destruct (Hh h Hin) as [s0 Hs]. erewrite sockets_get_put by done. eauto.
  - rewrite sockets_get_put_ne by done. by apply Hh.
Qed.

(** [AsyncSocket::with]: the closure works on the socket of the handle and may
    change only that one; afterwards the network task is awake. *)
Lemma with_section {R} tot hs s (f : TcpSocket → M World (R * TcpSocket))
    (Q : R → TcpSocket → Prop) w :
  net_inv hs w → hs (as_handle s) →
  (∀ sock nic w1, cs_inv hs nic w1 → socket_at w (as_handle s) = Some sock →
     wp tot (f sock) (λ r w', cs_step hs nic w1 w' ∧ Q r.1 r.2) (λ _ _, False) w1) →
  wp tot (critical (with_body s f)) (λ r w', section_step hs w w' ∧ nobody_sleeps w' ∧
    ∃ sock', socket_at w' (as_handle s) = Some sock' ∧ Q r sock') (λ _ _, False) w.
Proof.
  intros Hinv Hin Hf. apply (wp_critical tot hs); [done|].
  intros nic w1 Hd0 Hd Hcs Hst. unfold with_body. wp_run. rewrite Hd. wp_run.
  destruct (proj2 (proj2 (proj2 Hcs)) _ Hin) as [sock Hsock]. rewrite Hsock. wp_run.
  eapply wp_conseq; [apply (Hf sock nic); [done|unfold socket_at; by rewrite Hd0]|].
  intros [res sock'] w2 [[Hcs2 Hf2] HQ].
  set (nic' := set_sockets _ nic).
  assert (Hcs' : cs_inv hs nic' w2).
  { destruct Hcs2 as (?&?&?&?). split_and!; try done. by apply handles_ok_put. }
  wp_call (wp_nic_wake tot hs nic'). intros nic'' w3 (-> & [Hcs3 Hf3] & Hidle). wp_run.
  split_and!.
  - split; [by apply net_inv_store|]. etrans; [exact Hst|].
    etrans; [by apply frame_gentle|]. etrans; [by apply frame_gentle|]. done.
  - done.
  - exists sock'. split; [|done]. unfold socket_at; simpl. by eapply sockets_get_put.
Qed.

(** [accept_finish] and [sys_tcp_stream_peer_addr] store the socket back. *)
Lemma net_inv_put hs nic h sock w :
  cs_inv hs nic w →
  net_inv hs (nic_unlock false
    (set_data (Initialized (set_sockets (sockets_put (sockets nic) h sock) nic)) w)).
Proof.
  intros (?&?&?&?). apply net_inv_store. split_and!; try done. by apply handles_ok_put.
Qed.

Lemma accept_finish_section tot hs s w :
  net_inv hs w → hs (as_handle s) →
  wp tot (critical (accept_finish_body s)) (λ _, section_step hs w) (λ _ _, False) w.
Proof.
  intros Hinv Hin. apply (wp_critical tot hs); [done|].
  intros nic w1 _ Hd Hcs Hst. unfold accept_finish_body. wp_run. rewrite Hd. simpl.
  destruct (proj2 (proj2 (proj2 Hcs)) _ Hin) as [sock Hsock]. rewrite Hsock. wp_run.
  split; [by apply net_inv_put|done].
Qed.

(** [AsyncSocket::new] adds a socket that was not there. *)
Lemma async_socket_new_section tot hs w :
  net_inv hs w →
  wp tot (critical async_socket_new_body) (λ s w',
    section_step (λ h, hs h ∨ h = as_handle s) w w' ∧ ¬ hs (as_handle s)) (λ _ _, False) w.
Proof.
  intros Hinv. apply (wp_critical tot hs); [done|].
  intros nic w1 _ Hd Hcs Hst. unfold async_socket_new_body. wp_run. rewrite Hd. wp_run.
  unfold create_handle.
  destruct (sockets_add (sockets nic) (tcp_new 65535 65535)) as [h ss] eqn:Hadd. wp_run.
  pose proof (sockets_add_fresh (sockets nic) (tcp_new 65535 65535)) as Hfresh.
  pose proof (sockets_get_add (sockets nic) (tcp_new 65535 65535)) as Hget.
  pose proof (sockets_get_add_ne (sockets nic) (tcp_new 65535 65535)) as Hne.
  rewrite Hadd in Hfresh, Hget, Hne; simpl in *. destruct Hcs as (?&?&?&Hh).
  assert (Hnot : ¬ hs h).
  { intros Hin. destruct (Hh _ Hin) as [? ?]. congruence. }
  split; [|done]. split; [|done]. apply net_inv_store. split_and!; try done.
  intros h' Hin; simpl. destruct (decide (h' = h)) as [->|Hneq]; [by eauto|].
  rewrite Hne by done. destruct Hin; [by apply Hh|done].
Qed.

Context {envl : EnvLaws}.

Lemma wp_with {R} tot hs s (f : TcpSocket → M World (R * TcpSocket))
    (Q : R → TcpSocket → Prop) w :
  net_inv hs w → hs (as_handle s) →
  (∀ sock nic w1, cs_inv hs nic w1 → socket_at (env AtLock w) (as_handle s) = Some sock →
     wp tot (f sock) (λ r w', cs_step hs nic w1 w' ∧ Q r.1 r.2) (λ _ _, False) w1) →
  wp tot (with_ s f) (λ r w', step_inv hs w w' ∧ nobody_sleeps w' ∧
    ∃ sock', socket_at w' (as_handle s) = Some sock' ∧ Q r sock') (λ _ _, False) w.
Proof.
  intros Hinv Hin Hf. apply (wp_section tot hs (λ _, hs)); [done|].
  intros w1 Hinv1 Hd1. apply with_section; [done..|].
  intros sock nic w2 Hcs Hsock. apply (Hf sock nic); [done|].
  unfold socket_at in *. by rewrite Hd1 in Hsock.
Qed.

Lemma wp_async_socket_new tot hs w :
  net_inv hs w →
  wp tot async_socket_new (λ s w',
    step_inv (λ h, hs h ∨ h = as_handle s) w w' ∧ ¬ hs (as_handle s)) (λ _ _, False) w.
Proof.
  intros Hinv. apply (wp_section tot hs (λ s h, hs h ∨ h = as_handle s)); [done|].
  intros. by apply async_socket_new_section.
Qed.

(** A [poll_fn] closure: it stays in its critical section, and answers [Pending]
    only after it has left the waker of its context with the socket, among the wakers for
    sending or among those for receiving. *)
Inductive Direction : Type := ForSend | ForRecv.

Definition registered (d : Direction) (cx : Waker) (sock : TcpSocket) : Prop :=
  match d with ForSend => cx ∈ send_wakers sock | ForRecv => cx ∈ recv_wakers sock end.

Definition check_post {T} (d : Direction) (cx : Waker) (Q : T → Prop) (p : poll T)
    (sock : TcpSocket) : Prop :=
  match p with Ready t => Q t | Pending => registered d cx sock end.

Definition check_spec {T} (d : Direction) hs (cx : Waker) (sock : TcpSocket)
    (m : M World (poll T * TcpSocket)) (Q : T → Prop) : Prop :=
  ∀ tot nic w, cs_inv hs nic w →
    wp tot m (λ r w', cs_step hs nic w w' ∧ check_post d cx Q r.1 r.2) (λ _ _, False) w.

Lemma wp_sock_op {R} tot hs nic (x : R * TcpSocket * list Waker) w E :
  cs_inv hs nic w →
  wp tot (sock_op x) (λ r w', cs_step hs nic w w' ∧ r = x.1) E w.
Proof.
  intros Hcs. unfold sock_op. destruct x as [[r sock] ws].
  wp_call (wp_wake_wakers_cs tot hs nic). intros _ w' Hs. by wp_run.
Qed.

Lemma wp_connect_op tot hs nic address port sock w E :
  cs_inv hs nic w →
  wp tot (connect_op address port sock) (λ _ w', cs_step hs nic w w' ∧ True) E w.
Proof.
  intros Hcs. unfold connect_op. wp_run.
  eapply (wp_conseq _ _ (λ _, cs_step hs nic w)); [done|]. intros local w2 [Hcs2 Hf2].
  wp_call (wp_sock_op tot hs nic). intros r w3 [Hs3 _]. split; [|done].
  by eapply cs_step_trans.
Qed.

Lemma wp_listen_op tot hs nic port sock w E :
  cs_inv hs nic w → wp tot (listen_op port sock) (λ _ w', cs_step hs nic w w' ∧ True) E w.
Proof.
  intros Hcs. unfold listen_op. wp_call (wp_sock_op tot hs nic). intros [r s'] w2 [Hs _].
  by wp_run.
Qed.

Lemma check_ready {T} d hs cx sock (t : T) (Q : T → Prop) :
  Q t → check_spec d hs cx sock (ready sock t) Q.
Proof. intros HQ tot nic w Hcs. unfold ready. by wp_run. Qed.

Lemma check_op {T} d hs cx sock (x : T * TcpSocket * list Waker) (Q : T → Prop) :
  Q x.1.1 → check_spec d hs cx sock (sock_op (Ready x.1.1, x.1.2, x.2)) Q.
Proof.
  intros HQ tot nic w Hcs. wp_call (wp_sock_op tot hs nic). by intros r w' [Hs ->].
Qed.

Lemma check_pend_send {T} hs cx sock (Q : T → Prop) :
  check_spec ForSend hs cx sock (pend_send sock cx) Q.
Proof.
  intros tot nic w Hcs. unfold pend_send.
  pose proof (register_send_waker_in sock cx) as Hin.
  destruct (tcp_register_send_waker sock cx) as [sock' ws].
  wp_call (wp_sock_op tot hs nic). intros r w' [Hs ->]. by split.
Qed.

Lemma check_pend_recv {T} hs cx sock (Q : T → Prop) :
  check_spec ForRecv hs cx sock (pend_recv sock cx) Q.
Proof.
  intros tot nic w Hcs. unfold pend_recv.
  pose proof (register_recv_waker_in sock cx) as Hin.
  destruct (tcp_register_recv_waker sock cx) as [sock' ws].
  wp_call (wp_sock_op tot hs nic). intros r w' [Hs ->]. by split.
Qed.

#[local] Hint Resolve check_ready check_pend_send check_pend_recv : hermit.

Lemma connect_check_spec hs s cx sock :
  check_spec ForSend hs cx sock (connect_check s cx sock)
    (λ r, match r with Ok h => h = as_handle s | Err _ => True end).
Proof. unfold connect_check. destruct (tcp_state sock); auto with hermit. Qed.

Lemma accept_check_spec hs cx sock : check_spec ForRecv hs cx sock (accept_check cx sock) (λ _, True).
Proof.
  unfold accept_check. destruct (tcp_is_active sock); [auto with hermit|].
  destruct (tcp_state sock); auto with hermit.
Qed.

(** What [read] promises about the caller's buffer. *)
Definition read_result (buffer : list Z) (r : result nat SmolError * list Z) : Prop :=
  length r.2 = length buffer ∧
  match r.1 with
  | Ok n => n ≤ length buffer ∧ drop n r.2 = drop n buffer
  | Err _ => r.2 = buffer
  end.

Lemma read_check_spec hs buffer cx sock :
  check_spec ForRecv hs cx sock (read_check buffer cx sock) (read_result buffer).
Proof.
  unfold read_check. destruct (closed_state (tcp_state sock)); [by apply check_ready|].
  destruct (tcp_can_recv sock).
  - destruct (tcp_recv_slice sock buffer) as [[[r b'] s'] ws] eqn:Hrecv.
    apply (check_op _ hs cx sock (r, b', s', ws)). destruct r as [n|e].
    + destruct (recv_slice_spec _ _ _ _ _ _ Hrecv) as (?&?&?). by split_and!.
    + rewrite (recv_slice_err _ _ _ _ _ _ Hrecv). by split.
  - destruct (negb (tcp_may_recv sock)); [|auto with hermit].
    apply check_ready. split; [done|]. split; [apply Nat.le_0_l|done].
Qed.

Definition write_result (buffer : list Z) (r : result nat SmolError) : Prop :=
  match r with Ok n => n ≤ length buffer | Err e => e = Illegal end.

Lemma write_check_spec hs buffer cx sock :
  check_spec ForSend hs cx sock (write_check buffer cx sock) (write_result buffer).
Proof.
  unfold write_check. destruct (closed_state (tcp_state sock)); [by apply check_ready|].
  destruct (negb (tcp_may_recv sock)); [apply check_ready; apply Nat.le_0_l|].
  destruct (tcp_can_send sock); [|auto with hermit].
  intros tot nic w Hcs. wp_call (wp_sock_op tot hs nic). intros [r s'] w' [Hs Hr].
  unfold ready. wp_run. split; [done|].
  destruct (tcp_send_slice sock buffer) as [[r0 s0] ws] eqn:Hsend. simplify_eq/=.
  destruct r0 as [n|e]; [|done]. by eapply send_slice_spec.
Qed.

Lemma flush_check_spec hs cx sock : check_spec ForSend hs cx sock (flush_check cx sock) (λ _, True).
Proof.
  unfold flush_check. destruct (closed_state (tcp_state sock)); [by apply check_ready|].
  destruct (0 <? tcp_send_queue sock)%Z; [auto with hermit|].
  destruct (tcp_close sock) as [s' ws].
  by apply (check_op _ hs cx sock (Ok tt, s', ws)).
Qed.

Lemma closed_check_spec hs cx sock : check_spec ForSend hs cx sock (closed_check cx sock) (λ _, True).
Proof. unfold closed_check. destruct (closed_state (tcp_state sock)); auto with hermit. Qed.

(** The state after an access to the socket that answered [p]. *)
Definition access_post {T} d hs s cx (Q : T → Prop) w (p : poll T) w' : Prop :=
  step_inv hs w w' ∧ nobody_sleeps w' ∧
  match p with
  | Ready t => Q t
  | Pending => ∃ sock, socket_at w' (as_handle s) = Some sock ∧ registered d cx sock
  end.

Lemma wp_with_check {T} tot d hs s cx
    (f : TcpSocket → M World (poll T * TcpSocket)) (Q : T → Prop) w :
  net_inv hs w → hs (as_handle s) →
  (∀ sock, check_spec d hs cx sock (f sock) Q) →
  wp tot (with_ s f) (access_post d hs s cx Q w) (λ _ _, False) w.
Proof.
  intros Hinv Hin Hf.
  eapply wp_conseq; [apply (wp_with tot hs s f (check_post d cx Q)); [done..|]|].
  - intros sock nic w1 Hcs _. by apply Hf.
  - intros p w' (Hs & Haw & sock & Hsock & Hp). split_and!; [done|done|].
    destruct p; [done|]. by exists sock.
Qed.

Lemma access_thread_inv {T} d hs s cx (Q : T → Prop) w p w' :
  thread_inv hs w → access_post d hs s cx Q w p w' → thread_inv hs w'.
Proof. intros [_ Hc] (Hs & _). by eapply thread_inv_step. Qed.

(** ** The futures *)

(** A poll of a future: an access to its socket may follow other steps, so the
    state before is any state the thread has reached. *)
Definition poll_post {S T} d hs s cx (Q : T → Prop) (live : S → Prop)
    (r : S * poll T) w' : Prop :=
  thread_inv hs w' ∧
  match r.2 with
  | Ready t => Q t
  | Pending => live r.1 ∧ all_awake w' ∧
      ∃ sock, socket_at w' (as_handle s) = Some sock ∧ registered d cx sock
  end.

Definition connect_live (st : ConnectState) : Prop := st ≠ ConnectDone.
Definition accept_live (st : AcceptState) : Prop := st ≠ AcceptDone.
Definition read_live (buffer : list Z) (st : ReadState) : Prop := st = ReadWait buffer.
Definition write_live (buffer : list Z) (st : WriteState) : Prop := st = WriteWait buffer.
Definition close_live (st : CloseState) : Prop := st ≠ CloseDone.

Definition connect_result s (r : result SocketHandle SmolError) : Prop :=
  match r with Ok h => h = as_handle s | Err _ => True end.

Lemma wp_connect_wait tot hs s cx w :
  hs (as_handle s) → thread_inv hs w →
  wp tot (connect_wait s cx) (poll_post ForSend hs s cx (connect_result s) connect_live)
    (λ _ _, False) w.
Proof.
  intros Hin Hinv. unfold connect_wait.
  wp_call (wp_with_check tot _ hs s cx _ (connect_result s) w (proj1 Hinv) Hin
             (connect_check_spec hs s cx)).
  intros p w' Hp. pose proof (access_thread_inv _ _ _ _ _ _ _ _ Hinv Hp).
  destruct Hp as (_ & Haw & Hp); apply (thread_inv_awake hs) in Haw; [|done]. wp_run. by destruct p.
Qed.

Lemma wp_connect_poll tot hs s st cx w :
  hs (as_handle s) → connect_live st → thread_inv hs w →
  wp tot (connect_poll s st cx) (poll_post ForSend hs s cx (connect_result s) connect_live)
    (λ _ _, False) w.
Proof.
  intros Hin Hst Hinv. destruct st as [ip port| |]; simpl; [|by apply wp_connect_wait|done].
  destruct (parse_address ip) as [address|e]; [|by wp_run].
  wp_run. eapply wp_conseq; [apply (wp_with tot hs s _ (λ _ _, True)); [apply Hinv|done|]|].
  - intros. by apply wp_connect_op.
  - cbv beta. intros r w1 (Hs & _). pose proof (thread_inv_step _ _ _ (proj2 Hinv) Hs).
    destruct r; [by apply wp_connect_wait|by wp_run].
Qed.

Lemma wp_accept_finish tot hs s w :
  net_inv hs w → hs (as_handle s) →
  wp tot (accept_finish s) (λ _, step_inv hs w) (λ _ _, False) w.
Proof.
  intros Hinv Hin. apply wp_section0; [done|]. intros. by apply accept_finish_section.
Qed.

Lemma wp_accept_wait tot hs s cx w :
  hs (as_handle s) → thread_inv hs w →
  wp tot (accept_wait s cx) (poll_post ForRecv hs s cx (λ _, True) accept_live) (λ _ _, False) w.
Proof.
  intros Hin Hinv. unfold accept_wait.
  wp_call (wp_with_check tot _ hs s cx _ (λ _, True) w (proj1 Hinv) Hin
             (accept_check_spec hs cx)).
  intros p w' Hp. pose proof (access_thread_inv _ _ _ _ _ _ _ _ Hinv Hp) as Hinv'.
  destruct Hp as (_ & Haw & Hp); apply (thread_inv_awake hs) in Haw; [|done]. destruct p as [[]|]; [|by wp_run..].
  wp_call (wp_accept_finish tot hs s w' (proj1 Hinv') Hin). intros r w2 Hs. wp_run.
  split; [|done]. by eapply thread_inv_step; [apply Hinv'|].
Qed.

Lemma wp_accept_poll tot hs s st cx w :
  hs (as_handle s) → accept_live st → thread_inv hs w →
  wp tot (accept_poll s st cx) (poll_post ForRecv hs s cx (λ _, True) accept_live) (λ _ _, False) w.
Proof.
  intros Hin Hst Hinv. destruct st as [port| |]; simpl; [|by apply wp_accept_wait|done].
  wp_run. eapply wp_conseq; [apply (wp_with tot hs s _ (λ _ _, True)); [apply Hinv|done|]|].
  - intros. by apply wp_listen_op.
  - cbv beta. intros r w1 (Hs & _). pose proof (thread_inv_step _ _ _ (proj2 Hinv) Hs).
    destruct r; [by apply wp_accept_wait|by wp_run].
Qed.

Lemma wp_read_poll tot hs s buffer cx w :
  hs (as_handle s) → thread_inv hs w →
  wp tot (read_poll s (ReadWait buffer) cx)
    (poll_post ForRecv hs s cx (λ r, read_result buffer r ∧
       ∀ e, r.1 = Err e → e = Illegal) (read_live buffer)) (λ _ _, False) w.
Proof.
  intros Hin Hinv. simpl.
  wp_call (wp_with_check tot _ hs s cx _ (read_result buffer) w (proj1 Hinv) Hin
             (read_check_spec hs buffer cx)).
  intros p w' Hp. pose proof (access_thread_inv _ _ _ _ _ _ _ _ Hinv Hp) as Hinv'.
  destruct Hp as (_ & Haw & Hp); apply (thread_inv_awake hs) in Haw; [|done]. destruct p as [[r b']|]; wp_run; [|done].
  split; [done|]. split; [|intros e He; by destruct r; simplify_eq/=].
  destruct Hp as [Hl Hp]. split; [done|]. by destruct r.
Qed.

Lemma wp_write_poll tot hs s buffer cx w :
  hs (as_handle s) → thread_inv hs w →
  wp tot (write_poll s (WriteWait buffer) cx)
    (poll_post ForSend hs s cx (write_result buffer) (write_live buffer)) (λ _ _, False) w.
Proof.
  intros Hin Hinv. simpl.
  wp_call (wp_with_check tot _ hs s cx _ (write_result buffer) w (proj1 Hinv) Hin
             (write_check_spec hs buffer cx)).
  intros p w' Hp. pose proof (access_thread_inv _ _ _ _ _ _ _ _ Hinv Hp) as Hinv'.
  destruct Hp as (_ & Haw & Hp); apply (thread_inv_awake hs) in Haw; [|done]. wp_run. by destruct p.
Qed.

Lemma wp_close_wait tot hs s cx w :
  hs (as_handle s) → thread_inv hs w →
  wp tot (close_wait s cx) (poll_post ForSend hs s cx (λ _, True) close_live) (λ _ _, False) w.
Proof.
  intros Hin Hinv. unfold close_wait.
  wp_call (wp_with_check tot _ hs s cx _ (λ _, True) w (proj1 Hinv) Hin
             (closed_check_spec hs cx)).
  intros p w' Hp. pose proof (access_thread_inv _ _ _ _ _ _ _ _ Hinv Hp).
  destruct Hp as (_ & Haw & Hp); apply (thread_inv_awake hs) in Haw; [|done]. wp_run. by destruct p.
Qed.

Lemma wp_close_poll tot hs s st cx w :
  hs (as_handle s) → close_live st → thread_inv hs w →
  wp tot (close_poll s st cx) (poll_post ForSend hs s cx (λ _, True) close_live) (λ _ _, False) w.
Proof.
  intros Hin Hst Hinv. destruct st; simpl; [|by apply wp_close_wait|done].
  wp_call (wp_with_check tot _ hs s cx _ (λ _, True) w (proj1 Hinv) Hin
             (flush_check_spec hs cx)).
  intros p w' Hp. pose proof (access_thread_inv _ _ _ _ _ _ _ _ Hinv Hp).
  destruct Hp as (_ & Haw & Hp); apply (thread_inv_awake hs) in Haw; [|done].
  destruct p as [[]|]; [by apply wp_close_wait|by wp_run..].
Qed.

Lemma poll_post_step {S T} d hs s cx (Q : T → Prop) (live : S → Prop) r w' :
  poll_post d hs s cx Q live r w' →
  thread_inv hs w' ∧ match r.2 with Ready t => Q t | Pending => live r.1 end.
Proof. intros [? Hr]. split; [done|]. destruct r.2; [done|apply Hr]. Qed.

(** The blocking calls may drive these futures. *)
Program Definition connect_fut hs s ip port (Hin : hs (as_handle s)) :
    fut_spec hs (connect s ip port) (connect_result s) :=
  {| fs_inv := connect_live |}.
Next Obligation. done. Qed.
Next Obligation.
  intros. eapply wp_conseq; [by apply wp_connect_poll|].
  intros r w'. apply poll_post_step.
Qed.

Program Definition accept_fut hs s port (Hin : hs (as_handle s)) :
    fut_spec hs (accept s port) (λ _, True) := {| fs_inv := accept_live |}.
Next Obligation. done. Qed.
Next Obligation.
  intros. eapply wp_conseq; [by apply wp_accept_poll|].
  intros r w'. apply poll_post_step.
Qed.

Program Definition read_fut hs s buffer (Hin : hs (as_handle s)) :
    fut_spec hs (read s buffer) (λ r, read_result buffer r ∧ ∀ e, r.1 = Err e → e = Illegal) :=
  {| fs_inv := read_live buffer |}.
Next Obligation. done. Qed.
Next Obligation.
  intros hs s buffer Hin st cx w -> Hinv. eapply wp_conseq; [by apply wp_read_poll|].
  intros r w'. apply poll_post_step.
Qed.

Program Definition write_fut hs s buffer (Hin : hs (as_handle s)) :
    fut_spec hs (write s buffer) (write_result buffer) := {| fs_inv := write_live buffer |}.
Next Obligation. done. Qed.
Next Obligation.
  intros hs s buffer Hin st cx w -> Hinv. eapply wp_conseq; [by apply wp_write_poll|].
  intros r w'. apply poll_post_step.
Qed.

Program Definition close_fut hs s (Hin : hs (as_handle s)) :
    fut_spec hs (close s) (λ _, True) := {| fs_inv := close_live |}.
Next Obligation. done. Qed.
Next Obligation.
  intros. eapply wp_conseq; [by apply wp_close_poll|].
  intros r w'. apply poll_post_step.
Qed.
End Spec.

(** ** Properties *)

Section Properties.
Context {smol : Smoltcp} {kern : Kernel smol} {at_ : AsyncTask}
        {envt : Environment kern at_} {atl : AsyncTaskLaws at_}
        {laws : SmoltcpLaws smol} {envl : EnvLaws}.
Implicit Types (hs : SocketHandle → Prop) (s : AsyncSocket).

(** C2: A poll of any of the five socket futures ends without panic or deadlock.
    When it answers [Pending], the waker of its context is registered with the
    socket - for sending by [connect], [write] and [close], for receiving by [accept] and
    [read] - so that no later event goes unnoticed; there is a network task, and every
    one is either scheduled and in the queue exactly once or being run, so that the
    interface will be polled. *)
Theorem pending_means_registered hs s cx w :
  hs (as_handle s) → thread_inv hs w →
  (∀ st, connect_live st →
     wp true (connect_poll s st cx) (poll_post ForSend hs s cx (connect_result s) connect_live)
       (λ _ _, False) w) ∧
  (∀ st, accept_live st →
     wp true (accept_poll s st cx) (poll_post ForRecv hs s cx (λ _, True) accept_live)
       (λ _ _, False) w) ∧
  (∀ buffer, wp true (read_poll s (ReadWait buffer) cx)
     (poll_post ForRecv hs s cx (λ r, read_result buffer r ∧ ∀ e, r.1 = Err e → e = Illegal)
        (read_live buffer)) (λ _ _, False) w) ∧
  (∀ buffer, wp true (write_poll s (WriteWait buffer) cx)
     (poll_post ForSend hs s cx (write_result buffer) (write_live buffer)) (λ _ _, False) w) ∧
  (∀ st, close_live st →
     wp true (close_poll s st cx) (poll_post ForSend hs s cx (λ _, True) close_live)
       (λ _ _, False) w).
Proof.
  intros Hin Hinv. split_and!; intros.
  - by apply wp_connect_poll.
  - by apply wp_accept_poll.
  - by apply wp_read_poll.
  - by apply wp_write_poll.
  - by apply wp_close_poll.
Qed.

(** [close] hands the socket to smoltcp's [close] exactly when it is in an open
    state and everything written has left the send queue; it fails on a socket that
    is already closing, and otherwise waits. *)
Theorem close_flushes_first cx sock w p sock' w' :
  flush_check cx sock w = Done (p, sock') w' →
  match p with
  | Ready (Ok _) => closed_state (tcp_state sock) = false ∧
                    (tcp_send_queue sock ≤ 0)%Z ∧ sock' = (tcp_close sock).1
  | Ready (Err e) => closed_state (tcp_state sock) = true ∧ e = Illegal ∧ sock' = sock
  | Pending => closed_state (tcp_state sock) = false ∧ (0 < tcp_send_queue sock)%Z ∧
               sock' = (tcp_register_send_waker sock cx).1
  end.
Proof.
  unfold flush_check. destruct (closed_state (tcp_state sock)) eqn:Hc; [by intros [= <- <- _]|].
  unfold pend_send, sock_op.
  destruct (Z.ltb_spec 0 (tcp_send_queue sock)) as [Hq|Hq].
  - destruct (tcp_register_send_waker sock cx) as [s1 ws].
    intros (? & ? & _ & H)%bind_done. by injection H as <- <- _.
  - destruct (tcp_close sock) as [s1 ws].
    intros (? & ? & _ & H)%bind_done. by injection H as <- <- _.
Qed.

(** C30: [write] asks whether the socket may still receive: once the peer has closed
    its half of the connection and its data has been read, a write answers
    [Ok(0)] and sends nothing, although the send half is open and has room. *)
Theorem write_stops_at_half_close s buffer cx w sock hs :
  thread_inv hs w → hs (as_handle s) →
  socket_at (env AtLock w) (as_handle s) = Some sock →
  tcp_state sock = CloseWait → tcp_may_recv sock = false → tcp_can_send sock = true →
  wp true (write_poll s (WriteWait buffer) cx) (λ r w',
    r = (WriteDone, Ready (Ok 0)) ∧ socket_at w' (as_handle s) = Some sock) (λ _ _, False) w.
Proof.
  intros [Hinv _] Hin Hsock Hst Hmay Hcan. simpl.
  wp_run. eapply wp_conseq.
  { apply (wp_with true hs s _ (λ r sock', r = Ready (Ok 0) ∧ sock' = sock)); [done..|].
    intros sock1 nic w1 Hcs Hsock1. rewrite Hsock in Hsock1. simplify_eq.
    unfold write_check. rewrite Hst, Hmay. simpl. unfold ready. by wp_run. }
  cbv beta. intros p w' (_ & _ & sock' & Hsock' & -> & ->). by wp_run.
Qed.

(** An address that is not UTF-8 or that smoltcp cannot parse makes [connect]
    answer [Illegal] at once: no lock is taken, no local port is used up, the
    state is unchanged. *)
Theorem connect_bad_address s ip port cx w :
  (from_utf8 ip = Err tt ∨ ip_from_str ip = None) →
  connect_poll s (ConnectStart ip port) cx w = Done (ConnectDone, Ready (Err Illegal)) w.
Proof.
  intros Hbad. simpl. unfold parse_address, result_bind.
  destruct (from_utf8 ip) as [str|[]] eqn:Hu; simpl; [|done].
  assert (str = ip) as -> by (unfold from_utf8 in Hu; by destruct (utf8_scan None ip); simplify_eq).
  destruct Hbad as [?|Hnone]; [done|]. by rewrite Hnone.
Qed.

End Properties.

(** ** Witnesses *)

Definition sim_sock (s : AsyncSocket (smol := sim)) (tcp : SimTcp) : World :=
  sim_ready {[ as_handle s := tcp ]}.

Lemma sim_sock_inv s tcp :
  thread_inv (at_ := sim_task) (λ h, h = as_handle s) (sim_sock s tcp).
Proof. apply sim_ready_thread_inv. intros h ->. rewrite lookup_singleton_eq. by eexists. Defined.

Lemma pending_means_registered_witness :
  let s := mkAsyncSocket (smol := sim) 3 in
  let w := sim_sock s (sim_socket SynSent) in
  thread_inv (λ h, h = as_handle s) w ∧
  wp true (connect_poll (envt := sim_quiet) s ConnectWait (ThreadWaker 5%Z))
    (poll_post ForSend (λ h, h = as_handle s) s (ThreadWaker 5%Z) (connect_result s) connect_live)
    (λ _ _, False) w.
Proof.
  intros s w. pose proof (sim_sock_inv s (sim_socket SynSent)) as Hinv.
  split; [exact Hinv|].
  apply (proj1 (pending_means_registered (λ h, h = as_handle s) s (ThreadWaker 5%Z) w eq_refl Hinv)).
  discriminate.
Defined.

Lemma close_flushes_first_witness :
  let w := sim_sock (mkAsyncSocket 3) (sim_socket Established) in
  let sock := sim_socket Established in
  let sock' := sim_set_state FinWait1 sock in
  flush_check (envt := sim_quiet) (ThreadWaker 5%Z) sock w = Done (Ready (Ok tt), sock') w ∧
  closed_state (tcp_state sock) = false.
Proof.
  intros w sock sock'.
  assert (Hrun : flush_check (envt := sim_quiet) (ThreadWaker 5%Z) sock w
                 = Done (Ready (Ok tt), sock') w) by reflexivity.
  split; [exact Hrun|].
  exact (proj1 (close_flushes_first (ThreadWaker 5%Z) sock w _ sock' w Hrun)).
Defined.

Lemma write_stops_at_half_close_witness :
  let s := mkAsyncSocket (smol := sim) 3 in
  let sock := sim_socket CloseWait in
  wp true (write_poll (envt := sim_quiet) s (WriteWait [1; 2]%Z) (ThreadWaker 5%Z)) (λ r w',
    r = (WriteDone, Ready (Ok 0)) ∧ socket_at w' 3 = Some sock) (λ _ _, False) (sim_sock s sock).
Proof.
  intros s sock.
  exact (write_stops_at_half_close s [1; 2]%Z (ThreadWaker 5%Z) (sim_sock s sock) sock
           (λ h, h = as_handle s) (sim_sock_inv s sock) eq_refl eq_refl eq_refl eq_refl eq_refl).
Defined.

Lemma connect_bad_address_witness :
  let s := mkAsyncSocket (smol := sim) 3 in
  let w := sim_sock s sim_new in
  connect_poll (envt := sim_quiet) s (ConnectStart [255%Z] 80) (ThreadWaker 5%Z) w
  = Done (ConnectDone, Ready (Err Illegal)) w.
Proof.
  intros s w.
  exact (connect_bad_address s [255%Z] 80 (ThreadWaker 5%Z) w (or_introl eq_refl)).
Defined.
