(* ===== verification/Moves.v ===== *)
(** * What the computations of a thread do to the world

    A relation between worlds that is a preorder and holds of every elementary step holds of
    every computation of the network stack that returns.  The instances follow the structure of
    the program; Trace, Timeout and ParkLink choose the relation. *)

From S2P Require Import Prelude Extern WakerReg State Invariant Nic Executor Socket.

(** Shows a step of the thread's own that leaves the tasks alone. *)
Ltac own := by split_and!.

Section Moves.
Context {smol : Smoltcp} {kern : Kernel smol} {at_ : AsyncTask}
        {envt : Environment kern at_}.
Implicit Types (w : World) (t : TaskId).

(** A step of the thread's own: it makes no system call, does not read the clock, creates no
    task and touches neither a flag nor the lock nor the counter of the local ports. *)
Definition own_step w w' : Prop :=
  klog w' = klog w ∧ kernel w' = kernel w ∧
  (∀ t, is_Some (tasks w' !! t) → is_Some (tasks w !! t)) ∧
  notifies w' = notifies w ∧ locked (NIC w') = locked (NIC w) ∧
  LOCAL_ENDPOINT w' = LOCAL_ENDPOINT w.

(** The points at which a thread that does not wait gives way to the others. *)
Definition busy_point (p : Point) : Prop :=
  match p with
  | AtLock | AtPop | AtSwap | AtCall (sys_wakeup_task _) => True
  | _ => False
  end.

(** The steps of a thread below the blocking calls. *)
Class Steps (R : relation World) : Prop := {
  #[global] steps_preorder :: PreOrder R;
  steps_own w w' : own_step w w' → R w w';
  steps_clock w : R w (set_kernel (λ _, (clock_now (kernel w)).2) w);
  steps_env p w w' : busy_point p → interfere p w = Done tt w' → R w w';
  steps_wakeup tid w : R w (set_klog (λ l, l ++ [sys_wakeup_task tid]) w);
  (* a flag is set by [wake_by_ref] *)
  steps_set_flag tid tn w :
    notifies w !! tid = Some tn →
    R w (set_notifies (insert tid (mkThreadNotify (tn_thread tn) true)) w);
  (* a critical section *)
  steps_section w w' :
    locked (NIC w) = false → R (set_NIC (λ m, mkNicMutex true (poisoned m) (data m)) w) w' →
    R w (nic_unlock false w');
}.

(** The steps of the blocking calls, too. *)
Class AllSteps (R : relation World) : Prop := {
  #[global] all_steps :: Steps R;
  all_env p w w' : interfere p w = Done tt w' → R w w';
  all_notifies f w : R w (set_notifies f w);
}.

(** The relation does not mind the counter of the local ports. *)
Class PortSteps (R : relation World) : Prop :=
  steps_port f w : R w (set_LOCAL_ENDPOINT f w).

Class Moves (R : relation World) {A} (m : M World A) : Prop :=
  moves : ∀ w a w', m w = Done a w' → R w w'.

Lemma moves_weaken (R R' : relation World) {A} (m : M World A) :
  (∀ w w', R w w' → R' w w') → Moves R m → Moves R' m.
Proof. intros Hsub Hm w a w' H. by eapply Hsub, Hm. Qed.

(** The relation joins what is known of a computation. *)
Lemma wp_moves (R : relation World) {A} tot (m : M World A) (Q : A → World → Prop) E w :
  Moves R m → wp tot m Q E w → wp tot m (λ a w', Q a w' ∧ R w w') E w.
Proof. intros Hm HQ. eapply wp_returned; [exact HQ|]. intros a w'. apply Hm. Qed.

Section Walk.
Context {R : relation World} {po : PreOrder R}.

#[export] Instance moves_bind {A B} (m : M World A) (k : A → M World B) :
  Moves R m → (∀ a, Moves R (k a)) → Moves R (m ≫= k).
Proof.
  intros Hm Hk w b w' (a & w1 & H1 & H2)%bind_done. etrans; [by eapply Hm|by eapply Hk].
Qed.

Lemma moves_same {A} (m : M World A) : (∀ w a w', m w = Done a w' → w' = w) → Moves R m.
Proof. intros Hm w a w' ->%Hm. done. Qed.

#[export] Instance moves_ret {A} (a : A) : Moves R (mret a).
Proof. apply moves_same. by intros w b w' [= _ <-]. Qed.

#[export] Instance moves_loop {S T} n (body : S → M World (S + T)) s :
  (∀ s, Moves R (body s)) → Moves R (loop n body s).
Proof.
  intros Hb. revert s. induction n as [|n IH]; intros s; simpl; [by intros ???|].
  apply moves_bind; [done|]. intros [s'|r]; [apply IH|apply moves_ret].
Qed.

#[export] Instance moves_gets {A} (f : World → A) : Moves R (gets f).
Proof. apply moves_same. by intros w b w' [= _ <-]. Qed.

#[export] Instance moves_panic {A} msg : Moves R (panic (A := A) msg).
Proof. by intros w b w'. Qed.

#[export] Instance moves_unwrap_opt {A} msg (o : option A) : Moves R (unwrap_opt msg o).
Proof. destruct o; simpl; apply _. Qed.

#[export] Instance moves_unwrap_res {A E} msg (r : result A E) : Moves R (unwrap_res msg r).
Proof. destruct r; simpl; apply _. Qed.
End Walk.

Context {R : relation World} {st : Steps R}.

Lemma moves_own {A} (m : M World A) :
  (∀ w a w', m w = Done a w' → own_step w w') → Moves R m.
Proof. intros Hm w a w' H. by eapply steps_own, Hm. Qed.

Lemma moves_modify f : (∀ w, own_step w (f w)) → Moves R (modify f).
Proof. intros Hf. apply moves_own. intros w b w' [= _ <-]. apply Hf. Qed.

Lemma moves_interfere p : busy_point p → Moves R (interfere p).
Proof. intros Hp w [] w' H. by eapply steps_env. Qed.

#[export] Instance moves_instant_now : Moves R instant_now.
Proof.
  intros w a w'. unfold instant_now. pose proof (steps_clock w) as Hs.
  destruct (clock_now (kernel w)). by intros [= _ <-].
Qed.

#[export] Instance moves_with_guard {A} (body : M World A) : Moves R body → Moves R (with_guard body).
Proof.
  intros Hb w a w' ([] & w1 & ([] & w2 & H2 & H1)%bind_done & H)%bind_done.
  etrans; [by eapply (moves_interfere AtLock)|]. unfold nic_acquire, guarded, prim in *.
  destruct (locked (NIC w2)) eqn:Hl; [done|]. destruct (poisoned (NIC w2)); [done|].
  injection H1 as <-. destruct (body _) eqn:Hbody; try done. injection H as <- <-.
  apply steps_section; [done|]. by eapply Hb.
Qed.

Lemma moves_syscall c :
  busy_point (AtCall c) → (∀ w, R w (set_klog (λ l, l ++ [c]) w)) → Moves R (syscall c).
Proof.
  intros Hp Hc w a w' ([] & w1 & [= <-] & H2)%bind_done. etrans; [apply Hc|].
  destruct a. by eapply steps_env.
Qed.

(** The swap of [wake_by_ref]. *)
#[export] Instance moves_unparked_set tid : Moves R (unparked_swap tid true).
Proof.
  apply moves_bind; [by apply moves_interfere|]. intros _ w a w'. unfold prim.
  destruct (notifies w !! tid) as [tn|] eqn:Hn; intros [= _ <-]; [by apply steps_set_flag|done].
Qed.

#[export] Instance moves_queue_pop : Moves R queue_pop.
Proof.
  apply moves_bind; [by apply moves_interfere|]. intros _. apply moves_own. intros w a w'. unfold prim.
  destruct (QUEUE w); intros [= _ <-]; own.
Qed.

Lemma own_set_header t h w : own_step w (set_header t h w).
Proof. split_and!; try done. intros t'. simpl. by rewrite lookup_alter_is_Some. Qed.

#[export] Instance moves_task_wake t : Moves R (task_wake t).
Proof.
  apply moves_own. intros w a w'. unfold task_wake.
  destruct (tasks w !! t) as [tk|]; [|intros [= _ <-]; own].
  destruct (at_wake (task_header tk)) as [h []]; intros [= _ <-]; apply (own_set_header t h w).
Qed.
End Moves.

Section AllMoves.
Context {smol : Smoltcp} {kern : Kernel smol} {at_ : AsyncTask}
        {envt : Environment kern at_}.
Context {R : relation World} {st : AllSteps R}.

#[export] Instance moves_any_point p : Moves R (interfere p).
Proof. intros w [] w' H. by eapply all_env. Qed.

#[export] Instance moves_current_thread_notify : Moves R current_thread_notify.
Proof.
  intros w a w'. unfold current_thread_notify.
  destruct (notifies w !! self w); intros [= _ <-]; [done|apply all_notifies].
Qed.

#[export] Instance moves_unparked_swap tid b : Moves R (unparked_swap tid b).
Proof.
  apply moves_bind; [apply _|]. intros _ w a w'. unfold prim.
  destruct (notifies w !! tid); intros [= _ <-]; [apply all_notifies|done].
Qed.

#[export] Instance moves_unparked_store tid b : Moves R (unparked_store tid b).
Proof. apply moves_bind; [apply _|]. intros _ w a w' [= _ <-]. apply all_notifies. Qed.

Lemma moves_any_syscall c : (∀ w, R w (set_klog (λ l, l ++ [c]) w)) → Moves R (syscall c).
Proof.
  intros Hc w a w' ([] & w1 & [= <-] & H2)%bind_done. etrans; [apply Hc|].
  destruct a. by eapply all_env.
Qed.
End AllMoves.

Arguments Moves {smol kern at_} R {A} m : simpl never.

(** Walks through a computation, splitting on the values it branches on. *)
Ltac moves_step :=
  match goal with
  | |- Moves _ (modify _) =>
      apply moves_modify; intros; first [own|apply own_set_header]
  | |- Moves _ (_ ≫= _) => apply moves_bind; [|intros]
  | |- Moves _ (loop _ _ _) => apply moves_loop; intros
  | |- Moves _ (with_guard _) => apply moves_with_guard
  | |- Moves _ (match ?x with _ => _ end) => destruct x
  | |- Moves _ (let '_ := ?x in _) => destruct x
  | |- _ => assumption || apply _
  end.
Ltac moves_run := repeat (moves_step; cbv zeta).

Section Operations.
Context {smol : Smoltcp} {kern : Kernel smol} {at_ : AsyncTask}
        {envt : Environment kern at_}.
Context {R : relation World} {st : Steps R}.
Variable fuel : nat.

(** ** Everything below the blocking calls *)

#[export] Instance moves_thread_notify_wake tid : Moves R (thread_notify_wake tid).
Proof.
  unfold thread_notify_wake, thread_notify_wake_by_ref. moves_run.
  apply moves_syscall; [done|apply steps_wakeup].
Qed.

#[export] Instance moves_wake_waker wk : Moves R (wake_waker wk).
Proof. unfold wake_waker. moves_run. Qed.

#[export] Instance moves_wake_wakers ws : Moves R (wake_wakers ws).
Proof. unfold wake_wakers. induction ws as [|wk ws IH]; simpl; moves_run. Qed.

#[export] Instance moves_wr_wake r : Moves R (wr_wake wake_waker r).
Proof. unfold wr_wake. moves_run. Qed.

#[export] Instance moves_wr_register r wk : Moves R (wr_register wake_waker r wk).
Proof. unfold wr_register, wr_replace_and_wake. moves_run. Qed.

#[export] Instance moves_poll_common ts n : Moves R (poll_common fuel ts n).
Proof. unfold poll_common, poll_round, poll_dhcp, apply_dhcp_config. moves_run. Qed.

#[export] Instance moves_nic_poll cx ts n : Moves R (nic_poll fuel cx ts n).
Proof. unfold nic_poll. moves_run. Qed.

#[export] Instance moves_nic_wake n : Moves R (nic_wake n).
Proof. unfold nic_wake. moves_run. Qed.

#[export] Instance moves_network_delay ts : Moves R (network_delay ts).
Proof. unfold network_delay, network_delay_body. moves_run. Qed.

#[export] Instance moves_network_run_poll cx : Moves R (network_run_poll fuel cx).
Proof. unfold network_run_poll, network_run_body. moves_run. Qed.

#[export] Instance moves_runnable_run t : Moves R (runnable_run fuel t).
Proof. unfold runnable_run, task_start, task_return, task_poll, schedule. moves_run. Qed.

#[export] Instance moves_run_executor : Moves R (run_executor fuel).
Proof. unfold run_executor. moves_run. Qed.

#[export] Instance moves_timed_out start timeout : Moves R (timed_out start timeout).
Proof. unfold timed_out. moves_run. Qed.

#[export] Instance moves_sock_op {T} (x : T * TcpSocket * list Waker) : Moves R (sock_op x).
Proof. unfold sock_op. moves_run. Qed.

#[export] Instance moves_with {T} s (f : TcpSocket → M World (T * TcpSocket)) :
  (∀ sock, Moves R (f sock)) → Moves R (with_ s f).
Proof. intros Hf. unfold with_, with_body. moves_run. Qed.

#[export] Instance moves_async_socket_new : Moves R async_socket_new.
Proof. unfold async_socket_new, async_socket_new_body. moves_run. Qed.

(** The polls of the five futures. *)
Definition moves_fut {T} (f : Fut T) : Prop := ∀ st cx, Moves R (fut_poll f st cx).

Ltac moves_sock :=
  repeat (match goal with
          | |- Moves _ (with_ _ _) => apply moves_with; intros
          | _ => moves_step
          end; cbv zeta).
Ltac moves_poll :=
  intros st' cx; destruct st'; simpl; unfold connect_op, listen_op, ready, pend_send, pend_recv; moves_sock.

Lemma connect_wait_moves s cx : Moves R (connect_wait s cx).
Proof. unfold connect_wait, connect_check, ready, pend_send. moves_sock. Qed.

#[export] Instance moves_fetch_add {ps : PortSteps R} : Moves R fetch_add_local_endpoint.
Proof. intros w a w' [= _ <-]. apply steps_port. Qed.

Lemma connect_moves {ps : PortSteps R} s ip port : moves_fut (connect s ip port).
Proof. pose proof connect_wait_moves. moves_poll. Qed.

Lemma accept_wait_moves s cx : Moves R (accept_wait s cx).
Proof. unfold accept_wait, accept_check, accept_finish, accept_finish_body, ready, pend_recv. moves_sock. Qed.

Lemma accept_moves s port : moves_fut (accept s port).
Proof. pose proof accept_wait_moves. moves_poll. Qed.

Lemma read_moves s buffer : moves_fut (read s buffer).
Proof. unfold read, read_poll, read_check. moves_poll. Qed.

Lemma write_moves s buffer : moves_fut (write s buffer).
Proof. unfold write, write_poll, write_check. moves_poll. Qed.

Lemma close_wait_moves s cx : Moves R (close_wait s cx).
Proof. unfold close_wait, closed_check, ready, pend_send. moves_sock. Qed.

Lemma close_moves s : moves_fut (close s).
Proof. pose proof close_wait_moves. unfold close, close_poll, flush_check. moves_poll. Qed.
End Operations.
