(* ===== verification/Tokens.v ===== *)
(** * [hermit-sys/src/net/device.rs]: the tokens of the network device

    [impl Device for HermitNet] and the two tokens that smoltcp drives, and who owns the
    kernel's buffers meanwhile. *)

From S2P Require Import Prelude Extern.
From stdpp Require Import gmultiset.

(** ** Tokens *)

(** The buffer calls of the kernel, each with its answer; a buffer is a pointer, with a length
    when it is received, and a handle. *)
Inductive DCall : Type :=
| sys_get_tx_buffer (len : Z) (r : result (Z * Z) unit)
| sys_send_tx_buffer (handle len : Z) (r : result unit unit)
| sys_free_tx_buffer (handle : Z)
| sys_receive_rx_buffer (r : result (Z * Z * Z) unit)
| sys_rx_buffer_consumed (handle : Z) (r : result unit unit).

(** The driver in the kernel, with the memory its pointers point to. *)
Class Driver : Type := {
  DState : Type;
  drv_get_tx_buffer : DState → Z → result (Z * Z) unit * DState;
  drv_send_tx_buffer : DState → Z → Z → result unit unit * DState;
  drv_free_tx_buffer : DState → Z → DState;
  (* pointer and length of the slice, and the handle *)
  drv_receive_rx_buffer : DState → result (Z * Z * Z) unit * DState;
  drv_rx_buffer_consumed : DState → Z → result unit unit * DState;
  drv_load : DState → Z → Z → list Z;
  drv_store : DState → Z → list Z → DState;
}.

Section Tokens.
Context {drv : Driver}.

(** The driver and the buffer calls made so far. *)
Record Dev : Type := mkDev { dev_state : DState; dev_log : list DCall }.

Definition dcall {A} (c : A → DCall) (f : DState → A * DState) : M Dev A := λ d,
  let '(a, st) := f (dev_state d) in Done a (mkDev st (dev_log d ++ [c a])).

Definition load (ptr len : Z) : M Dev (list Z) := gets (λ d, drv_load (dev_state d) ptr len).
Definition store (ptr : Z) (bytes : list Z) : M Dev unit :=
  modify (λ d, mkDev (drv_store (dev_state d) ptr bytes) (dev_log d)).

(** [struct HermitNet]. *)
Record HermitNet : Type := mkHermitNet { mtu : Z }.

(** [struct RxToken]: the slice is a pointer and a length. *)
Record RxToken : Type := mkRxToken { rx_ptr : Z; rx_len : Z; rx_handle : Z }.
Record TxToken : Type := mkTxToken { }.

(** [capabilities]: the other fields keep smoltcp's defaults. *)
Definition max_transmission_unit (net : HermitNet) : Z := mtu net.

Definition receive (net : HermitNet) : M Dev (option (RxToken * TxToken)) :=
  r ← dcall sys_receive_rx_buffer drv_receive_rx_buffer;
  mret (match r with
        | Ok (ptr, len, handle) => Some (mkRxToken ptr len handle, mkTxToken)
        | Err _ => None
        end).

Definition transmit (net : HermitNet) : option TxToken := Some mkTxToken.

(** [RxToken::consume]; [f] reads the slice, may write to it, and may use the device: the
    answer to a packet is transmitted from within. *)
Definition rx_consume {R} (tok : RxToken) (f : list Z → M Dev (result R SmolError * list Z))
    : M Dev (result R SmolError) :=
  slice ← load (rx_ptr tok) (rx_len tok);
  '(result, slice') ← f slice;
  _ ← store (rx_ptr tok) slice';
  c ← dcall (sys_rx_buffer_consumed (rx_handle tok))
        (λ d, drv_rx_buffer_consumed d (rx_handle tok));
  mret (if is_ok c then result else Err Exhausted).

(** [TxToken::consume]. *)
Definition tx_consume {R} (tok : TxToken) (len : Z)
    (f : list Z → M Dev (result R SmolError * list Z)) : M Dev (result R SmolError) :=
  b ← dcall (sys_get_tx_buffer len) (λ d, drv_get_tx_buffer d len);
  match b with
  | Err _ => mret (Err Exhausted)
  | Ok (tx_buffer, handle) =>
      tx_slice ← load tx_buffer len;
      '(r, tx_slice') ← f tx_slice;
      _ ← store tx_buffer tx_slice';
      match r with
      | Ok result =>
          c ← dcall (sys_send_tx_buffer handle len)
                (λ d, drv_send_tx_buffer d handle len);
          mret (if is_ok c then Ok result else Err Exhausted)
      | Err e =>
          _ ← dcall (λ _, sys_free_tx_buffer handle)
                (λ d, (tt, drv_free_tx_buffer d handle));
          mret (Err e)
      end
  end.
End Tokens.

(** ** Who owns a buffer *)

(** The transmit and the receive buffers that are out, by their handles; [None] when a buffer
    was given back that was not out. *)
Definition Ledger : Type := gmultiset Z * gmultiset Z.

Definition give_back (h : Z) (out : gmultiset Z) : option (gmultiset Z) :=
  if decide (h ∈ out) then Some (out ∖ {[+ h +]}) else None.

Definition enter (l : Ledger) (c : DCall) : option Ledger :=
  match c with
  | sys_get_tx_buffer _ (Ok (_, h)) => Some (l.1 ⊎ {[+ h +]}, l.2)
  | sys_send_tx_buffer h _ _ | sys_free_tx_buffer h => (λ tx, (tx, l.2)) <$> give_back h l.1
  | sys_receive_rx_buffer (Ok (_, _, h)) => Some (l.1, l.2 ⊎ {[+ h +]})
  | sys_rx_buffer_consumed h _ => (λ rx, (l.1, rx)) <$> give_back h l.2
  | _ => Some l
  end.

Definition ledger (log : list DCall) : option Ledger :=
  foldl (λ o c, l ← o; enter l c) (Some (∅, ∅)) log.

Lemma ledger_snoc log c : ledger (log ++ [c]) = l ← ledger log; enter l c.
Proof. unfold ledger. by rewrite foldl_app. Qed.

Lemma give_back_out h out : give_back h (out ⊎ {[+ h +]}) = Some out.
Proof.
  unfold give_back. rewrite decide_True by multiset_solver. f_equal. multiset_solver.
Qed.

(** What smoltcp can do with the device, as far as it goes through the [Device] trait: a token
    is a value that is consumed at most once, and a received packet is consumed. *)
Inductive uses_device {drv : Driver} : ∀ {A : Type}, M Dev A → Prop :=
| use_ret {A} (a : A) : uses_device (mret a)
| use_panic {A} msg : uses_device (panic msg : M Dev A)
| use_bind {A B} (m : M Dev A) (k : A → M Dev B) :
    uses_device m → (∀ a, uses_device (k a)) → uses_device (m ≫= k)
| use_receive {R A} net (process : TxToken → list Z → M Dev (result R SmolError * list Z))
      (next : option (result R SmolError) → M Dev A) :
    (∀ tx slice, uses_device (process tx slice)) → (∀ r, uses_device (next r)) →
    uses_device (o ← receive net;
                 match o with
                 | None => next None
                 | Some (rx, tx) => r ← rx_consume rx (process tx); next (Some r)
                 end)
| use_transmit {R} tok len (fill : list Z → M Dev (result R SmolError * list Z)) :
    (∀ slice, uses_device (fill slice)) → uses_device (tx_consume tok len fill).

Section Ownership.
Context {drv : Driver}.
Implicit Types (d : Dev) (L : Ledger).

(** [owned L d]: the buffers that are out in [d] are those of [L]. *)
Definition owned L d : Prop := ledger (dev_log d) = Some L.

Lemma wp_dcall {A} (c : A → DCall) (f : DState → A * DState) L (Q : A → Dev → Prop) d :
  owned L d →
  (∀ a d', owned L d → ledger (dev_log d') = enter L (c a) → Q a d') →
  wp true (dcall c f) Q (λ _ _, True) d.
Proof.
  unfold owned. intros HL HQ. unfold wp, dcall. destruct (f (dev_state d)) as [a st].
  apply HQ; [done|]. simpl. by rewrite ledger_snoc, HL.
Qed.

(** A computation that gives back what it takes, and nothing else. *)
Definition balanced {A} (m : M Dev A) : Prop :=
  ∀ L d, owned L d → wp true m (λ _ d', owned L d') (λ _ _, True) d.

Lemma balanced_rx {R} tok (f : list Z → M Dev (result R SmolError * list Z)) tx rx d :
  (∀ slice, balanced (f slice)) → owned (tx, rx ⊎ {[+ rx_handle tok +]}) d →
  wp true (rx_consume tok f) (λ _ d', owned (tx, rx) d') (λ _ _, True) d.
Proof.
  intros Hf HL. unfold rx_consume, load, store. wp_run.
  eapply wp_conseq; [by apply Hf|]. cbv beta. intros [r slice'] d1 HL1. wp_run.
  apply (wp_dcall _ _ (tx, rx ⊎ {[+ rx_handle tok +]})); [exact HL1|]. intros c d2 _ HL2. wp_run.
  unfold owned. rewrite HL2. simpl. by rewrite give_back_out.
Qed.

Lemma balanced_tx {R} tok len (f : list Z → M Dev (result R SmolError * list Z)) :
  (∀ slice, balanced (f slice)) → balanced (tx_consume tok len f).
Proof.
  intros Hf [tx rx] d HL. unfold tx_consume, load, store. wp_run.
  apply (wp_dcall _ _ (tx, rx)); [done|]. intros [[ptr h]|[]] d1 _ HL1; wp_run; [|done].
  eapply wp_conseq; [by apply Hf|]. cbv beta. intros [[a|e] slice'] d2 HL2; wp_run;
    (apply (wp_dcall _ _ (tx ⊎ {[+ h +]}, rx)); [exact HL2|]); intros c d3 _ HL3; wp_run;
    unfold owned; rewrite HL3; simpl; by rewrite give_back_out.
Qed.

Lemma uses_balanced {A} (m : M Dev A) : uses_device m → balanced m.
Proof.
  induction 1 as [A a|A msg|A B m k _ IHm _ IHk|R A net process next _ IHp _ IHn|R tok len fill _ IHf];
    intros L d HL.
  - done.
  - done.
  - wp_run. eapply wp_conseq; [by apply IHm|]. cbv beta. intros a d1 HL1. by apply IHk.
  - destruct L as [tx rx]. unfold receive. wp_run.
    apply (wp_dcall _ _ (tx, rx)); [done|]. intros [[[ptr len] h]|[]] d1 _ HL1; wp_run.
    + eapply wp_conseq; [apply (balanced_rx _ _ tx rx); [intros; apply IHp|exact HL1]|].
      cbv beta. intros r d2 HL2. by apply IHn.
    + by apply IHn.
  - by apply balanced_tx.
Qed.

(** C27: No buffer of the driver is lost or given back twice: whatever smoltcp does through the
    [Device] trait, answers from within a received packet, failing fillers and refusing
    drivers included, ends with exactly the buffers out that were out before, unless smoltcp
    itself panics.  A buffer that is not out is never given back. *)
Theorem poll_keeps_buffers {A} (m : M Dev A) L d :
  uses_device m → owned L d → wp true m (λ _ d', owned L d') (λ _ _, True) d.
Proof. intros Hm. by apply uses_balanced. Qed.
End Ownership.

(** ** Properties of the tokens *)

Section TokenProperties.
Context {drv : Driver} {R : Type}.
Implicit Types (f : list Z → result R SmolError * list Z) (d : Dev).

(** Transmission always ends, and whatever smoltcp does with the buffer and
    however the driver answers, a buffer that was handed out is given back exactly
    once: sent when it was filled, freed when filling it failed.  Without a buffer
    the packet is not even built.  The error of the filling function wins over
    the driver's. *)
Theorem tx_consume_balanced tok len f d :
  ∃ r d', tx_consume tok len (λ s, mret (f s)) d = Done r d' ∧
    match drv_get_tx_buffer (dev_state d) len with
    | (Err _, st) =>
        r = Err Exhausted ∧ dev_state d' = st ∧
        dev_log d' = dev_log d ++ [sys_get_tx_buffer len (Err tt)]
    | (Ok (ptr, handle), st) =>
        let filled := f (drv_load st ptr len) in
        let st' := drv_store st ptr filled.2 in
        match filled.1 with
        | Ok a =>
            let sent := drv_send_tx_buffer st' handle len in
            dev_log d' = dev_log d ++ [sys_get_tx_buffer len (Ok (ptr, handle));
                                       sys_send_tx_buffer handle len sent.1] ∧
            dev_state d' = sent.2 ∧ r = if is_ok sent.1 then Ok a else Err Exhausted
        | Err e =>
            dev_log d' = dev_log d ++ [sys_get_tx_buffer len (Ok (ptr, handle));
                                       sys_free_tx_buffer handle] ∧
            dev_state d' = drv_free_tx_buffer st' handle ∧ r = Err e
        end
    end.
Proof.
  unfold tx_consume, dcall, load, store, gets, modify, mbind, M_bind, mret, M_ret; simpl.
  destruct (drv_get_tx_buffer (dev_state d) len) as [[[ptr handle]|[]] st]; simpl.
  2:{ by repeat eexists. }
  destruct (f (drv_load st ptr len)) as [[a|e] bytes]; simpl.
  - destruct (drv_send_tx_buffer (drv_store st ptr bytes) handle len) as [[]]; simpl;
      rewrite <- app_assoc; by repeat eexists.
  - rewrite <- app_assoc. by repeat eexists.
Qed.

(** A received buffer is processed once and then handed back to the driver
    exactly once, also when processing it failed; a driver that does not take it back
    turns the result into [Exhausted], whatever it was. *)
Theorem rx_consume_balanced tok f d :
  let done_with := f (drv_load (dev_state d) (rx_ptr tok) (rx_len tok)) in
  let st' := drv_store (dev_state d) (rx_ptr tok) done_with.2 in
  let back := drv_rx_buffer_consumed st' (rx_handle tok) in
  rx_consume tok (λ s, mret (f s)) d =
  Done (if is_ok back.1 then done_with.1 else Err Exhausted)
       (mkDev back.2 (dev_log d ++ [sys_rx_buffer_consumed (rx_handle tok) back.1])).
Proof.
  unfold rx_consume, dcall, load, store, gets, modify, mbind, M_bind, mret, M_ret; simpl.
  destruct (f (drv_load (dev_state d) (rx_ptr tok) (rx_len tok))) as [r bytes]; simpl.
  by destruct (drv_rx_buffer_consumed (drv_store (dev_state d) (rx_ptr tok) bytes) (rx_handle tok))
    as [[] st].
Qed.
End TokenProperties.

(** ** Witnesses *)

(** A driver with one packet to deliver; it hands out the buffers 7 and, as often as it is
    asked, 9, and refuses to send. *)
#[local] Instance sim_driver : Driver := {|
  DState := bool;  (* the packet is still there *)
  drv_get_tx_buffer st len := (Ok (64, 9)%Z, st);
  drv_send_tx_buffer st h len := (Err tt, st);
  drv_free_tx_buffer st h := st;
  drv_receive_rx_buffer st := (if st then Ok (32, 3, 7)%Z else Err tt, false);
  drv_rx_buffer_consumed st h := (Ok tt, st);
  drv_load st ptr len := repeat 0%Z (Z.to_nat len);
  drv_store st ptr bytes := st;
|}.

(** A packet is answered with its own bytes; an empty answer is an error. *)
Definition sim_fill (answer slice : list Z) : M Dev (result unit SmolError * list Z) :=
  mret (match answer with [] => (Err Exhausted, slice) | _ => (Ok tt, answer) end).
Definition sim_process (tx : TxToken) (slice : list Z) : M Dev (result unit SmolError * list Z) :=
  _ ← tx_consume tx 3 (sim_fill slice);
  r ← match transmit (mkHermitNet 1500) with
      | Some tx => tx_consume tx 0 (sim_fill [])
      | None => mret (Ok tt)
      end;
  mret (r, slice).

(** Two rounds of polling; the second finds nothing. *)
Definition sim_poll : M Dev nat :=
  o ← receive (mkHermitNet 1500);
  match o with
  | None => mret 0
  | Some (rx, tx) =>
      _ ← rx_consume rx (sim_process tx);
      o ← receive (mkHermitNet 1500);
      match o with
      | None => mret 1
      | Some (rx, tx) => _ ← rx_consume rx (sim_process tx); mret 2
      end
  end.

Lemma sim_process_uses tx slice : uses_device (sim_process tx slice).
Proof.
  apply use_bind; [apply use_transmit; intros; apply use_ret|]. intros _.
  apply use_bind; [apply use_transmit; intros; apply use_ret|]. intros r. apply use_ret.
Qed.

Lemma sim_poll_uses : uses_device sim_poll.
Proof.
  apply (use_receive _ sim_process (λ r, match r with
    | None => mret 0
    | Some _ => o ← receive (mkHermitNet 1500);
        match o with
        | None => mret 1
        | Some (rx, tx) => _ ← rx_consume rx (sim_process tx); mret 2
        end end)); [apply sim_process_uses|]. intros [r|]; [|apply use_ret].
  apply (use_receive _ sim_process (λ r, mret (match r with None => 1 | Some _ => 2 end)));
    [apply sim_process_uses|]. intros r'. apply use_ret.
Qed.

Lemma poll_keeps_buffers_witness :
  (∃ d', sim_poll (mkDev true []) = Done 1 d' ∧
    dev_log d' = [sys_receive_rx_buffer (Ok (32, 3, 7)%Z);
                  sys_get_tx_buffer 3 (Ok (64, 9)%Z); sys_send_tx_buffer 9 3 (Err tt);
                  sys_get_tx_buffer 0 (Ok (64, 9)%Z); sys_free_tx_buffer 9;
                  sys_rx_buffer_consumed 7 (Ok tt); sys_receive_rx_buffer (Err tt)]) ∧
  wp true sim_poll (λ _ d', owned (∅, ∅) d') (λ _ _, True) (mkDev true []).
Proof.
  split; [eexists; split; reflexivity|].
  refine (poll_keeps_buffers sim_poll (∅, ∅) (mkDev true []) sim_poll_uses eq_refl).
Defined.
