(* ===== verification/Device.v ===== *)
(** * [hermit-sys/src/net/device.rs]: the network device

    The net-mask length and the two constructors of the network interface; the tokens are in
    Tokens.v. *)

From S2P Require Import Prelude Extern WakerReg State Sim.
From Stdlib Require Import Ascii.

(** ** The net mask *)

(** [!b] on a [u8]. *)
Definition not_u8 (b : Z) : Z := Z.lxor b 255.

(** The net-mask length computed by [NetworkInterface::new]. *)
Definition prefix_len (m0 m1 m2 m3 : Z) : Z :=
  let p := trailing_zeros 8 (not_u8 m0) in
  let p := if (p =? 8)%Z then (p + trailing_zeros 8 (not_u8 m1))%Z else p in
  let p := if (p =? 16)%Z then (p + trailing_zeros 8 (not_u8 m2))%Z else p in
  if (p =? 24)%Z then (p + trailing_zeros 8 (not_u8 m3))%Z else p.

(** ** [impl FromStr for Ipv4Addr] of the standard library: four decimal octets
    of at most three digits, without leading zeros, separated by dots. *)

Definition digit (c : ascii) : option Z :=
  let n := Z.of_N (N_of_ascii c) in
  if ((48 <=? n) && (n <=? 57))%Z then Some (n - 48)%Z else None.

Fixpoint read_digits (acc : list Z) (s : string) : list Z * string :=
  match s with
  | String c s' => match digit c with
                   | Some d => read_digits (acc ++ [d]) s'
                   | None => (acc, s)
                   end
  | EmptyString => (acc, s)
  end.

Definition digits_value (ds : list Z) : Z := fold_left (λ a d, 10 * a + d)%Z ds 0%Z.

(** [read_number(10, Some(3), false)] for a [u8]. *)
Definition read_octet (s : string) : option (Z * string) :=
  let '(ds, rest) := read_digits [] s in
  let leading_zero := match ds with 0%Z :: _ :: _ => true | _ => false end in
  if (1 <=? length ds) && (length ds <=? 3) && negb leading_zero
     && (digits_value ds <=? 255)%Z
  then Some (digits_value ds, rest) else None.

Definition read_dot (s : string) : option string :=
  match s with
  | String c s' => if Ascii.eqb c "."%char then Some s' else None
  | EmptyString => None
  end.

Definition parse_ipv4 (s : string) : option (Z * Z * Z * Z) :=
  '(a, s) ← read_octet s; s ← read_dot s;
  '(b, s) ← read_octet s; s ← read_dot s;
  '(c, s) ← read_octet s; s ← read_dot s;
  '(d, s) ← read_octet s;
  match s with EmptyString => Some (a, b, c, d) | _ => None end.

(** ** The constructors of the interface *)

Section New.
Context {smol : Smoltcp} {kern : Kernel smol} {at_ : AsyncTask}
        {envt : Environment kern at_}.
(** The strings that the build script writes into [constants.rs]. *)
Variables HERMIT_IP HERMIT_GATEWAY HERMIT_MASK : string.

Definition PARSE_ERROR : string := "Unable to parse IPv4 address".

(** The panic of [EthernetInterfaceBuilder] on an IP or MAC address that is not unicast. *)
Definition BUILD_ERROR : string := "address is not unicast".

(** [NetworkInterface::<HermitNet>::new] without the feature [dhcpv4]. *)
Definition new_static : M World NetworkState :=
  rmtu ← gets (λ w, sys_get_mtu (kernel w));
  match rmtu with
  | Err _ => mret InitializationFailed
  | Ok mtu =>
      rmac ← gets (λ w, sys_get_mac_address (kernel w));
      match rmac with
      | Err _ => mret InitializationFailed
      | Ok mac =>
          '(i0, i1, i2, i3) ← unwrap_opt PARSE_ERROR (parse_ipv4 HERMIT_IP);
          '(g0, g1, g2, g3) ← unwrap_opt PARSE_ERROR (parse_ipv4 HERMIT_GATEWAY);
          '(m0, m1, m2, m3) ← unwrap_opt PARSE_ERROR (parse_ipv4 HERMIT_MASK);
          let ip_addrs := [ipcidr_new (ipaddr_v4 i0 i1 i2 i3) (prefix_len m0 m1 m2 m3)] in
          let default_v4_gw := ipv4_new g0 g1 g2 g3 in
          routes ← unwrap_opt "add_default_ipv4_route"
                     (add_default_ipv4_route routes_new default_v4_gw);
          iface ← unwrap_opt BUILD_ERROR (iface_build mtu mac ip_addrs routes);
          mret (Initialized (mkNetworkInterface iface sockets_new None wr_new))
      end
  end.

(** [NetworkInterface::<HermitNet>::new] with the feature [dhcpv4]. *)
Definition new_dhcp : M World NetworkState :=
  rmtu ← gets (λ w, sys_get_mtu (kernel w));
  match rmtu with
  | Err _ => mret InitializationFailed
  | Ok mtu =>
      rmac ← gets (λ w, sys_get_mac_address (kernel w));
      match rmac with
      | Err _ => mret InitializationFailed
      | Ok mac =>
          let ip_addrs := [ipcidr_new (ipaddr_from_v4 ipv4_unspecified) 0] in
          now ← instant_now;
          let '(client, sockets) := dhcp_new sockets_new 900 600 now in
          let prev_cidr := ipv4cidr_new ipv4_unspecified 0 in
          iface ← unwrap_opt BUILD_ERROR (iface_build mtu mac ip_addrs routes_new);
          mret (Initialized (mkNetworkInterface iface sockets
                  (Some (client, prev_cidr)) wr_new))
      end
  end.

(** The constructor that the feature [dhcpv4] selects. *)
Definition new (dhcpv4 : bool) : M World NetworkState :=
  if dhcpv4 then new_dhcp else new_static.
End New.

(** ** Lemmas on the address parser *)

(** [impl Display for Ipv4Addr]: the canonical dotted quad. *)
Definition digit_char (d : Z) : ascii := ascii_of_N (Z.to_N (48 + d)).

Definition octet_digits (n : Z) : list Z :=
  if (n <? 10)%Z then [n]
  else if (n <? 100)%Z then [n / 10; n mod 10]%Z
  else [n / 100; n / 10 mod 10; n mod 10]%Z.

Fixpoint print_digits (ds : list Z) (rest : string) : string :=
  match ds with [] => rest | d :: ds => String (digit_char d) (print_digits ds rest) end.

Definition print_octet (n : Z) (rest : string) : string := print_digits (octet_digits n) rest.

Definition print_ipv4 (a b c d : Z) : string :=
  print_octet a (String "."%char (print_octet b (String "."%char
    (print_octet c (String "."%char (print_octet d EmptyString)))))).

Definition is_octet (n : Z) : Prop := (0 ≤ n ≤ 255)%Z.
Definition is_digit (d : Z) : Prop := (0 ≤ d ≤ 9)%Z.
Definition no_digit (s : string) : Prop :=
  match s with String c _ => digit c = None | EmptyString => True end.

Lemma digit_digit_char d : is_digit d → digit (digit_char d) = Some d.
Proof.
  unfold is_digit. intros Hd.
  assert (d = 0 ∨ d = 1 ∨ d = 2 ∨ d = 3 ∨ d = 4 ∨ d = 5 ∨ d = 6 ∨ d = 7 ∨ d = 8 ∨ d = 9)%Z
    as Hc by lia.
  repeat destruct Hc as [->|Hc]; [reflexivity..|]. by subst.
Qed.

Lemma digit_char_digit c d : digit c = Some d → is_digit d ∧ c = digit_char d.
Proof.
  unfold digit, is_digit, digit_char. intros H.
  destruct (_ && _) eqn:Hb; [|done]. injection H as <-.
  split; [lia|]. replace (Z.to_N _) with (N_of_ascii c) by lia. by rewrite ascii_N_embedding.
Qed.

Lemma read_digits_print acc ds rest :
  Forall is_digit ds → no_digit rest →
  read_digits acc (print_digits ds rest) = (acc ++ ds, rest).
Proof.
  intros Hds Hrest. revert acc. induction Hds as [|d ds Hd _ IH]; intros acc; simpl.
  - rewrite app_nil_r. destruct rest as [|c rest]; simpl in *; [done|]. by rewrite Hrest.
  - by rewrite digit_digit_char, IH, <- app_assoc.
Qed.

Lemma read_digits_inv acc s ds rest :
  read_digits acc s = (ds, rest) →
  ∃ ds', ds = acc ++ ds' ∧ Forall is_digit ds' ∧ s = print_digits ds' rest ∧ no_digit rest.
Proof.
  revert acc. induction s as [|c s IH]; intros acc; simpl.
  - intros [= <- <-]. exists []. by rewrite app_nil_r.
  - destruct (digit c) as [d|] eqn:Hc.
    + intros (ds' & -> & Hds & -> & Hrest)%IH. apply digit_char_digit in Hc as [Hd ->].
      exists (d :: ds'). rewrite <- app_assoc. split_and!; [done|by constructor|done|done].
    + intros [= <- <-]. exists []. by rewrite app_nil_r.
Qed.

Lemma octet_digits_spec n :
  is_octet n →
  Forall is_digit (octet_digits n) ∧ digits_value (octet_digits n) = n ∧
  1 ≤ length (octet_digits n) ≤ 3 ∧
  match octet_digits n with 0%Z :: _ :: _ => False | _ => True end.
Proof.
  unfold is_octet, octet_digits, digits_value, is_digit. intros Hn.
  pose proof (Z.div_mod n 10). pose proof (Z.mod_pos_bound n 10).
  pose proof (Z.div_mod (n / 10) 10). pose proof (Z.mod_pos_bound (n / 10) 10).
  assert (n / 100 = n / 10 / 10)%Z as Hdd by by rewrite Z.div_div.
  destruct (Z.ltb_spec n 10); [|destruct (Z.ltb_spec n 100)]; simpl;
    (split_and!; [repeat constructor; lia|lia|lia|lia|]).
  - by destruct n.
  - destruct (n / 10)%Z eqn:He; [lia|done..].
  - destruct (n / 100)%Z eqn:He; [lia|done..].
Qed.

Lemma read_octet_print n rest :
  is_octet n → no_digit rest → read_octet (print_octet n rest) = Some (n, rest).
Proof.
  intros Hn Hrest. destruct (octet_digits_spec n Hn) as (Hds & Hv & Hlen & Hz).
  unfold read_octet, print_octet. rewrite read_digits_print by done. simpl.
  rewrite Hv. unfold is_octet in Hn.
  replace (match octet_digits n with 0%Z :: _ :: _ => true | _ => false end) with false
    by (destruct (octet_digits n) as [|[] [|]]; done).
  destruct (octet_digits n) as [|? [|? [|? [|]]]]; simpl in *; try lia;
    by replace (n <=? 255)%Z with true by lia.
Qed.

Lemma ten_div_mod a b : is_digit b → ((10 * a + b) / 10 = a)%Z ∧ ((10 * a + b) mod 10 = b)%Z.
Proof.
  unfold is_digit. intros Hb. pose proof (Z.div_mod (10 * a + b) 10).
  pose proof (Z.mod_pos_bound (10 * a + b) 10). lia.
Qed.

Lemma octet_digits_value ds :
  Forall is_digit ds → 1 ≤ length ds ≤ 3 →
  match ds with 0%Z :: _ :: _ => False | _ => True end →
  octet_digits (digits_value ds) = ds ∧ (0 ≤ digits_value ds)%Z.
Proof.
  intros Hds Hlen Hz. unfold octet_digits, digits_value.
  destruct ds as [|d0 [|d1 [|d2 [|]]]]; simpl in *; try lia; decompose_Forall_hyps;
    (destruct (decide (d0 = 0)%Z) as [->|Hd0]; [try done|]).
  - by replace (10 * 0 + d0)%Z with d0 by lia; unfold is_digit in *;
      replace (d0 <? 10)%Z with true by lia; split; [|lia].
  - destruct (ten_div_mod d0 d1) as [Hd Hm]; [done|]. unfold is_digit in *.
    replace (10 * (10 * 0 + d0) + d1)%Z with (10 * d0 + d1)%Z by lia.
    replace (10 * d0 + d1 <? 10)%Z with false by lia.
    replace (10 * d0 + d1 <? 100)%Z with true by lia.
    rewrite Hd, Hm. split; [done|lia].
  - destruct (ten_div_mod d0 d1) as [Hd Hm]; [done|].
    destruct (ten_div_mod (10 * d0 + d1) d2) as [Hd' Hm']; [done|]. unfold is_digit in *.
    replace (10 * (10 * (10 * 0 + d0) + d1) + d2)%Z with (10 * (10 * d0 + d1) + d2)%Z by lia.
    set (x := (10 * (10 * d0 + d1) + d2)%Z) in *.
    replace (x <? 10)%Z with false by lia. replace (x <? 100)%Z with false by lia.
    replace (x / 100)%Z with (x / 10 / 10)%Z by by rewrite Z.div_div.
    rewrite Hd', Hm', Hd, Hm. split; [done|lia].
Qed.

Lemma read_octet_inv s n rest :
  read_octet s = Some (n, rest) → is_octet n ∧ s = print_octet n rest.
Proof.
  unfold read_octet. destruct (read_digits [] s) as [ds rest'] eqn:Hr.
  apply read_digits_inv in Hr as (ds' & -> & Hds & -> & Hrest). simpl.
  destruct (_ && _) eqn:Hb; [|done]. intros [= <- <-].
  apply andb_true_iff in Hb as [Hb Hv]. apply andb_true_iff in Hb as [Hb Hz].
  apply andb_true_iff in Hb as [H1 H3].
  assert (1 ≤ length ds' ≤ 3) 
    by (apply Nat.leb_le in H3; destruct ds'; simpl in *; [done|lia]).
  destruct (octet_digits_value ds') as [Hoct Hpos]; [done|done|by destruct ds' as [|[] [|]]|].
  split; [unfold is_octet; lia|].
  unfold print_octet. by rewrite Hoct.
Qed.

(** The parser accepts exactly the canonical dotted quads. *)
Lemma parse_ipv4_spec s a b c d :
  parse_ipv4 s = Some (a, b, c, d) ↔
  is_octet a ∧ is_octet b ∧ is_octet c ∧ is_octet d ∧ s = print_ipv4 a b c d.
Proof.
  unfold parse_ipv4. split.
  - intros H.
    destruct (read_octet s) as [[a' s1]|] eqn:H1; [|done]; simpl in H.
    destruct (read_dot s1) as [s1'|] eqn:D1; [|done]; simpl in H.
    destruct (read_octet s1') as [[b' s2]|] eqn:H2; [|done]; simpl in H.
    destruct (read_dot s2) as [s2'|] eqn:D2; [|done]; simpl in H.
    destruct (read_octet s2') as [[c' s3]|] eqn:H3; [|done]; simpl in H.
    destruct (read_dot s3) as [s3'|] eqn:D3; [|done]; simpl in H.
    destruct (read_octet s3') as [[d' s4]|] eqn:H4; [|done]; simpl in H.
    destruct s4; [|done]. injection H as -> -> -> ->.
    assert (Hdot : ∀ s s', read_dot s = Some s' → s = String "."%char s').
    { intros [|x s''] s'; simpl; [done|]. destruct (Ascii.eqb_spec x "."); [|done].
      intros [= ->]. by subst. }
    apply Hdot in D1 as ->. apply Hdot in D2 as ->. apply Hdot in D3 as ->.
    apply read_octet_inv in H1 as [? ->]. apply read_octet_inv in H2 as [? ->].
    apply read_octet_inv in H3 as [? ->]. apply read_octet_inv in H4 as [? ->].
    done.
  - intros (Ha & Hb & Hc & Hd & ->). unfold print_ipv4.
    rewrite read_octet_print by done; simpl. rewrite read_octet_print by done; simpl.
    rewrite read_octet_print by done; simpl. by rewrite read_octet_print by done.
Qed.

(** ** Properties of the net mask *)

(** The octets of the mask with [n] leading ones. *)
Definition mask_octet (n i : Z) : Z := Z.land (Z.shiftr (2 ^ 32 - 2 ^ (32 - n)) (24 - 8 * i)) 255.

Definition mask_prefix (n : Z) : Z :=
  prefix_len (mask_octet n 0) (mask_octet n 1) (mask_octet n 2) (mask_octet n 3).

Lemma prefix_len_bound m0 m1 m2 m3 : (0 ≤ prefix_len m0 m1 m2 m3 ≤ 32)%Z.
Proof.
  unfold prefix_len.
  pose proof (trailing_zeros_bound 8 (not_u8 m0)). pose proof (trailing_zeros_bound 8 (not_u8 m1)).
  pose proof (trailing_zeros_bound 8 (not_u8 m2)). pose proof (trailing_zeros_bound 8 (not_u8 m3)).
  repeat case_match; lia.
Qed.

(** C29: The net-mask length that [NetworkInterface::new] computes is always between
    0 and 32, so that its conversion to [u8] does not panic; but for the mask with
    [n] leading ones it is [n] only when [n] is a multiple of 8, and otherwise [n]
    rounded down to one: a mask such as 255.255.240.0 is taken for 255.255.0.0. *)
Theorem prefix_len_of_mask n m0 m1 m2 m3 :
  (0 ≤ n ≤ 32)%Z →
  (0 ≤ prefix_len m0 m1 m2 m3 ≤ 32)%Z ∧
  mask_prefix n = (8 * (n / 8))%Z ∧ (mask_prefix n = n ↔ n mod 8 = 0)%Z.
Proof.
  intros Hn. split; [apply prefix_len_bound|].
  assert (Hall : forallb (λ k, mask_prefix (Z.of_nat k) =? 8 * (Z.of_nat k / 8))%Z (seq 0 33) = true)
    by (vm_compute; reflexivity).
  rewrite forallb_forall in Hall. specialize (Hall (Z.to_nat n)).
  rewrite in_seq, Z2Nat.id in Hall by lia. specialize (Hall ltac:(lia)).
  apply Z.eqb_eq in Hall. split; [done|]. rewrite Hall.
  pose proof (Z.div_mod n 8). lia.
Qed.

Section NewProperties.
Context {smol : Smoltcp} {kern : Kernel smol} {at_ : AsyncTask}
        {envt : Environment kern at_}.
Implicit Types (w : World) (ip gw mask : Z * Z * Z * Z).

Definition print_quad (q : Z * Z * Z * Z) : string :=
  let '(a, b, c, d) := q in print_ipv4 a b c d.
Definition octets (q : Z * Z * Z * Z) : Prop :=
  let '(a, b, c, d) := q in is_octet a ∧ is_octet b ∧ is_octet c ∧ is_octet d.

Lemma parse_print_quad q : octets q → parse_ipv4 (print_quad q) = Some q.
Proof.
  destruct q as [[[a b] c] d]. intros (?&?&?&?). apply parse_ipv4_spec. by split_and!.
Qed.

Definition bad_quad (s : string) : Prop := ∀ q, octets q → s ≠ print_quad q.

Lemma parse_bad_quad s : bad_quad s → parse_ipv4 s = None.
Proof.
  intros Hbad. destruct (parse_ipv4 s) as [[[[a b] c] d]|] eqn:Hp; [|done].
  apply parse_ipv4_spec in Hp as (?&?&?&?&Hs). by destruct (Hbad (a, b, c, d)).
Qed.

(** The address that the interface is given. *)
Definition own_cidr ip mask : IpCidr :=
  let '(i0, i1, i2, i3) := ip in
  let '(m0, m1, m2, m3) := mask in
  ipcidr_new (ipaddr_v4 i0 i1 i2 i3) (prefix_len m0 m1 m2 m3).

(** C28: With a device and addresses in dotted-quad notation, [NetworkInterface::new]
    sets up the interface with exactly the configured address and gateway, the
    net-mask length above, the MTU and the MAC address of the device, an empty
    socket set and an empty waker slot, and leaves the state alone, provided that the IP and the
    MAC address are unicast; if one of them is not, it panics.  Without a device it answers
    [InitializationFailed]; any of the three strings that is not a dotted quad makes it panic. *)
Theorem new_static_spec {checks : AddressChecks smol} w ip gw mask bad s1 s2 (mtu : Z) mac routes :
  sys_get_mtu (kernel w) = Ok mtu → sys_get_mac_address (kernel w) = Ok mac →
  octets ip → octets gw → octets mask → bad_quad bad →
  (let '(g0, g1, g2, g3) := gw in
   add_default_ipv4_route routes_new (ipv4_new g0 g1 g2 g3) = Some routes) →
  (if mac_unicast mac && cidr_accepted (own_cidr ip mask)
   then ∃ i, iface_build mtu mac [own_cidr ip mask] routes = Some i ∧
     new_static (print_quad ip) (print_quad gw) (print_quad mask) w =
       Done (Initialized (mkNetworkInterface i sockets_new None wr_new)) w
   else new_static (print_quad ip) (print_quad gw) (print_quad mask) w = Panicked BUILD_ERROR w) ∧
  (∀ k, (is_ok (sys_get_mtu k) = false ∨ is_ok (sys_get_mac_address k) = false) →
     let w0 := set_kernel (λ _, k) w in
     new_static s1 s2 bad w0 = Done InitializationFailed w0) ∧
  new_static bad s1 s2 w = Panicked PARSE_ERROR w ∧
  new_static (print_quad ip) bad s2 w = Panicked PARSE_ERROR w ∧
  new_static (print_quad ip) (print_quad gw) bad w = Panicked PARSE_ERROR w.
Proof.
  intros Hmtu Hmac Hip Hgw Hmask Hbad%parse_bad_quad Hroute.
  pose proof (iface_build_checks mtu mac [own_cidr ip mask] routes) as Hbuild. simpl in Hbuild.
  rewrite andb_true_r, <- andb_true_iff in Hbuild.
  unfold new_static, gets, mbind, M_bind. rewrite Hmtu, Hmac, Hbad, !parse_print_quad by done.
  split_and!; [| |done|by destruct ip as [[[]]]|by destruct ip as [[[]]], gw as [[[]]]].
  - destruct ip as [[[i0 i1] i2] i3], gw as [[[g0 g1] g2] g3], mask as [[[m0 m1] m2] m3].
    simpl in *. rewrite Hroute. simpl. destruct (_ && _).
    + destruct (proj2 Hbuild eq_refl) as [i Hi]. exists i. by rewrite Hi.
    + destruct (iface_build _ _ _ _) as [i|]; [|done].
      by assert (false = true) by (apply Hbuild; by exists i).
  - intros k Hk. change (kernel (set_kernel (λ _, k) w)) with k.
    destruct (sys_get_mtu k); [|done].
    change (kernel (set_kernel (λ _, k) w)) with k.
    destruct (sys_get_mac_address k); [by destruct Hk|done].
Qed.
End NewProperties.

(** ** Witnesses *)

Lemma prefix_len_of_mask_witness :
  mask_prefix 20 = prefix_len 255 255 240 0 ∧ mask_prefix 20 = 16%Z ∧
  (mask_prefix 20 = 20 ↔ 20 mod 8 = 0)%Z.
Proof.
  split; [vm_compute; reflexivity|]. split; [vm_compute; reflexivity|].
  refine (proj2 (proj2 (prefix_len_of_mask 20 0 0 0 0 _))). split; discriminate.
Defined.

Definition sim_ip : Z * Z * Z * Z := (10, 0, 5, 3)%Z.
Definition sim_gw : Z * Z * Z * Z := (10, 0, 5, 1)%Z.
Definition sim_mask : Z * Z * Z * Z := (255, 255, 255, 0)%Z.

Lemma sim_bad_quad : bad_quad "255.255.255.256".
Proof.
  intros q Hq Heq. pose proof (parse_print_quad q Hq) as Hp. rewrite <- Heq in Hp.
  vm_compute in Hp. discriminate.
Qed.

Lemma new_static_spec_witness :
  let w := boot (at_ := sim_task) (kern := sim_kernel) 100%Z 5%Z in
  print_quad sim_ip = "10.0.5.3" ∧
  (∃ i, iface_build 1500 [2; 0; 0; 0; 0; 1]%Z [24]%Z [1]%Z = Some i ∧
    new_static (print_quad sim_ip) (print_quad sim_gw) (print_quad sim_mask) w =
    Done (Initialized (mkNetworkInterface (smol := sim) i ∅ None wr_new)) w) ∧
  new_static "255.255.255.256" "" "" w = Panicked PARSE_ERROR w.
Proof.
  intros w. split; [vm_compute; reflexivity|].
  destruct (new_static_spec (checks := sim_checks sim_poll) w sim_ip sim_gw sim_mask
    "255.255.255.256" "" "" 1500%Z [2; 0; 0; 0; 0; 1]%Z [1]%Z eq_refl eq_refl) as (H1 & _ & H2 & _);
    [..|exact (conj H1 H2)]; first [exact sim_bad_quad|reflexivity|repeat split; discriminate].
Defined.
