(* ===== verification/Syscalls.v ===== *)
(** * [hermit-sys/src/net/mod.rs], lines 345-525, and [hermit-sys/src/lib.rs]: the
    system calls of the network stack

    Bring-up ([network_init], the network thread) and the [sys_tcp_*] functions
    that hermit-abi and the standard library link to. *)

From S2P Require Import Prelude Extern WakerReg State Sim Invariant Nic Executor Progress Socket Device.

(** [u16::MAX]. *)
Definition U16_MAX : Z := 65535.

(** [start_endpoint]: the counter modulo [u16::MAX]; [try_into] to [u16] succeeds
    exactly on the values of 16 bits. *)
Definition start_endpoint (counter : Z) : option Z :=
  let v := (counter mod U16_MAX)%Z in
  if ((0 <=? v) && (v <=? U16_MAX))%Z then Some v else None.

(** [LevelFilter] of the crate log, and the choice of [sys_network_init]. *)
Inductive LevelFilter : Type := Off | Error | Warn | Info | Debug_ | Trace.

Definition max_level (log_level : option string) : LevelFilter :=
  match log_level with
  | Some s =>
      if String.eqb s "Error" then Error
      else if String.eqb s "Debug" then Debug_
      else if String.eqb s "Off" then Off
      else if String.eqb s "Trace" then Trace
      else if String.eqb s "Warn" then Warn
      else if String.eqb s "Info" then Info
      else Info
  | None => Info
  end.

Section Syscalls.
Context {smol : Smoltcp} {kern : Kernel smol} {at_ : AsyncTask}
        {envt : Environment kern at_}.
Variable fuel : nat.
(** The constants of the build and the feature [dhcpv4]. *)
Variables HERMIT_IP HERMIT_GATEWAY HERMIT_MASK : string.
Variable dhcpv4 : bool.

(** One round of the [loop] of [nic_thread]. *)
Definition nic_thread_body : M World unit :=
  st ← gets (λ w, data (NIC w));
  match st with
  | Initialized nic =>
      now ← instant_now;
      nic' ← poll_common fuel now nic;
      modify (set_data (Initialized nic'))
  | _ => mret tt
  end.

Definition nic_thread_round : M World unit :=
  _ ← syscall sys_netwait;
  with_guard nic_thread_body.

(** [sys_spawn(&mut tid, nic_thread, 0, 3, 0)]. *)
Definition spawn_nic_thread : M World (Z * Tid) :=
  _ ← syscall (sys_spawn "nic_thread" 0 3 0);
  prim (λ w, let '(ret, tid, k) := sys_spawn_result (kernel w) in
             Done (ret, tid) (set_kernel (λ _, k) w)).

(** [network_init]; the guard lives to the end of the function. *)
Definition network_init : M World (result unit unit) :=
  counter ← prim (λ w, let '(c, k) := timestamp_counter (kernel w) in
                       Done c (set_kernel (λ _, k) w));
  start ← unwrap_opt "TryFromIntError" (start_endpoint counter);
  _ ← modify (set_LOCAL_ENDPOINT (λ _, start));
  with_guard (
    st ← new HERMIT_IP HERMIT_GATEWAY HERMIT_MASK dhcpv4;
    _ ← modify (set_data st);
    match st with
    | Initialized nic =>
        now ← instant_now;
        nic' ← poll_common fuel now nic;
        _ ← modify (set_data (Initialized nic'));
        _ ← spawn_nic_thread;
        _ ← spawn NetworkRun;
        _ ← syscall sys_yield;
        mret (Ok tt)
    | _ => mret (Ok tt)
    end).

(** [sys_network_init] of lib.rs, built with the feature [smoltcp]: [logger] is
    the answer of [set_logger], [log_level] the variable
    [HERMIT_LOG_LEVEL_FILTER] of the build; the level that is set comes back with
    the return value. *)
Definition sys_network_init (logger : result unit unit) (log_level : option string)
    : M World (LevelFilter * Z) :=
  _ ← unwrap_res "Can't initialize logger" logger;
  r ← network_init;
  mret (max_level log_level, if is_ok r then 0 else -1)%Z.

(** [block_on(..)?.map_err(|_| ())] and its twin for [poll_on]. *)
Definition finish {A E} (r : result (result A E) unit) : result A unit :=
  result_bind r (map_err (λ _, tt)).

Definition sys_tcp_stream_connect (ip : list Z) (port : Z) (timeout : option Z)
    : M World (result SocketHandle unit) :=
  socket ← async_socket_new;
  r ← block_on fuel (connect socket ip port) (option_map from_millis timeout);
  mret (finish r).

(** The buffer of the caller comes back with the result. *)
Definition sys_tcp_stream_read (handle : SocketHandle) (buffer : list Z)
    : M World (result nat unit * list Z) :=
  let socket := mkAsyncSocket handle in
  r ← poll_on fuel (read socket buffer) None;
  mret (match r with
        | Ok (res, buffer') => (map_err (λ _, tt) res, buffer')
        | Err _ => (Err tt, buffer)
        end).

Definition sys_tcp_stream_write (handle : SocketHandle) (buffer : list Z)
    : M World (result nat unit) :=
  let socket := mkAsyncSocket handle in
  r ← poll_on fuel (write socket buffer) None;
  mret (finish r).

Definition sys_tcp_stream_close (handle : SocketHandle) : M World (result unit unit) :=
  let socket := mkAsyncSocket handle in
  r ← block_on fuel (close socket) None;
  mret (finish r).

Definition sys_tcp_stream_shutdown (handle : SocketHandle) (how : Z)
    : M World (result unit unit) :=
  match how with
  | 0%Z => mret (Ok tt)
  | 1%Z => sys_tcp_stream_close handle
  | 2%Z => sys_tcp_stream_close handle
  | _ => panic "Invalid shutdown argument"
  end.

(** The calls that are not supported. *)
Definition sys_tcp_stream_set_read_timeout (_ : SocketHandle) (_ : option Z)
    : M World (result unit unit) := mret (Err tt).
Definition sys_tcp_stream_get_read_timeout (_ : SocketHandle)
    : M World (result (option Z) unit) := mret (Err tt).
Definition sys_tcp_stream_set_write_timeout (_ : SocketHandle) (_ : option Z)
    : M World (result unit unit) := mret (Err tt).
Definition sys_tcp_stream_get_write_timeout (_ : SocketHandle)
    : M World (result (option Z) unit) := mret (Err tt).
Definition sys_tcp_stream_duplicate (_ : SocketHandle)
    : M World (result SocketHandle unit) := mret (Err tt).
Definition sys_tcp_stream_peek (_ : SocketHandle) (buf : list Z)
    : M World (result nat unit * list Z) := mret (Err tt, buf).
Definition sys_tcp_stream_set_nonblocking (_ : SocketHandle) (_ : bool)
    : M World (result unit unit) := mret (Err tt).
Definition sys_tcp_stream_set_tll (_ : SocketHandle) (_ : Z)
    : M World (result unit unit) := mret (Err tt).
Definition sys_tcp_stream_get_tll (_ : SocketHandle)
    : M World (result Z unit) := mret (Err tt).

Definition peer_addr_body (handle : SocketHandle) : M World (result (IpAddress * Z) unit) :=
  st ← gets (λ w, data (NIC w));
  match as_nic_mut st with
  | Err _ => mret (Err tt)
  | Ok nic =>
      socket ← unwrap_opt "handle does not refer to a valid socket"
                 (sockets_get (sockets nic) handle);
      let socket' := tcp_set_keep_alive socket
                       (Some (from_millis DEFAULT_KEEP_ALIVE_INTERVAL)) in
      _ ← modify (set_data (Initialized
            (set_sockets (sockets_put (sockets nic) handle socket') nic)));
      mret (Ok (tcp_remote_endpoint socket'))
  end.

Definition sys_tcp_stream_peer_addr (handle : SocketHandle)
    : M World (result (IpAddress * Z) unit) := with_guard (peer_addr_body handle).

Definition sys_tcp_listener_accept (port : Z)
    : M World (result (SocketHandle * IpAddress * Z) unit) :=
  socket ← async_socket_new;
  r ← block_on fuel (accept socket port) None;
  mret (match finish r with
        | Ok (addr, port) => Ok (as_handle socket, addr, port)
        | Err _ => Err tt
        end).
End Syscalls.

(** ** Specifications *)

Section Spec.
Context {smol : Smoltcp} {kern : Kernel smol} {at_ : AsyncTask}
        {envt : Environment kern at_} {atl : AsyncTaskLaws at_}
        {laws : SmoltcpLaws smol} {envl : EnvLaws}.
Variable fuel : nat.
Implicit Types (w : World) (hs : SocketHandle → Prop) (h : SocketHandle).

Definition no_handles : SocketHandle → Prop := λ _, False.

Lemma wp_spawn_cs tot hs nic f w E :
  cs_inv hs nic w →
  wp tot (spawn f) (λ t w', cs_inv hs nic w' ∧ NIC w' = NIC w ∧
    current w' = current w ∧ phase_of w' t = Some Scheduled) E w.
Proof.
  intros (Hl & Hp & Hs & Hh). unfold spawn, schedule. wp_run.
  pose proof (is_fresh (dom (tasks w))) as Hfresh. split; [|split; [done|split; [done|]]].
  - split_and!; [done|done|by apply slot_inv_spawn|done].
  - unfold phase_of; simpl. rewrite lookup_insert_eq. simpl. by rewrite phase_spawned.
Qed.

(** The device of a kernel: its MTU and its MAC address. *)
Definition device (k : KState) : option (Z * list Z) :=
  match sys_get_mtu k, sys_get_mac_address k with
  | Ok mtu, Ok mac => Some (mtu, mac)
  | _, _ => None
  end.

(** The constants of the build and the MAC address fit: the three strings are dotted quads, the
    addresses are unicast.  With DHCP the strings are not looked at. *)
Definition config_ok (ip gw mask : string) (dhcpv4 : bool) (mac : list Z) : bool :=
  mac_unicast mac && (dhcpv4 ||
    match parse_ipv4 ip, parse_ipv4 gw, parse_ipv4 mask with
    | Some i, Some _, Some m => cidr_accepted (own_cidr i m)
    | _, _, _ => false
    end).

(** The panics of the bring-up: there is a device, and the configuration does not fit. *)
Definition init_error (ip gw mask : string) (dhcpv4 : bool) (k : KState) (msg : string) : Prop :=
  (∃ mtu mac, device k = Some (mtu, mac) ∧ config_ok ip gw mask dhcpv4 mac = false) ∧
  (msg = PARSE_ERROR ∨ msg = BUILD_ERROR).

(** The builder, on one address. *)
Lemma wp_build tot mtu mac cidr rts Q (E : string → World → Prop) w :
  (∀ i, mac_unicast mac && cidr_accepted cidr = true → Q i w) →
  (mac_unicast mac && cidr_accepted cidr = false → E BUILD_ERROR w) →
  wp tot (unwrap_opt BUILD_ERROR (iface_build mtu mac [cidr] rts)) Q E w.
Proof.
  intros HQ HE. pose proof (iface_build_checks mtu mac [cidr] rts) as Hb. simpl in Hb.
  rewrite andb_true_r, <- andb_true_iff in Hb.
  destruct (iface_build mtu mac [cidr] rts) as [i|]; simpl; wp_run.
  - apply HQ. apply Hb. by exists i.
  - apply HE. destruct (_ && _); [|done]. by destruct (proj2 Hb eq_refl).
Qed.

Lemma wp_new tot ip gw mask dhcpv4 w :
  wp tot (new ip gw mask dhcpv4) (λ st w',
    (w' = w ∨ ∃ k, w' = set_kernel k w) ∧
    match device (kernel w) with
    | Some (_, mac) =>
        config_ok ip gw mask dhcpv4 mac = true ∧ ∃ nic, st = Initialized nic ∧ waker nic = wr_new
    | None => st = InitializationFailed
    end) (λ msg _, init_error ip gw mask dhcpv4 (kernel w) msg) w.
Proof.
  unfold new, new_dhcp, new_static, init_error, device, config_ok.
  destruct dhcpv4; wp_run.
  - destruct (sys_get_mtu (kernel w)) as [mtu|]; wp_run; [|by auto].
    destruct (sys_get_mac_address (kernel w)) as [mac|]; wp_run; [|by auto].
    unfold wp at 1, instant_now. destruct (clock_now (kernel w)) as [now k].
    destruct (dhcp_new sockets_new 900 600 now). wp_run.
    apply wp_build; rewrite unspecified_accepted; [intros i Hok|intros Hok]; wp_run; [|by eauto 10].
    rewrite Hok. eauto 10.
  - destruct (sys_get_mtu (kernel w)) as [mtu|]; wp_run; [|by auto].
    destruct (sys_get_mac_address (kernel w)) as [mac|]; wp_run; [|by auto].
    destruct (parse_ipv4 ip) as [[[[i0 i1] i2] i3]|]; wp_run;
      [|split; [exists mtu, mac; by rewrite andb_false_r|by left]].
    destruct (parse_ipv4 gw) as [[[[g0 g1] g2] g3]|]; wp_run;
      [|split; [exists mtu, mac; by rewrite andb_false_r|by left]].
    destruct (parse_ipv4 mask) as [[[[m0 m1] m2] m3]|]; wp_run;
      [|split; [exists mtu, mac; by rewrite andb_false_r|by left]].
    destruct (default_route_fits routes_new (ipv4_new g0 g1 g2 g3)) as [r ->]. wp_run.
    apply wp_build; [intros i Hok|intros Hok]; wp_run; eauto 10.
Qed.

(** The state of the kernel when [network_init] asks for the device. *)
Definition init_kernel (w : World) : KState :=
  let '(c, k) := timestamp_counter (kernel w) in
  kernel (env AtLock (set_LOCAL_ENDPOINT (λ _, c mod U16_MAX)%Z (set_kernel (λ _, k) w))).

(** What the bring-up leaves: with a device the interface is up and there is a network task, in
    the queue; without one the state says so, and nothing is spawned. *)
Definition init_post (ip gw mask : string) (dhcpv4 : bool) (k : KState) (w : World) : Prop :=
  match device k with
  | Some (_, mac) => config_ok ip gw mask dhcpv4 mac = true ∧ net_inv no_handles w ∧
      ∃ t, phase_of w t = Some Scheduled ∧ t ∈ QUEUE w
  | None => data (NIC w) = InitializationFailed ∧ locked (NIC w) = false ∧
      poisoned (NIC w) = false ∧ tasks w = ∅ ∧ QUEUE w = []
  end.

Lemma start_endpoint_some counter :
  start_endpoint counter = Some (counter mod U16_MAX)%Z ∧ (0 ≤ counter mod U16_MAX < U16_MAX)%Z.
Proof.
  unfold start_endpoint, U16_MAX.
  pose proof (Z.mod_pos_bound counter 65535 ltac:(lia)) as Hb.
  replace (_ && _) with true by lia. by split.
Qed.

Lemma scheduled_queued slot w t :
  slot_inv slot w → phase_of w t = Some Scheduled → t ∈ QUEUE w.
Proof.
  intros [Hp _] Ht. specialize (Hp _ _ Ht). simpl in Hp.
  destruct (decide (t ∈ QUEUE w)) as [|Hno]; [done|]. apply qcount_notin in Hno. lia.
Qed.

(** The part of [network_init] that runs under the lock. *)
Lemma wp_bring_up tot nic w E :
  backlog_ok fuel tot → cs_inv no_handles nic w → (E = λ _ _, False) →
  wp tot (
    now ← instant_now;
    nic' ← poll_common fuel now nic;
    _ ← modify (set_data (Initialized nic'));
    _ ← spawn_nic_thread;
    _ ← spawn NetworkRun;
    _ ← syscall sys_yield;
    mret (Ok tt : result unit unit))
    (λ r w', r = Ok tt ∧ ∃ nic' t, data (NIC w') = Initialized nic' ∧
       cs_inv no_handles nic' w' ∧ phase_of w' t = Some Scheduled ∧ current w' = current w) E w.
Proof.
  intros Hbl Hcs ->.
  wp_call (wp_instant_now_cs tot no_handles nic). intros now w1 [Hcs1 Hf1].
  wp_call (wp_poll_common fuel tot Hbl no_handles). intros nic' w2 (_ & [Hcs2 Hf2] & _).
  unfold spawn_nic_thread. wp_run.
  wp_call (wp_syscall_cs tot no_handles nic'). intros _ w3 [Hcs3 Hf3].
  unfold wp at 1, prim. destruct (sys_spawn_result (kernel w3)) as [[ret tid] k].
  wp_call (wp_spawn_cs tot no_handles nic'). intros t w4 (Hcs4 & HN4 & Hc4 & Ht).
  apply wp_bind. eapply wp_conseq.
  { apply wp_and; [by apply (wp_syscall_cs tot no_handles nic')|].
    apply wp_syscall_still, Hcs4. }
  cbv beta. intros _ w5 [[Hcs5 Hf5] (Ht5 & _)]. wp_run.
  split; [done|]. exists nic', t. destruct Hf1 as (_ & Hc1 & _), Hf2 as (_ & Hc2 & _).
  split_and!; [|done| |].
  - rewrite (proj1 Hf5), HN4; simpl. by rewrite (proj1 Hf3).
  - unfold phase_of. by rewrite Ht5.
  - rewrite (proj1 (proj2 Hf5)), Hc4; simpl. by rewrite (proj1 (proj2 Hf3)); simpl; congruence.
Qed.

Lemma wp_with_guard_boot {A} tot (body : M World A) Q (E : string → Prop) w :
  boot_inv w →
  (∀ w1, locked (NIC w1) = true → poisoned (NIC w1) = false → tasks w1 = ∅ → QUEUE w1 = [] →
     current w1 = current w → kernel w1 = kernel (env AtLock w) →
     wp tot body (λ a w', Q a (nic_unlock false w')) (λ s _, E s) w1) →
  wp tot (with_guard body) Q (λ s _, E s) w.
Proof.
  intros Hb Hbody. pose proof (env_boot AtLock w Hb) as (Hl & Hp & _ & Ht & Hq).
  unfold with_guard, nic_lock, nic_acquire, guarded, interfere. wp_run. rewrite (proj1 Hb).
  unfold wp, prim; simpl. rewrite Hp.
  set (w1 := set_NIC _ _). specialize (Hbody w1 eq_refl eq_refl Ht Hq eq_refl eq_refl).
  unfold wp in Hbody. by destruct (body w1).
Qed.

Lemma wp_network_init tot ip gw mask dhcpv4 w :
  backlog_ok fuel tot → boot_inv w →
  wp tot (network_init fuel ip gw mask dhcpv4)
    (λ r w', r = Ok tt ∧ init_post ip gw mask dhcpv4 (init_kernel w) w' ∧ current w' = current w)
    (λ s _, init_error ip gw mask dhcpv4 (init_kernel w) s) w.
Proof.
  intros Hbl Hb. unfold network_init, init_kernel. wp_run. unfold wp at 1, prim at 1.
  destruct (timestamp_counter (kernel w)) as [c k].
  destruct (start_endpoint_some c) as [-> _]. wp_run.
  apply wp_with_guard_boot; [done|]. intros w1 Hl Hp Ht Hq Hc <-. wp_run.
  eapply wp_mono; [apply (wp_new tot ip gw mask dhcpv4)| |done].
  cbv beta. intros st w2 [Hw2 Hst].
  assert (Hw2' : locked (NIC w2) = true ∧ poisoned (NIC w2) = false ∧ tasks w2 = ∅ ∧
                 QUEUE w2 = [] ∧ current w2 = current w).
  { by destruct Hw2 as [->|[k' ->]]. }
  destruct Hw2' as (Hl2 & Hp2 & Ht2 & Hq2 & Hc2). wp_run. unfold init_post.
  destruct (device (kernel w1)) as [[mtu mac]|].
  2:{ subst st. wp_run. split_and!; try done. by rewrite Hp2. }
  destruct Hst as (Hok & nic & -> & Hwk).
  assert (Hcs : cs_inv no_handles nic (set_data (Initialized nic) w2)).
  { split_and!; [done|done| |by intros ? []]. rewrite Hwk. split; unfold phase_of; simpl.
    - intros t p. by rewrite Ht2, lookup_empty.
    - intros t. rewrite Hq2. intros Hin. by apply elem_of_nil in Hin. }
  eapply wp_mono; [apply (wp_bring_up tot nic); [done|exact Hcs|done]| |done].
  intros r w3 (-> & nic' & t & Hd & Hcs' & Htk & Hc3). split; [done|].
  split; [|simpl in *; congruence].
  pose proof (net_inv_unlock no_handles nic' w3 Hcs' Hd) as Hnet.
  split_and!; [done|apply Hnet..|]. exists t. split; [done|].
  apply (scheduled_queued (slot_of (data (NIC w3)))); [|done].
  rewrite Hd. apply Hcs'.
Qed.

(** ** The system calls on a running network *)

Definition safe {A} hs (m : M World A) (Q : A → World → Prop) : Prop :=
  ∀ w, thread_inv hs w → wp false m (λ a w', thread_inv hs w' ∧ Q a w') (λ _ _, False) w.

Lemma net_inv_weaken hs hs' w : (∀ h, hs' h → hs h) → net_inv hs w → net_inv hs' w.
Proof.
  intros Hsub (?&?&?&nic&?&Hh). split_and!; try done. exists nic. split; [done|].
  intros h Hin. by apply Hh, Hsub.
Qed.

Lemma thread_inv_weaken hs hs' w :
  (∀ h, hs' h → hs h) → thread_inv hs w → thread_inv hs' w.
Proof. intros Hsub [? ?]. split; [by eapply net_inv_weaken|done]. Qed.

Lemma nic_thread_section tot hs w :
  backlog_ok fuel tot → net_inv hs w →
  wp tot (critical (nic_thread_body fuel)) (λ _, section_step hs w) (λ _ _, False) w.
Proof.
  intros Hbl Hinv. apply (wp_critical tot hs); [done|]. intros nic w1 _ Hd Hcs Hst.
  unfold nic_thread_body. wp_run. rewrite Hd.
  wp_call (wp_instant_now_cs tot hs nic). intros now w2 [Hcs2 Hf2].
  wp_call (wp_poll_common fuel tot Hbl hs). intros nic' w3 (_ & [Hcs3 Hf3] & _). wp_run.
  split; [by apply net_inv_store|]. etrans; [exact Hst|].
  etrans; [by apply frame_gentle|]. etrans; [by apply frame_gentle|]. done.
Qed.

Lemma wp_nic_thread_round hs w :
  thread_inv hs w →
  wp false (nic_thread_round fuel) (λ _, thread_inv hs) (λ _ _, False) w.
Proof.
  intros Hinv. unfold nic_thread_round.
  wp_call (wp_thread_inv _ _ _ _ _ Hinv (wp_syscall false hs _ w _ (proj1 Hinv))).
  intros _ w1 Hinv1. apply wp_thread_inv; [done|].
  apply wp_section0; [apply Hinv1|]. intros. by apply nic_thread_section.
Qed.

Lemma safe_read hs handle buffer :
  hs handle →
  safe hs (sys_tcp_stream_read fuel handle buffer) (λ r _,
    length r.2 = length buffer ∧
    match r.1 with
    | Ok n => n ≤ length buffer ∧ drop n r.2 = drop n buffer
    | Err _ => r.2 = buffer
    end).
Proof.
  intros Hin w Hinv. unfold sys_tcp_stream_read.
  wp_call (wp_poll_on fuel hs _ None _ w (read_fut hs (mkAsyncSocket handle) buffer Hin)).
  intros r w' [Hinv' Hr]. wp_run. split; [done|].
  destruct r as [[res b']|[]]; [|done]. destruct Hr as [[Hl Hr] _]. split; [done|].
  by destruct res.
Qed.

Lemma safe_write hs handle buffer :
  hs handle →
  safe hs (sys_tcp_stream_write fuel handle buffer) (λ r _,
    match r with Ok n => n ≤ length buffer | Err _ => True end).
Proof.
  intros Hin w Hinv. unfold sys_tcp_stream_write.
  wp_call (wp_poll_on fuel hs _ None _ w (write_fut hs (mkAsyncSocket handle) buffer Hin)).
  intros r w' [Hinv' Hr]. wp_run. split; [done|]. by destruct r as [[]|].
Qed.

Lemma safe_close hs handle :
  hs handle → safe hs (sys_tcp_stream_close fuel handle) (λ _ _, True).
Proof.
  intros Hin w Hinv. unfold sys_tcp_stream_close.
  wp_call (wp_block_on fuel hs _ None _ w (close_fut hs (mkAsyncSocket handle) Hin)).
  intros r w' [Hinv' Hr]. by wp_run.
Qed.

Lemma peer_addr_section tot hs handle w :
  net_inv hs w → hs handle →
  wp tot (critical (peer_addr_body handle)) (λ r w', section_step hs w w' ∧ is_ok r = true)
    (λ _ _, False) w.
Proof.
  intros Hinv Hin. apply (wp_critical tot hs); [done|].
  intros nic w1 _ Hd Hcs Hst. unfold peer_addr_body. wp_run. rewrite Hd. wp_run.
  destruct (proj2 (proj2 (proj2 Hcs)) _ Hin) as [sock Hsock]. rewrite Hsock. wp_run.
  split; [|done]. split; [by apply net_inv_put|done].
Qed.

Lemma safe_peer_addr hs handle :
  hs handle →
  safe hs (sys_tcp_stream_peer_addr handle) (λ r _, is_ok r = true).
Proof.
  intros Hin w Hinv. unfold sys_tcp_stream_peer_addr.
  eapply wp_conseq; [apply (wp_section false hs (λ _, hs) _ (λ r _, is_ok r = true));
    [apply Hinv|]|].
  - intros. by apply peer_addr_section.
  - cbv beta. intros r w' [Hs Hr]. split; [|done]. by eapply thread_inv_step; [apply Hinv|].
Qed.

(** A call that opens a socket: the new handle is one more that stays valid. *)
Definition opened hs (h : SocketHandle) w : Prop :=
  ¬ hs h ∧ thread_inv (λ h', hs h' ∨ h' = h) w.

Lemma safe_connect hs ip port timeout :
  safe hs (sys_tcp_stream_connect fuel ip port timeout) (λ r w',
    match r with Ok h => opened hs h w' | Err _ => ∃ h, opened hs h w' end).
Proof.
  intros w Hinv. unfold sys_tcp_stream_connect.
  wp_call (wp_async_socket_new false hs w (proj1 Hinv)). intros s w1 [Hs1 Hnew].
  set (hs' := λ h, hs h ∨ h = as_handle s).
  assert (Hin : hs' (as_handle s)) by by right.
  assert (Hinv1 : thread_inv hs' w1) by by eapply thread_inv_step; [apply Hinv|].
  wp_call (wp_block_on fuel hs' _ (option_map from_millis timeout) _ w1
             (connect_fut hs' s ip port Hin)).
  intros r w2 [Hinv2 Hr]. wp_run.
  assert (Hop : opened hs (as_handle s) w2) by done.
  split; [eapply thread_inv_weaken; [|exact Hinv2]; by left|].
  destruct r as [[h|e]|[]]; simpl; [|by exists (as_handle s)..].
  by rewrite Hr.
Qed.

Lemma safe_accept hs port :
  safe hs (sys_tcp_listener_accept fuel port) (λ r w',
    match r with Ok (h, _, _) => opened hs h w' | Err _ => ∃ h, opened hs h w' end).
Proof.
  intros w Hinv. unfold sys_tcp_listener_accept.
  wp_call (wp_async_socket_new false hs w (proj1 Hinv)). intros s w1 [Hs1 Hnew].
  set (hs' := λ h, hs h ∨ h = as_handle s).
  assert (Hin : hs' (as_handle s)) by by right.
  assert (Hinv1 : thread_inv hs' w1) by by eapply thread_inv_step; [apply Hinv|].
  wp_call (wp_block_on fuel hs' _ None _ w1 (accept_fut hs' s port Hin)).
  intros r w2 [Hinv2 Hr]. wp_run.
  assert (Hop : opened hs (as_handle s) w2) by done.
  split; [eapply thread_inv_weaken; [|exact Hinv2]; by left|].
  destruct r as [[[addr p]|e]|[]]; simpl; [done|by exists (as_handle s)..].
Qed.
End Spec.

(** ** A thread's session with the network stack *)

Section Session.
Context {smol : Smoltcp} {kern : Kernel smol} {at_ : AsyncTask}
        {envt : Environment kern at_}.
Variable fuel : nat.
Variables HERMIT_IP HERMIT_GATEWAY HERMIT_MASK : string.
Variable dhcpv4 : bool.

Definition add_handle (hs : SocketHandle → Prop) (h : SocketHandle) : SocketHandle → Prop :=
  λ h', hs h' ∨ h' = h.

(** The system calls that a program makes on the handles it was given, with the
    handles it holds afterwards. *)
Inductive call : (SocketHandle → Prop) → M World (SocketHandle → Prop) → Prop :=
| call_connect hs ip port timeout :
    call hs (r ← sys_tcp_stream_connect fuel ip port timeout;
             mret (match r with Ok h => add_handle hs h | Err _ => hs end))
| call_accept hs port :
    call hs (r ← sys_tcp_listener_accept fuel port;
             mret (match r with Ok (h, _, _) => add_handle hs h | Err _ => hs end))
| call_read hs h buffer :
    hs h → call hs (_ ← sys_tcp_stream_read fuel h buffer; mret hs)
| call_write hs h buffer :
    hs h → call hs (_ ← sys_tcp_stream_write fuel h buffer; mret hs)
| call_shutdown hs h how :
    hs h → (0 ≤ how ≤ 2)%Z → call hs (_ ← sys_tcp_stream_shutdown fuel h how; mret hs)
| call_close hs h :
    hs h → call hs (_ ← sys_tcp_stream_close fuel h; mret hs)
| call_peer_addr hs h :
    hs h → call hs (_ ← sys_tcp_stream_peer_addr h; mret hs)
| call_nic_thread hs :
    call hs (_ ← nic_thread_round fuel; mret hs).

(** The states after a successful bring-up and any calls that returned. *)
Inductive session : (SocketHandle → Prop) → World → Prop :=
| session_init logger level w r w' nic :
    boot_inv w → current w = None →
    sys_network_init fuel HERMIT_IP HERMIT_GATEWAY HERMIT_MASK dhcpv4 logger level w = Done r w' →
    data (NIC w') = Initialized nic →
    session no_handles w'
| session_call hs w m hs' w' :
    session hs w → call hs m → m w = Done hs' w' → session hs' w'.
End Session.

Section Properties.
Context {smol : Smoltcp} {kern : Kernel smol} {at_ : AsyncTask}
        {envt : Environment kern at_} {atl : AsyncTaskLaws at_}
        {laws : SmoltcpLaws smol} {envl : EnvLaws}.
Variable fuel : nat.
Implicit Types (hs : SocketHandle → Prop).

(** Every call keeps the network up and the handles valid. *)
Lemma call_wp hs m w :
  thread_inv hs w → call fuel hs m → wp false m (λ hs', thread_inv hs') (λ _ _, False) w.
Proof.
  intros IH Hcall. inversion Hcall; subst; wp_run.
  - wp_call (safe_connect fuel hs ip port timeout w IH). intros [h|] w1 [? Hop]; wp_run.
    + apply Hop.
    + done.
  - wp_call (safe_accept fuel hs port w IH). intros [[[h ?] ?]|] w1 [? Hop]; wp_run.
    + apply Hop.
    + done.
  - by wp_call (safe_read fuel hs h buffer H w IH); intros ? ? [? _]; wp_run.
  - by wp_call (safe_write fuel hs h buffer H w IH); intros ? ? [? _]; wp_run.
  - assert (how = 0 ∨ how = 1 ∨ how = 2)%Z as [->|[->| ->]] by lia; simpl; wp_run; [done|..];
      by wp_call (safe_close fuel hs h H w IH); intros ? ? [? _]; wp_run.
  - by wp_call (safe_close fuel hs h H w IH); intros ? ? [? _]; wp_run.
  - by wp_call (safe_peer_addr hs h H w IH); intros ? ? [? _]; wp_run.
  - by wp_call (wp_nic_thread_round fuel hs); intros ? ? ?; wp_run.
Qed.

Lemma session_thread_inv ip gw mask dhcpv4 hs w :
  session fuel ip gw mask dhcpv4 hs w → thread_inv hs w.
Proof.
  induction 1 as [logger level w r w' nic Hb Hc Hinit Hd|hs w m hs' w' _ IH Hcall Hm].
  - unfold sys_network_init in Hinit.
    apply bind_done in Hinit as (? & w1 & Hlog & Hinit).
    assert (w1 = w) as -> by (destruct logger; simpl in Hlog; [by injection Hlog|done]).
    apply bind_done in Hinit as (r1 & w2 & Hinit & [= _ <-]).
    pose proof (wp_done _ _ _ _ _ _ _
      (wp_network_init fuel false ip gw mask dhcpv4 w ltac:(done) Hb) Hinit) as (_ & Hpost & Hc').
    unfold init_post in Hpost. destruct (device (init_kernel w)) as [[mtu mac]|].
    + destruct Hpost as (_ & Hnet & t & Ht & _). split_and!; [apply Hnet..|congruence|].
      exists t. unfold phase_of in Ht. by destruct (tasks w2 !! t).
    + destruct Hpost as [Hd' _]. congruence.
  - exact (wp_done _ _ _ _ _ _ _ (call_wp hs m w IH Hcall) Hm).
Qed.
(** In every state that a program reaches after a successful [sys_network_init] by system
    calls on its own handles, whatever the other threads do in between, no spawned network task
    is lost, and no call panics or deadlocks on the lock. *)
Theorem session_safe ip gw mask dhcpv4 hs w :
  session fuel ip gw mask dhcpv4 hs w →
  locked (NIC w) = false ∧ poisoned (NIC w) = false ∧
  (∃ nic, data (NIC w) = Initialized nic) ∧ no_task_lost w ∧
  (∀ m, call fuel hs m → wp false m (λ _ _, True) (λ _ _, False) w).
Proof.
  intros Hs. pose proof (session_thread_inv _ _ _ _ _ _ Hs) as (Hinv & _ & Ha).
  pose proof (net_inv_no_task_lost _ _ Hinv Ha). destruct Hinv as (Hl & Hp & _ & nic & Hd & _).
  do 2 (split; [done|]). split; [by exists nic|]. split; [done|].
  - intros m Hm. eapply wp_conseq; [apply (call_wp hs m w); [|done]|done].
    by apply (session_thread_inv ip gw mask dhcpv4).
Qed.

(** C13: [network_init] on a freshly booted system ends, given that the backlog of packets is
    finite at any one instant.  When the kernel has a device, and the MAC address and the
    constants of the build fit, it answers [Ok], the interface is up and the network task is
    scheduled and in the queue.  When they do not fit - a string that is not an IPv4
    address, an address that is not unicast - it panics.  Without a device it answers [Ok],
    too, says [InitializationFailed] and spawns nothing. *)
Theorem network_init_brings_up ip gw mask dhcpv4 w :
  backlog_ok fuel true → boot_inv w →
  wp true (network_init fuel ip gw mask dhcpv4)
    (λ r w', r = Ok tt ∧ init_post ip gw mask dhcpv4 (init_kernel w) w')
    (λ msg _, init_error ip gw mask dhcpv4 (init_kernel w) msg) w.
Proof.
  intros Hbl Hb. eapply wp_mono; [by apply wp_network_init| |done].
  by intros r w' (? & ? & _).
Qed.

(** A connection attempt opens exactly one new socket.  On success its handle is
    the result; on failure or timeout the socket stays in the socket set and the
    caller has no handle to close it with. *)
Theorem tcp_connect_contract hs ip port timeout w :
  thread_inv hs w →
  wp false (sys_tcp_stream_connect fuel ip port timeout) (λ r w',
    match r with
    | Ok h => opened hs h w'
    | Err _ => ∃ h, opened hs h w'
    end) (λ _ _, False) w.
Proof.
  intros Hinv. eapply wp_conseq; [by apply safe_connect|]. by intros r w' [_ Hr].
Qed.
End Properties.

Section Return.
Context {smol : Smoltcp} {kern : Kernel smol} {at_ : AsyncTask}
        {envt : Environment kern at_}.

Lemma with_guard_done {A}
    (body : M World A) w a w' :
  with_guard body w = Done a w' → ∃ w1 w2, body w1 = Done a w2.
Proof.
  unfold with_guard. intros H. apply bind_done in H as (_ & w1 & _ & H).
  unfold guarded, prim in H. destruct (body w1) eqn:Hb; simplify_eq. eauto.
Qed.

Lemma network_init_ok
    fuel ip gw mask dhcpv4 (w w' : World) r :
  network_init fuel ip gw mask dhcpv4 w = Done r w' → r = Ok tt.
Proof.
  unfold network_init. intros H.
  apply bind_done in H as (c & w1 & _ & H). apply bind_done in H as (st & w2 & _ & H).
  apply bind_done in H as (_ & w3 & _ & H). apply with_guard_done in H as (w4 & w5 & H).
  apply bind_done in H as (n & w6 & _ & H). apply bind_done in H as (_ & w7 & _ & H).
  destruct n as [| |nic]; [by injection H..|].
  repeat (apply bind_done in H as (? & ? & _ & H)). by injection H.
Qed.

(** [sys_network_init] never reports a failure: whenever it returns, it returns
    0, also when the kernel has no network device and the interface was not
    initialized. *)
Theorem sys_network_init_always_zero
    fuel ip gw mask dhcpv4 logger level (w w' : World) lvl ret :
  sys_network_init fuel ip gw mask dhcpv4 logger level w = Done (lvl, ret) w' →
  ret = 0%Z.
Proof.
  intros H. unfold sys_network_init in H.
  apply bind_done in H as (? & w1 & _ & H). apply bind_done in H as (r & w2 & Hr & [= _ <- _]).
  by rewrite (network_init_ok _ _ _ _ _ _ _ _ Hr).
Qed.
End Return.

(** ** Witnesses on the concrete instance *)

Definition sim_boot : World := boot (at_ := sim_task) (kern := sim_kernel) 100%Z 5%Z.

Definition sim_init : M World (LevelFilter * Z) :=
  sys_network_init (envt := sim_quiet) 10 "10.0.5.3" "10.0.5.1" "255.255.255.0" false
    (Ok tt) (Some "Warn").

Definition sim_up : World := final sim_boot (sim_init sim_boot).

Lemma sim_init_returns : sim_init sim_boot = Done (Warn, 0%Z) sim_up.
Proof. apply run_returns. vm_compute. reflexivity. Defined.

Definition is_up (st : NetworkState) : bool :=
  match st with Initialized _ => true | _ => false end.

Lemma is_up_true st : is_up st = true → ∃ nic, st = Initialized nic.
Proof. destruct st as [| |nic]; simpl; [discriminate..|by exists nic]. Defined.

Lemma sim_backlog_ok : backlog_ok (smol := sim) 10 true.
Proof.
  intros _. constructor. refine {| backlog := @backlog sim 2 _ |}.
  - intros t i ss. pose proof (backlog_bound (bound := 2) t i ss). lia.
  - intros. by eapply (backlog_decreases (bound := 2)).
Defined.

Lemma sim_up_session :
  session (envt := sim_quiet) 10 "10.0.5.3" "10.0.5.1" "255.255.255.0" false no_handles sim_up.
Proof.
  assert (Hup : is_up (data (NIC sim_up)) = true) by (vm_compute; reflexivity).
  destruct (is_up_true _ Hup) as [nic Hd].
  apply (session_init (envt := sim_quiet) 10 _ _ _ _ (Ok tt) (Some "Warn") sim_boot
           (Warn, 0%Z) sim_up nic); [by split_and!|done|exact sim_init_returns|exact Hd].
Defined.

Lemma network_init_brings_up_witness :
  boot_inv sim_boot ∧
  wp true (network_init (envt := sim_quiet) 10 "10.0.5.3" "10.0.5.1" "255.255.255.0" true)
    (λ r w', r = Ok tt ∧ net_inv (at_ := sim_task) no_handles w' ∧
       ∃ t, phase_of (at_ := sim_task) w' t = Some Scheduled ∧ t ∈ QUEUE w') (λ _ _, False) sim_boot.
Proof.
  assert (Hb : boot_inv sim_boot) by by split_and!.
  split; [exact Hb|].
  eapply wp_mono; [apply (network_init_brings_up (envt := sim_quiet) 10 "10.0.5.3" "10.0.5.1"
    "255.255.255.0" true sim_boot sim_backlog_ok Hb)| |].
  - intros r w' [Hr (_ & Hnet & Ht)]. by split_and!.
  - intros msg w' [(mtu & mac & [= <- <-] & Hok) _]. vm_compute in Hok. discriminate.
Defined.

(** An open connection with four bytes waiting and room for four more. *)
Definition sim_conn : SimTcp :=
  mkSimTcp Established [1; 2; 3; 4]%Z [] ([10; 0; 5; 1]%Z, 80%Z) 0%Z [] [].

Lemma tcp_connect_contract_witness :
  thread_inv (at_ := sim_task) no_handles (sim_ready ∅) ∧
  wp false (sys_tcp_stream_connect (envt := sim_quiet) 10 [49]%Z 80%Z (Some 3%Z))
    (λ r w', match r with
             | Ok h => opened no_handles h w'
             | Err _ => ∃ h, opened no_handles h w'
             end) (λ _ _, False) (sim_ready ∅).
Proof.
  assert (Hi : thread_inv (at_ := sim_task) no_handles (sim_ready ∅))
    by (apply sim_ready_thread_inv; by intros h []).
  split; [exact Hi|].
  exact (tcp_connect_contract (envt := sim_quiet) 10 no_handles [49]%Z 80%Z (Some 3%Z) _ Hi).
Defined.

(** The kernel of the instance without a network device. *)
Definition sim_no_device : Kernel sim := {|
  KState := Z;
  clock_now k := (k, (k + 1)%Z);
  timestamp_counter k := (k, (k + 1)%Z);
  sys_get_mtu _ := Err tt;
  sys_get_mac_address _ := Err tt;
  sys_spawn_result k := (0%Z, 7%Z, k);
|}.

Definition sim_init_no_device : outcome (World (kern := sim_no_device))  (LevelFilter * Z) :=
  sys_network_init (kern := sim_no_device) (at_ := sim_task) (envt := λ _ w, w)
    10 "10.0.5.3" "10.0.5.1" "255.255.255.0" false (Ok tt) None
    (boot (kern := sim_no_device) (at_ := sim_task) 100%Z 5%Z).

Lemma sys_network_init_always_zero_witness :
  let w := boot (kern := sim_no_device) (at_ := sim_task) 100%Z 5%Z in
  let w' := final w sim_init_no_device in
  sim_init_no_device = Done (Info, 0%Z) w' ∧ is_up (data (NIC w')) = false ∧ 0%Z = 0%Z.
Proof.
  intros w w'.
  assert (Hrun : sim_init_no_device = Done (Info, 0%Z) w')
    by (apply run_returns; vm_compute; reflexivity).
  split; [exact Hrun|]. split; [vm_compute; reflexivity|].
  exact (sys_network_init_always_zero (kern := sim_no_device) (at_ := sim_task)
           (envt := λ _ w, w) 10 "10.0.5.3" "10.0.5.1" "255.255.255.0" false (Ok tt) None
           w w' Info 0%Z Hrun).
Defined.
