(* ===== verification/Answer.v ===== *)
(** * When a read or a write comes back

    [poll_on] returns as soon as the future is ready.  A read is ready when the socket
    has data or will never have any more, a write when the socket has room or will
    take nothing more; if the other threads leave the socket so, the call polls once
    and returns. *)

From S2P Require Import Prelude Extern WakerReg State Sim Invariant Nic Executor Utf8 Socket Syscalls.

Section Answer.
Context {smol : Smoltcp} {kern : Kernel smol} {at_ : AsyncTask}
        {envt : Environment kern at_} {atl : AsyncTaskLaws at_}
        {laws : SmoltcpLaws smol} {envl : EnvLaws}.
Variable fuel : nat.
Implicit Types (w : World) (hs : SocketHandle → Prop) (C : TcpSocket → bool).

(** A read does not have to wait, a write does not have to wait. *)
Definition readable (sock : TcpSocket) : bool :=
  closed_state (tcp_state sock) || tcp_can_recv sock || negb (tcp_may_recv sock).
Definition writable (sock : TcpSocket) : bool :=
  closed_state (tcp_state sock) || negb (tcp_may_recv sock) || tcp_can_send sock.

Definition socket_in C h w : Prop := ∃ sock, socket_at w h = Some sock ∧ C sock = true.

(** The other threads and the kernel leave the socket so: nobody else uses it, and
    what the peer sends only adds to it. *)
Definition env_keeps C h : Prop := ∀ p w, socket_in C h w → socket_in C h (env p w).

(** The future is ready at the first poll that finds the socket in such a state. *)
Definition answers {T} hs C h (f : Fut T) (Q : T → Prop) : Prop :=
  ∀ cx w, thread_inv hs w → socket_in C h (env AtLock w) →
    wp true (fut_poll f (fut_init f) cx)
      (λ r w', thread_inv hs w' ∧ ∃ t, r.2 = Ready t ∧ Q t) (λ _ _, False) w.

Lemma wp_syscall_keeps hs C h c w :
  env_keeps C h → thread_inv hs w → socket_in C h w →
  wp true (syscall c) (λ _ w', thread_inv hs w' ∧ socket_in C h w') (λ _ _, False) w.
Proof.
  intros Hk Hinv Hs. apply wp_and.
  { exact (wp_thread_inv _ _ _ _ _ Hinv (wp_syscall true hs c w _ (proj1 Hinv))). }
  unfold syscall, interfere. wp_run. rewrite (proj1 (proj1 Hinv)).
  apply (Hk (AtCall c) (set_klog _ w)), Hs.
Qed.

Lemma wp_current_thread_notify_keeps hs C h w :
  thread_inv hs w → socket_in C h w →
  wp true current_thread_notify (λ _ w', thread_inv hs w' ∧ socket_in C h w') (λ _ _, False) w.
Proof.
  intros Hinv Hs. apply wp_and.
  { exact (wp_thread_inv _ _ _ _ _ Hinv (wp_current_thread_notify true hs w _ (proj1 Hinv))). }
  unfold current_thread_notify, wp. by destruct (notifies w !! self w).
Qed.

Lemma wp_instant_now_keeps hs C h w :
  thread_inv hs w → socket_in C h w →
  wp true instant_now (λ _ w', thread_inv hs w' ∧ socket_in C h w') (λ _ _, False) w.
Proof.
  intros Hinv Hs. apply wp_and.
  { exact (wp_thread_inv _ _ _ _ _ Hinv (wp_instant_now true hs w _ (proj1 Hinv))). }
  unfold instant_now, wp. by destruct (clock_now (kernel w)).
Qed.

(** Polling once is enough: the loop of [poll_on] ends in its first round. *)
Lemma wp_poll_on_answers {T} hs C h (f : Fut T) timeout Q w :
  0 < fuel → env_keeps C h → answers hs C h f Q → thread_inv hs w → socket_in C h w →
  wp true (poll_on fuel f timeout)
    (λ r w', thread_inv hs w' ∧ ∃ t, r = Ok t ∧ Q t) (λ _ _, False) w.
Proof.
  intros Hfuel Hk Hf Hinv Hs. unfold poll_on.
  wp_call (wp_current_thread_notify_keeps hs C h). intros tid w1 [Hinv1 Hs1].
  wp_call (wp_syscall_keeps hs C h). intros _ w2 [Hinv2 Hs2].
  wp_call (wp_instant_now_keeps hs C h). intros start w3 [Hinv3 Hs3].
  destruct fuel as [|n]; [lia|]. apply wp_loop_S. unfold poll_on_round. wp_run.
  eapply wp_conseq; [apply Hf; [done|by apply Hk]|cbv beta].
  intros [st p] w4 (Hinv4 & t & Hp & HQ). simpl in Hp. subst p. wp_run.
  wp_call (wp_thread_inv _ _ _ _ _ Hinv4 (wp_syscall true hs _ w4 _ (proj1 Hinv4))).
  intros _ w5 Hinv5. wp_run. eauto.
Qed.

(** ** The two checks *)

Definition not_pending {T} (m : M World (poll T * TcpSocket)) : Prop :=
  ∀ w r w', m w = Done r w' → r.1 ≠ Pending.

Lemma ready_not_pending {T} sock (t : T) : not_pending (ready sock t).
Proof. by intros w r w' [= <- _]. Qed.

Lemma sock_op_not_pending {T} (t : T) sock ws : not_pending (sock_op (Ready t, sock, ws)).
Proof. by intros w r w' (? & ? & _ & [= <- _])%bind_done. Qed.

Lemma read_check_ready buffer cx sock :
  readable sock = true → not_pending (read_check buffer cx sock).
Proof.
  unfold readable, read_check. destruct (closed_state (tcp_state sock)).
  { intros _. apply ready_not_pending. }
  destruct (tcp_can_recv sock); simpl.
  - intros _. destruct (tcp_recv_slice sock buffer) as [[[r b'] s'] ws].
    apply sock_op_not_pending.
  - intros ->. apply ready_not_pending.
Qed.

Lemma write_check_ready buffer cx sock :
  writable sock = true → not_pending (write_check buffer cx sock).
Proof.
  unfold writable, write_check. destruct (closed_state (tcp_state sock)).
  { intros _. apply ready_not_pending. }
  destruct (negb (tcp_may_recv sock)); simpl; [intros _; apply ready_not_pending|].
  intros ->. by intros w r w' ([x sock'] & ? & _ & [= <- _])%bind_done.
Qed.

(** An access to a socket in a state [C] does not answer [Pending]. *)
Lemma wp_with_ready {T} d hs C s cx (f : TcpSocket → M World (poll T * TcpSocket)) Q w :
  net_inv hs w → hs (as_handle s) → socket_in C (as_handle s) (env AtLock w) →
  (∀ sock, check_spec d hs cx sock (f sock) Q) →
  (∀ sock, C sock = true → not_pending (f sock)) →
  wp false (with_ s f) (λ p _, p ≠ Pending) (λ _ _, True) w.
Proof.
  intros Hinv Hin (sock0 & Hsock0 & HC) Hf Hready.
  eapply wp_mono; [apply (wp_with false hs s f (λ p _, p ≠ Pending)); [done..|]| |done].
  - intros sock nic w1 Hcs Hsock. rewrite Hsock0 in Hsock. injection Hsock as <-.
    eapply wp_conseq; [apply wp_returned; [by apply Hf|by apply Hready]|].
    cbv beta. by intros r w2 [[Hs _] Hp].
  - cbv beta. by intros p w' (_ & _ & ? & _ & Hp).
Qed.

Lemma read_answers hs h buffer :
  hs h → answers hs readable h (read (mkAsyncSocket h) buffer) (read_result buffer).
Proof.
  intros Hin cx w Hinv Hs. simpl.
  eapply wp_conseq; [apply (wp_and _ _ _ (λ r _, r.2 ≠ Pending) _ _
    (wp_read_poll true hs (mkAsyncSocket h) buffer cx w Hin Hinv))|].
  - simpl. wp_run. eapply wp_conseq.
    { apply (wp_with_ready ForRecv hs readable (mkAsyncSocket h) cx _ (read_result buffer));
        [apply Hinv|done..|by apply read_check_spec|by intros; apply read_check_ready]. }
    cbv beta. intros [[r b']|] w' Hp; [by wp_run|done].
  - cbv beta. intros [st [t|]] w' [(Hinv' & Hp) Hr]; [|done]. split; [done|]. exists t. split; [done|].
    apply Hp.
Qed.

Lemma write_answers hs h buffer :
  hs h → answers hs writable h (write (mkAsyncSocket h) buffer) (write_result buffer).
Proof.
  intros Hin cx w Hinv Hs. simpl.
  eapply wp_conseq; [apply (wp_and _ _ _ (λ r _, r.2 ≠ Pending) _ _
    (wp_write_poll true hs (mkAsyncSocket h) buffer cx w Hin Hinv))|].
  - simpl. wp_run. eapply wp_conseq.
    { apply (wp_with_ready ForSend hs writable (mkAsyncSocket h) cx _ (write_result buffer));
        [apply Hinv|done..|by apply write_check_spec|by intros; apply write_check_ready]. }
    cbv beta. intros [r|] w' Hp; [by wp_run|done].
  - cbv beta. intros [st [t|]] w' [(Hinv' & Hp) Hr]; [|done]. split; [done|]. by exists t.
Qed.

(** ** Property *)

(** The calls that have to answer: not before the loop has one round, and only when the
    other threads leave the socket in the state [C]. *)
Definition must_answer C h w : Prop := 0 < fuel ∧ env_keeps C h ∧ socket_in C h w.

(** C18: A read moves at most as many bytes as the buffer holds and leaves the rest
    of the buffer alone, and an error leaves all of it alone; a write moves at most
    the bytes it is given.  Neither panics nor deadlocks, and both keep the network up.
    When the socket is ready for the call (there is data or will be none; there is room or
    nothing more is taken) and no other thread changes that, the call returns. *)
Theorem tcp_transfer_contract tot hs handle buffer w :
  hs handle → thread_inv hs w →
  ((tot = true → must_answer readable handle w) →
   wp tot (sys_tcp_stream_read fuel handle buffer) (λ r w',
     thread_inv hs w' ∧ length r.2 = length buffer ∧
     match r.1 with
     | Ok n => n ≤ length buffer ∧ drop n r.2 = drop n buffer
     | Err _ => r.2 = buffer
     end) (λ _ _, False) w) ∧
  ((tot = true → must_answer writable handle w) →
   wp tot (sys_tcp_stream_write fuel handle buffer) (λ r w',
     thread_inv hs w' ∧ match r with Ok n => n ≤ length buffer | Err _ => True end)
     (λ _ _, False) w).
Proof.
  intros Hin Hinv. destruct tot.
  2:{ split; intros _; [by apply safe_read|by apply safe_write]. }
  split; intros (Hfuel & Hk & Hs); try done.
  - unfold sys_tcp_stream_read.
    wp_call (wp_poll_on_answers hs readable handle _ _ _ w Hfuel Hk
               (read_answers hs handle buffer Hin)).
    intros r w' (Hinv' & [res b'] & -> & Hl & Hr). wp_run. split; [done|]. split; [done|].
    by destruct res.
  - unfold sys_tcp_stream_write.
    wp_call (wp_poll_on_answers hs writable handle _ _ _ w Hfuel Hk
               (write_answers hs handle buffer Hin)).
    intros r w' (Hinv' & res & -> & Hr). wp_run. split; [done|]. by destruct res.
Qed.
End Answer.

(** ** Witness *)

Lemma sim_conn_ready C :
  C sim_conn = true →
  must_answer (envt := sim_quiet) 10 C 0 (sim_ready {[0 := sim_conn]}).
Proof.
  intros HC. split; [apply Nat.lt_0_succ|]. split; [by intros p w|].
  exists sim_conn. by split.
Defined.

Lemma tcp_transfer_contract_witness :
  value_of (sys_tcp_stream_read (envt := sim_quiet) 10 0 [0; 0; 0]%Z (sim_ready {[0 := sim_conn]}))
    = Some (Ok 3, [1; 2; 3]%Z) ∧
  wp true (sys_tcp_stream_read (envt := sim_quiet) 10 0 [0; 0; 0]%Z) (λ r w',
    thread_inv (λ h, h = 0) w' ∧ length r.2 = 3 ∧
    match r.1 with
    | Ok n => n ≤ 3 ∧ drop n r.2 = drop n [0; 0; 0]%Z
    | Err _ => r.2 = [0; 0; 0]%Z
    end) (λ _ _, False) (sim_ready {[0 := sim_conn]}).
Proof.
  split; [vm_compute; reflexivity|].
  apply (tcp_transfer_contract (envt := sim_quiet) 10 true (λ h, h = 0) 0 [0; 0; 0]%Z); [done| |].
  - apply sim_ready_thread_inv. intros h ->. by exists sim_conn.
  - intros _. by apply sim_conn_ready.
Defined.
