(* ===== verification/Trace.v ===== *)
(** * The system calls that the network calls make

    What a call asks of the kernel, as a language of traces: a computation that returns has
    added a trace of the language to the log of its thread. *)

From S2P Require Import Prelude Extern WakerReg State Sim Invariant Nic Executor Utf8 Socket Moves Syscalls.

(** A set of traces that is closed under doing one after the other and contains the wakeups. *)
Class Traces (L : list KCall → Prop) : Prop := {
  traces_nil : L [];
  traces_app l1 l2 : L l1 → L l2 → L (l1 ++ l2);
  traces_wakeup tid : L [sys_wakeup_task tid];
}.

(** Waking threads. *)
Definition is_wakeup (c : KCall) : Prop := ∃ tid, c = sys_wakeup_task tid.
Definition wakeups (l : list KCall) : Prop := Forall is_wakeup l.

(** Waking threads and blocking; a thread that has asked to be blocked gives up the
    processor at once. *)
Inductive waits : list KCall → Prop :=
| waits_nil : waits []
| waits_wakeup tid l : waits l → waits (sys_wakeup_task tid :: l)
| waits_block l : waits l → waits (sys_block_current_task :: sys_yield :: l)
| waits_block_timeout d l :
    waits l → waits (sys_block_current_task_with_timeout d :: sys_yield :: l).

#[export] Instance wakeups_traces : Traces wakeups.
Proof.
  split; [constructor|by intros; apply Forall_app|].
  intros tid. repeat constructor. by exists tid.
Qed.

#[export] Instance waits_traces : Traces waits.
Proof. split; [constructor| |by repeat constructor]. induction 1; simpl; eauto using waits. Qed.

Section Emits.
Context {smol : Smoltcp} {kern : Kernel smol} {at_ : AsyncTask}
        {envt : Environment kern at_}.

(** A trace of the language has been added to the log. *)
Definition adds (L : list KCall → Prop) : relation World :=
  λ w w', ∃ l, klog w' = klog w ++ l ∧ L l.

#[export] Instance adds_steps L : Traces L → AllSteps (adds L).
Proof.
  assert (Hnil : ∀ w w', L [] → klog w' = klog w → adds L w w').
  { intros w w' HL Hk. exists []. by rewrite app_nil_r. }
  intros tr. pose proof traces_nil.
  assert (Henv : ∀ p w w', interfere p w = Done tt w' → adds L w w').
  { intros p w w' [= <-]. apply Hnil; [done|]. by destruct (locked (NIC w)). }
  split; [split|..]; auto.
  - split; [intros w; auto|]. intros w1 w2 w3 (l1 & E1 & ?) (l2 & E2 & ?).
    exists (l1 ++ l2). rewrite E2, E1, app_assoc. split; [done|by apply traces_app].
  - intros w w' (Hk & _). auto.
  - intros p w w' _. apply Henv.
  - intros tid w. exists [sys_wakeup_task tid]. split; [done|apply traces_wakeup].
Qed.

#[export] Instance adds_port L : Traces L → PortSteps (adds L).
Proof. intros tr f w. exists []. rewrite app_nil_r. split; [done|apply traces_nil]. Qed.

(** A computation that returns has added a trace of the language to the log. *)
#[local] Abbreviation Emits L m := (Moves (adds L) m).

Lemma emits_syscall (L : list KCall → Prop) c : L [c] → Emits L (syscall c).
Proof.
  intros Hc w a w' ([] & w1 & [= <-] & [= _ <-])%bind_done. exists [c]. split; [|done].
  by destruct (locked _).
Qed.

Lemma klog_current_thread_notify w tid w' :
  current_thread_notify w = Done tid w' → klog w' = klog w.
Proof.
  unfold current_thread_notify. destruct (notifies w !! self w); by intros [= _ <-].
Qed.

Lemma klog_instant_now w now w' : instant_now w = Done now w' → klog w' = klog w.
Proof. unfold instant_now. destruct (clock_now _). by intros [= _ <-]. Qed.

Lemma klog_unparked_store tid b w w' : unparked_store tid b w = Done tt w' → klog w' = klog w.
Proof. intros ([] & w1 & [= <-] & [= <-])%bind_done. simpl. by destruct (locked (NIC w)). Qed.

(** Everything below the blocking calls only wakes threads. *)
Definition quiet_fut {T} (f : Fut T) : Prop := moves_fut (R := adds wakeups) f.
End Emits.

#[local] Abbreviation Emits L m := (Moves (adds L) m).

Section Blocking.
Context {smol : Smoltcp} {kern : Kernel smol} {at_ : AsyncTask}
        {envt : Environment kern at_}.
Variable fuel : nat.

(** What a round of a loop adds to the log, by the way it ends. *)
Definition round_adds {S R} (go stop : list KCall → Prop) (m : M World (S + R)) : Prop :=
  ∀ w r w', m w = Done r w' → ∃ l, klog w' = klog w ++ l ∧
    match r with inl _ => go l | inr _ => stop l end.

Lemma loop_adds {S R} (go stop : list KCall → Prop) n (body : S → M World (S + R)) s :
  (∀ l1 l2, go l1 → stop l2 → stop (l1 ++ l2)) →
  (∀ s, round_adds go stop (body s)) → Emits stop (loop n body s).
Proof.
  intros Happ Hb. revert s. induction n as [|n IH]; intros s; simpl; [by intros ???|].
  intros w a w' (r & w1 & H1 & H2)%bind_done.
  destruct (Hb s _ _ _ H1) as (l1 & E1 & Hl1). destruct r as [s'|b].
  - destruct (IH s' _ _ _ H2) as (l2 & E2 & Hl2). exists (l1 ++ l2).
    rewrite E2, E1, app_assoc. split; [done|by apply Happ].
  - injection H2 as _ <-. by exists l1.
Qed.

(** Switching the polling mode off at the end. *)
Definition wakeups_then_off (l : list KCall) : Prop :=
  ∃ l', l = l' ++ [sys_set_network_polling_mode false] ∧ wakeups l'.

Lemma poll_on_round_adds {T} (f : Fut T) tid start timeout st :
  quiet_fut f →
  round_adds wakeups wakeups_then_off (poll_on_round fuel f tid start timeout st).
Proof.
  intros Hf w r w' ([st' p] & w1 & H1 & H2)%bind_done.
  destruct (Hf _ _ _ _ _ H1) as (l1 & E1 & Hl1).
  assert (Hoff : ∀ (x : result T unit) l2 w2,
    klog w2 = klog w1 ++ l2 → wakeups l2 →
    (_ ← syscall (sys_set_network_polling_mode false); mret (inr (A := fut_state f) x)) w2
      = Done r w' →
    ∃ l, klog w' = klog w ++ l ∧ match r with inl _ => wakeups l | inr _ => wakeups_then_off l end).
  { intros x l2 w2 E2 Hl2 ([] & w3 & H3 & [= <- <-])%bind_done.
    destruct (emits_syscall (λ l, l = [sys_set_network_polling_mode false]) _ eq_refl
                _ _ _ H3) as (l & E3 & ->).
    exists ((l1 ++ l2) ++ [sys_set_network_polling_mode false]).
    rewrite E3, E2, E1, <- !app_assoc. split; [done|].
    exists (l1 ++ l2). split; [by rewrite app_assoc|by apply Forall_app]. }
  destruct p as [t|].
  - apply (Hoff (Ok t) [] w1); [by rewrite app_nil_r|constructor|done].
  - apply bind_done in H2 as (late & w2 & H2 & H3).
    destruct (moves_timed_out (R := adds wakeups) start timeout _ _ _ H2) as (l2 & E2 & Hl2).
    destruct late; [by apply (Hoff (Err tt) l2 w2)|].
    apply bind_done in H3 as ([] & w3 & H3 & [= <- <-]).
    destruct (moves_run_executor (R := adds wakeups) fuel _ _ _ H3) as (l3 & E3 & Hl3).
    exists (l1 ++ l2 ++ l3). rewrite E3, E2, E1, <- !app_assoc. split; [done|].
    by repeat apply Forall_app_2.
Qed.

(** The traces of [poll_on]. *)
Definition polls (l : list KCall) : Prop :=
  ∃ l', l = [sys_set_network_polling_mode true] ++ l' ++ [sys_set_network_polling_mode false] ∧
        wakeups l'.

Lemma poll_on_polls {T} (f : Fut T) timeout : quiet_fut f → Emits polls (poll_on fuel f timeout).
Proof.
  intros Hf w a w' (tid & w1 & H1 & H)%bind_done. apply klog_current_thread_notify in H1.
  apply bind_done in H as ([] & w2 & H2 & H).
  destruct (emits_syscall (λ l, l = [sys_set_network_polling_mode true]) _ eq_refl
              _ _ _ H2) as (l2 & E2 & ->).
  apply bind_done in H as (start & w3 & H3 & H). apply klog_instant_now in H3.
  eapply (loop_adds wakeups wakeups_then_off) in H as (l & E & l' & -> & Hl');
    [|intros l1 l4 ? (l5 & -> & ?); exists (l1 ++ l5); rewrite app_assoc;
      split; [done|by apply Forall_app]|by intros; apply poll_on_round_adds].
  eexists. rewrite E, H3, E2, H1, <- app_assoc. split; [done|by exists l'].
Qed.

Lemma idle_waits tid delay : Emits waits (idle fuel tid delay).
Proof.
  assert (Hblock : ∀ c, waits [c; sys_yield] →
    Emits waits (_ ← syscall c; _ ← syscall sys_yield; _ ← unparked_store tid false;
                 run_executor fuel)).
  { intros c Hc w a w' ([] & w1 & H1 & H)%bind_done.
    apply bind_done in H as ([] & w2 & H2 & H). apply bind_done in H as ([] & w3 & H3 & H).
    destruct (emits_syscall (λ l, l = [c]) _ eq_refl _ _ _ H1) as (? & E1 & ->).
    destruct (emits_syscall (λ l, l = [sys_yield]) _ eq_refl _ _ _ H2) as (? & E2 & ->).
    apply klog_unparked_store in H3.
    destruct (moves_run_executor (R := adds waits) fuel _ _ _ H) as (l & E & Hl).
    exists ([c; sys_yield] ++ l). rewrite E, H3, E2, E1, <- !app_assoc.
    split; [done|by apply traces_app]. }
  unfold idle. destruct (should_block delay); [|apply _].
  apply moves_bind; [apply _|]. intros []; simpl; [apply _|].
  destruct delay; apply Hblock; eauto using waits.
Qed.

(** [block_on] waits, and never touches the polling mode. *)
Lemma block_on_waits {T} (f : Fut T) timeout :
  moves_fut (R := adds waits) f → Emits waits (block_on fuel f timeout).
Proof.
  intros Hf. assert (Hp : ∀ st cx, Emits waits (fut_poll f st cx)) by exact Hf.
  pose proof idle_waits. unfold block_on, block_on_round. moves_run.
Qed.
End Blocking.

(** ** Properties *)

Section Properties.
Context {smol : Smoltcp} {kern : Kernel smol} {at_ : AsyncTask}
        {envt : Environment kern at_}.
Variable fuel : nat.

(** C14: A read or a write that returns, with whatever result, has switched the
    network polling mode on once, first, and off once, last; in between the thread has
    only woken other threads: it never blocks and never yields. *)
Theorem polling_mode_restored handle buffer w :
  (∀ r w', sys_tcp_stream_read fuel handle buffer w = Done r w' →
     ∃ l, klog w' = klog w ++ l ∧ polls l) ∧
  (∀ r w', sys_tcp_stream_write fuel handle buffer w = Done r w' →
     ∃ l, klog w' = klog w ++ l ∧ polls l).
Proof.
  split; intros r w' (x & w1 & H & H2)%bind_done.
  - eapply poll_on_polls in H; [|apply read_moves]. by injection H2 as _ <-.
  - eapply poll_on_polls in H; [|apply write_moves]. by injection H2 as _ <-.
Qed.

(** C15: Connecting, accepting and closing leave the polling mode alone, and whenever
    they ask the kernel to block the thread they yield the processor in the very next
    system call, as the kernel demands. *)
Theorem blocking_calls_yield handle ip port timeout w :
  (∀ r w', sys_tcp_stream_connect fuel ip port timeout w = Done r w' →
     ∃ l, klog w' = klog w ++ l ∧ waits l) ∧
  (∀ r w', sys_tcp_listener_accept fuel port w = Done r w' →
     ∃ l, klog w' = klog w ++ l ∧ waits l) ∧
  (∀ r w', sys_tcp_stream_close fuel handle w = Done r w' →
     ∃ l, klog w' = klog w ++ l ∧ waits l).
Proof.
  split_and!.
  - intros r w'. cut (Emits waits (sys_tcp_stream_connect fuel ip port timeout)); [by intros H; apply H|].
    unfold sys_tcp_stream_connect. apply moves_bind; [apply _|]. intros s.
    apply moves_bind; [apply block_on_waits, connect_moves|apply _].
  - intros r w'. cut (Emits waits (sys_tcp_listener_accept fuel port)); [by intros H; apply H|].
    unfold sys_tcp_listener_accept. apply moves_bind; [apply _|]. intros s.
    apply moves_bind; [apply block_on_waits, accept_moves|apply _].
  - intros r w'. cut (Emits waits (sys_tcp_stream_close fuel handle)); [by intros H; apply H|].
    unfold sys_tcp_stream_close.
    apply moves_bind; [apply block_on_waits, close_moves|apply _].
Qed.
End Properties.

(** ** Witnesses *)

Definition sim_read : outcome World (result nat unit * list Z) :=
  sys_tcp_stream_read (envt := sim_quiet) 10 0 [0; 0; 0]%Z (sim_ready {[0 := sim_conn]}).

Lemma polling_mode_restored_witness :
  let w := sim_ready {[0 := sim_conn]} in
  let w' := final w sim_read in
  sim_read = Done (Ok 3, [1; 2; 3]%Z) w' ∧
  klog w' = [sys_set_network_polling_mode true; sys_set_network_polling_mode false] ∧
  ∃ l, klog w' = klog w ++ l ∧ polls l.
Proof.
  intros w w'.
  assert (Hrun : sim_read = Done (Ok 3, [1; 2; 3]%Z) w')
    by (apply run_returns; vm_compute; reflexivity).
  split; [exact Hrun|]. split; [vm_compute; reflexivity|].
  exact (proj1 (polling_mode_restored (envt := sim_quiet) 10 0 [0; 0; 0]%Z w) _ _ Hrun).
Defined.

(** Closing an idle connection. *)
Definition sim_close : outcome World (result unit unit) :=
  sys_tcp_stream_close (envt := sim_busy) 10 0 (sim_ready {[0 := sim_socket CloseWait]}).

Lemma blocking_calls_yield_witness :
  let w := sim_ready {[0 := sim_socket CloseWait]} in
  let w' := final w sim_close in
  sim_close = Done (Ok tt) w' ∧ ∃ l, klog w' = klog w ++ l ∧ waits l.
Proof.
  intros w w'.
  assert (Hrun : sim_close = Done (Ok tt) w') by (apply run_returns; vm_compute; reflexivity).
  split; [exact Hrun|].
  exact (proj2 (proj2 (blocking_calls_yield (envt := sim_busy) 10 0 [] 0%Z None w)) _ _ Hrun).
Defined.
