(* ===== verification/Timeout.v ===== *)
(** * A connection attempt with a timeout comes back

    [block_on] goes round until its future is ready or the clock has passed the deadline.  Every
    round polls the future, runs the executor and may block; if each of these ends and the clock
    does not stand still, the call returns. *)

From S2P Require Import Prelude Extern WakerReg State Sim Invariant Nic Executor Progress Utf8 Socket Moves Syscalls.

(** ** Who waits for the sockets *)

(** Documented behaviour of the registrations of a socket: registering leaves nothing but the new
    waker and those that were there, no other operation adds one, and polling wakes only
    wakers that are registered. *)
Section Wakers.
Context {smol : Smoltcp} {laws : SmoltcpLaws smol}.

Definition wakers (s : TcpSocket) : list Waker := send_wakers s ++ recv_wakers s.

(** The wakers of the sockets in [ss'] are wakers of the sockets in [ss]. *)
Definition no_new_wakers (ss ss' : SocketSet) : Prop :=
  ∀ h s', sockets_get ss' h = Some s' →
    ∀ wk, wk ∈ wakers s' → ∃ h s, sockets_get ss h = Some s ∧ wk ∈ wakers s.
Definition woken_in (ss : SocketSet) (ws : list Waker) : Prop :=
  ∀ wk, wk ∈ ws → ∃ h s, sockets_get ss h = Some s ∧ wk ∈ wakers s.

Class WakerLaws : Prop := {
  new_wakers rx tx : wakers (tcp_new rx tx) = [];
  connect_wakers s peer local r s' ws :
    tcp_connect s peer local = (r, s', ws) → wakers s' ⊆ wakers s;
  register_send_wakers s wk s' ws :
    tcp_register_send_waker s wk = (s', ws) → wakers s' ⊆ wk :: wakers s;
  iface_poll_wakers i ss t r i' ss' ws :
    iface_poll i ss t = (r, i', ss', ws) → no_new_wakers ss ss' ∧ woken_in ss ws;
  dhcp_poll_wakers c i ss t r c' i' ss' ws :
    dhcp_poll c i ss t = (r, c', i', ss', ws) → no_new_wakers ss ss' ∧ woken_in ss ws;
}.

(** Only threads wait for sockets. *)
Definition threads_only (ss : SocketSet) : Prop :=
  ∀ h s, sockets_get ss h = Some s → Forall is_thread (wakers s).

Lemma threads_only_step ss ss' ws :
  no_new_wakers ss ss' ∧ woken_in ss ws → threads_only ss → threads_only ss' ∧ Forall is_thread ws.
Proof.
  intros [Hn Hw] H. split.
  - intros h s' Hs'. apply Forall_forall. intros wk Hwk.
    destruct (Hn h s' Hs' wk Hwk) as (h0 & s0 & H0 & Hin).
    by eapply Forall_forall in Hin; [|by eapply H].
  - apply Forall_forall. intros wk Hwk. destruct (Hw wk Hwk) as (h0 & s0 & H0 & Hin).
    by eapply Forall_forall in Hin; [|by eapply H].
Qed.

#[export] Instance threads_only_wakers : WakerLaws → ThreadWakers threads_only.
Proof.
  intros wl. split.
  - intros i ss t r i' ss' ws Hp. by eapply threads_only_step, iface_poll_wakers.
  - intros c i ss t r c' i' ss' ws Hp. by eapply threads_only_step, dhcp_poll_wakers.
Qed.

Lemma threads_only_put ss h s s' :
  threads_only ss → sockets_get ss h = Some s → Forall is_thread (wakers s') →
  threads_only (sockets_put ss h s').
Proof.
  intros H Hs Hs' h0 s0. destruct (decide (h = h0)) as [<-|Hne].
  - erewrite sockets_get_put by done. by intros [= <-].
  - rewrite sockets_get_put_ne by done. apply H.
Qed.

Lemma threads_only_add {wl : WakerLaws} ss rx tx :
  threads_only ss → threads_only (sockets_add ss (tcp_new rx tx)).2.
Proof.
  intros H h s Hs. destruct (decide (h = (sockets_add ss (tcp_new rx tx)).1)) as [->|Hne].
  - rewrite sockets_get_add in Hs. injection Hs as <-. rewrite new_wakers. constructor.
  - rewrite sockets_get_add_ne in Hs by done. by eapply H.
Qed.
End Wakers.

Arguments WakerLaws smol {laws}.

Section Timeout.
Context {smol : Smoltcp} {kern : Kernel smol} {at_ : AsyncTask}
        {envt : Environment kern at_} {atl : AsyncTaskLaws at_} {laws : SmoltcpLaws smol}
        {wl : WakerLaws smol}.
Implicit Types (w : World) (t : TaskId) (hs : SocketHandle → Prop) (s : AsyncSocket).

(** ** The clock *)

(** How often the clock can be read before it shows the instant [goal]; neither the kernel nor
    the other threads turn it back. *)
Class ClockLaws (left : Instant → KState → nat) : Prop := {
  clock_read goal k : left goal (clock_now k).2 ≤ left goal k;
  clock_before goal k :
    instant_ge (clock_now k).1 goal = false → left goal (clock_now k).2 < left goal k;
  clock_env goal p w : left goal (kernel (env p w)) ≤ left goal (kernel w);
}.

Context (left : Instant → KState → nat) {cl : ClockLaws left} (quiet : quiet_env threads_only).

(** Time goes on, and no task is created. *)
Definition later (goal : Instant) : relation World := λ w w',
  left goal (kernel w') ≤ left goal (kernel w) ∧
  ∀ t, is_Some (tasks w' !! t) → is_Some (tasks w !! t).

#[export] Instance later_steps goal : AllSteps (later goal).
Proof.
  assert (Henv : ∀ p w w', interfere p w = Done tt w' → later goal w w').
  { intros p w w' [= <-]. pose proof (clock_env goal p w). destruct (quiet p w) as (Ht & _ & _).
    destruct (locked (NIC w)); split; simpl; try done. by rewrite Ht. }
  split; [split|..]; try done.
  - split; [by intros w|]. intros w1 w2 w3 [? H1] [? H2]. split; [lia|auto].
  - intros w w' (_ & Hk & Ht & _). split; [by rewrite Hk|done].
  - intros w. split; [apply clock_read|done].
  - intros p w w' _. apply Henv.
Qed.

#[export] Instance later_port goal : PortSteps (later goal).
Proof. by intros f w. Qed.

(** ** The thread between two of its steps *)

(** The network is up, only threads wait for its sockets, and there is one network task. *)
Definition up hs t0 w : Prop :=
  thread_inv hs w ∧ calm threads_only w ∧ ∀ t, is_Some (tasks w !! t) → t = t0.

(** A computation that keeps the invariants of the thread keeps it, and time goes on. *)
Lemma wp_up {A} goal hs t0 (m : M World A) (Q : A → Prop) w :
  Moves (later goal) m → up hs t0 w →
  wp true m (λ a w', thread_inv hs w' ∧ Q a) (λ _ _, False) w →
  wp false m (λ _, calm threads_only) (λ _ _, True) w →
  wp true m (λ a w', up hs t0 w' ∧ later goal w w' ∧ Q a) (λ _ _, False) w.
Proof.
  intros Hm (_ & _ & Hone) Hwp Hc.
  eapply wp_conseq; [exact (wp_moves _ _ _ _ _ _ Hm (wp_and _ _ _ _ _ _ Hwp Hc))|cbv beta].
  intros a w' [[[Hi HQ] Hc'] Hl]. split_and!; [|done|done].
  split_and!; [done|done|]. intros t' Ht'. by apply Hone, Hl.
Qed.

Lemma wp_up_step {A} goal hs t0 (m : M World A) w :
  Moves (later goal) m → up hs t0 w →
  wp true m (λ _, step_inv hs w) (λ _ _, False) w →
  wp false m (λ _, calm threads_only) (λ _ _, True) w →
  wp true m (λ _ w', up hs t0 w' ∧ later goal w w') (λ _ _, False) w.
Proof.
  intros Hm Hup Hwp Hc. eapply wp_conseq; [apply (wp_up goal hs t0 m (λ _, True) w Hm Hup)|].
  - eapply wp_conseq; [apply (wp_thread_inv _ _ _ _ _ (proj1 Hup) Hwp)|]. by cbv beta.
  - done.
  - by intros a w' (? & ? & _).
Qed.

(** ** What stays calm *)

#[local] Abbreviation calm := (calm threads_only).

Lemma calm_ext w w' : NIC w' = NIC w → calm w → calm w'.
Proof. intros HN (nic & H & HP). exists nic. by rewrite HN. Qed.

Lemma calm_syscall c w : calm w → wp false (syscall c) (λ _, calm) (λ _ _, True) w.
Proof.
  intros Hc. unfold syscall. wp_run. set (w1 := set_klog _ w).
  eapply wp_conseq; [by apply (wp_interfere_calm threads_only quiet)|cbv beta]. by intros _ w' [? _].
Qed.

Lemma calm_unparked_swap tid b w :
  calm w → wp false (unparked_swap tid b) (λ _, calm) (λ _ _, True) w.
Proof.
  intros Hc. unfold unparked_swap. wp_run.
  eapply wp_conseq; [by apply (wp_interfere_calm threads_only quiet)|cbv beta].
  intros _ w' [Hc' _]. unfold wp, prim. by destruct (notifies w' !! tid).
Qed.

Lemma calm_unparked_store tid b w :
  calm w → wp false (unparked_store tid b) (λ _, calm) (λ _ _, True) w.
Proof.
  intros Hc. unfold unparked_store. wp_run.
  eapply wp_conseq; [by apply (wp_interfere_calm threads_only quiet)|cbv beta].
  intros _ w' [Hc' _]. by wp_run.
Qed.

Lemma calm_instant_now w : calm w → wp false instant_now (λ _, calm) (λ _ _, True) w.
Proof. intros Hc. unfold wp, instant_now. by destruct (clock_now (kernel w)). Qed.

Lemma calm_current_thread_notify w :
  calm w → wp false current_thread_notify (λ _, calm) (λ _ _, True) w.
Proof. intros Hc. unfold wp, current_thread_notify. by destruct (notifies w !! self w). Qed.

(** A critical section that leaves the interface in such a state. *)
Definition keeps_threads {A} (m : M World A) w : Prop :=
  wp false m (λ _ w', ∃ nic, NIC w' = mkNicMutex true false (Initialized nic) ∧
    threads_only (sockets nic)) (λ _ _, True) w.

Lemma calm_with_guard {A} (body : M World A) w :
  calm w →
  (∀ nic w1, NIC w1 = mkNicMutex true false (Initialized nic) → threads_only (sockets nic) →
     keeps_threads body w1) →
  wp false (with_guard body) (λ _, calm) (λ _ _, True) w.
Proof.
  intros Hc Hb. unfold with_guard, nic_lock, nic_acquire, guarded. wp_run.
  eapply wp_conseq; [by apply (wp_interfere_calm threads_only quiet)|cbv beta].
  intros _ w1 [(nic & HN & HP) _]. unfold wp, prim. rewrite HN; simpl.
  set (w2 := set_NIC _ w1).
  assert (HN2 : NIC w2 = mkNicMutex true false (Initialized nic)) by (simpl; by rewrite HN).
  specialize (Hb nic w2 HN2 HP). unfold keeps_threads, wp in Hb.
  destruct (body w2) as [a w3| | |]; try done. destruct Hb as (nic' & HN3 & HP3).
  exists nic'. simpl. by rewrite HN3.
Qed.

(** A round of the network thread is among the things that a quiet environment may do. *)
Lemma nic_thread_quiet fuel hs w :
  net_inv hs w → calm w →
  wp false (critical (nic_thread_body fuel)) (λ _ w', tasks w' = tasks w ∧ QUEUE w' = QUEUE w ∧
    locked (NIC w') = locked (NIC w) ∧ poisoned (NIC w') = poisoned (NIC w) ∧
    data_goes_on threads_only (data (NIC w)) (data (NIC w'))) (λ _ _, True) w.
Proof.
  intros (_ & _ & Hs & _) (nic & HN & HP). unfold critical, nic_acquire, guarded. wp_run.
  unfold wp, prim. rewrite HN in *; simpl in *. set (w1 := set_NIC _ w).
  set (hs' := λ h, is_Some (sockets_get (sockets nic) h)).
  assert (HN1 : NIC w1 = mkNicMutex true false (Initialized nic)) by (simpl; by rewrite HN).
  assert (Hcs : cs_inv hs' nic w1).
  { unfold cs_inv. rewrite HN1. split; [done|]. split; [done|]. split; [exact Hs|by intros h]. }
  assert (Htq : tasks w1 = tasks w ∧ QUEUE w1 = QUEUE w) by done. destruct Htq as [Ht1 Hq1].
  clearbody w1.
  cut (wp false (nic_thread_body fuel) (λ _ w', tasks w' = tasks w ∧ QUEUE w' = QUEUE w ∧
    ∃ nic', NIC w' = mkNicMutex true false (Initialized nic') ∧
      nic_goes_on threads_only nic nic') (λ _ _, True) w1).
  { unfold wp. destruct (nic_thread_body fuel w1) as [a w2| | |]; try done.
    intros (Ht & Hq & nic' & HN2 & Hgo). simpl. rewrite HN2. split_and!; [done..|].
    by exists nic'. }
  unfold nic_thread_body. wp_run. rewrite HN1. simpl. wp_run.
  eapply wp_conseq.
  { apply wp_and; [|apply (wp_instant_now_still false)].
    exact (wp_instant_now_cs false hs' nic w1 (λ _ _, True) Hcs). }
  cbv beta. intros now w2 [[Hcs2 _] (Ht2 & Hq2 & HN2)]. wp_run. eapply wp_conseq.
  { apply wp_and; [|by apply (wp_poll_common_still threads_only fuel); [|apply Hcs2]].
    eapply wp_mono; [by apply (wp_poll_common fuel false ltac:(done) hs')|by intros a w' H; exact H|done]. }
  cbv beta. intros nic' w3 [(Hw3 & [Hcs3 _] & _) (HP3 & _ & Ht3 & Hq3 & HN3)]. wp_run.
  split_and!; [congruence..|]. exists nic'. split.
  - unfold set_data, set_NIC; simpl. by rewrite HN3, HN2, HN1.
  - split_and!; [done|done|]. apply Hcs3.
Qed.

Lemma calm_network_delay now w : calm w → wp false (network_delay now) (λ _, calm) (λ _ _, True) w.
Proof.
  intros Hc. unfold network_delay, network_delay_body. apply calm_with_guard; [done|]. intros nic w1 HN HP.
  unfold keeps_threads. wp_run. by exists nic.
Qed.

(** Waking under the lock does not touch the interface. *)
Lemma wake_waker_nic wk w :
  locked (NIC w) = true → wp false (wake_waker wk) (λ _ w', NIC w' = NIC w) (λ _ _, True) w.
Proof.
  intros Hl. destruct wk as [tid|t].
  - eapply wp_conseq; [by apply wp_wake_thread_still|]. by intros _ w' (_ & _ & ?).
  - simpl. unfold wp, task_wake. destruct (tasks w !! t) as [tk|]; [|done].
    by destruct (at_wake (task_header tk)) as [h []].
Qed.

Lemma wake_wakers_nic ws w :
  locked (NIC w) = true → wp false (wake_wakers ws) (λ _ w', NIC w' = NIC w) (λ _ _, True) w.
Proof.
  revert w. unfold wake_wakers. induction ws as [|wk ws IH]; intros w Hl; simpl; [by apply wp_ret|].
  wp_run. eapply wp_conseq; [by apply wake_waker_nic|cbv beta]. intros _ w1 H1.
  eapply wp_conseq; [apply IH; by rewrite H1|cbv beta]. intros _ w2 H2. congruence.
Qed.

Lemma nic_wake_nic n w :
  locked (NIC w) = true →
  wp false (nic_wake n) (λ n' w', NIC w' = NIC w ∧ sockets n' = sockets n) (λ _ _, True) w.
Proof.
  intros Hl. unfold nic_wake, wr_wake. destruct (wr_waker (waker n)) as [wk|]; wp_run; [|done].
  eapply wp_conseq; [by apply wake_waker_nic|cbv beta]. intros _ w' H. by wp_run.
Qed.

(** ** The futures of the sockets *)

(** A closure that leaves only threads with the socket, and the interface alone. *)
Definition leaves_threads {R} (m : M World (R * TcpSocket)) : Prop :=
  ∀ w, locked (NIC w) = true →
    wp false m (λ r w', NIC w' = NIC w ∧ Forall is_thread (wakers r.2)) (λ _ _, True) w.

Lemma leaves_ready {T} sock (t : T) : Forall is_thread (wakers sock) → leaves_threads (ready sock t).
Proof. intros H w Hl. unfold ready. by wp_run. Qed.

Lemma leaves_sock_op {R} (x : R * TcpSocket * list Waker) :
  Forall is_thread (wakers x.1.2) → leaves_threads (sock_op x).
Proof.
  intros H w Hl. unfold sock_op. destruct x as [[r sock] ws]. wp_run.
  eapply wp_conseq; [by apply wake_wakers_nic|cbv beta]. intros _ w' HN. by wp_run.
Qed.

Lemma calm_with {R} s (f : TcpSocket → M World (R * TcpSocket)) w :
  calm w → (∀ sock, Forall is_thread (wakers sock) → leaves_threads (f sock)) →
  wp false (with_ s f) (λ _, calm) (λ _ _, True) w.
Proof.
  intros Hc Hf. unfold with_, with_body. apply calm_with_guard; [done|]. intros nic w1 HN HP.
  unfold keeps_threads. wp_run. rewrite HN. wp_run.
  destruct (sockets_get (sockets nic) (as_handle s)) as [sock|] eqn:Hs; simpl; [|by wp_run].
  wp_run. eapply wp_conseq; [apply (Hf sock); [by eapply HP|by rewrite HN]|cbv beta].
  intros [r sock'] w2 [HN2 Hth]. simpl in Hth. wp_run.
  eapply wp_conseq; [apply nic_wake_nic; by rewrite HN2, HN|cbv beta].
  intros nic' w3 [HN3 Hs3]. wp_run. exists nic'. split; [by rewrite HN3, HN2, HN|].
  rewrite Hs3. simpl. by eapply threads_only_put.
Qed.

Lemma connect_check_threads s tid sock :
  Forall is_thread (wakers sock) → leaves_threads (connect_check s (ThreadWaker tid) sock).
Proof.
  intros H. unfold connect_check.
  assert (Hp : leaves_threads (pend_send (T := result SocketHandle SmolError) sock (ThreadWaker tid))).
  { unfold pend_send. destruct (tcp_register_send_waker sock (ThreadWaker tid)) as [s' ws] eqn:Hr.
    apply leaves_sock_op. simpl. apply register_send_wakers in Hr.
    apply Forall_forall. intros wk [->|Hin]%Hr%elem_of_cons; [done|].
    by eapply Forall_forall in H. }
  destruct (tcp_state sock); try exact Hp; by apply leaves_ready.
Qed.

Lemma calm_connect_wait s tid w :
  calm w → wp false (connect_wait s (ThreadWaker tid)) (λ _, calm) (λ _ _, True) w.
Proof.
  intros Hc. unfold connect_wait. wp_run.
  eapply wp_conseq; [apply calm_with; [done|apply connect_check_threads]|cbv beta].
  intros p w' Hc'. by wp_run.
Qed.

Lemma calm_connect_poll s st tid w :
  calm w → wp false (connect_poll s st (ThreadWaker tid)) (λ _, calm) (λ _ _, True) w.
Proof.
  intros Hc. destruct st as [ip port| |]; simpl; [|by apply calm_connect_wait|by wp_run].
  destruct (parse_address ip) as [address|e]; [|by wp_run]. wp_run.
  eapply wp_conseq; [apply calm_with; [done|]|cbv beta].
  - intros sock Hth w1 Hl. unfold connect_op. wp_run. unfold wp at 1, fetch_add_local_endpoint.
    destruct (tcp_connect sock (address, port) (LOCAL_ENDPOINT w1)) as [[r sock'] ws] eqn:Hconn.
    eapply wp_conseq; [apply (leaves_sock_op (r, sock', ws)); [|done]|].
    + simpl. apply connect_wakers in Hconn. apply Forall_forall. intros wk Hin%Hconn.
      by eapply Forall_forall in Hth.
    + cbv beta. by intros r' w2 [HN ?].
  - intros r w1 Hc1. destruct r; [by apply calm_connect_wait|by wp_run].
Qed.

Lemma calm_async_socket_new w : calm w → wp false async_socket_new (λ _, calm) (λ _ _, True) w.
Proof.
  intros Hc. unfold async_socket_new, async_socket_new_body. apply calm_with_guard; [done|]. intros nic w1 HN HP.
  unfold keeps_threads. wp_run. rewrite HN. wp_run. unfold create_handle.
  pose proof (threads_only_add (sockets nic) 65535 65535 HP) as Hadd.
  destruct (sockets_add (sockets nic) (tcp_new 65535 65535)) as [h ss]. wp_run.
  eexists. split; [by rewrite HN|]. done.
Qed.

(** ** The parts of a round *)

Section Round.
Context {envl : EnvLaws}.
Variable fuel : nat.
Context (Hbl : backlog_ok fuel true) (Hfuel : 2 ≤ fuel).

Lemma wp_up_syscall goal hs t0 c w :
  up hs t0 w →
  wp true (syscall c) (λ _ w', up hs t0 w' ∧ later goal w w') (λ _ _, False) w.
Proof.
  intros Hup. apply wp_up_step; [|done| |apply calm_syscall, Hup].
  - apply moves_any_syscall. by intros w'.
  - apply wp_syscall, Hup.
Qed.

Lemma wp_up_run_executor goal hs t0 w :
  up hs t0 w → wp true (run_executor fuel) (λ _ w', up hs t0 w' ∧ later goal w w') (λ _ _, False) w.
Proof.
  intros Hup. pose proof Hup as (Hinv & Hc & Hone).
  eapply wp_conseq; [apply (wp_moves (later goal)); [apply _|]|].
  - by eapply (wp_run_executor_ends threads_only fuel quiet).
  - cbv beta. intros _ w' [(Hi & Hc' & _) Hl]. split; [|done]. split_and!; [done|done|].
    intros t Ht. by apply Hone, Hl.
Qed.

Lemma wp_up_idle goal hs t0 tid delay w :
  up hs t0 w →
  wp true (idle fuel tid delay) (λ _ w', up hs t0 w' ∧ later goal w w') (λ _ _, False) w.
Proof.
  intros Hup. unfold idle. destruct (should_block delay); [|by apply wp_up_run_executor].
  wp_run. eapply wp_conseq; [apply (wp_up_step goal hs t0); [apply _|done| |]|cbv beta].
  { apply wp_unparked_swap, Hup. }
  { apply calm_unparked_swap, Hup. }
  intros unparked w1 [Hup1 Hl1]. destruct unparked; simpl; wp_run; [done|].
  eapply wp_conseq; [by apply (wp_up_syscall goal)|cbv beta].
  intros _ w2 [Hup2 Hl2]. wp_run.
  eapply wp_conseq; [by apply (wp_up_syscall goal)|cbv beta].
  intros _ w3 [Hup3 Hl3]. wp_run.
  eapply wp_conseq; [apply (wp_up_step goal hs t0); [apply _|done| |]|cbv beta].
  { apply wp_unparked_store, Hup3. }
  { apply calm_unparked_store, Hup3. }
  intros _ w4 [Hup4 Hl4]. wp_run.
  eapply wp_conseq; [by apply (wp_up_run_executor goal)|cbv beta]. intros _ w5 [Hup5 Hl5].
  split; [done|]. by repeat (etrans; [eassumption|]).
Qed.

Lemma wp_up_network_delay goal hs t0 now w :
  up hs t0 w →
  wp true (network_delay now) (λ _ w', up hs t0 w' ∧ later goal w w') (λ _ _, False) w.
Proof.
  intros Hup. apply wp_up_step; [apply _|done| |apply calm_network_delay, Hup].
  apply (wp_network_delay true), Hup.
Qed.

Lemma wp_up_instant_now goal hs t0 w :
  up hs t0 w →
  wp true instant_now (λ now w', up hs t0 w' ∧ later goal w w' ∧
    (instant_ge now goal = false → left goal (kernel w') < left goal (kernel w))) (λ _ _, False) w.
Proof.
  intros Hup. eapply wp_conseq.
  { apply (wp_returned true instant_now (λ _ w', up hs t0 w' ∧ later goal w w') (λ now w',
      instant_ge now goal = false → left goal (kernel w') < left goal (kernel w))).
    - apply (wp_up_step goal hs t0); [apply _|done| |apply calm_instant_now, Hup].
      apply wp_instant_now, Hup.
    - intros now w'. unfold instant_now. pose proof (clock_before goal (kernel w)) as Hb.
      destruct (clock_now (kernel w)) as [n k]. by intros [= <- <-]. }
  cbv beta. tauto.
Qed.

(** What [block_on] needs of its future. *)
Record fut_up hs t0 {T} (f : Fut T) (Q : T → Prop) : Type := {
  fu_inv : fut_state f → Prop;
  fu_init : fu_inv (fut_init f);
  fu_poll goal st tid w :
    fu_inv st → up hs t0 w →
    wp true (fut_poll f st (ThreadWaker tid)) (λ r w', up hs t0 w' ∧ later goal w w' ∧
      match r.2 with Ready t => Q t | Pending => fu_inv r.1 end) (λ _ _, False) w;
}.

(** A round that goes on has brought the deadline nearer. *)
Lemma wp_up_round {T} hs t0 (f : Fut T) Q (Hf : fut_up hs t0 f Q) tid start d st w :
  fu_inv _ _ _ _ Hf st → up hs t0 w →
  wp true (block_on_round fuel f tid start (Some d) st) (λ r w', match r with
    | inl st' => fu_inv _ _ _ _ Hf st' ∧ up hs t0 w' ∧
        left (instant_add start d) (kernel w') < left (instant_add start d) (kernel w)
    | inr (Ok t) => thread_inv hs w' ∧ Q t
    | inr (Err _) => thread_inv hs w'
    end) (λ _ _, False) w.
Proof.
  intros Hst Hup. set (goal := instant_add start d). unfold block_on_round. wp_run.
  eapply wp_conseq; [by apply (fu_poll _ _ _ _ Hf goal)|cbv beta].
  intros [st' p] w1 (Hup1 & Hl1 & Hp); simpl in Hp.
  destruct p as [t|]; [wp_run; split; [apply Hup1|done]|].
  unfold timed_out. wp_run.
  eapply wp_conseq; [by apply (wp_up_instant_now goal)|cbv beta].
  intros now w2 (Hup2 & Hl2 & Hlt). wp_run. fold goal.
  destruct (instant_ge now goal); wp_run; [apply Hup2|]. specialize (Hlt eq_refl).
  eapply wp_conseq; [by apply (wp_up_instant_now goal)|cbv beta]. intros now' w3 (Hup3 & Hl3 & _).
  wp_run. eapply wp_conseq; [by apply (wp_up_network_delay goal)|cbv beta].
  intros delay w4 [Hup4 Hl4]. wp_run.
  eapply wp_conseq; [by apply (wp_up_idle goal)|cbv beta]. intros _ w5 [Hup5 Hl5]. wp_run.
  split_and!; [done|done|]. destruct Hl1, Hl3, Hl4, Hl5. lia.
Qed.

Lemma connect_fut_up hs t0 s ip port :
  hs (as_handle s) → fut_up hs t0 (connect s ip port) (connect_result s).
Proof.
  intros Hin. refine {| fu_inv := connect_live : fut_state (connect s ip port) → Prop |}; [done|].
  intros goal st tid w Hst Hup.
  eapply wp_conseq; [apply (wp_up goal hs t0 _ (λ r, match r.2 with
    | Ready t => connect_result s t | Pending => connect_live r.1 end)); [|done| |]|].
  - apply connect_moves.
  - eapply wp_conseq; [apply wp_connect_poll; [done|done|apply Hup]|].
    intros r w'. apply poll_post_step.
  - apply calm_connect_poll, Hup.
  - done.
Qed.
End Round.

(** ** The call *)

(** Any instant will do where the time does not matter. *)
Definition some_instant w : Instant := (clock_now (kernel w)).1.

Lemma backlog_ok_mono n m : n ≤ m → backlog_ok n true → backlog_ok m true.
Proof.
  intros Hle Hbl _. destruct (Hbl eq_refl) as [bl]. constructor.
  refine {| backlog := @backlog smol n bl |}.
  - intros t i ss. pose proof (backlog_bound (bound := n) t i ss). lia.
  - intros. by eapply (backlog_decreases (bound := n)).
Qed.

(** With enough fuel [block_on] returns: the number of readings of the clock that are left
    before the deadline bounds the number of rounds. *)
Lemma block_on_returns hs t0 {T} (f : Fut T) Q n d w :
  fut_up hs t0 f Q → backlog_ok n true → up hs t0 w →
  ∃ bound, ∀ fuel, bound ≤ fuel → ∃ r w',
    block_on fuel f (Some d) w = Done r w' ∧ thread_inv hs w' ∧
    match r with Ok t => Q t | Err _ => True end.
Proof.
  intros Hf Hbl Hup. pose proof (quiet_env_laws threads_only quiet) as envl.
  destruct (wp_returns current_thread_notify (λ _ w', up hs t0 w' ∧ later (some_instant w) w w') w)
    as (tid & w1 & H1 & Hup1 & _).
  { apply wp_up_step; [apply _|done| |apply calm_current_thread_notify, Hup].
    apply wp_current_thread_notify, Hup. }
  destruct (wp_returns _ _ _ (wp_up_instant_now (some_instant w) hs t0 w1 Hup1))
    as (start & w2 & H2 & Hup2 & _).
  set (goal := instant_add start d).
  exists (S (S n + left goal (kernel w2))). intros fuel Hfuel.
  assert (Hrun : wp true (loop fuel (block_on_round fuel f tid start (Some d)) (fut_init f))
    (λ r w', thread_inv hs w' ∧ match r with Ok t => Q t | Err _ => True end)
    (λ _ _, False) w2).
  { apply (wp_loop true (λ st w, fu_inv _ _ _ _ Hf st ∧ up hs t0 w)
      (λ _ w, left goal (kernel w))).
    - intros st w' [Hst Hw']. eapply wp_conseq.
      + eapply (wp_up_round fuel); [|lia|exact Hst|exact Hw'].
        eapply backlog_ok_mono; [|exact Hbl]. lia.
      + cbv beta. intros [st'|[t|[]]] w3; [|done|done]. by intros (? & ? & ?).
    - split; [apply fu_init|done].
    - intros _. lia. }
  destruct (wp_returns _ _ _ Hrun) as (r & w' & Hr & HQ). exists r, w'. split; [|done].
  unfold block_on, mbind, M_bind. by rewrite H1, H2.
Qed.

Lemma async_socket_new_up hs t0 w :
  up hs t0 w → ∃ s w', async_socket_new w = Done s w' ∧ up (λ h, hs h ∨ h = as_handle s) t0 w'.
Proof.
  intros (Hinv & Hc & Hone). pose proof (quiet_env_laws threads_only quiet) as envl.
  apply wp_returns. eapply wp_conseq.
  - apply (wp_moves (later (some_instant w))), wp_and, calm_async_socket_new, Hc; [apply _|].
    apply (wp_async_socket_new true hs w), Hinv.
  - cbv beta. intros s w' [[[Hs _] Hc'] [_ Ht]]. split_and!; [|done|].
    + eapply thread_inv_step; [apply Hinv|exact Hs].
    + intros t H. by apply Hone, Ht.
Qed.

(** C12: A connection attempt with a timeout comes back, whatever the peer does: packets may
    arrive at any point and the network thread may poll the interface.  If no other thread of
    the program uses a socket or runs the network task, the backlog of packets is finite at
    each instant, only threads wait for the sockets and the clock reaches every instant,
    [sys_tcp_stream_connect] returns within a bounded number of rounds, with a handle or with
    the error. *)
Theorem connect_with_timeout_returns hs t0 n ip port timeout w :
  backlog_ok n true → up hs t0 w →
  ∃ bound, ∀ fuel, bound ≤ fuel → ∃ r w',
    sys_tcp_stream_connect fuel ip port (Some timeout) w = Done r w' ∧
    match r with
    | Ok h => opened hs h w'
    | Err _ => ∃ h, opened hs h w'
    end.
Proof.
  intros Hbl Hup. pose proof (quiet_env_laws threads_only quiet) as envl.
  destruct (async_socket_new_up hs t0 w Hup) as (s & w1 & H1 & Hup1).
  destruct (block_on_returns (λ h, hs h ∨ h = as_handle s) t0 (connect s ip port) (connect_result s) n (from_millis timeout) w1)
    as [bound Hb]; [by apply connect_fut_up; right|done|done|].
  exists bound. intros fuel Hfuel. destruct (Hb fuel Hfuel) as (r & w2 & H2 & _).
  assert (Hrun : sys_tcp_stream_connect fuel ip port (Some timeout) w = Done (finish r) w2).
  { unfold sys_tcp_stream_connect, mbind, M_bind. rewrite H1. simpl. by rewrite H2. }
  exists (finish r), w2. split; [exact Hrun|].
  destruct Hup as [Hinv _].
  pose proof (safe_connect fuel hs ip port (Some timeout) w Hinv) as Hsafe.
  eapply wp_done in Hsafe; [|exact Hrun]. apply Hsafe.
Qed.
End Timeout.

(** ** Witness *)

Lemma sim_wakers_subseteq (s s' : SimTcp) :
  st_send s' ⊆ st_send s → st_recv s' ⊆ st_recv s → wakers (smol := sim) s' ⊆ wakers (smol := sim) s.
Proof. unfold wakers. simpl. set_solver. Qed.

Lemma sim_step_wakers s :
  wakers (smol := sim) (sim_step s).1 ⊆ wakers (smol := sim) s ∧
  (sim_step s).2 ⊆ wakers (smol := sim) s.
Proof.
  unfold sim_step. destruct (st_state s), (st_tx s); simpl;
    (split; [apply sim_wakers_subseteq; simpl; set_solver|unfold wakers; simpl; set_solver]).
Qed.

#[export] Instance sim_waker_laws : WakerLaws sim.
Proof.
  split; simpl.
  - done.
  - intros s peer local r s' ws. destruct (decide _); by intros [= _ <- _].
  - intros s wk s' ws [= <- _]. unfold wakers; simpl. set_solver.
  - unfold sim_poll. intros i ss t r i' ss' ws Heq. destruct (si_work i); simplify_eq.
    2:{ split; [intros h s Hs wk Hwk; by exists h, s|intros wk []%not_elem_of_nil]. }
    split.
    + intros h s' Hs' wk Hwk.
      change ((fst ∘ sim_step <$> ss) !! h = Some s') in Hs'.
      apply lookup_fmap_Some in Hs' as (s & <- & Hs).
      exists h, s. split; [done|]. exact (proj1 (sim_step_wakers s) wk Hwk).
    + intros wk (l & Hl & Hin%list_elem_of_In)%list_elem_of_In%in_concat.
      apply list_elem_of_In, list_elem_of_fmap in Hl as (x & -> & Hx).
      destruct x as [h s]. apply elem_of_map_to_list in Hx.
      exists h, s. split; [done|]. exact (proj2 (sim_step_wakers s) wk Hin).
  - intros c i ss t r c' i' ss' ws [= _ _ _ <- <-].
    split; [intros h s Hs wk Hwk; by exists h, s|intros wk []%not_elem_of_nil].
Qed.

(** The clock of the instance counts the readings. *)
Definition sim_left (goal k : Z) : nat := Z.to_nat (goal - k).

Lemma sim_clock_laws :
  ClockLaws (smol := sim) (kern := sim_kernel) (at_ := sim_task) (envt := sim_busy) sim_left.
Proof.
  split; unfold sim_left; simpl; intros.
  - lia.
  - apply Z.leb_gt in H. lia.
  - unfold env, sim_busy. by destruct p, (data (NIC w)).
Qed.

Lemma connect_with_timeout_returns_witness :
  ∃ bound, ∀ fuel, bound ≤ fuel → ∃ r w',
    sys_tcp_stream_connect (envt := sim_busy) fuel [49]%Z 80%Z (Some 3%Z) sim_queued = Done r w' ∧
    match r with
    | Ok h => opened (λ h, h = 0) h w'
    | Err _ => ∃ h, opened (λ h, h = 0) h w'
    end.
Proof.
  apply (connect_with_timeout_returns (envt := sim_busy) sim_left (cl := sim_clock_laws)
    (sim_busy_env _) (λ h, h = 0) 0 2).
  - intros _. constructor. exact sim_backlog.
  - split_and!.
    + exact sim_queued_inv.
    + eexists. split; [reflexivity|]. intros h s Hs.
      change ((({[0 := sim_socket SynSent]} : gmap nat SimTcp) !! h) = Some s) in Hs.
      apply lookup_singleton_Some in Hs as [_ <-]. constructor.
    + intros t [tk Ht]. unfold sim_queued, sim_world in Ht; simpl in Ht.
      by apply lookup_singleton_Some in Ht as [<- _].
Defined.
