(* ===== verification/Park.v ===== *)
(** * Parking and waking a thread ([hermit-sys/src/net/executor.rs])

    The other files treat what other threads do as one step between the accesses of
    a thread.  Here the loop of [block_on] and [ThreadNotify::wake_by_ref] are taken
    apart into the single accesses to the flag [unparked] and the single system
    calls, interleaved at will, for one waiting thread and any number of wakers. *)

From S2P Require Import Prelude.
From stdpp Require Import relations.

(** What the kernel promises about a thread that asks to be blocked: it stays off
    the processor until it is woken, or until its timer runs out if it has one; waking a thread
    that is not blocked does nothing that lasts. *)
Class ParkKernel : Type := {
  PK : Type;
  k_runnable : PK → bool;
  k_timed : PK → bool;                (* there is a timer for the thread *)
  k_block : option Z → PK → PK;       (* sys_block_current_task, _with_timeout *)
  k_wake : PK → PK;                   (* sys_wakeup_task *)
  k_timer : PK → PK;                  (* a timer runs out *)
  k_blocked d k : k_runnable (k_block d k) = false;
  k_block_untimed k : k_timed (k_block None k) = false;
  k_woken k : k_runnable (k_wake k) = true;
  k_timer_wakes k : k_runnable k = true → k_runnable (k_timer k) = true;
  k_timer_untimed k : k_timed k = false →
    k_runnable (k_timer k) = k_runnable k ∧ k_timed (k_timer k) = false;
}.

(** What the loop of [block_on] does after a poll that was pending. *)
Inductive Choice : Type :=
| GiveUp                  (* the timeout of the call has passed *)
| Again                   (* the network needs the processor soon: poll again *)
| Wait (d : option Z).    (* wait, for the given time at most *)

(** Where the waiting thread is in the loop of [block_on]. *)
Inductive ParkPc : Type :=
| PcPoll                  (* polls the future *)
| PcSwap (d : option Z)   (* [unparked.swap(false)] *)
| PcBlock (d : option Z)  (* [sys_block_current_task], [_with_timeout] *)
| PcYield                 (* in [sys_yield]: goes on when the kernel lets it *)
| PcStore                 (* [unparked.store(false)], then [run_executor] *)
| PcDone.                 (* the future was ready, or the timeout has passed *)

Section Park.
Context {pk : ParkKernel}.
(** The number of events the future waits for. *)
Variable need : nat.

Record ParkState : Type := mkParkState {
  pc : ParkPc;
  unparked : bool;
  seen : nat;      (* the events that the last poll knew of *)
  events : nat;    (* the events so far; each makes a waker call [wake_by_ref] *)
  swapping : nat;  (* wakers before their [swap] *)
  calling : nat;   (* wakers before their [sys_wakeup_task] *)
  ker : PK;
}.

(** One step of [block_on]. *)
Definition parker_step (c : Choice) (s : ParkState) : option ParkState :=
  let '(mkParkState p u n e sw ca k) := s in
  match p with
  | PcPoll =>
      let p' := if need <=? e then PcDone
                else match c with GiveUp => PcDone | Again => PcPoll | Wait d => PcSwap d end in
      Some (mkParkState p' u e e sw ca k)
  | PcSwap d =>
      if u then Some (mkParkState PcPoll false n e sw ca k)
      else Some (mkParkState (PcBlock d) false n e sw ca k)
  | PcBlock d => Some (mkParkState PcYield u n e sw ca (k_block d k))
  | PcYield => if k_runnable k then Some (mkParkState PcStore u n e sw ca k) else None
  | PcStore => Some (mkParkState PcPoll false n e sw ca k)
  | PcDone => None
  end.

(** Something happens that the future waits for, and its waker is called. *)
Definition event_step (s : ParkState) : ParkState :=
  let '(mkParkState p u n e sw ca k) := s in mkParkState p u n (S e) (S sw) ca k.

(** [self.unparked.swap(true)] in [wake_by_ref]: the waker calls the kernel only when
    the flag was not set. *)
Definition swap_step (s : ParkState) : option ParkState :=
  let '(mkParkState p u n e sw ca k) := s in
  match sw with
  | O => None
  | S sw' => Some (mkParkState p true n e sw' (if negb u then S ca else ca) k)
  end.

(** [sys_wakeup_task(self.thread)]. *)
Definition call_step (s : ParkState) : option ParkState :=
  let '(mkParkState p u n e sw ca k) := s in
  match ca with
  | O => None
  | S ca' => Some (mkParkState p u n e sw ca' (k_wake k))
  end.

(** A timer of the kernel runs out. *)
Definition timer_step (s : ParkState) : ParkState :=
  let '(mkParkState p u n e sw ca k) := s in mkParkState p u n e sw ca (k_timer k).

(** A variant that the code does not have: nothing comes between the [swap] and the system call
    that blocks. *)
Definition fused_step (c : Choice) (s : ParkState) : option ParkState :=
  s1 ← parker_step c s;
  match pc s1 with PcBlock _ => parker_step c s1 | _ => Some s1 end.

(** The thread, the wakers and the timers, interleaved at will; [atomic] selects the variant. *)
Inductive park_step (atomic : bool) : ParkState → ParkState → Prop :=
| park_parker c s s' :
    (if atomic then fused_step c s else parker_step c s) = Some s' → park_step atomic s s'
| park_event s : park_step atomic s (event_step s)
| park_swap s s' : swap_step s = Some s' → park_step atomic s s'
| park_call s s' : call_step s = Some s' → park_step atomic s s'
| park_timer s : park_step atomic s (timer_step s).

(** A thread enters the loop with the flag in any state and nobody waking it. *)
Definition park_init (u : bool) (k : PK) : ParkState := mkParkState PcPoll u 0 0 0 0 k.

Definition park_reachable (atomic : bool) (s : ParkState) : Prop :=
  ∃ u k, rtc (park_step atomic) (park_init u k) s.

(** The thread is off the processor. *)
Definition parked (s : ParkState) : Prop := pc s = PcYield ∧ k_runnable (ker s) = false.

(** ** With an atomic wait no wakeup is lost *)

(** An event that the thread has not seen will still reach it. *)
Definition park_inv (s : ParkState) : Prop :=
  seen s ≤ events s ∧
  match pc s with
  | PcSwap _ => seen s < events s → unparked s = true ∨ 0 < swapping s
  | PcBlock _ => False
  | PcYield =>
      (seen s < events s → k_runnable (ker s) = true ∨ 0 < swapping s + calling s) ∧
      (unparked s = true → k_runnable (ker s) = true ∨ 0 < calling s)
  | _ => True
  end.

Lemma park_inv_step s s' : park_inv s → park_step true s s' → park_inv s'.
Proof.
  intros Hinv Hstep. destruct Hstep as [c s s' H|s|s s' H|s s' H|s];
    destruct s as [p u n e sw ca k]; simpl in *; unfold park_inv in *; simpl in *.
  - unfold fused_step, mbind, option_bind in H.
    destruct p; simpl in H; repeat case_match; simplify_eq/=; intuition (done || lia).
  - destruct p; simpl; intuition lia.
  - destruct sw as [|sw]; [done|]. simplify_eq; simpl. destruct p, u; simpl; intuition lia.
  - destruct ca as [|ca]; [done|]. simplify_eq; simpl. rewrite k_woken. destruct p; simpl; intuition.
  - pose proof (k_timer_wakes k). destruct p; simpl; intuition.
Qed.

Lemma park_reachable_inv s : park_reachable true s → park_inv s.
Proof.
  intros (u & k & Hrun). remember (park_init u k) as s0 eqn:H0.
  assert (Hs : park_inv s0) by (subst; by split).
  clear H0. induction Hrun; [done|]. eauto using park_inv_step.
Qed.

(** C8: When nothing comes between the [swap] of the waiting thread and its blocking, a
    wakeup is never lost: in every reachable state, if the thread is off the processor
    although an event has happened since it last polled, a waker is still on its
    way, and as soon as the wakers have run the thread is runnable. *)
Theorem wakeup_not_lost s :
  park_reachable true s → parked s → seen s < events s →
  0 < swapping s + calling s ∧
  ∃ s', rtc (park_step true) s s' ∧ k_runnable (ker s') = true ∧ pc s' = PcYield.
Proof.
  intros Hr [Hpc Hk] Hlt. destruct (park_reachable_inv s Hr) as [_ Hinv].
  destruct s as [p u n e sw ca k]; simpl in *. subst p.
  destruct Hinv as [Hw Hu]. destruct (Hw Hlt) as [|Hpos]; [congruence|]. split; [done|].
  assert (Hcall : ∀ u sw ca, 0 < ca →
    ∃ s', park_step true (mkParkState PcYield u n e sw ca k) s' ∧
          k_runnable (ker s') = true ∧ pc s' = PcYield).
  { intros u' sw' [|ca'] ?; [lia|]. eexists. split; [by apply park_call|].
    simpl. by rewrite k_woken. }
  destruct (decide (0 < ca)) as [Hca|Hca].
  - destruct (Hcall u sw ca Hca) as (s' & ? & ?). exists s'. split; [by apply rtc_once|done].
  - destruct sw as [|sw]; [lia|]. destruct u; [destruct (Hu eq_refl); [congruence|lia]|].
    destruct (Hcall true sw (S ca)) as (s' & ? & ?); [lia|]. exists s'. split; [|done].
    eapply rtc_l; [by apply park_swap|by apply rtc_once].
Qed.

(** ** Without it, one is lost for ever *)

(** A thread parked without a timer whose flag is set: nobody will wake it. *)
Definition park_stuck (s : ParkState) : Prop :=
  parked s ∧ unparked s = true ∧ calling s = 0 ∧ k_timed (ker s) = false.

Lemma park_stuck_step atomic s s' : park_stuck s → park_step atomic s s' → park_stuck s'.
Proof.
  intros ([Hpc Hk] & Hu & Hca & Ht) Hstep. destruct Hstep as [c s s' H|s|s s' H|s s' H|s];
    destruct s as [p u n e sw ca k]; simpl in *; subst.
  - unfold fused_step, mbind, option_bind in H. destruct atomic; simpl in H; by rewrite Hk in H.
  - done.
  - by destruct sw; simplify_eq.
  - done.
  - destruct (k_timer_untimed k Ht) as [Hr Ht']. repeat split; simpl; congruence.
Qed.

(** C9: The [swap] of [block_on] and the system call that blocks are two steps.  A
    wakeup between them is lost: the waker finds the flag clear, sets it and wakes a
    thread that is not asleep yet; the thread then blocks, with an event it has not
    seen and no waker on its way.  When it blocks without a timer it stays blocked whatever
    happens from then on, since every later waker finds the flag set and does not call the
    kernel. *)
Theorem wakeup_lost_for_ever k :
  1 ≤ need →
  ∃ s, rtc (park_step false) (park_init false k) s ∧
       parked s ∧ seen s < events s ∧ swapping s + calling s = 0 ∧
       ∀ s', rtc (park_step false) s s' → parked s'.
Proof.
  intros Hneed. set (s := mkParkState PcYield true 0 1 0 0 (k_block None (k_wake k))).
  assert (Hs : park_stuck s) by (repeat split; [apply k_blocked|apply k_block_untimed]).
  exists s. split_and!; [|apply Hs|simpl; lia|done|].
  - eapply rtc_l; [apply (park_parker _ (Wait None)); simpl; reflexivity|].
    replace (need <=? 0) with false by (symmetry; apply Nat.leb_gt; lia).
    eapply rtc_l; [apply (park_parker _ Again); simpl; reflexivity|].
    eapply rtc_l; [apply park_event|]. simpl.
    eapply rtc_l; [apply park_swap; simpl; reflexivity|].
    eapply rtc_l; [apply park_call; simpl; reflexivity|].
    apply rtc_once. by apply (park_parker _ Again).
  - intros s' Hrun. clearbody s. induction Hrun; [apply Hs|]. eauto using park_stuck_step.
Qed.
End Park.

(** ** Witnesses *)

(** A kernel that keeps two bits: whether the thread runs, and whether it has a timer. *)
#[export] Instance sim_park : ParkKernel.
Proof.
  refine {|
    PK := bool * bool;
    k_runnable k := k.1;
    k_timed k := k.2;
    k_block d k := (false, match d with Some _ => true | None => false end);
    k_wake k := (true, k.2);
    k_timer k := (k.1 || k.2, k.2);
  |}; try done; by intros [[] []].
Defined.

Lemma wakeup_not_lost_witness :
  let s := mkParkState (pk := sim_park) PcYield false 0 1 1 0 (false, false) in
  park_reachable 1 true s ∧
  0 < swapping s + calling s ∧
  ∃ s', rtc (park_step 1 true) s s' ∧ k_runnable (ker s') = true ∧ pc s' = PcYield.
Proof.
  intros s.
  assert (Hr : park_reachable 1 true s).
  { exists false, (true, false). eapply rtc_l; [apply (park_parker _ _ (Wait None)); reflexivity|].
    eapply rtc_l; [apply (park_parker _ _ Again); reflexivity|]. apply rtc_once.
    exact (park_event 1 true (mkParkState PcYield false 0 0 0 0 (false, false))). }
  split; [exact Hr|]. apply (wakeup_not_lost 1 s Hr); [by split|constructor].
Defined.

Lemma wakeup_lost_for_ever_witness :
  ∃ s, rtc (park_step (pk := sim_park) 1 false) (park_init false (true, false)) s ∧
       parked s ∧ seen s < events s ∧ swapping s + calling s = 0 ∧
       ∀ s', rtc (park_step 1 false) s s' → parked s'.
Proof. exact (wakeup_lost_for_ever (pk := sim_park) 1 (true, false) (le_n 1)). Defined.
