(* ===== verification/ParkLink.v ===== *)
(** * [block_on] follows the protocol of Park

    Park takes the loop of [block_on] apart into single accesses; Executor has it as the
    program writes it, with an environment that acts at each access.  Here the two meet: when
    the environment consists of wakers and of a kernel that keeps its promises, every call of
    [block_on] on a future of the network stack is a run of Park. *)

From S2P Require Import Prelude Extern WakerReg State Sim Invariant Nic Executor Socket Moves Park.
From stdpp Require Import relations.

Section ParkLink.
Context {smol : Smoltcp} {kern : Kernel smol} {at_ : AsyncTask}
        {envt : Environment kern at_} {pk : ParkKernel}.
Variable fuel : nat.
(** The waiting thread, and what the state of the kernel says about it. *)
Variable tid : Tid.
Variable view : KState → PK.
Implicit Types (w : World) (s : ParkState).

(** The steps of Park that are not the thread's own. *)
Inductive waker_step : ParkState → ParkState → Prop :=
| waker_event s : waker_step s (event_step s)
| waker_swap s s' : swap_step s = Some s' → waker_step s s'
| waker_call s s' : call_step s = Some s' → waker_step s s'
| waker_timer s : waker_step s (timer_step s).

(** The flag of the thread and its place in the kernel are as [s] says. *)
Definition shows w s : Prop :=
  view (kernel w) = ker s ∧
  ∃ tn, notifies w !! tid = Some tn ∧ Park.unparked s = tn_unparked tn.

(** Whatever the wakers and timers do, the thread stays off the processor. *)
Definition asleep_for_ever s : Prop := ∀ s', rtc waker_step s s' → k_runnable (ker s') = false.

Definition block_call (d : option Z) : KCall :=
  match d with
  | Some d => sys_block_current_task_with_timeout d
  | None => sys_block_current_task
  end.

(** Wakers and timers act while the thread goes about its business; reading the clock says
    nothing about a thread; the call that blocks it takes it off the processor, and [sys_yield]
    comes back when it is runnable, if it ever is. *)
Class WaitEnv : Prop := {
  wait_clock k : view (clock_now k).2 = view k;
  wait_other p w w' s :
    busy_point p ∨ p = AtStore → interfere p w = Done tt w' → shows w s →
    ∃ s', rtc waker_step s s' ∧ shows w' s';
  wait_block d w w' s s1 :
    locked (NIC w) = false → interfere (AtCall (block_call d)) w = Done tt w' →
    shows w s → pc s = PcBlock d → parker_step 0 Again s = Some s1 →
    ∃ s', rtc waker_step s1 s' ∧ shows w' s';
  wait_yield w w' s :
    locked (NIC w) = false → interfere (AtCall sys_yield) w = Done tt w' → shows w s →
    (∃ s', rtc waker_step s s' ∧ shows w' s' ∧ k_runnable (ker s') = true) ∨
    asleep_for_ever s;
}.

(** ** A run of the code and a run of Park, side by side *)

(** One step of the thread, for a future that waits for [need] events. *)
Definition thread (need : nat) s s' : Prop := ∃ c, parker_step need c s = Some s'.

(** The code runs [m] from [w] to [w'] with the answer [a]; Park goes from [s] to [s'] by
    wakers and timers and, in between, by what [own] allows: [thread] for an access of the
    thread, equality for what is none.  Afterwards [s'] shows the flag and the place in the
    kernel that the code has. *)
Definition along {A} (m : M World A) (own : relation ParkState) w s (a : A) w' s' : Prop :=
  m w = Done a w' ∧ shows w' s' ∧
  ∃ s1 s2, rtc waker_step s s1 ∧ own s1 s2 ∧ rtc waker_step s2 s'.

(** The wait of [block_on]: the flag was set and the thread polls again at once; or it was
    clear, and the thread blocks, yields, clears the flag and runs the executor. *)
Inductive waits_along (need : nat) (d : option Z) w s : World → ParkState → Prop :=
| waits_flag w1 s1 :
    along (unparked_swap tid false) (thread need) w s true w1 s1 → pc s1 = PcPoll →
    waits_along need d w s w1 s1
| waits_sleep w1 s1 w2 s2 w3 s3 w4 s4 w5 s5 :
    along (unparked_swap tid false) (thread need) w s false w1 s1 → pc s1 = PcBlock d →
    along (syscall (block_call d)) (thread need) w1 s1 tt w2 s2 → pc s2 = PcYield →
    along (syscall sys_yield) (thread need) w2 s2 tt w3 s3 → pc s3 = PcStore →
    along (unparked_store tid false) (thread need) w3 s3 tt w4 s4 → pc s4 = PcPoll →
    along (run_executor fuel) eq w4 s4 tt w5 s5 →
    waits_along need d w s w5 s5.

(** Or it blocks and nothing will make it runnable again: the real [sys_yield] does not come
    back. *)
Definition sleeps_along (need : nat) (d : option Z) w s : Prop :=
  ∃ w1 s1 w2 s2,
    along (unparked_swap tid false) (thread need) w s false w1 s1 ∧ pc s1 = PcBlock d ∧
    along (syscall (block_call d)) (thread need) w1 s1 tt w2 s2 ∧ pc s2 = PcYield ∧
    asleep_for_ever s2.

Section Rounds.
Context {T : Type} (f : Fut T) (start : Instant) (timeout : option Duration).

(** A poll that was pending, up to the point where the delay of the network is known; the poll
    has seen fewer events than the future waits for. *)
Definition pends_along (need : nat) st w s st' (d : option Z) w4 s4 : Prop :=
  ∃ w1 s1 w2 s2 now w3 s3 delay,
    along (fut_poll f st (ThreadWaker tid)) (thread need) w s (st', Pending) w1 s1 ∧
    seen s1 < need ∧
    along (timed_out start timeout) eq w1 s1 false w2 s2 ∧
    along instant_now eq w2 s2 now w3 s3 ∧
    along (network_delay now) eq w3 s3 delay w4 s4 ∧
    d = option_map total_millis delay.

(** The rounds of [block_on], to its result or to a sleep for ever ([None]). *)
Inductive rounds_along (need : nat) :
    fut_state f → World → ParkState → option (result T unit * World * ParkState) → Prop :=
| along_ready st st' t w s w1 s1 :
    along (fut_poll f st (ThreadWaker tid)) (thread need) w s (st', Ready t) w1 s1 →
    pc s1 = PcDone → need ≤ seen s1 →
    rounds_along need st w s (Some (Ok t, w1, s1))
| along_late st st' w s w1 s1 w2 s2 :
    along (fut_poll f st (ThreadWaker tid)) (thread need) w s (st', Pending) w1 s1 →
    pc s1 = PcDone → seen s1 < need →
    along (timed_out start timeout) eq w1 s1 true w2 s2 →
    rounds_along need st w s (Some (Err tt, w2, s2))
| along_again st st' d w s w4 s4 w5 s5 e :
    pends_along need st w s st' d w4 s4 → should_block d = false → pc s4 = PcPoll →
    along (run_executor fuel) eq w4 s4 tt w5 s5 →
    rounds_along need st' w5 s5 e → rounds_along need st w s e
| along_wait st st' d w s w4 s4 w5 s5 e :
    pends_along need st w s st' d w4 s4 → should_block d = true → pc s4 = PcSwap d →
    waits_along need d w4 s4 w5 s5 →
    rounds_along need st' w5 s5 e → rounds_along need st w s e
| along_asleep st st' d w s w4 s4 :
    pends_along need st w s st' d w4 s4 → should_block d = true → pc s4 = PcSwap d →
    sleeps_along need d w4 s4 → rounds_along need st w s None.
End Rounds.

(** ** Park takes every such run *)

Lemma waker_steps s s' :
  rtc waker_step s s' →
  (∀ need, rtc (park_step need false) s s') ∧ events s ≤ events s' ∧ pc s' = pc s.
Proof.
  induction 1 as [s|s1 s2 s3 H12 _ (IH & He & Hpc)]; [done|].
  assert ((∀ need, park_step need false s1 s2) ∧ events s1 ≤ events s2 ∧ pc s2 = pc s1)
    as (Hstep & He2 & Hpc2).
  { destruct H12 as [s|s s' H|s s' H|s]; (split; [intros; by constructor|]);
      destruct s as [p u n e sw ca k]; simpl in *;
      [|destruct sw; [done|]; injection H as <-|destruct ca; [done|]; injection H as <-|];
      simpl; split; (done || lia). }
  split_and!; [intros need; by eapply rtc_l|lia|congruence].
Qed.

Lemma along_park {A} need (m : M World A) own w s a w' s' :
  (∀ s1 s2, own s1 s2 → rtc (park_step need false) s1 s2) →
  along m own w s a w' s' → rtc (park_step need false) s s'.
Proof.
  intros Hown (_ & _ & s1 & s2 & H1%waker_steps & H2 & H3%waker_steps).
  etrans; [apply H1|]. etrans; [by apply Hown|apply H3].
Qed.

Lemma thread_park need s1 s2 : thread need s1 s2 → rtc (park_step need false) s1 s2.
Proof. intros [c H]. apply rtc_once. by apply (park_parker _ _ c). Qed.

Lemma same_park need s1 s2 : s1 = s2 → rtc (park_step need false) s1 s2.
Proof. by intros ->. Qed.

#[local] Hint Resolve thread_park same_park : core.

(** Park goes on by every access that a run lists. *)
Ltac park_along :=
  repeat match goal with
  | H : along _ (thread _) _ _ _ _ _ |- _ => eapply along_park in H; [|by apply thread_park]
  | H : along _ eq _ _ _ _ _ |- _ => eapply along_park in H; [|by apply same_park]
  end;
  repeat (etrans; [eassumption|]); done.

Lemma waits_park need d w s w' s' :
  waits_along need d w s w' s' → rtc (park_step need false) s s'.
Proof. destruct 1; park_along. Qed.

Lemma pends_park {T} (f : Fut T) start timeout need st w s st' d w4 s4 :
  pends_along f start timeout need st w s st' d w4 s4 → rtc (park_step need false) s s4.
Proof. intros (? & ? & ? & ? & ? & ? & ? & ? & H1 & _ & H2 & H3 & H4 & _). park_along. Qed.

Lemma rounds_park {T} (f : Fut T) start timeout need st w s e :
  rounds_along f start timeout need st w s e →
  match e with
  | Some (_, _, s') => rtc (park_step need false) s s'
  | None => ∃ s', rtc (park_step need false) s s' ∧ pc s' = PcYield ∧ asleep_for_ever s'
  end.
Proof.
  induction 1 as [| |st st' d w s w4 s4 w5 s5 e Hp%pends_park _ _ Hr _ IH
    |st st' d w s w4 s4 w5 s5 e Hp%pends_park _ _ Hr%waits_park _ IH
    |st st' d w s w4 s4 Hp%pends_park _ _ (w1 & s1 & w2 & s2 & H1 & _ & H2 & Hpc & Hs)].
  - park_along.
  - park_along.
  - destruct e as [[[r w'] s']|]; [park_along|]. destruct IH as (s' & IH & Hs).
    exists s'. split; [park_along|done].
  - destruct e as [[[r w'] s']|]; [park_along|]. destruct IH as (s' & IH & Hs).
    exists s'. split; [park_along|done].
  - exists s2. split; [park_along|done].
Qed.

Context {we : WaitEnv}.

(** ** What is no access of the thread is the work of wakers *)

Definition keeps : relation World := λ w w',
  locked (NIC w') = locked (NIC w) ∧
  ∀ s, shows w s → ∃ s', rtc waker_step s s' ∧ shows w' s'.

Lemma keeps_env p w w' :
  busy_point p ∨ p = AtStore → interfere p w = Done tt w' → keeps w w'.
Proof.
  intros Hp Hint. split; [|intros s; by eapply wait_other].
  unfold interfere, modify in Hint. injection Hint as <-. by destruct (locked (NIC w)) eqn:?.
Qed.

#[export] Instance keeps_steps : Steps keeps.
Proof.
  split.
  - split; [intros w; split; [done|intros s Hs; by exists s]|]. intros w1 w2 w3 [Hl1 H1] [Hl2 H2].
    split; [congruence|]. intros s (s1 & Hr1 & Hs1)%H1. apply H2 in Hs1 as (s2 & Hr2 & Hs2).
    exists s2. split; [by etrans|done].
  - intros w w' (_ & Hk & _ & Hn & Hl & _). split; [done|]. intros s Hs. exists s. split; [done|].
    unfold shows. by rewrite Hk, Hn.
  - intros w. split; [done|]. intros s [Hv Hn]. exists s. split; [done|]. split; [|done].
    simpl. by rewrite wait_clock.
  - intros p w w' Hp. apply keeps_env. by left.
  - intros t w. split; [done|]. intros s Hs. by exists s.
  - intros t tn w Ht. split; [done|]. intros s [Hv (tn' & Htn & Hu)].
    destruct (decide (t = tid)) as [->|Hne].
    + destruct s as [p u n e sw ca k].
      exists (mkParkState p true n (S e) sw (if negb u then S ca else ca) k). split.
      * eapply rtc_l; [apply waker_event|]. apply rtc_once. by apply waker_swap.
      * split; [done|]. eexists. split; [apply lookup_insert_eq|done].
    + exists s. split; [done|]. split; [done|]. exists tn'.
      split; [simpl; by rewrite lookup_insert_ne|done].
  - intros w w' Hl [_ H]. split; [done|]. intros s Hs. by apply (H s).
Qed.

#[export] Instance keeps_port : PortSteps keeps.
Proof. intros f w. split; [done|]. intros s Hs. by exists s. Qed.

(** From [w] and [s], where the lock is free, to [w'] and [s'], with the thread at [p]. *)
Definition arrives s w' s' (p : ParkPc) : Prop :=
  locked (NIC w') = false ∧ shows w' s' ∧ pc s' = p ∧ events s ≤ events s'.

Lemma keeps_along {A} (m : M World A) w s a w' :
  Moves keeps m → locked (NIC w) = false → shows w s → m w = Done a w' →
  ∃ s', along m eq w s a w' s' ∧ arrives s w' s' (pc s).
Proof.
  intros Hm Hl Hs Hd. destruct (Hm w a w' Hd) as [Hl' Hk]. destruct (Hk s Hs) as (s' & Hr & Hs').
  pose proof (waker_steps _ _ Hr) as (_ & He & Hpc). exists s'. split.
  - split_and!; [done|done|]. by exists s', s'.
  - split_and!; [congruence|done..].
Qed.

(** ** The accesses of the thread *)

(** At its accesses other than the poll the number of events does not matter. *)
Lemma thread_any s s1 need :
  pc s ≠ PcPoll → parker_step 0 Again s = Some s1 → thread need s s1.
Proof. intros Hpc H. exists Again. destruct s as [[] u n e sw ca k]; [done|exact H..]. Qed.

(** [unparked.swap(false)]. *)
Lemma swap_along d w s u w' :
  locked (NIC w) = false → shows w s → pc s = PcSwap d → unparked_swap tid false w = Done u w' →
  ∃ s', (∀ need, along (unparked_swap tid false) (thread need) w s u w' s') ∧
    arrives s w' s' (if u then PcPoll else PcBlock d).
Proof.
  intros Hl Hs Hpc Hd. pose proof Hd as ([] & w1 & Hint & H)%bind_done.
  destruct (keeps_env AtSwap w w1 (or_introl I) Hint) as [Hl1 Hk].
  destruct (Hk s Hs) as (s1 & Hr & Hv & tn & Htn & Hu).
  pose proof (waker_steps _ _ Hr) as (_ & He & Hpc1). unfold prim in H. rewrite Htn in H.
  injection H as <- <-. destruct s1 as [p1 u1 n e sw ca k]. simpl in *. subst u1. rewrite Hpc in Hpc1. subst p1.
  set (s' := mkParkState (if tn_unparked tn then PcPoll else PcBlock d) false n e sw ca k).
  assert (Hs' : shows (set_notifies (insert tid (mkThreadNotify (tn_thread tn) false)) w1) s').
  { split; [done|]. eexists. split; [apply lookup_insert_eq|done]. }
  exists s'. split; [|split_and!; [simpl; congruence|done|done|exact He]].
  intros need. split_and!; [done|done|]. eexists _, s'. split_and!; [exact Hr| |done].
  apply thread_any; [done|]. simpl. unfold s'. by destruct (tn_unparked tn).
Qed.

(** [sys_block_current_task()], or with a timeout. *)
Lemma block_along d w s w' :
  locked (NIC w) = false → shows w s → pc s = PcBlock d → syscall (block_call d) w = Done tt w' →
  ∃ s', (∀ need, along (syscall (block_call d)) (thread need) w s tt w' s') ∧
    arrives s w' s' PcYield.
Proof.
  intros Hl Hs Hpc Hd. pose proof Hd as ([] & w1 & [= <-] & Hint)%bind_done.
  assert (∃ s1, parker_step 0 Again s = Some s1 ∧ pc s1 = PcYield ∧ events s1 = events s)
    as (s1 & Hstep & Hpc1 & He1).
  { destruct s as [p u n e sw ca k]. simpl in *. subst p. by eexists. }
  destruct (wait_block d (set_klog (λ l, l ++ [block_call d]) w) w' s s1 Hl Hint Hs Hpc Hstep)
    as (s2 & Hr & Hs2). pose proof (waker_steps _ _ Hr) as (_ & He & Hpc2).
  exists s2. split.
  - intros need. split_and!; [done|done|]. exists s, s1. split_and!; [done| |done].
    apply thread_any; [congruence|done].
  - split_and!; [|done|congruence|lia]. unfold interfere, modify in Hint. simpl in Hint.
    rewrite Hl in Hint. by injection Hint as <-.
Qed.

(** [sys_yield()]. *)
Lemma yield_along w s w' :
  locked (NIC w) = false → shows w s → pc s = PcYield → syscall sys_yield w = Done tt w' →
  (∃ s', (∀ need, along (syscall sys_yield) (thread need) w s tt w' s') ∧
     arrives s w' s' PcStore) ∨ asleep_for_ever s.
Proof.
  intros Hl Hs Hpc Hd. pose proof Hd as ([] & w1 & [= <-] & Hint)%bind_done.
  destruct (wait_yield (set_klog (λ l, l ++ [sys_yield]) w) w' s Hl Hint Hs)
    as [(s1 & Hr & [Hv Hu] & Hk)|]; [left|by right].
  pose proof (waker_steps _ _ Hr) as (_ & He & Hpc1).
  destruct s1 as [p1 u1 n e sw ca k]. simpl in *. rewrite Hpc in Hpc1. subst p1.
  set (s' := mkParkState PcStore u1 n e sw ca k). exists s'. split.
  - intros need. split_and!; [done|by split|]. eexists _, s'. split_and!; [exact Hr| |done].
    apply thread_any; [done|]. simpl. by rewrite Hk.
  - split_and!; [|by split|done|exact He]. unfold interfere, modify in Hint. simpl in Hint.
    rewrite Hl in Hint. by injection Hint as <-.
Qed.

(** [unparked.store(false)]. *)
Lemma store_along w s w' :
  locked (NIC w) = false → shows w s → pc s = PcStore → unparked_store tid false w = Done tt w' →
  ∃ s', (∀ need, along (unparked_store tid false) (thread need) w s tt w' s') ∧
    arrives s w' s' PcPoll.
Proof.
  intros Hl Hs Hpc Hd. pose proof Hd as ([] & w1 & Hint & [= <-])%bind_done.
  destruct (keeps_env AtStore w w1 (or_intror eq_refl) Hint) as [Hl1 Hk].
  destruct (Hk s Hs) as (s1 & Hr & Hv & tn & Htn & Hu).
  pose proof (waker_steps _ _ Hr) as (_ & He & Hpc1).
  destruct s1 as [p1 u1 n e sw ca k]. simpl in *. rewrite Hpc in Hpc1. subst p1.
  set (s' := mkParkState PcPoll false n e sw ca k).
  assert (Hs' : shows (set_notifies (alter (λ tn, mkThreadNotify (tn_thread tn) false) tid) w1) s').
  { split; [done|]. exists (mkThreadNotify (tn_thread tn) false).
    split; [simpl; by rewrite lookup_alter_eq, Htn|done]. }
  exists s'. split; [|split_and!; [simpl; congruence|done|done|exact He]].
  intros need. split_and!; [done|done|]. eexists _, s'. split_and!; [exact Hr| |done].
  by apply thread_any.
Qed.

(** The wait, or the sleep for ever. *)
Lemma waits_follow d w s w' :
  should_block d = true → locked (NIC w) = false → shows w s → pc s = PcSwap d →
  idle fuel tid d w = Done tt w' →
  (∃ s', (∀ need, waits_along need d w s w' s') ∧ arrives s w' s' PcPoll) ∨
  (∃ E, ∀ need, E < need → events s < need ∧ sleeps_along need d w s).
Proof.
  intros Hb Hl Hs Hpc H. unfold idle in H. rewrite Hb in H.
  apply bind_done in H as (u & w1 & H1 & H).
  destruct (swap_along _ _ _ _ _ Hl Hs Hpc H1) as (s1 & Ha1 & Hl1 & Hs1 & Hpc1 & He1).
  destruct u; simpl in H.
  { injection H as <-. left. exists s1. split; [intros need; by apply waits_flag|done]. }
  apply bind_done in H as ([] & w2 & H2 & H).
  destruct (block_along d _ _ _ Hl1 Hs1 Hpc1 H2) as (s2 & Ha2 & Hl2 & Hs2 & Hpc2 & He2).
  apply bind_done in H as ([] & w3 & H3 & H).
  destruct (yield_along _ _ _ Hl2 Hs2 Hpc2 H3) as [(s3 & Ha3 & Hl3 & Hs3 & Hpc3 & He3)|Hsl].
  2:{ right. exists (events s2). intros need Hneed. split; [lia|]. by exists w1, s1, w2, s2. }
  apply bind_done in H as ([] & w4 & H4 & H).
  destruct (store_along _ _ _ Hl3 Hs3 Hpc3 H4) as (s4 & Ha4 & Hl4 & Hs4 & Hpc4 & He4).
  destruct (keeps_along (run_executor fuel) w4 s4 tt w' _ Hl4 Hs4 H)
    as (s5 & Ha5 & Hl5 & Hs5 & Hpc5 & He5).
  left. exists s5. split; [|split_and!; [done|done|congruence|lia]].
  intros need. by eapply (waits_sleep need d w s w1 s1 w2 s2 w3 s3 w4 s4).
Qed.

(** ** The rounds *)

(** The futures that the network stack blocks on. *)
Inductive stack_fut : ∀ T, Fut T → Prop :=
| fut_connect (x : AsyncSocket) ip port : stack_fut _ (connect x ip port)
| fut_accept (x : AsyncSocket) port : stack_fut _ (accept x port)
| fut_close (x : AsyncSocket) : stack_fut _ (close x).

Lemma stack_fut_keeps {T} (f : Fut T) : stack_fut T f → moves_fut (R := keeps) f.
Proof. destruct 1; [apply connect_moves|apply accept_moves|apply close_moves]. Qed.

Section Follow.
Context {T : Type} (f : Fut T) (start : Instant) (timeout : option Duration).
Context (Hf : moves_fut (R := keeps) f).

(** What [block_on] does next, by the delay of the network. *)
Definition choice_of (delay : option Z) : Choice :=
  if should_block delay then Wait delay else Again.
Definition after_poll (c : Choice) : ParkPc :=
  match c with GiveUp => PcDone | Again => PcPoll | Wait d => PcSwap d end.

(** A pending poll, with whatever the loop chooses to do next. *)
Lemma pending_along c st w s st' w' :
  locked (NIC w) = false → shows w s → pc s = PcPoll →
  fut_poll f st (ThreadWaker tid) w = Done (st', Pending) w' →
  ∃ s', arrives s w' s' (after_poll c) ∧ seen s' = events s' ∧ ∀ need, events s' < need →
    along (fut_poll f st (ThreadWaker tid)) (thread need) w s (st', Pending) w' s'.
Proof.
  intros Hl Hs Hpc Hd.
  destruct (keeps_along _ w s _ w' (Hf _ _) Hl Hs Hd) as (s1 & (_ & Hs1 & s2 & ? & H1 & <- & H2) & Ha).
  destruct Ha as (Hl1 & _ & Hpc1 & He). rewrite Hpc in Hpc1.
  destruct s1 as [p u n e sw ca k]. simpl in *. subst p.
  exists (mkParkState (after_poll c) u e e sw ca k).
  split_and!; [by split_and!|done|]. intros need Hneed. split_and!; [done|done|].
  eexists _, _. split_and!; [by etrans| |done]. exists c. simpl in *.
  by rewrite (proj2 (Nat.leb_gt _ _) Hneed).
Qed.

(** A poll that was ready: what the future waited for has come. *)
Lemma ready_along st w s st' t w' :
  locked (NIC w) = false → shows w s → pc s = PcPoll →
  fut_poll f st (ThreadWaker tid) w = Done (st', Ready t) w' →
  ∃ need s', events s < need ∧ shows w' s' ∧ pc s' = PcDone ∧ need ≤ seen s' ∧
    along (fut_poll f st (ThreadWaker tid)) (thread need) w s (st', Ready t) w' s'.
Proof.
  intros Hl Hs Hpc Hd.
  destruct (keeps_along _ w s _ w' (Hf _ _) Hl Hs Hd) as (s1 & (_ & Hs1 & s2 & ? & H1 & <- & H2) & Ha).
  destruct Ha as (Hl1 & _ & Hpc1 & He). rewrite Hpc in Hpc1.
  destruct s1 as [p u n e sw ca k]. simpl in *. subst p.
  exists (S e), (mkParkState PcDone u (S e) (S e) (S sw) ca k).
  split_and!; [lia|done|done|simpl; lia|]. split_and!; [done|done|].
  eexists (event_step (mkParkState PcPoll u n e sw ca k)), _.
  split_and!; [|exists Again; simpl|done].
  - etrans; [by etrans|]. apply rtc_once, waker_event.
  - by rewrite (proj2 (Nat.leb_le _ _)).
Qed.

Lemma rounds_follow n st w s r w' :
  locked (NIC w) = false → shows w s → pc s = PcPoll →
  loop n (block_on_round fuel f tid start timeout) st w = Done r w' →
  ∃ need e, events s < need ∧ rounds_along f start timeout need st w s e ∧
    match e with Some (r1, w1, _) => r1 = r ∧ w1 = w' | None => True end.
Proof.
  revert st w s. induction n as [|n IH]; intros st w s Hl Hs Hpc H; [done|].
  simpl in H. apply bind_done in H as (x & w0 & H0 & H). unfold block_on_round in H0.
  apply bind_done in H0 as ([st' p] & w1 & H1 & H0). destruct p as [t|].
  { injection H0 as <- <-. injection H as <- <-.
    destruct (ready_along _ _ _ _ _ _ Hl Hs Hpc H1) as (need & s1 & He & Hs1 & Hpc1 & Hn & Ha).
    exists need, (Some (Ok t, w1, s1)). split_and!; [done|by eapply along_ready|done..]. }
  apply bind_done in H0 as (late & w2 & H2 & H0). destruct late.
  { injection H0 as <- <-. injection H as <- <-.
    destruct (pending_along GiveUp _ _ _ _ _ Hl Hs Hpc H1) as (s1 & (Hl1 & Hs1 & Hpc1 & He1) & Hn & Ha).
    destruct (keeps_along (timed_out start timeout) w1 s1 true w2 _ Hl1 Hs1 H2) as (s2 & Ha2 & _).
    exists (S (events s1)), (Some (Err tt, w2, s2)).
    split_and!; [lia| |done..]. eapply along_late; [apply Ha; lia|done|lia|done]. }
  apply bind_done in H0 as (now & w3 & H3 & H0). apply bind_done in H0 as (delay & w4 & H4 & H0).
  apply bind_done in H0 as ([] & w5 & H5 & [= <- <-]). set (d := option_map total_millis delay) in *.
  destruct (pending_along (choice_of d) _ _ _ _ _ Hl Hs Hpc H1)
    as (s1 & (Hl1 & Hs1 & Hpc1 & He1) & Hn & Ha1).
  destruct (keeps_along (timed_out start timeout) w1 s1 false w2 _ Hl1 Hs1 H2)
    as (s2 & Ha2 & Hl2 & Hs2 & Hpc2 & He2).
  destruct (keeps_along instant_now w2 s2 now w3 _ Hl2 Hs2 H3)
    as (s3 & Ha3 & Hl3 & Hs3 & Hpc3 & He3).
  destruct (keeps_along (network_delay now) w3 s3 delay w4 _ Hl3 Hs3 H4)
    as (s4 & Ha4 & Hl4 & Hs4 & Hpc4 & He4).
  assert (Hpend : ∀ need, events s4 < need →
    pends_along f start timeout need st w s st' d w4 s4).
  { intros need Hneed. exists w1, s1, w2, s2, now, w3, s3, delay.
    split_and!; [apply Ha1; lia|lia|done..]. }
  assert (Hpc4' : pc s4 = after_poll (choice_of d)) by congruence. clear Hpc4.
  unfold choice_of in Hpc4'. destruct (should_block d) eqn:Hb; simpl in Hpc4'.
  - destruct (waits_follow d w4 s4 w5 Hb Hl4 Hs4 Hpc4' H5)
      as [(s5 & Hw & Hl5 & Hs5 & Hpc5 & He5)|(E & Hsl)].
    + destruct (IH st' w5 s5 Hl5 Hs5 Hpc5 H) as (need & e & Hneed & Hrun & Hend).
      exists need, e. split_and!; [lia| |done].
      eapply along_wait; [apply Hpend; lia|done..].
    + exists (S E), None. destruct (Hsl (S E)) as [Hneed Hs5]; [lia|].
      split_and!; [lia| |done]. eapply along_asleep; [apply Hpend; lia|done..].
  - unfold idle in H5. rewrite Hb in H5.
    destruct (keeps_along (run_executor fuel) w4 s4 tt w5 _ Hl4 Hs4 H5)
      as (s5 & Ha5 & Hl5 & Hs5 & Hpc5 & He5).
    destruct (IH st' w5 s5 Hl5 Hs5 ltac:(congruence) H) as (need & e & Hneed & Hrun & Hend).
    exists need, e. split_and!; [lia| |done].
    eapply along_again; [apply Hpend; lia|done..].
Qed.
End Follow.

(** C10: Every call of [block_on] by the network stack (to connect, to accept, to close) goes side
    by side with a run of the protocol of Park, access by access, in an environment of wakers
    and timers.  From the flag and the place in the kernel that the thread has at the call
    on, each access of the code - a poll, the [swap] of the flag, the call that blocks, the
    [sys_yield], the [store] - is one step of the thread in Park, to the point of its loop that
    the code has reached and to a state that shows the flag and the place in the kernel
    that the code has then; everything between the accesses (the clock, the delay of the network,
    the executor) is the work of wakers and timers.  The run ends with the result of the call,
    after a poll that has seen all the events the future waits for, or one that has not when the
    timeout has passed; or it ends at a call that blocks the thread for ever, as in the lost
    wakeup of Park, for which the real [sys_yield] does not come back. *)
Theorem block_on_follows_park {T} (f : Fut T) timeout w r w' :
  stack_fut T f → locked (NIC w) = false → self w = tid →
  (∀ tn, notifies w !! tid = Some tn → tn_thread tn = tid) →
  block_on fuel f timeout w = Done r w' →
  let u := match notifies w !! tid with Some tn => tn_unparked tn | None => false end in
  ∃ need start w1 w2 s2 e,
    along (current_thread_notify) eq w (park_init u (view (kernel w))) tid w1
      (park_init u (view (kernel w))) ∧
    along instant_now eq w1 (park_init u (view (kernel w))) start w2 s2 ∧
    rounds_along f start timeout need (fut_init f) w2 s2 e ∧
    match e with
    | Some (r1, w3, s3) => r1 = r ∧ w3 = w' ∧
        rtc (park_step need false) (park_init u (view (kernel w))) s3
    | None => ∃ s3, rtc (park_step need false) (park_init u (view (kernel w))) s3 ∧
        pc s3 = PcYield ∧ asleep_for_ever s3
    end.
Proof.
  intros Hf Hl Htid Htn H u. set (s := park_init u (view (kernel w))).
  apply stack_fut_keeps in Hf. unfold block_on in H.
  apply bind_done in H as (x & w1 & H1 & H). apply bind_done in H as (start & w2 & H2 & H).
  assert (x = tid ∧ locked (NIC w1) = false ∧ shows w1 s) as (-> & Hl1 & Hs1).
  { unfold current_thread_notify in H1. rewrite Htid in H1. unfold u in s.
    destruct (notifies w !! tid) as [tn|] eqn:Hn; injection H1 as <- <-.
    - split_and!; [by apply Htn|done|]. split; [done|]. by exists tn.
    - split_and!; [done|done|]. split; [done|]. exists (thread_notify_new w).
      split; [apply lookup_insert_eq|done]. }
  destruct (keeps_along instant_now w1 s start w2 _ Hl1 Hs1 H2) as (s2 & Ha2 & Hl2 & Hs2 & Hpc2 & _).
  destruct (rounds_follow f start timeout Hf _ _ w2 s2 r w' Hl2 Hs2 Hpc2 H)
    as (need & e & _ & Hrun & Hend).
  exists need, start, w1, w2, s2, e.
  assert (Hpark : rtc (park_step need false) s s2).
  { eapply along_park; [|exact Ha2]. by intros ? ? ->. }
  pose proof (rounds_park _ _ _ _ _ _ _ _ Hrun) as He.
  split_and!; [split_and!; [done|done|by exists s, s]|done|done|].
  destruct e as [[[r1 w3] s3]|].
  - destruct Hend as [-> ->]. split_and!; [done..|]. by etrans.
  - destruct He as (s3 & He & ?). exists s3. split; [by etrans|done].
Qed.
End ParkLink.

(** ** Witness: a waker comes while the thread sleeps *)

(** A kernel that keeps, beside its clock, the two bits of [sim_park]. *)
Definition sim_park_kernel : Kernel sim :=
  @Build_Kernel sim (Z * (bool * bool))
    (λ k, (k.1, (k.1 + 1, k.2)%Z))
    (λ k, (k.1, (k.1 + 1, k.2)%Z))
    (λ _, Ok 1500%Z)
    (λ _, Ok [2; 0; 0; 0; 0; 1]%Z)
    (λ k, (0%Z, 7%Z, k)).

#[local] Abbreviation W := (World (kern := sim_park_kernel) (at_ := sim_task)).

Definition sim_put (b : bool * bool) (w : W) : W := set_kernel (kern := sim_park_kernel) (λ k : Z * (bool * bool), (k.1, b)) w.
Definition sim_flag (w : W) : W :=
  set_notifies (alter (λ tn, mkThreadNotify (tn_thread tn) true) 5%Z) w.
(** A packet has arrived. *)
Definition sim_packet (w : W) : W :=
  match data (NIC w) with
  | Initialized nic =>
      set_data (Initialized (mkNetworkInterface (smol := sim)
        (mkSimIface (si_addrs (iface nic)) (si_routes (iface nic)) true)
        (sockets nic) (dhcp nic) (waker nic))) w
  | _ => w
  end.

Lemma sim_packet_same (w : W) :
  kernel (sim_packet w) = kernel w ∧ notifies (sim_packet w) = notifies w.
Proof. unfold sim_packet. by destruct (data (NIC w)). Qed.

Definition sim_waking : Environment sim_park_kernel sim_task := λ p w,
  match p with
  | AtCall sys_block_current_task => sim_put (false, false) w
  | AtCall (sys_block_current_task_with_timeout _) => sim_put (false, true) w
  | AtCall sys_yield =>
      match (kernel (kern := sim_park_kernel) w : Z * (bool * bool)).2 with
      | (true, _) => w
      | (false, true) => sim_put (true, true) w
      | (false, false) => sim_put (true, false) (sim_flag (sim_packet w))
      end
  | _ => w
  end.

Definition sim_view (k : Z * (bool * bool)) : bool * bool := k.2.

#[local] Abbreviation sim_shows :=
  (shows (kern := sim_park_kernel) (at_ := sim_task) (pk := sim_park) 5%Z sim_view).

Lemma sim_flag_asleep s :
  Park.unparked s = true → calling s = 0 → ker s = (false, false) →
  asleep_for_ever (pk := sim_park) s.
Proof.
  intros Hu Hc Hk s' Hs.
  cut (Park.unparked s' = true ∧ calling s' = 0 ∧ ker s' = (false, false)).
  { by intros (_ & _ & ->). }
  induction Hs as [s|s1 s2 s3 H12 _ IH]; [done|].
  assert (Park.unparked s2 = true ∧ calling s2 = 0 ∧ ker s2 = (false, false)) as (?&?&?);
    [|by apply IH].
  destruct H12 as [s|s s' H|s s' H|s]; destruct s as [p u n e sw ca k]; simpl in *; subst;
    [done|by destruct sw; simplify_eq|done|done].
Qed.

Lemma interfere_free p (w w' : W) :
  locked (NIC w) = false → interfere (envt := sim_waking) p w = Done tt w' →
  kernel w' = kernel (sim_waking p w) ∧ notifies w' = notifies (sim_waking p w).
Proof. unfold interfere, modify. intros -> [= <-]. done. Qed.

Lemma interfere_idle p (w w' : W) :
  sim_waking p w = w → interfere (envt := sim_waking) p w = Done tt w' →
  kernel w' = kernel w ∧ notifies w' = notifies w.
Proof. unfold interfere, modify, env. intros -> [= <-]. by destruct (locked (NIC w)). Qed.

#[export] Instance sim_wait_env : WaitEnv (envt := sim_waking) (pk := sim_park) 5%Z sim_view.
Proof.
  split.
  - by intros [t b].
  - intros p w w' s Hp Hint [Hv Hn]. exists s. split; [done|].
    destruct (interfere_idle p w w') as [Hk Hn']; [|done|split; [by rewrite Hk|by rewrite Hn']].
    destruct Hp as [Hp| ->]; [|done]. by destruct p as [| | | |[]].
  - intros d w w' s s1 Hl Hint [Hv (tn & Htn & Hu)] Hpc Hstep. exists s1. split; [done|].
    destruct (interfere_free _ _ _ Hl Hint) as [Hk Hn].
    destruct s as [p u n e sw ca k]; simpl in *; subst p. injection Hstep as <-.
    split; [|exists tn; by rewrite Hn; destruct d]. rewrite Hk. by destruct d.
  - intros w w' s Hl Hint [Hv (tn & Htn & Hu)].
    destruct (interfere_free _ _ _ Hl Hint) as [Hk Hn]. unfold sim_waking in Hk, Hn.
    destruct s as [p u n e sw ca k]; simpl in *. unfold sim_view in Hv. rewrite Hv in Hk, Hn.
    assert (Hend : ∀ b p n e sw ca, kernel w' = ((kernel (kern := sim_park_kernel) w : Z * (bool * bool)).1, b) →
      sim_shows w' (mkParkState (pk := sim_park) p
        (match k with (false, false) => true | _ => u end) n e sw ca b)).
    { intros b p' n' e' sw' ca' Hb. split; [by rewrite Hb|]. rewrite Hn.
      destruct k as [[] []]; simpl; [by exists tn..|].
      exists (mkThreadNotify (tn_thread tn) true). rewrite lookup_alter_eq.
      by rewrite (proj2 (sim_packet_same w)), Htn. }
    assert (Hwake : k = (false, false) →
      kernel w' = ((kernel (kern := sim_park_kernel) w : Z * (bool * bool)).1, (true, false))).
    { intros ->. rewrite Hk. simpl. by rewrite (proj1 (sim_packet_same w)). }
    destruct k as [[] ti].
    + left. eexists. split; [done|]. split; [apply Hend|done]. rewrite Hk.
      rewrite <- Hv. by destruct (kernel w).
    + destruct ti.
      { left. eexists. split; [apply rtc_once, waker_timer|]. split; [by apply Hend|done]. }
      destruct u.
      * destruct ca as [|ca]; [right; by apply sim_flag_asleep|]. left.
        eexists. split; [apply rtc_once; by apply waker_call|]. split; [by apply Hend, Hwake|done].
      * left. eexists. split; [eapply rtc_l; [apply waker_event|];
          eapply rtc_l; [by apply waker_swap|]; apply rtc_once; by apply waker_call|].
        split; [by apply Hend, Hwake|done].
Defined.

(** The thread connects: it sleeps until the answer has come, is woken with its flag set, and
    the executor and the second poll do the rest. *)
Definition sim_caller : W :=
  mkWorld (at_ := sim_task) (kern := sim_park_kernel)
    (mkNicMutex false false (Initialized (sim_nic false {[0 := sim_new]} (Some (TaskWaker 0%nat)))))
    65535 [] {[ 0%nat := mkTask (at_ := sim_task) Idle NetworkRun ]} ∅ (100%Z, (true, false)) 5%Z
    None [].

Lemma block_on_follows_park_witness :
  let f := connect (envt := sim_waking) (mkAsyncSocket 0%nat) [49]%Z 80%Z in
  let run := block_on (envt := sim_waking) 10 f None sim_caller in
  let w' := final sim_caller run in
  run = Done (Ok (Ok 0%nat)) w' ∧ klog w' = [sys_block_current_task; sys_yield; sys_wakeup_task 5%Z] ∧
  ∃ need start w2 s2 e,
    rounds_along (envt := sim_waking) (pk := sim_park) 10 5%Z sim_view f start None need
      (fut_init f) w2 s2 e ∧
    match e with Some (r1, w3, _) => r1 = Ok (Ok 0%nat) ∧ w3 = w' | None => True end.
Proof.
  intros f run w'.
  assert (Hrun : run = Done (Ok (Ok 0%nat)) w') by (apply run_returns; vm_compute; reflexivity).
  split; [exact Hrun|]. split; [vm_compute; reflexivity|].
  destruct (block_on_follows_park (envt := sim_waking) (pk := sim_park) 10 5%Z sim_view f None
    sim_caller _ w' (fut_connect _ _ _) eq_refl eq_refl ltac:(by intros tn) Hrun)
    as (need & start & w1 & w2 & s2 & e & _ & _ & Hrounds & He).
  exists need, start, w2, s2, e. split; [exact Hrounds|].
  destruct e as [[[r1 w3] s3]|]; [|exact I]. destruct He as (H1 & H2 & _). exact (conj H1 H2).
Defined.
