(* ===== verification/Tcpstream.v ===== *)
(** * [hermit-abi/src/tcpstream.rs] and [tcplistener.rs]: the interface to the network
      functions

    hermit-abi only declares the [sys_tcp_*] functions ([extern "Rust"]); which code it
    is linked with is decided by the features of hermit-sys.  The declarations are a
    class, the code it is linked with an instance, and what a caller may rely on a
    second class, which every instance has to provide. *)

From S2P Require Import Prelude.

(** The [extern "Rust"] blocks; [W] is the state that the linked code works on. *)
Class TcpApi (W : Type) : Type := {
  Handle : Type;
  IpAddr : Type;
  sys_connect : list Z → Z → option Z → M W (result Handle unit);
  sys_close : Handle → M W (result unit unit);
  (* the buffer of the caller comes back with the result *)
  sys_read : Handle → list Z → M W (result nat unit * list Z);
  sys_write : Handle → list Z → M W (result nat unit);
  sys_set_read_timeout : Handle → option Z → M W (result unit unit);
  sys_get_read_timeout : Handle → M W (result (option Z) unit);
  sys_set_write_timeout : Handle → option Z → M W (result unit unit);
  sys_get_write_timeout : Handle → M W (result (option Z) unit);
  sys_peek : Handle → list Z → M W (result nat unit * list Z);
  sys_set_nonblocking : Handle → bool → M W (result unit unit);
  sys_set_tll : Handle → Z → M W (result unit unit);
  sys_get_tll : Handle → M W (result Z unit);
  sys_shutdown : Handle → Z → M W (result unit unit);
  sys_peer_addr : Handle → M W (result (IpAddr * Z) unit);
  sys_accept : Z → M W (result (Handle * IpAddr * Z) unit);
}.

Section Tcpstream.
Context {W : Type} {api : TcpApi W}.

Definition connect (ip : list Z) (port : Z) (timeout : option Z) : M W (result Handle unit) :=
  sys_connect ip port timeout.

Definition close (handle : Handle) : M W (result unit unit) := sys_close handle.

Definition peek (handle : Handle) (buf : list Z) : M W (result nat unit * list Z) :=
  sys_peek handle buf.

Definition peer_addr (handle : Handle) : M W (result (IpAddr * Z) unit) := sys_peer_addr handle.

Definition read (handle : Handle) (buffer : list Z) : M W (result nat unit * list Z) :=
  sys_read handle buffer.

Definition write (handle : Handle) (buffer : list Z) : M W (result nat unit) :=
  sys_write handle buffer.

Definition set_read_timeout (handle : Handle) (timeout : option Z) : M W (result unit unit) :=
  sys_set_read_timeout handle timeout.

Definition set_write_timeout (handle : Handle) (timeout : option Z) : M W (result unit unit) :=
  sys_set_write_timeout handle timeout.

Definition get_read_timeout (handle : Handle) : M W (result (option Z) unit) :=
  sys_get_read_timeout handle.

Definition get_write_timeout (handle : Handle) : M W (result (option Z) unit) :=
  sys_get_write_timeout handle.

(** smoltcp does not support Nagle's algorithm: it cannot be switched on. *)
Definition set_nodelay (_ : Handle) (mode : bool) : M W (result unit unit) :=
  mret (if mode then Ok tt else Err tt).

Definition nodelay (_ : Handle) : M W (result bool unit) := mret (Ok true).

Definition set_nonblocking (handle : Handle) (mode : bool) : M W (result unit unit) :=
  sys_set_nonblocking handle mode.

Definition set_tll (handle : Handle) (ttl : Z) : M W (result unit unit) := sys_set_tll handle ttl.

Definition get_tll (handle : Handle) : M W (result Z unit) := sys_get_tll handle.

Definition shutdown (handle : Handle) (how : Z) : M W (result unit unit) :=
  sys_shutdown handle how.

(** [tcplistener::accept]. *)
Definition accept (port : Z) : M W (result (Handle * IpAddr * Z) unit) := sys_accept port.
End Tcpstream.

(** The panic of [shutdown] on an argument that is none of 0, 1 and 2. *)
Definition SHUTDOWN_PANIC : string := "Invalid shutdown argument".

(** What a read or a peek leaves in the buffer of the caller. *)
Definition buffer_result (buffer : list Z) (r : result nat unit * list Z) : Prop :=
  length r.2 = length buffer ∧
  match r.1 with
  | Ok n => n ≤ length buffer ∧ drop n r.2 = drop n buffer
  | Err _ => r.2 = buffer
  end.

(** What a caller may rely on, whichever code is linked.  [api_inv hs] is the state in
    which the handles of [hs] are open. *)
Class TcpApiSpec {W : Type} (api : TcpApi W) : Type := {
  api_inv : (Handle → Prop) → W → Prop;
  api_connect_spec hs ip port timeout w :
    api_inv hs w →
    wp false (sys_connect ip port timeout) (λ r w',
      match r with
      | Ok h => ¬ hs h ∧ api_inv (λ h', hs h' ∨ h' = h) w'
      | Err _ => api_inv hs w'
      end) (λ _ _, False) w;
  api_accept_spec hs port w :
    api_inv hs w →
    wp false (sys_accept port) (λ r w',
      match r with
      | Ok (h, _, _) => ¬ hs h ∧ api_inv (λ h', hs h' ∨ h' = h) w'
      | Err _ => api_inv hs w'
      end) (λ _ _, False) w;
  api_read_spec hs h buffer w :
    hs h → api_inv hs w →
    wp false (sys_read h buffer) (λ r w', api_inv hs w' ∧ buffer_result buffer r)
      (λ _ _, False) w;
  api_peek_spec hs h buffer w :
    hs h → api_inv hs w →
    wp false (sys_peek h buffer) (λ r w', api_inv hs w' ∧ buffer_result buffer r)
      (λ _ _, False) w;
  api_write_spec hs h buffer w :
    hs h → api_inv hs w →
    wp false (sys_write h buffer) (λ r w', api_inv hs w' ∧
      match r with Ok n => n ≤ length buffer | Err _ => True end) (λ _ _, False) w;
  api_shutdown_spec hs h how w :
    hs h → api_inv hs w →
    wp false (sys_shutdown h how) (λ _, api_inv hs)
      (λ msg w', ¬ (0 ≤ how ≤ 2)%Z ∧ msg = SHUTDOWN_PANIC ∧ api_inv hs w') w;
  api_close_spec hs h w :
    hs h → api_inv hs w → wp false (sys_close h) (λ _, api_inv hs) (λ _ _, False) w;
  api_peer_addr_spec hs h w :
    hs h → api_inv hs w → wp false (sys_peer_addr h) (λ _, api_inv hs) (λ _ _, False) w;
  api_nonblocking_spec hs h mode w :
    hs h → api_inv hs w →
    wp false (sys_set_nonblocking h mode) (λ _, api_inv hs) (λ _ _, False) w;
  api_set_read_timeout_spec hs h t w :
    hs h → api_inv hs w → wp false (sys_set_read_timeout h t) (λ _, api_inv hs) (λ _ _, False) w;
  api_get_read_timeout_spec hs h w :
    hs h → api_inv hs w → wp false (sys_get_read_timeout h) (λ _, api_inv hs) (λ _ _, False) w;
  api_set_write_timeout_spec hs h t w :
    hs h → api_inv hs w → wp false (sys_set_write_timeout h t) (λ _, api_inv hs) (λ _ _, False) w;
  api_get_write_timeout_spec hs h w :
    hs h → api_inv hs w → wp false (sys_get_write_timeout h) (λ _, api_inv hs) (λ _ _, False) w;
  api_set_tll_spec hs h ttl w :
    hs h → api_inv hs w → wp false (sys_set_tll h ttl) (λ _, api_inv hs) (λ _ _, False) w;
  api_get_tll_spec hs h w :
    hs h → api_inv hs w → wp false (sys_get_tll h) (λ _, api_inv hs) (λ _ _, False) w;
}.

(** ** A client of the interface *)

Section Client.
Context {W : Type} {api : TcpApi W} {spec : TcpApiSpec api}.
Implicit Types (hs : Handle → Prop) (h : Handle).

(** The operations whose answer a program can do nothing wrong with. *)
Inductive plain_call h : ∀ R, M W R → Prop :=
| plain_close : plain_call h _ (close h)
| plain_peer_addr : plain_call h _ (peer_addr h)
| plain_set_nonblocking mode : plain_call h _ (set_nonblocking h mode)
| plain_set_read_timeout t : plain_call h _ (set_read_timeout h t)
| plain_get_read_timeout : plain_call h _ (get_read_timeout h)
| plain_set_write_timeout t : plain_call h _ (set_write_timeout h t)
| plain_get_write_timeout : plain_call h _ (get_write_timeout h)
| plain_set_tll ttl : plain_call h _ (set_tll h ttl)
| plain_get_tll : plain_call h _ (get_tll h).

(** What a program can do with the streams it holds: the operations of hermit-abi in any
    order, each on a handle it was given.  [valid] says that it passes 0, 1 or 2 to [shutdown]. *)
Inductive client (valid : bool) : (Handle → Prop) → M W (Handle → Prop) → Prop :=
| client_done hs : client valid hs (mret hs)
| client_connect hs ip port timeout (k : result Handle unit → M W (Handle → Prop)) :
    (∀ h, client valid (λ h', hs h' ∨ h' = h) (k (Ok h))) → client valid hs (k (Err tt)) →
    client valid hs (connect ip port timeout ≫= k)
| client_accept hs port (k : result (Handle * IpAddr * Z) unit → M W (Handle → Prop)) :
    (∀ h addr p, client valid (λ h', hs h' ∨ h' = h) (k (Ok (h, addr, p)))) →
    client valid hs (k (Err tt)) →
    client valid hs (accept port ≫= k)
| client_read hs h buffer (k : result nat unit * list Z → M W (Handle → Prop)) :
    hs h → (∀ r, buffer_result buffer r → client valid hs (k r)) →
    client valid hs (read h buffer ≫= k)
| client_peek hs h buffer (k : result nat unit * list Z → M W (Handle → Prop)) :
    hs h → (∀ r, buffer_result buffer r → client valid hs (k r)) →
    client valid hs (peek h buffer ≫= k)
| client_write hs h buffer (k : result nat unit → M W (Handle → Prop)) :
    hs h →
    (∀ r, match r with Ok n => n ≤ length buffer | Err _ => True end → client valid hs (k r)) →
    client valid hs (write h buffer ≫= k)
| client_set_nodelay hs h mode (k : result unit unit → M W (Handle → Prop)) :
    client valid hs (k (if mode : bool then Ok tt else Err tt)) →
    client valid hs (set_nodelay h mode ≫= k)
| client_nodelay hs h (k : result bool unit → M W (Handle → Prop)) :
    client valid hs (k (Ok true)) → client valid hs (nodelay h ≫= k)
| client_shutdown hs h how (k : result unit unit → M W (Handle → Prop)) :
    hs h → (valid = true → 0 ≤ how ≤ 2)%Z → (∀ r, client valid hs (k r)) →
    client valid hs (shutdown h how ≫= k)
| client_plain hs h R (m : M W R) (k : R → M W (Handle → Prop)) :
    hs h → plain_call h R m → (∀ r, client valid hs (k r)) → client valid hs (m ≫= k).

(** What may come of a client that is not careful with [shutdown]: that panic, with the stack
    unharmed. *)
Definition client_panic (valid : bool) (msg : string) (w : W) : Prop :=
  valid = false ∧ msg = SHUTDOWN_PANIC ∧ ∃ hs, api_inv hs w.

Lemma wp_plain_call hs h R (m : M W R) w :
  plain_call h R m → hs h → api_inv hs w → wp false m (λ _, api_inv hs) (λ _ _, False) w.
Proof.
  intros Hm Hh Hinv. destruct Hm; [by apply api_close_spec|by apply api_peer_addr_spec
    |by apply api_nonblocking_spec|by apply api_set_read_timeout_spec|by apply api_get_read_timeout_spec
    |by apply api_set_write_timeout_spec|by apply api_get_write_timeout_spec|by apply api_set_tll_spec
    |by apply api_get_tll_spec].
Qed.

(** The rule for clients: they never fail otherwise, and the handles they end with are open. *)
Lemma wp_client valid hs m w :
  client valid hs m → api_inv hs w →
  wp false m (λ hs', api_inv hs') (client_panic valid) w.
Proof.
  intros Hc. revert w.
  induction Hc as [hs|hs ip port timeout k _ IH1 _ IH2|hs port k _ IH1 _ IH2|hs h buffer k Hh _ IH
    |hs h buffer k Hh _ IH|hs h buffer k Hh _ IH|hs h mode k _ IH|hs h k _ IH|hs h how k Hh Hhow _ IH
    |hs h R m k Hh Hm _ IH];
    intros w Hinv; [done|..]; apply wp_bind.
  - eapply wp_mono; [by apply api_connect_spec|cbv beta|done].
    intros [h|[]] w'; [|by apply IH2]. intros [_ Hinv']. by apply IH1.
  - eapply wp_mono; [by apply api_accept_spec|cbv beta|done].
    intros [[[h addr] p]|[]] w'; [|by apply IH2]. intros [_ Hinv']. by apply IH1.
  - eapply wp_mono; [by apply api_read_spec|cbv beta|done]. intros r w' [Hinv' Hr]. by apply IH.
  - eapply wp_mono; [by apply api_peek_spec|cbv beta|done]. intros r w' [Hinv' Hr]. by apply IH.
  - eapply wp_mono; [by apply api_write_spec|cbv beta|done]. intros r w' [Hinv' Hr]. by apply IH.
  - by apply IH.
  - by apply IH.
  - eapply wp_mono; [by apply api_shutdown_spec|cbv beta|]; [intros r w' Hinv'; by apply IH|].
    cbv beta. intros msg w' (Hno & -> & Hinv'). split_and!; [|done|by exists hs].
    destruct valid; [|done]. destruct Hno. by apply Hhow.
  - eapply wp_mono; [by eapply wp_plain_call|cbv beta|done]. intros r w' Hinv'. by apply IH.
Qed.
End Client.
