(* ===== verification/Dummy.v ===== *)
(** * [hermit-sys/src/dummy.rs]: the network functions without the feature [smoltcp] *)

From S2P Require Import Prelude Tcpstream.

Section Dummy.
Context {W IpAddress : Type}.

(** [dummy::Handle(usize)]. *)
Record Handle : Type := mkHandle { handle_id : Z }.

Definition sys_tcp_stream_connect (_ip : list Z) (_port : Z) (_timeout : option Z)
    : M W (result Handle unit) := mret (Err tt).

Definition sys_tcp_stream_read (_handle : Handle) (_buffer : list Z)
    : M W (result nat unit * list Z) := mret (Err tt, _buffer).

Definition sys_tcp_stream_write (_handle : Handle) (_buffer : list Z)
    : M W (result nat unit) := mret (Err tt).

Definition sys_tcp_stream_close (_handle : Handle) : M W (result unit unit) := mret (Err tt).

Definition sys_tcp_stream_shutdown (_handle : Handle) (_how : Z) : M W (result unit unit) :=
  mret (Err tt).

Definition sys_tcp_stream_set_read_timeout (_handle : Handle) (_timeout : option Z)
    : M W (result unit unit) := mret (Err tt).

Definition sys_tcp_stream_get_read_timeout (_handle : Handle) : M W (result (option Z) unit) :=
  mret (Err tt).

Definition sys_tcp_stream_set_write_timeout (_handle : Handle) (_timeout : option Z)
    : M W (result unit unit) := mret (Err tt).

Definition sys_tcp_stream_get_write_timeout (_handle : Handle) : M W (result (option Z) unit) :=
  mret (Err tt).

Definition sys_tcp_stream_duplicate (_handle : Handle) : M W (result Handle unit) :=
  mret (Err tt).

Definition sys_tcp_stream_peek (_handle : Handle) (_buf : list Z)
    : M W (result nat unit * list Z) := mret (Err tt, _buf).

Definition sys_tcp_stream_set_nonblocking (_handle : Handle) (_mode : bool)
    : M W (result unit unit) := mret (Err tt).

Definition sys_tcp_stream_set_tll (_handle : Handle) (_ttl : Z) : M W (result unit unit) :=
  mret (Err tt).

Definition sys_tcp_stream_get_tll (_handle : Handle) : M W (result Z unit) := mret (Err tt).

(** What hermit-abi is linked with.  [sys_tcp_stream_peer_addr] and
    [sys_tcp_listener_accept] do not exist in dummy.rs, so that a program that uses
    them does not link; the two parameters stand for whatever else provides them. *)
Definition dummy_api (other_peer_addr : Handle → M W (result (IpAddress * Z) unit))
    (other_accept : Z → M W (result (Handle * IpAddress * Z) unit)) : TcpApi W := {|
  Tcpstream.Handle := Handle;
  IpAddr := IpAddress;
  sys_connect := sys_tcp_stream_connect;
  sys_close := sys_tcp_stream_close;
  sys_read := sys_tcp_stream_read;
  sys_write := sys_tcp_stream_write;
  sys_set_read_timeout := sys_tcp_stream_set_read_timeout;
  sys_get_read_timeout := sys_tcp_stream_get_read_timeout;
  sys_set_write_timeout := sys_tcp_stream_set_write_timeout;
  sys_get_write_timeout := sys_tcp_stream_get_write_timeout;
  sys_peek := sys_tcp_stream_peek;
  sys_set_nonblocking := sys_tcp_stream_set_nonblocking;
  sys_set_tll := sys_tcp_stream_set_tll;
  sys_get_tll := sys_tcp_stream_get_tll;
  sys_shutdown := sys_tcp_stream_shutdown;
  sys_peer_addr := other_peer_addr;
  sys_accept := other_accept;
|}.

(** The contract of the interface, as far as dummy.rs goes: no handle is ever given
    out. *)
Lemma dummy_spec other_peer_addr other_accept :
  (∀ h w, wp false (other_peer_addr h) (λ _ _, True) (λ _ _, False) w) →
  (∀ port w, wp false (other_accept port) (λ r _, r = Err tt) (λ _ _, False) w) →
  TcpApiSpec (dummy_api other_peer_addr other_accept).
Proof.
  intros Hpeer Haccept. refine (Build_TcpApiSpec _ (dummy_api _ _) (λ _ _, True) _ _ _ _ _ _ _ _ _ _ _ _ _ _ _);
    intros; simpl; try done.
  eapply wp_conseq; [apply Haccept|]. by intros r w' ->.
Defined.
End Dummy.

Section Properties.
Context {W : Type}.
Implicit Types (h : Handle) (w : W) (buffer : list Z).

(** Built without the feature [smoltcp], every network function refuses: it returns
    at once with an error, the state and the buffer of the caller untouched. *)
Theorem dummy_refuses h buffer ip port timeout how mode ttl w :
  sys_tcp_stream_connect ip port timeout w = Done (Err tt) w ∧
  sys_tcp_stream_read h buffer w = Done (Err tt, buffer) w ∧
  sys_tcp_stream_write h buffer w = Done (Err tt) w ∧
  sys_tcp_stream_close h w = Done (Err tt) w ∧
  sys_tcp_stream_shutdown h how w = Done (Err tt) w ∧
  sys_tcp_stream_set_read_timeout h timeout w = Done (Err tt) w ∧
  sys_tcp_stream_get_read_timeout h w = Done (Err tt) w ∧
  sys_tcp_stream_set_write_timeout h timeout w = Done (Err tt) w ∧
  sys_tcp_stream_get_write_timeout h w = Done (Err tt) w ∧
  sys_tcp_stream_duplicate h w = Done (Err tt) w ∧
  sys_tcp_stream_peek h buffer w = Done (Err tt, buffer) w ∧
  sys_tcp_stream_set_nonblocking h mode w = Done (Err tt) w ∧
  sys_tcp_stream_set_tll h ttl w = Done (Err tt) w ∧
  sys_tcp_stream_get_tll h w = Done (Err tt) w.
Proof. by split_and!. Qed.
End Properties.
