(* ===== verification/Link.v ===== *)
(** * hermit-abi linked with the network stack of hermit-sys

    The instance of the interface that the feature [smoltcp] provides, and the proof
    that it keeps the contract on which clients rely. *)

From S2P Require Import Prelude Extern WakerReg State Sim Invariant Nic Executor Utf8 Socket Syscalls Tcpstream.

Section Link.
Context {smol : Smoltcp} {kern : Kernel smol} {at_ : AsyncTask}
        {envt : Environment kern at_}.
Variable fuel : nat.

Definition stack_api : TcpApi World := {|
  Handle := SocketHandle;
  IpAddr := IpAddress;
  sys_connect := sys_tcp_stream_connect fuel;
  sys_close := sys_tcp_stream_close fuel;
  sys_read := sys_tcp_stream_read fuel;
  sys_write := sys_tcp_stream_write fuel;
  sys_set_read_timeout := sys_tcp_stream_set_read_timeout;
  sys_get_read_timeout := sys_tcp_stream_get_read_timeout;
  sys_set_write_timeout := sys_tcp_stream_set_write_timeout;
  sys_get_write_timeout := sys_tcp_stream_get_write_timeout;
  sys_peek := sys_tcp_stream_peek;
  sys_set_nonblocking := sys_tcp_stream_set_nonblocking;
  sys_set_tll := sys_tcp_stream_set_tll;
  sys_get_tll := sys_tcp_stream_get_tll;
  sys_shutdown := sys_tcp_stream_shutdown fuel;
  sys_peer_addr := sys_tcp_stream_peer_addr;
  sys_accept := sys_tcp_listener_accept fuel;
|}.

Context {atl : AsyncTaskLaws at_} {laws : SmoltcpLaws smol} {envl : EnvLaws}.

(** The stack keeps the contract: its invariant is that of a thread between two calls. *)
#[export] Instance stack_spec : TcpApiSpec stack_api.
Proof.
  refine (Build_TcpApiSpec _ stack_api thread_inv _ _ _ _ _ _ _ _ _ _ _ _ _ _ _); simpl.
  - intros hs ip port timeout w Hinv. eapply wp_conseq; [by apply safe_connect|cbv beta].
    intros [h|] w' [Hinv' Hop]; [exact Hop|done].
  - intros hs port w Hinv. eapply wp_conseq; [by apply safe_accept|cbv beta].
    intros [[[h a] p]|] w' [Hinv' Hop]; [exact Hop|done].
  - intros hs h buffer w Hin Hinv. eapply wp_conseq; [by apply safe_read|done].
  - intros hs h buffer w _ Hinv. unfold sys_tcp_stream_peek. wp_run. split_and!; try done; apply Hinv.
  - intros hs h buffer w Hin Hinv. eapply wp_conseq; [by apply safe_write|done].
  - intros hs h how w Hin Hinv. unfold sys_tcp_stream_shutdown.
    destruct (decide (0 ≤ how ≤ 2)%Z) as [Hhow|Hhow].
    + assert (how = 0 ∨ how = 1 ∨ how = 2)%Z as [->|[->| ->]] by lia; [done|..];
        (eapply wp_mono; [by apply safe_close|by intros ? ? []|done]).
    + destruct how as [|[[]|[]|]|]; try lia; by wp_run.
  - intros hs h w Hin Hinv. eapply wp_conseq; [by apply safe_close|by intros ? ? []].
  - intros hs h w Hin Hinv. eapply wp_conseq; [by apply safe_peer_addr|by intros ? ? []].
  - intros hs h mode w _ Hinv. by wp_run.
  - intros hs h t w _ Hinv. by wp_run.
  - intros hs h w _ Hinv. by wp_run.
  - intros hs h t w _ Hinv. by wp_run.
  - intros hs h w _ Hinv. by wp_run.
  - intros hs h ttl w _ Hinv. by wp_run.
  - intros hs h w _ Hinv. by wp_run.
Defined.

(** C4: Any program that uses the network only through hermit-abi - connect, accept, read, peek,
    write, shutdown, close, the peer's address, the timeouts, the time to live, Nagle's algorithm
    and the blocking mode - in any order and with any control flow that depends on the answers,
    each operation on a handle it was given, runs on the stack of hermit-sys without a deadlock
    and without a panic, whatever the other threads do, but for the one that [shutdown]
    raises when its argument is none of 0, 1 and 2, which leaves the stack unharmed.  The handles
    it holds at the end name sockets that exist, the stack is up, and there is a network task
    that is queued, running or asleep in the slot. *)
Theorem abi_client_safe valid hs m w :
  client (api := stack_api) valid hs m → thread_inv hs w →
  wp false m (λ hs' w', thread_inv hs' w')
    (λ msg w', valid = false ∧ msg = SHUTDOWN_PANIC ∧ ∃ hs', thread_inv hs' w') w.
Proof. intros Hc Hinv. exact (wp_client (spec := stack_spec) valid hs m w Hc Hinv). Qed.
End Link.

(** ** Witness: connect, peek, write, close *)

#[local] Abbreviation sim_api := (stack_api (envt := sim_quiet) 10).

Definition sim_client : M World (nat → Prop) :=
  r ← connect (api := sim_api) [49]%Z 80%Z None;
  match r with
  | Ok h => _ ← peek (api := sim_api) h [0; 0]%Z;
            n ← write (api := sim_api) h [1; 2; 3]%Z;
            _ ← close (api := sim_api) h;
            mret (λ h', False ∨ h' = h)
  | Err _ => mret (λ _, False)
  end.

Lemma abi_client_safe_witness :
  client (api := sim_api) true (λ _, False) sim_client ∧
  wp false sim_client (λ hs' w', thread_inv (at_ := sim_task) hs' w') (λ _ _, False)
    (sim_ready ∅).
Proof.
  assert (Hc : client (api := sim_api) true (λ _, False) sim_client).
  { apply (client_connect (api := sim_api)); [|apply client_done].
    intros h. apply (client_peek (api := sim_api)); [by right|].
    intros b _. apply (client_write (api := sim_api)); [by right|].
    intros n _. apply (client_plain (api := sim_api) true _ h _ (close (api := sim_api) h));
      [by right|apply plain_close|].
    intros _. apply client_done. }
  split; [exact Hc|].
  eapply wp_mono; [apply (abi_client_safe (envt := sim_quiet) 10 true (λ _, False) sim_client _ Hc)| |].
  - apply sim_ready_thread_inv. by intros h [].
  - intros hs' w' H. exact H.
  - intros msg w' (Hno & _). discriminate Hno.
Defined.
