(* ===== verification/Others.v ===== *)
(** * The other threads

    What the other threads of a program do to the shared state, as steps: a critical section of
    one of the operations of the network stack, a task taken off the queue or polled to its
    end, an access to a flag.  Any number of them keeps the invariant, which discharges the
    assumption [EnvLaws] about the environment; and a system call does nothing else. *)

From S2P Require Import Prelude Extern WakerReg State Sim Invariant Nic Executor Progress Socket Moves Syscalls.

Section Others.
Context {smol : Smoltcp} {kern : Kernel smol} {at_ : AsyncTask} {atl : AsyncTaskLaws at_}.
Implicit Types (w : World) (t : TaskId) (hs : SocketHandle → Prop) (s : AsyncSocket).

Section Actions.
Context {envt : Environment kern at_}.

(** The closures that the five futures pass to [AsyncSocket::with]. *)
Inductive closure s : ∀ R, (TcpSocket → M World (R * TcpSocket)) → Prop :=
| closure_connect_op address port : closure s _ (connect_op address port)
| closure_connect cx : closure s _ (connect_check s cx)
| closure_listen_op port : closure s _ (listen_op port)
| closure_accept cx : closure s _ (accept_check cx)
| closure_read buffer cx : closure s _ (read_check buffer cx)
| closure_write buffer cx : closure s _ (write_check buffer cx)
| closure_flush cx : closure s _ (flush_check cx)
| closure_closed cx : closure s _ (closed_check cx).

(** The bodies of the critical sections of [NIC], other than the poll of a task. *)
Inductive section_body : ∀ R, M World R → Prop :=
| body_with s R f : closure s R f → section_body R (with_body s f)
| body_new : section_body _ async_socket_new_body
| body_accept_finish s : section_body _ (accept_finish_body s)
| body_peer_addr h : section_body _ (peer_addr_body h)
| body_delay ts : section_body _ (network_delay_body ts)
| body_nic_thread fuel : section_body _ (nic_thread_body fuel).

(** The steps of a thread that the other threads can tell apart. *)
Inductive action : World → World → Prop :=
| act_section R (m : M World R) a w w' :
    section_body R m → critical m w = Done a w' → action w w'
| act_start t q tk w :
    current w = None → QUEUE w = t :: q → tasks w !! t = Some tk →
    action w (task_start t tk (set_QUEUE (λ _, q) w))
| act_finish fuel t p w w1 w' :
    current w = Some t → running w t →
    critical (network_run_body fuel (TaskWaker t)) w = Done p w1 →
    task_return t p w1 = Done tt w' → action w w'
| act_flag tid tn b w :
    notifies w !! tid = Some tn →
    action w (set_notifies (insert tid (mkThreadNotify (tn_thread tn) b)) w)
| act_notify_new w :
    notifies w !! self w = None →
    action w (set_notifies (insert (self w) (thread_notify_new w)) w)
| act_clock w : action w (set_kernel (λ _, (clock_now (kernel w)).2) w)
| act_call c w : action w (set_klog (λ l, l ++ [c]) w).
End Actions.

(** The same shared state with the thread-local part of another thread: who it is, the task on
    its stack, the system calls it has made. *)
Definition seen_as (tid : Tid) (c : option TaskId) (l : list KCall) w : World :=
  mkWorld (NIC w) (LOCAL_ENDPOINT w) (QUEUE w) (tasks w) (notifies w) (kernel w) tid c l.

(** The kernel goes on, and packets arrive at the device, which is part of the interface. *)
Inductive kernel_step : World → World → Prop :=
| kernel_state k w : kernel_step w (set_kernel (λ _, k) w)
| kernel_device i nic w :
    data (NIC w) = Initialized nic →
    kernel_step w (set_data (Initialized (set_iface i nic)) w).

(** A step of the kernel, or of another thread, which has another task on its stack or none.
    What the kernel does while that thread holds the lock is up to [envt]. *)
Inductive other_step : World → World → Prop :=
| other_kernel w w' : kernel_step w w' → other_step w w'
| other_action (envt : Environment kern at_) tid c l w w' :
    (∀ t, current w = Some t → c ≠ Some t) →
    action (envt := envt) (seen_as tid c l w) w' →
    other_step w (seen_as (self w) (current w) (klog w) w').

(** An environment in which everything is done by other threads and the kernel. *)
Definition others_only (envt : Environment kern at_) : Prop :=
  ∀ p w, rtc other_step w (env p w).

(** ** One action *)

Section Keeps.
Context {envt : Environment kern at_} {laws : SmoltcpLaws smol}.

Lemma backlog_partial fuel : backlog_ok fuel false.
Proof. done. Qed.

Lemma check_ok {T} d hs cx sock (m : M World (poll T * TcpSocket)) Q nic w :
  check_spec d hs cx sock m Q → cs_inv hs nic w →
  wp false m (λ _ w', cs_step hs nic w w' ∧ True) (λ _ _, False) w.
Proof. intros Hm Hcs. eapply wp_conseq; [by apply Hm|]. by intros ?? [? _]. Qed.

Lemma closure_ok {R} s (f : TcpSocket → M World (R * TcpSocket)) hs sock nic w :
  closure s R f → cs_inv hs nic w →
  wp false (f sock) (λ _ w', cs_step hs nic w w' ∧ True) (λ _ _, False) w.
Proof.
  intros Hf Hcs. destruct Hf.
  - by apply wp_connect_op.
  - eapply check_ok; [apply connect_check_spec|done].
  - by apply wp_listen_op.
  - eapply check_ok; [apply accept_check_spec|done].
  - eapply check_ok; [apply read_check_spec|done].
  - eapply check_ok; [apply write_check_spec|done].
  - eapply check_ok; [apply flush_check_spec|done].
  - eapply check_ok; [apply closed_check_spec|done].
Qed.

Lemma critical_done {A} (m : M World A) a w w' :
  critical m w = Done a w' → ∃ w1 w2, m w1 = Done a w2 ∧ w' = nic_unlock false w2 ∧
    w1 = set_NIC (λ n, mkNicMutex true (poisoned n) (data n)) w ∧ locked (NIC w) = false.
Proof.
  unfold critical. intros ([] & w1 & H1 & H2)%bind_done. unfold nic_acquire, guarded, prim in *.
  destruct (locked (NIC w)) eqn:Hl; [done|]. destruct (poisoned (NIC w)); [done|].
  injection H1 as <-. destruct (m _) as [a' w2| | |] eqn:Hm; simplify_eq. by repeat eexists.
Qed.

(** A section that has found its socket worked on a valid handle. *)
Lemma net_inv_handle hs h w :
  net_inv hs w → is_Some (socket_at w h) → net_inv (add_handle hs h) w.
Proof.
  intros (?&?&?&nic&Hd&Hh) Hs. split_and!; try done. exists nic. split; [done|].
  unfold socket_at in Hs. rewrite Hd in Hs. intros h' [Hin| ->]; [by apply Hh|done].
Qed.

Lemma with_body_found {R} s (f : TcpSocket → M World (R * TcpSocket)) a w w' :
  critical (with_body s f) w = Done a w' → is_Some (socket_at w (as_handle s)).
Proof.
  intros (w1 & w2 & Hm & _ & -> & _)%critical_done. unfold with_body, socket_at in *.
  apply bind_done in Hm as (st & w3 & [= <- <-] & Hm). simpl in Hm.
  destruct (data (NIC w)) as [| |nic]; [discriminate Hm..|].
  destruct (sockets_get (sockets nic) (as_handle s)) eqn:Hs; [by eexists|].
  unfold mbind, M_bind, as_nic_mut, unwrap_res in Hm. simpl in Hm. by rewrite Hs in Hm.
Qed.

Lemma accept_finish_found hs s a w w' :
  net_inv hs w → critical (accept_finish_body s) w = Done a w' →
  is_Some (socket_at w (as_handle s)).
Proof.
  intros (_&_&_&nic&Hd&_) (w1 & w2 & Hm & _ & -> & _)%critical_done.
  unfold accept_finish_body, socket_at in *.
  apply bind_done in Hm as (st & w3 & [= <- <-] & Hm). simpl in Hm. rewrite Hd in *. simpl in Hm.
  destruct (sockets_get (sockets nic) (as_handle s)); [by eexists|discriminate Hm].
Qed.

Lemma peer_addr_found hs h a w w' :
  net_inv hs w → critical (peer_addr_body h) w = Done a w' → is_Some (socket_at w h).
Proof.
  intros (_&_&_&nic&Hd&_) (w1 & w2 & Hm & _ & -> & _)%critical_done.
  unfold peer_addr_body, socket_at in *.
  apply bind_done in Hm as (st & w3 & [= <- <-] & Hm). simpl in Hm. rewrite Hd in *. simpl in Hm.
  destruct (sockets_get (sockets nic) h); [by eexists|discriminate Hm].
Qed.

Lemma section_step_weaken hs hs' w w' :
  (∀ h, hs' h → hs h) → section_step hs w w' → section_step hs' w w'.
Proof. intros Hsub [? ?]. split; [by eapply net_inv_weaken|done]. Qed.

(** A critical section of another thread keeps the network up and every running task running. *)
Lemma section_ok {R} (m : M World R) hs a w w' :
  section_body R m → net_inv hs w → critical m w = Done a w' → section_step hs w w'.
Proof.
  intros Hm Hinv Hdone. destruct Hm as [s R f Hf| |s|h|ts|fuel].
  - set (hs' := add_handle hs (as_handle s)).
    assert (Hinv' : net_inv hs' w) by (apply net_inv_handle; [done|by eapply with_body_found]).
    eapply (wp_done false _ _ _ _ _ _ (with_section false hs' s f (λ _ _, True) w Hinv'
      (or_intror eq_refl) (λ sock nic w1 Hcs _, closure_ok s f hs' sock nic w1 Hf Hcs))) in Hdone.
    destruct Hdone as [Hs _]. eapply section_step_weaken, Hs. by left.
  - pose proof (wp_done _ _ _ _ _ _ _ (async_socket_new_section false hs w Hinv) Hdone) as [Hs _].
    eapply section_step_weaken, Hs. by left.
  - set (hs' := add_handle hs (as_handle s)).
    assert (Hinv' : net_inv hs' w) by (apply net_inv_handle; [done|by eapply accept_finish_found]).
    eapply (wp_done false _ _ _ _ _ _ (accept_finish_section false hs' s w Hinv'
      (or_intror eq_refl))) in Hdone.
    eapply section_step_weaken, Hdone. by left.
  - set (hs' := add_handle hs h).
    assert (Hinv' : net_inv hs' w) by (apply net_inv_handle; [done|by eapply peer_addr_found]).
    eapply (wp_done false _ _ _ _ _ _ (peer_addr_section false hs' h w Hinv'
      (or_intror eq_refl))) in Hdone.
    destruct Hdone as [Hs _]. eapply section_step_weaken, Hs. by left.
  - exact (wp_done _ _ _ _ _ _ _ (network_delay_section false hs ts w Hinv) Hdone).
  - exact (wp_done _ _ _ _ _ _ _ (nic_thread_section fuel false hs w
      (backlog_partial fuel) Hinv) Hdone).
Qed.

(** An action keeps the network up, and what is running, apart from the task that the acting
    thread itself has on its stack. *)
Lemma action_ok hs w w' :
  net_inv hs w → action w w' →
  net_inv hs w' ∧ (∀ t, current w ≠ Some t → running w t → running w' t) ∧
  (∀ t, is_Some (tasks w !! t) → is_Some (tasks w' !! t)).
Proof.
  intros Hinv Ha. destruct Ha as [R m a w w' Hm Hdone|t q tk w Hc Hq Htk
    |fuel t p w w1 w' Hc Hr Hrun Hret| | | |].
  - destruct (section_ok m hs a w w' Hm Hinv Hdone) as [Hinv' (_ & Hr & Ht)]. auto.
  - destruct (net_inv_start hs t q tk w Hinv Hq Htk) as [Hinv' Hr']. split; [done|]. split.
    2:{ intros t'. simpl. by rewrite lookup_alter_is_Some. }
    intros t' _ Hrt. destruct (decide (t' = t)) as [->|Hne]; [done|].
    unfold running in *.
    assert (phase_of (task_start t tk (set_QUEUE (λ _, q) w)) t' = phase_of w t') as ->; [|done].
    etrans; [exact (phase_of_set_header t t' (at_run (task_header tk)) w)|by rewrite decide_False].
  - pose proof (wp_done _ _ _ _ _ _ _ (network_run_section fuel false hs (TaskWaker t) w
      (backlog_partial fuel) Hinv) Hrun) as ([Hinv1 (_ & Hr1 & Ht1)] & -> & Hslot).
    pose proof (wp_done _ _ _ _ _ _ _ (wp_task_return false hs t w1 (λ _ _, False) Hinv1 Hslot
      (Hr1 t Hr)) Hret) as (Hinv' & _ & Hr' & Ht').
    split; [done|]. split; [|auto]. intros t' Hne Hrt. apply Hr'; [congruence|auto].
  - done.
  - done.
  - done.
  - done.
Qed.
(** Before the network is up no section does anything. *)
Lemma section_boot {R} (m : M World R) a w w' :
  section_body R m → boot_inv w → critical m w = Done a w' → boot_inv w'.
Proof.
  intros Hm (Hl & Hp & Hd & Ht & Hq) (w1 & w2 & Hdone & -> & -> & _)%critical_done.
  assert (Hend : w2 = set_NIC (λ n, mkNicMutex true (poisoned n) (data n)) w →
                 boot_inv (nic_unlock false w2)).
  { intros ->. split_and!; try done. simpl. by rewrite Hp. }
  destruct Hm; apply bind_done in Hdone as (st & w3 & [= <- <-] & Hdone);
    simpl in Hdone; destruct (data (NIC w)); try done; apply Hend; by injection Hdone.
Qed.

Lemma action_boot w w' : boot_inv w → action w w' → boot_inv w'.
Proof.
  intros Hb Ha. destruct Ha as [R m a w w' Hm Hdone|t q tk w Hc Hq Htk
    |fuel t p w w1 w' Hc Hr Hrun Hret| | | |]; try done.
  - by eapply section_boot.
  - destruct Hb as (_&_&_&_&Hq0). by rewrite Hq in Hq0.
  - destruct Hb as (_&_&_&Ht&_). unfold running, phase_of in Hr.
    rewrite Ht, lookup_empty in Hr. by destruct Hr.
Qed.
End Keeps.

(** ** Any number of them *)

Section Laws.
Context {laws : SmoltcpLaws smol}.

Lemma kernel_step_ok hs w w' :
  net_inv hs w → kernel_step w w' →
  net_inv hs w' ∧ current w' = current w ∧ (∀ t, running w t → running w' t) ∧
  tasks w' = tasks w.
Proof.
  intros Hinv Hk. destruct Hk as [k w|i nic w Hd]; [done|].
  destruct Hinv as (Hl & Hp & Hs & nic' & Hd' & Hh). rewrite Hd in Hd'. injection Hd' as <-.
  split; [|done]. rewrite Hd in Hs. split_and!; [done|done|done|].
  by exists (set_iface i nic).
Qed.

Lemma kernel_step_boot w w' : boot_inv w → kernel_step w w' → boot_inv w'.
Proof.
  intros Hb Hk. destruct Hk as [k w|i nic w Hd]; [done|].
  destruct Hb as (_&_&Hn&_). by rewrite Hd in Hn.
Qed.

Lemma other_step_ok hs w w' :
  net_inv hs w → other_step w w' →
  net_inv hs w' ∧ current w' = current w ∧
  (∀ t, current w = Some t → running w t → running w' t) ∧
  (∀ t, is_Some (tasks w !! t) → is_Some (tasks w' !! t)).
Proof.
  intros Hinv Hs. destruct Hs as [w w' Hk|envt tid c l w w' Hne Ha].
  { destruct (kernel_step_ok hs w w' Hinv Hk) as (? & ? & ? & ->). auto. }
  destruct (action_ok hs _ _ (Hinv : net_inv hs (seen_as tid c l w)) Ha) as (Hinv' & Hr & Ht').
  split; [done|]. split; [done|]. split; [|done]. intros t Ht Hrt. by apply Hr; [apply Hne|].
Qed.

Lemma other_steps_ok hs w w' :
  net_inv hs w → rtc other_step w w' →
  net_inv hs w' ∧ (∀ t, current w = Some t → running w t → running w' t) ∧
  (∀ t, is_Some (tasks w !! t) → is_Some (tasks w' !! t)).
Proof.
  intros Hinv Hs. induction Hs as [w|w1 w2 w3 H12 _ IH]; [done|].
  destruct (other_step_ok _ _ _ Hinv H12) as (Hinv2 & Hc2 & Hr2 & Ht2).
  destruct (IH Hinv2) as (Hinv3 & Hr3 & Ht3). split; [done|]. split; [|auto].
  intros t Ht Hr. apply Hr3; [congruence|by apply Hr2].
Qed.

Lemma other_steps_boot w w' : boot_inv w → rtc other_step w w' → boot_inv w'.
Proof.
  intros Hb Hs. induction Hs as [w|w1 w2 w3 H12 _ IH]; [done|]. apply IH.
  destruct H12 as [w w' Hk|envt tid c l w w' _ Ha]; [by eapply kernel_step_boot|].
  exact (action_boot _ _ (Hb : boot_inv (seen_as tid c l w)) Ha).
Qed.

(** Threads of the program keep the rules that a thread relies on. *)
Lemma others_laws (envt : Environment kern at_) : others_only envt → EnvLaws (envt := envt).
Proof.
  intros Ho. split.
  - intros p w Hb. by eapply other_steps_boot.
  - intros p hs w Hinv. by eapply other_steps_ok.
  - intros p hs w t Hinv Hc Hr. by eapply other_steps_ok.
  - intros p hs w t Hinv. by eapply other_steps_ok.
Qed.
End Laws.

(** ** What a call does *)

Section Calls.
Context {envt : Environment kern at_} {laws : SmoltcpLaws smol} {envl : EnvLaws}.
Variable fuel : nat.
Variable hs : SocketHandle → Prop.

(** A step of the thread itself or of its environment. *)
Definition own_or_others w w' : Prop := (∃ p, interfere p w = Done tt w') ∨ action w w'.

(** Between two tasks the thread goes from one good state to the next by such steps. *)
Definition walks w w' : Prop :=
  thread_inv hs w → thread_inv hs w' ∧ rtc own_or_others w w'.

#[local] Instance walks_preorder : PreOrder walks.
Proof.
  split.
  - by intros w.
  - intros w1 w2 w3 H12 H23 Hinv. destruct (H12 Hinv) as [Hinv2 Hs12].
    destruct (H23 Hinv2) as [Hinv3 Hs23]. split; [done|by etrans].
Qed.

Lemma walks_action w w' : action w w' → current w' = current w → walks w w'.
Proof.
  intros Ha Hc (Hinv & Hnone & t & Ht). destruct (action_ok hs w w' Hinv Ha) as (Hinv' & _ & Ht').
  split; [split_and!; [apply Hinv'..|congruence|exists t; auto]|]. apply rtc_once. by right.
Qed.

Lemma walks_env p w w' : interfere p w = Done tt w' → walks w w'.
Proof.
  intros Hp Hinv. split; [|apply rtc_once; left; by exists p].
  exact (wp_done _ _ _ _ _ _ _
    (wp_thread_inv false _ hs w _ Hinv (wp_interfere false hs p w (λ _ _, False) (proj1 Hinv))) Hp).
Qed.

#[local] Instance walks_interfere p : Moves walks (interfere p).
Proof. intros w [] w'. apply walks_env. Qed.

#[local] Instance walks_syscall c : Moves walks (syscall c).
Proof.
  intros w [] w' ([] & w1 & [= <-] & H2)%bind_done. etrans; [|by eapply walks_env].
  apply walks_action; [apply act_call|done].
Qed.

#[local] Instance walks_instant_now : Moves walks instant_now.
Proof.
  intros w a w'. unfold instant_now. pose proof (act_clock w) as Hs.
  destruct (clock_now (kernel w)). intros [= _ <-]. by apply walks_action.
Qed.

#[local] Instance walks_current_thread_notify : Moves walks current_thread_notify.
Proof.
  intros w a w'. unfold current_thread_notify.
  destruct (notifies w !! self w) eqn:Hn; intros [= _ <-]; [done|].
  apply walks_action; [by apply act_notify_new|done].
Qed.

#[local] Instance walks_unparked_swap tid b : Moves walks (unparked_swap tid b).
Proof.
  apply moves_bind; [apply _|]. intros _ w a w'. unfold prim.
  destruct (notifies w !! tid) eqn:Hn; intros [= _ <-]; [|done].
  apply walks_action; [by apply act_flag|done].
Qed.

#[local] Instance walks_unparked_store tid b : Moves walks (unparked_store tid b).
Proof.
  apply moves_bind; [apply _|]. intros _ w a w' [= _ <-].
  destruct (notifies w !! tid) as [tn|] eqn:Hn.
  - replace (set_notifies _ w) with
      (set_notifies (insert tid (mkThreadNotify (tn_thread tn) b)) w).
    { apply walks_action; [by apply act_flag|done]. }
    unfold set_notifies. f_equal. apply map_eq. intros i.
    destruct (decide (i = tid)) as [->|Hne].
    + by rewrite lookup_insert_eq, lookup_alter_eq, Hn.
    + by rewrite lookup_insert_ne, lookup_alter_ne.
  - replace (set_notifies _ w) with w; [done|]. destruct w. unfold set_notifies; simpl in *.
    f_equal. apply map_eq. intros i. destruct (decide (i = tid)) as [->|Hne].
    + by rewrite lookup_alter_eq, Hn.
    + by rewrite lookup_alter_ne.
Qed.

(** A guard scope is a wait and one action. *)
Lemma walks_section {R} (m : M World R) : section_body R m → Moves walks (with_guard m).
Proof.
  intros Hm w a w' Hdone. rewrite with_guard_unfold in Hdone.
  apply bind_done in Hdone as ([] & w1 & H1 & Hdone). etrans; [by eapply walks_env|].
  intros Hinv. destruct (section_ok m hs a w1 w' Hm (proj1 Hinv) Hdone) as [_ [Hc _]].
  apply walks_action; [by eapply act_section|done|done].
Qed.

(** A task is taken off the queue, waits for the lock, and is polled to its end. *)
Lemma walks_run_task t q w w' :
  thread_inv hs w → QUEUE w = t :: q →
  runnable_run fuel t (set_QUEUE (λ _, q) w) = Done tt w' → rtc own_or_others w w'.
Proof.
  intros (Hinv & Hc & _) Hq Hrun.
  destruct (proj2 (proj1 (proj2 (proj2 Hinv))) t) as [tk Htk]; [rewrite Hq; apply list_elem_of_here|].
  destruct (net_inv_start hs t q tk w Hinv Hq Htk) as [Hinv1 Hr1].
  unfold runnable_run in Hrun. apply bind_done in Hrun as (otk & w1 & [= <- <-] & Hrun).
  change (tasks (set_QUEUE _ w)) with (tasks w) in Hrun. rewrite Htk in Hrun.
  apply bind_done in Hrun as ([] & w1 & [= <-] & Hrun).
  apply bind_done in Hrun as (p & w2 & Hpoll & Hret).
  destruct (task_future tk). simpl in Hpoll. unfold network_run_poll in Hpoll.
  rewrite with_guard_unfold in Hpoll. apply bind_done in Hpoll as ([] & w3 & Hint & Hpoll).
  pose proof (wp_done _ _ _ _ _ _ _ (wp_interfere false hs AtLock _ (λ _ _, False) Hinv1) Hint)
    as (_ & Hc3 & Hr3 & _).
  eapply rtc_l; [right; by apply act_start|].
  eapply rtc_l; [left; by exists AtLock|].
  apply rtc_once. right. eapply (act_finish fuel t p); [done| |done|done].
  by apply Hr3.
Qed.

#[local] Instance walks_run_executor : Moves walks (run_executor fuel).
Proof.
  apply moves_loop. intros [] w r w' Hround Hinv.
  apply bind_done in Hround as (o & w2 & Hpop & Hround).
  apply bind_done in Hpop as ([] & w1 & Hint & Hpop). unfold prim in Hpop.
  destruct (walks_env _ _ _ Hint Hinv) as [Hinv1 Hs1].
  destruct (QUEUE w1) as [|t q] eqn:Hq; injection Hpop as <- <-; [by injection Hround as <- <-|].
  apply bind_done in Hround as ([] & w3 & Hrun & [= <- <-]). split.
  - exact (wp_done _ _ _ _ _ _ _ (wp_runnable_run fuel false hs t q w1 (backlog_partial fuel)
      Hinv1 Hq) Hrun).
  - etrans; [exact Hs1|]. by eapply walks_run_task.
Qed.

(** ** The polls of the futures and the blocking calls *)

#[local] Instance walks_with {R} s (f : TcpSocket → M World (R * TcpSocket)) :
  closure s R f → Moves walks (with_ s f).
Proof. intros Hf. by apply walks_section, body_with. Qed.

#[local] Hint Constructors closure section_body : core.

#[local] Instance walks_network_delay ts : Moves walks (network_delay ts).
Proof. by apply walks_section. Qed.

Definition walks_fut {T} (f : Fut T) : Prop := ∀ st cx, Moves walks (fut_poll f st cx).

(** Walks through a computation whose critical sections are actions. *)
Ltac walk :=
  repeat (match goal with
          | |- Moves _ (with_ _ _) => apply walks_with; by auto
          | |- Moves _ (with_guard _) => apply walks_section; by auto
          | |- Moves _ (_ ≫= _) => apply moves_bind; [|intros]
          | |- Moves _ (loop _ _ _) => apply moves_loop; intros
          | |- Moves _ (match ?x with _ => _ end) => destruct x
          | |- _ => assumption || apply _
          end; cbv zeta).

Lemma connect_walks s ip port : walks_fut (connect s ip port).
Proof. intros [] cx; simpl; unfold connect_wait; walk. Qed.

Lemma accept_walks s port : walks_fut (accept s port).
Proof. intros [] cx; simpl; unfold accept_wait, accept_finish; walk. Qed.

Lemma read_walks s buffer : walks_fut (read s buffer).
Proof. intros [] cx; simpl; walk. Qed.

Lemma write_walks s buffer : walks_fut (write s buffer).
Proof. intros [] cx; simpl; walk. Qed.

Lemma close_walks s : walks_fut (close s).
Proof. intros [] cx; simpl; unfold close_wait; walk. Qed.

Lemma timed_out_walks start timeout : Moves walks (timed_out start timeout).
Proof. unfold timed_out. walk. Qed.

Lemma poll_on_walks {T} (f : Fut T) timeout : walks_fut f → Moves walks (poll_on fuel f timeout).
Proof.
  intros Hf. pose proof timed_out_walks. unfold poll_on, poll_on_round, walks_fut in *. walk.
Qed.

Lemma block_on_walks {T} (f : Fut T) timeout :
  walks_fut f → Moves walks (block_on fuel f timeout).
Proof.
  intros Hf. pose proof timed_out_walks.
  unfold block_on, block_on_round, idle, walks_fut in *. walk.
Qed.

Lemma call_walks m : call fuel hs m → Moves walks m.
Proof.
  destruct 1; unfold sys_tcp_stream_connect, sys_tcp_listener_accept,
    sys_tcp_stream_read, sys_tcp_stream_write, sys_tcp_stream_shutdown, sys_tcp_stream_close,
    sys_tcp_stream_peer_addr, nic_thread_round, async_socket_new.
  - pose proof (λ s, block_on_walks _ (option_map from_millis timeout) (connect_walks s ip port)).
    walk.
  - pose proof (λ s, block_on_walks _ None (accept_walks s port)). walk.
  - pose proof (poll_on_walks _ None (read_walks (mkAsyncSocket h) buffer)). walk.
  - pose proof (poll_on_walks _ None (write_walks (mkAsyncSocket h) buffer)). walk.
  - pose proof (block_on_walks _ None (close_walks (mkAsyncSocket h))). walk.
  - pose proof (block_on_walks _ None (close_walks (mkAsyncSocket h))). walk.
  - walk.
  - walk.
Qed.
End Calls.

(** ** All threads together *)

Section Interleaving.
Context {laws : SmoltcpLaws smol}.

(** The threads of the program with the task each has on its stack. *)
Definition Stacks : Type := gmap Tid (option TaskId).

(** One step of the program: the kernel acts, a thread starts, or one of the threads does one of
    its actions. *)
Inductive program_step : World * Stacks → World * Stacks → Prop :=
| program_kernel w w' L : kernel_step w w' → program_step (w, L) (w', L)
| program_thread tid w L : L !! tid = None → program_step (w, L) (w, <[tid := None]> L)
| program_action (envt : Environment kern at_) tid c l w w' L :
    L !! tid = Some c →
    action (envt := envt) (seen_as tid c l w) w' →
    program_step (w, L) (w', <[tid := current w']> L).

(** Every task on a stack runs, and it is on one stack only. *)
Definition stacks_ok w (L : Stacks) : Prop :=
  (∀ tid t, L !! tid = Some (Some t) → running w t) ∧
  (∀ tid tid' t, L !! tid = Some (Some t) → L !! tid' = Some (Some t) → tid = tid').

Definition program_inv hs (x : World * Stacks) : Prop := net_inv hs x.1 ∧ stacks_ok x.1 x.2.

Section Step.
Context {envt : Environment kern at_}.

(** What an action leaves on the stack of its thread: what was there, nothing, or a task that
    was in the queue. *)
Lemma action_stack hs w w' :
  net_inv hs w → action w w' →
  current w' = current w ∧ (∀ t, running w t → running w' t) ∨ current w' = None ∨
  ∃ t, current w' = Some t ∧ ¬ running w t ∧ running w' t.
Proof.
  intros Hinv Ha. destruct Ha as [R m a w w' Hm Hdone|t q tk w Hc Hq Htk
    |fuel t p w w1 w' Hc Hr Hrun Hret| | | |]; try (by left).
  - left. by destruct (section_ok m hs a w w' Hm Hinv Hdone) as [_ (? & ? & _)].
  - right; right. exists t. split; [done|].
    split; [|exact (proj2 (net_inv_start hs t q tk w Hinv Hq Htk))].
    destruct Hinv as (_&_&Hs&_). destruct (popped_phase _ _ _ _ Hs Hq) as [Hph _].
    unfold running. rewrite Hph. by intros [].
  - right; left.
    pose proof (wp_done _ _ _ _ _ _ _ (network_run_section fuel false hs (TaskWaker t) w
      (backlog_partial fuel) Hinv) Hrun) as ([Hinv1 (_ & Hr1 & _)] & -> & Hslot).
    by destruct (wp_done _ _ _ _ _ _ _ (wp_task_return false hs t w1 (λ _ _, False) Hinv1 Hslot
      (Hr1 t Hr)) Hret) as (_ & ? & _).
Qed.
End Step.

Lemma program_step_inv hs x x' : program_inv hs x → program_step x x' → program_inv hs x'.
Proof.
  intros [Hinv [Hrun Huniq]] Hs.
  destruct Hs as [w w' L Hk|tid w L Hnew|envt tid c l w w' L HL Ha]; simpl in *.
  - destruct (kernel_step_ok hs w w' Hinv Hk) as (Hinv' & _ & Hr & _). split; [done|].
    split; [|done]. intros tid t HL. by eapply Hr, Hrun.
  - split; [done|]. split; simpl.
    + intros tid' t [[_ ?]|[_ H]]%lookup_insert_Some; [done|by eapply Hrun].
    + intros tid1 tid2 t [[_ ?]|[_ H1]]%lookup_insert_Some [[_ ?]|[_ H2]]%lookup_insert_Some;
        [done..|by eapply Huniq].
  - change (net_inv hs (seen_as tid c l w)) in Hinv.
    destruct (action_ok hs _ _ Hinv Ha) as (Hinv' & Hkeep & _).
    assert (Hothers : ∀ tid' t, tid ≠ tid' → L !! tid' = Some (Some t) → running w' t).
    { intros tid' t Hne HLt. apply Hkeep; [|exact (Hrun _ _ HLt)]. simpl. intros ->.
      by apply Hne, (Huniq tid tid' t). }
    assert (Hown : ∀ t, current w' = Some t → running w' t ∧
              ∀ tid', tid ≠ tid' → L !! tid' ≠ Some (Some t)).
    { intros t Ht. destruct (action_stack hs _ _ Hinv Ha) as [[Hc Hg]|[Hc|(t' & Ht' & Hnr & Hr)]].
      - simpl in Hc. rewrite Ht in Hc. subst c. split; [by apply Hg, (Hrun tid)|].
        intros tid' Hne HL'. by apply Hne, (Huniq tid tid' t).
      - congruence.
      - assert (t' = t) as -> by congruence. split; [done|].
        intros tid' _ HL'. apply Hnr. exact (Hrun _ _ HL'). }
    split; [done|]. split; simpl.
    + intros tid' t [[_ Ht]|[Hne H]]%lookup_insert_Some; [by apply Hown|by apply (Hothers tid')].
    + intros tid1 tid2 t [[<- H1]|[Hne1 H1]]%lookup_insert_Some
        [[<- H2]|[Hne2 H2]]%lookup_insert_Some; [done| | |by eapply Huniq].
      * by destruct (proj2 (Hown t H1) tid2).
      * by destruct (proj2 (Hown t H2) tid1).
Qed.

Lemma program_steps_inv hs x x' : program_inv hs x → rtc program_step x x' → program_inv hs x'.
Proof.
  intros Hp Hs. induction Hs as [x|x1 x2 x3 H12 _ IH]; [done|].
  apply IH. by eapply program_step_inv.
Qed.
Lemma program_steps_tasks hs x x' :
  program_inv hs x → rtc program_step x x' →
  ∀ t, is_Some (tasks x.1 !! t) → is_Some (tasks x'.1 !! t).
Proof.
  intros Hp Hs. induction Hs as [x|x1 x2 x3 H12 _ IH]; [done|]. intros t Ht.
  apply (IH (program_step_inv _ _ _ Hp H12)). destruct Hp as [Hinv _].
  destruct H12 as [w w' L Hk|tid w L Hnew|envt tid c l w w' L HL Ha]; simpl in *.
  - destruct (kernel_step_ok hs w w' Hinv Hk) as (_ & _ & _ & ->). done.
  - done.
  - change (net_inv hs (seen_as tid c l w)) in Hinv. by apply (action_ok hs _ _ Hinv Ha).
Qed.
End Interleaving.
End Others.

(** ** Properties *)

Section Properties.
Context {smol : Smoltcp} {kern : Kernel smol} {at_ : AsyncTask} {atl : AsyncTaskLaws at_}
        {laws : SmoltcpLaws smol}.
Implicit Types (w : World) (hs : SocketHandle → Prop).


(** C3: What the threads promise each other is what they do: a call that returns is a sequence of
    steps of its environment and of actions of the thread, and each action is one that every
    other thread expects, as long as the two do not have the same task on their stacks. *)
Theorem calls_are_actions (envt : Environment kern at_) fuel hs hs' m w w' :
  others_only envt → thread_inv hs w → call fuel hs m → m w = Done hs' w' →
  rtc own_or_others w w' ∧
  ∀ w1 w2 tid c l, action w1 w2 → (∀ t, c = Some t → current w1 ≠ Some t) →
    other_step (seen_as tid c l w1) (seen_as tid c l w2).
Proof.
  intros Ho Hinv Hm Hdone. pose proof (others_laws envt Ho) as envl. split.
  - by apply (call_walks fuel hs m Hm w hs' w' Hdone).
  - intros w1 w2 tid c l Ha Hne.
    apply (other_action envt (self w1) (current w1) (klog w1) (seen_as tid c l w1)).
    + intros t Ht. by apply Hne.
    + by destruct w1.
Qed.

(** C5: However the actions of the threads are interleaved, and whatever the kernel does in
    between, no task is ever polled by two threads at once, the task that a thread polls is
    marked as running, and the network stays up with its task kept: each task there is stays, and
    is queued exactly once, or running, or asleep with its waker in the slot. *)
Theorem task_polled_once hs w w' (L : Stacks) :
  net_inv hs w → alive w → rtc program_step (w, ∅) (w', L) →
  net_inv hs w' ∧ no_task_lost w' ∧ (∀ t, is_Some (tasks w !! t) → is_Some (tasks w' !! t)) ∧
  (∀ tid t, L !! tid = Some (Some t) → running w' t) ∧
  (∀ tid tid' t, L !! tid = Some (Some t) → L !! tid' = Some (Some t) → tid = tid').
Proof.
  intros Hinv [t Ht] Hs.
  assert (Hp : program_inv hs (w, ∅)).
  { split; [done|]. split; simpl.
    - intros tid t' H. discriminate H.
    - intros tid tid' t' H. discriminate H. }
  destruct (program_steps_inv hs _ _ Hp Hs) as [Hinv' HL].
  pose proof (program_steps_tasks hs _ _ Hp Hs) as Hkeep. split; [exact Hinv'|].
  split; [|split; [exact Hkeep|exact HL]].
  apply (net_inv_no_task_lost hs); [exact Hinv'|]. exists t. by apply Hkeep.
Qed.
End Properties.

(** ** Witnesses *)

(** Packets arrive by themselves. *)
Lemma sim_busy_only : others_only sim_busy.
Proof.
  intros p w. unfold env, sim_busy. destruct p; try done.
  destruct (data (NIC w)) as [| |nic] eqn:Hd; [done..|].
  apply rtc_once, other_kernel. by apply (kernel_device _ nic).
Defined.

(** A second thread of the concrete instance: whenever the first one lets it, it polls the
    interface. *)
Definition sim_threads : Environment sim_kernel sim_task := λ _ w,
  match critical (nic_thread_body (envt := sim_quiet) 10) (seen_as 7%Z None [] w) with
  | Done _ w' => seen_as (self w) (current w) (klog w) w'
  | _ => w
  end.

Lemma sim_threads_only : others_only sim_threads.
Proof.
  intros p w. unfold env, sim_threads.
  destruct (critical _ _) as [[] w'| | |] eqn:Hrun; [|done..].
  apply rtc_once, (other_action sim_quiet 7%Z None []); [done|].
  by eapply act_section, Hrun; constructor.
Defined.



Definition sim_conn_handles : nat → Prop := λ h, is_Some (({[0 := sim_conn]} : gmap nat SimTcp) !! h).

Definition sim_read_call : M (World (at_ := sim_task) (kern := sim_kernel)) (nat → Prop) :=
  _ ← sys_tcp_stream_read (envt := sim_threads) 10 0 [0; 0; 0]%Z; mret sim_conn_handles.

Lemma calls_are_actions_witness :
  let w := sim_ready {[0 := sim_conn]} in
  let w' := final w (sim_read_call w) in
  sim_read_call w = Done sim_conn_handles w' ∧
  rtc (own_or_others (envt := sim_threads)) w w'.
Proof.
  intros w w'.
  assert (Hi : thread_inv (at_ := sim_task) sim_conn_handles w) by by apply sim_ready_thread_inv.
  assert (Hrun : sim_read_call w = Done sim_conn_handles w')
    by (apply run_returns; vm_compute; reflexivity).
  split; [exact Hrun|].
  apply (calls_are_actions sim_threads 10 sim_conn_handles sim_conn_handles sim_read_call w w'
    sim_threads_only Hi).
  - apply (call_read (envt := sim_threads) 10 sim_conn_handles 0 [0; 0; 0]%Z). by exists sim_conn.
  - exact Hrun.
Defined.

(** Two threads start; the first takes the network task off the queue. *)
Definition sim_stacks : Stacks := <[5%Z := Some 0]> (<[7%Z := None]> (<[5%Z := None]> ∅)).

Definition sim_polling : World :=
  task_start 0 (mkTask at_spawned NetworkRun) (set_QUEUE (λ _, []) (seen_as 5%Z None [] sim_up)).

Lemma task_polled_once_witness :
  sim_stacks !! 5%Z = Some (Some 0) ∧ sim_stacks !! 7%Z = Some None ∧ running sim_polling 0 ∧
  no_task_lost sim_polling.
Proof.
  pose proof (session_thread_inv _ _ _ _ _ _ _ sim_up_session) as (Hi & _ & Ha).
  assert (Hs : rtc program_step (sim_up, ∅) (sim_polling, sim_stacks)).
  { eapply rtc_l; [exact (program_thread 5%Z sim_up ∅ eq_refl)|].
    eapply rtc_l; [exact (program_thread 7%Z sim_up (<[5%Z := None]> ∅) eq_refl)|].
    apply rtc_once.
    apply (program_action sim_quiet 5%Z None [] sim_up sim_polling (<[7%Z := None]> (<[5%Z := None]> ∅)));
      [vm_compute; reflexivity|].
    apply (act_start (envt := sim_quiet) 0 [] (mkTask at_spawned NetworkRun)
      (seen_as 5%Z None [] sim_up)); [done|vm_compute; reflexivity|vm_compute; reflexivity]. }
  split; [reflexivity|]. split; [reflexivity|].
  destruct (task_polled_once no_handles sim_up sim_polling sim_stacks Hi Ha Hs)
    as (_ & Hk & _ & Hr & _).
  split; [by apply (Hr 5%Z)|exact Hk].
Defined.
