(* ===== verification/Ports.v ===== *)
(** * The local ports of connections ([hermit-sys/src/net/mod.rs], lines 195-205)

    [connect] takes the local port of a connection from [LOCAL_ENDPOINT], which all threads
    share.  Over the steps of the whole program, as Others has them, only the first access of
    [connect] moves that counter; hence which connections can get the same port. *)

From S2P Require Import Prelude Extern WakerReg State Sim Invariant Nic Executor Socket Moves Syscalls Others.
From stdpp Require Import relations.

(** [TcpSocket::local_endpoint]: a socket that connects uses the port it was given. *)
Class LocalPorts (smol : Smoltcp) : Type := {
  local_port : TcpSocket → Z;
  connect_local_port sock peer port sock' ws :
    tcp_connect sock peer port = (Ok tt, sock', ws) → local_port sock' = port;
}.

Section Ports.
Context {smol : Smoltcp} {kern : Kernel smol} {at_ : AsyncTask} {atl : AsyncTaskLaws at_}.
Implicit Types (w : World) (s : AsyncSocket).

(** ** Who moves the counter *)

Section Counter.
Context {envt : Environment kern at_}.

(** Under the lock the counter stays. *)
Definition same_port : relation World := λ w w',
  locked (NIC w) = true → locked (NIC w') = true ∧ LOCAL_ENDPOINT w' = LOCAL_ENDPOINT w.

#[export] Instance same_port_steps : Steps same_port.
Proof.
  split.
  - split; [by intros w|]. intros w1 w2 w3 H12 H23 Hl. destruct (H12 Hl) as [Hl2 E2].
    destruct (H23 Hl2) as [Hl3 E3]. split; congruence.
  - intros w w' (_ & _ & _ & _ & Hl & He) Hw. split; congruence.
  - done.
  - intros p w w' _ [= <-] Hl. by rewrite Hl.
  - done.
  - done.
  - intros w w' Hl _ Hl'. congruence.
Qed.

(** What is done in a critical section and keeps the counter. *)
Lemma critical_port {A} (m : M World A) a w w' :
  Moves same_port m → critical m w = Done a w' → LOCAL_ENDPOINT w' = LOCAL_ENDPOINT w.
Proof. intros Hm (w1 & w2 & H & -> & -> & _)%critical_done. by apply (Hm _ _ _ H). Qed.

Lemma with_body_port {R} s (f : TcpSocket → M World (R * TcpSocket)) :
  (∀ sock, Moves same_port (f sock)) → Moves same_port (with_body s f).
Proof. intros Hf. unfold with_body. moves_run. Qed.

(** The first access of [connect]. *)
Definition connects s address port (r : result unit SmolError) w w' : Prop :=
  critical (with_body s (connect_op address port)) w = Done r w'.

Lemma section_port {R} (m : M World R) a w w' :
  section_body R m → critical m w = Done a w' →
  LOCAL_ENDPOINT w' = LOCAL_ENDPOINT w ∨ ∃ s address port r, connects s address port r w w'.
Proof.
  intros Hm Hdone. destruct Hm as [s R f Hf| |s|h|ts|fuel];
    [destruct Hf; [right; by exists s, address, port, a|..]|..];
    left; (eapply critical_port; [|exact Hdone]);
    try (apply with_body_port; intros sock);
    unfold connect_check, listen_op, accept_check, read_check, write_check, flush_check, closed_check,
      async_socket_new_body, accept_finish_body, peer_addr_body, network_delay_body, nic_thread_body,
      ready, pend_send, pend_recv; moves_run.
Qed.

Lemma action_port w w' :
  action w w' →
  LOCAL_ENDPOINT w' = LOCAL_ENDPOINT w ∨ ∃ s address port r, connects s address port r w w'.
Proof.
  intros Ha. destruct Ha as [R m a w w' Hm Hdone|t q tk w Hc Hq Htk
    |fuel t p w w1 w' Hc Hr Hrun Hret| | | |]; try (by left); [by eapply section_port|].
  left. apply critical_port in Hrun; [|unfold network_run_body; moves_run].
  rewrite <- Hrun. unfold task_return in Hret.
  apply bind_done in Hret as (otk & w2 & [= <- <-] & Hret).
  apply bind_done in Hret as ([] & w2 & [= <-] & Hret).
  destruct (tasks w1 !! t) as [tk|]; [|by injection Hret as <-].
  destruct (at_ran _ _) as [h []]; apply bind_done in Hret as ([] & w3 & [= <-] & Hret);
    by injection Hret as <-.
Qed.

Context {ports : LocalPorts smol} {laws : SmoltcpLaws smol}.

(** An attempt to connect takes the counter on by one; if it is accepted, the socket has the
    port that the counter showed. *)
Lemma connects_port s address port r w w' :
  connects s address port r w w' →
  LOCAL_ENDPOINT w' = wrap 16 (LOCAL_ENDPOINT w + 1) ∧
  (r = Ok tt → ∃ sock, socket_at w' (as_handle s) = Some sock ∧
     local_port sock = LOCAL_ENDPOINT w).
Proof.
  unfold connects. intros (w1 & w2 & H & -> & -> & Hl)%critical_done. unfold with_body in H.
  apply bind_done in H as (st & w3 & [= <- <-] & H). simpl in H.
  apply bind_done in H as (nic & w3 & Hnic & H). apply bind_done in H as (sock & w4 & Hsock & H).
  assert (w3 = set_NIC (λ n, mkNicMutex true (poisoned n) (data n)) w) as ->.
  { destruct (as_nic_mut (data (NIC w))); simpl in Hnic; [by injection Hnic|done]. }
  destruct (sockets_get (sockets nic) (as_handle s)) as [sock0|] eqn:Hget; [|done].
  injection Hsock as -> <-. set (w1 := set_NIC _ w) in *.
  apply bind_done in H as ([res sock'] & w5 & Hop & H). unfold connect_op in Hop.
  apply bind_done in Hop as (local & w6 & [= <- <-] & Hop).
  change (LOCAL_ENDPOINT w1) with (LOCAL_ENDPOINT w) in Hop.
  destruct (tcp_connect sock (address, port) (LOCAL_ENDPOINT w)) as [[r1 s1] ws] eqn:Hconn.
  assert (res = r1 ∧ sock' = s1) as [-> ->].
  { unfold sock_op in Hop. by apply bind_done in Hop as (_ & ? & _ & [= <- <- _]). }
  set (w6 := set_LOCAL_ENDPOINT _ w1) in *.
  assert (Hl6 : locked (NIC w6) = true) by done.
  destruct ((_ : Moves same_port (sock_op _)) _ _ _ Hop Hl6) as [Hl5 He5].
  apply bind_done in H as (nic2 & w7 & Hwake & H). apply bind_done in H as ([] & w8 & [= <-] & [= <- <-]).
  destruct ((_ : Moves same_port (nic_wake _)) _ _ _ Hwake Hl5) as [Hl7 He7].
  split; [simpl; by rewrite He7, He5|]. intros ->. exists s1. split.
  - unfold nic_wake in Hwake. apply bind_done in Hwake as (wr & w8 & _ & [= <- _]).
    unfold socket_at; simpl. by eapply sockets_get_put.
  - by apply (connect_local_port sock (address, port) _ _ ws).
Qed.
End Counter.

(** ** Runs of the whole program *)

Context {ports : LocalPorts smol} {laws : SmoltcpLaws smol}.

(** The port of the socket that an accepted attempt leaves. *)
Definition port_of s (r : result unit SmolError) w : list Z :=
  match r, socket_at w (as_handle s) with
  | Ok _, Some sock => [local_port sock]
  | _, _ => []
  end.

(** A run with [n] attempts to connect, by any threads, and the ports of those accepted, in
    order; in between the threads and the kernel do what they do. *)
Inductive connect_run : nat → list Z → World → World → Prop :=
| run_done w : connect_run 0 [] w w
| run_attempt (envt : Environment kern at_) tid c l s address port r n ps w w1 w2 :
    connects s address port r (seen_as tid c l w) w1 →
    connect_run n ps (seen_as (self w) (current w) (klog w) w1) w2 →
    connect_run (S n) (port_of s r w1 ++ ps) w w2
| run_other n ps w w1 w2 :
    other_step w w1 → LOCAL_ENDPOINT w1 = LOCAL_ENDPOINT w →
    connect_run n ps w1 w2 → connect_run n ps w w2.

Lemma port_of_connects {envt : Environment kern at_} s address port r w w' :
  connects s address port r w w' →
  port_of s r w' = match r with Ok _ => [LOCAL_ENDPOINT w] | Err _ => [] end.
Proof.
  intros H%connects_port. destruct H as [_ H]. unfold port_of. destruct r as [[]|]; [|done].
  destruct (H eq_refl) as (sock & -> & Hp). by rewrite Hp.
Qed.

Lemma wrap_inj_nat a i j n :
  i < n → j < n → (Z.of_nat n ≤ 2 ^ 16)%Z →
  wrap 16 (a + Z.of_nat i) = wrap 16 (a + Z.of_nat j) → i = j.
Proof.
  unfold wrap. intros Hi Hj Hn Heq. change (2 ^ 16)%Z with 65536%Z in *. apply Nat2Z.inj.
  pose proof (Z.div_mod (a + Z.of_nat i) 65536). pose proof (Z.div_mod (a + Z.of_nat j) 65536). lia.
Qed.

Lemma wrap_wrap_add n a b : wrap n (wrap n a + b) = wrap n (a + b).
Proof. unfold wrap. by rewrite Zplus_mod_idemp_l. Qed.

(** The counter after a run, and the numbers among which its ports are. *)
Lemma connect_run_ports n ps w w' :
  connect_run n ps w w' → in_width 16 (LOCAL_ENDPOINT w) →
  LOCAL_ENDPOINT w' = wrap 16 (LOCAL_ENDPOINT w + Z.of_nat n) ∧
  ∃ js, ps = (λ i, wrap 16 (LOCAL_ENDPOINT w + Z.of_nat i)) <$> js ∧ NoDup js ∧
    Forall (λ i, i < n) js.
Proof.
  induction 1 as [w|envt tid c l s address port r n ps w w1 w2 Hc _ IH|n ps w w1 w2 _ He _ IH];
    intros Hw.
  - split; [by rewrite Z.add_0_r, wrap_small|]. exists []. split_and!; constructor.
  - pose proof (connects_port _ _ _ _ _ _ Hc) as [He _]. simpl in He, IH.
    destruct IH as (IHe & js & -> & Hnd & Hall); [rewrite He; apply wrap_in_width; lia|].
    split; [rewrite IHe, He, wrap_wrap_add; f_equal; lia|].
    rewrite (port_of_connects _ _ _ _ _ _ Hc). simpl.
    assert (Hshift : (λ i, wrap 16 (LOCAL_ENDPOINT w1 + Z.of_nat i)) <$> js =
      (λ i, wrap 16 (LOCAL_ENDPOINT w + Z.of_nat i)) <$> (S <$> js)).
    { rewrite <- list_fmap_compose. apply list_fmap_ext. intros _ i _. unfold compose.
      rewrite He, wrap_wrap_add. f_equal. lia. }
    assert (Hall' : Forall (λ i, i < S n) (S <$> js)).
    { apply Forall_fmap. eapply Forall_impl; [exact Hall|]. unfold compose. intros; lia. }
    assert (Hnd' : NoDup (S <$> js)) by (apply NoDup_fmap_2; [apply _|done]).
    rewrite Hshift. destruct r as [u|e]; [exists (0 :: (S <$> js))|exists (S <$> js)]; [|done].
    split_and!; [simpl; by rewrite Z.add_0_r, wrap_small| |constructor; [lia|done]].
    constructor; [|done]. by intros (i & ? & _)%list_elem_of_fmap.
  - rewrite He in IH. by apply IH.
Qed.

(** Every run of the program is such a run. *)
Lemma other_steps_connect_run w w' :
  rtc other_step w w' → ∃ n ps, connect_run n ps w w'.
Proof.
  induction 1 as [w|w1 w2 w3 H12 _ (n & ps & IH)]; [exists 0, []; constructor|].
  assert (LOCAL_ENDPOINT w2 = LOCAL_ENDPOINT w1 ∨
    ∃ (envt : Environment kern at_) tid c l s address port r w4,
      connects s address port r (seen_as tid c l w1) w4 ∧
      w2 = seen_as (self w1) (current w1) (klog w1) w4)
    as [He|(envt & tid & c & l & s & address & port & r & w4 & Hc & ->)].
  { destruct H12 as [w w' Hk|envt tid c l w w' _ Ha]; [left; by destruct Hk|].
    destruct (action_port _ _ Ha) as [He|(s & address & port & r & Hc)]; [by left|right].
    by exists envt, tid, c, l, s, address, port, r, w'. }
  - exists n, ps. by eapply run_other.
  - exists (S n), (port_of s r w4 ++ ps). by eapply run_attempt.
Qed.

(** C31: The local ports of connections: in every run of the program - any threads, any
    interleaving - with at most 2^16 attempts to connect, the accepted ones get pairwise
    different ports, all of them 16-bit numbers; refused attempts use numbers up, nothing else
    does.  But an attempt that comes 2^16 after another one gets the same port again. *)
Theorem connections_get_distinct_ports w w' :
  in_width 16 (LOCAL_ENDPOINT w) →
  (rtc other_step w w' → ∃ n ps, connect_run n ps w w') ∧
  (∀ n ps, connect_run n ps w w' → (Z.of_nat n ≤ 2 ^ 16)%Z → NoDup ps ∧ Forall (in_width 16) ps) ∧
  (∀ n ps (envt envt' : Environment kern at_) s s' a a' p p' w0 w1,
    connects (envt := envt) s a p (Ok tt) w0 w →
    connect_run n ps w w' → connects (envt := envt') s' a' p' (Ok tt) w' w1 →
    in_width 16 (LOCAL_ENDPOINT w0) → Z.of_nat n = (2 ^ 16 - 1)%Z →
    port_of s' (Ok tt) w1 = port_of s (Ok tt) w).
Proof.
  intros Hw. split_and!; [apply other_steps_connect_run|..].
  - intros n ps Hrun Hn. destruct (connect_run_ports _ _ _ _ Hrun Hw) as (_ & js & -> & Hnd & Hall).
    split; [|apply Forall_fmap, Forall_true; intros; by apply wrap_in_width].
    apply NoDup_fmap_2_strong; [|done]. intros i j Hi Hj Heq.
    rewrite Forall_forall in Hall. apply Hall in Hi, Hj. by eapply wrap_inj_nat.
  - intros n ps envt envt' s s' a a' p p' w0 w1 Hc Hrun Hc' Hw0 Hn.
    destruct (connect_run_ports _ _ _ _ Hrun Hw) as [He _].
    pose proof (connects_port _ _ _ _ _ _ Hc) as [He0 _].
    rewrite (port_of_connects _ _ _ _ _ _ Hc), (port_of_connects _ _ _ _ _ _ Hc'). f_equal.
    rewrite He, He0, wrap_wrap_add, Hn. unfold wrap.
    replace (_ + 1 + _)%Z with (LOCAL_ENDPOINT w0 + 1 * 2 ^ 16)%Z by lia.
    rewrite Z.mod_add by done. by apply wrap_small.
Qed.
End Ports.

(** ** Witness: two connections *)

#[export] Instance sim_ports : LocalPorts sim.
Proof.
  refine {| local_port := st_local : @TcpSocket sim → Z |}; simpl.
  intros sock peer port sock' ws. destruct (decide _); [|done]. by intros [= <- _].
Defined.

Lemma connections_get_distinct_ports_witness :
  let w := sim_ready {[0 := sim_new; 1 := sim_new]} in
  let attempt h (w : World) := critical (with_body (envt := sim_quiet) (mkAsyncSocket (smol := sim) h)
    (connect_op (envt := sim_quiet) [10; 0; 5; 1]%Z 80%Z)) w in
  let w1 := final w (attempt 0 w) in
  let w2 := final w1 (attempt 1 w1) in
  connect_run 2 [65535; 0]%Z w w2 ∧ NoDup [65535; 0]%Z.
Proof.
  intros w attempt w1 w2.
  assert (H1 : attempt 0 w = Done (Ok tt) w1) by (apply run_returns; vm_compute; reflexivity).
  assert (H2 : attempt 1 w1 = Done (Ok tt) w2) by (apply run_returns; vm_compute; reflexivity).
  assert (P1 : port_of (mkAsyncSocket (smol := sim) 0) (Ok tt) w1 = [65535]%Z) by (vm_compute; reflexivity).
  assert (P2 : port_of (mkAsyncSocket (smol := sim) 1) (Ok tt) w2 = [0]%Z) by (vm_compute; reflexivity).
  assert (Hrun : connect_run 2 [65535; 0]%Z w w2).
  { change [65535; 0]%Z with ([65535] ++ [0] ++ [])%Z. rewrite <- P1, <- P2.
    eapply (run_attempt sim_quiet (self w) (current w) (klog w)).
    - exact H1.
    - eapply (run_attempt sim_quiet (self w1) (current w1) (klog w1)).
      + exact H2.
      + constructor. }
  split; [exact Hrun|].
  refine (proj1 (proj1 (proj2 (connections_get_distinct_ports w w2 _)) 2 _ Hrun _));
    [split; [discriminate|reflexivity]|discriminate].
Defined.
