(* ===== verification/Abi.v ===== *)
(** * [hermit-abi/src/lib.rs]: the kernel interface for user space

    The data types and the constants, and the wrappers around the [sys_*] functions of
    the kernel, which are the fields of the class [KernelAbi].  Integers and pointers
    are [Z]. *)

From S2P Require Import Prelude.

(** [type Tid = u32]. *)
Definition Tid : Type := Z.

Definition NO_PRIORITIES : Z := 31.

(** [struct Priority(u8)]. *)
Record Priority : Type := mkPriority { priority : Z }.

Definition Priority_into (p : Priority) : Z := priority p.
Definition Priority_from (x : Z) : Priority := mkPriority x.

Definition HIGH_PRIO : Priority := Priority_from 3.
Definition NORMAL_PRIO : Priority := Priority_from 2.
Definition LOW_PRIO : Priority := Priority_from 1.

(** [struct Handle(usize)]. *)
Record Handle : Type := mkHandle { handle : Z }.

Definition NSEC_PER_SEC : Z := 1000000000.
Definition CLOCK_REALTIME : Z := 1.
Definition CLOCK_MONOTONIC : Z := 4.
Definition STDIN_FILENO : Z := 0.
Definition STDOUT_FILENO : Z := 1.
Definition STDERR_FILENO : Z := 2.
(** Octal in the source: 0o100, 0o200, 0o1000, 0o2000. *)
Definition O_RDONLY : Z := 0.
Definition O_WRONLY : Z := 1.
Definition O_RDWR : Z := 2.
Definition O_CREAT : Z := 64.
Definition O_EXCL : Z := 128.
Definition O_TRUNC : Z := 512.
Definition O_APPEND : Z := 1024.

Definition isatty (_fd : Z) : bool := false.

(** [struct timespec], two [i64]. *)
Record timespec : Type := mkTimespec { tv_sec : Z; tv_nsec : Z }.

Inductive Version : Type := VUnspecified | VIpv4 | VIpv6.

(** The octets of an address. *)
Record Ipv4Address : Type := mkIpv4Address { v4_octets : list Z }.
Record Ipv6Address : Type := mkIpv6Address { v6_octets : list Z }.

Inductive IpAddress : Type :=
| Unspecified
| Ipv4 (a : Ipv4Address)
| Ipv6 (a : Ipv6Address).

Definition RAND_MAX : Z := 2147483647.

(** The functions of the kernel. *)
Class KernelAbi (W : Type) : Type := {
  sys_network_init : M W Z;
  sys_get_processor_count : M W Z;
  sys_malloc : Z → Z → M W Z;
  sys_realloc : Z → Z → Z → Z → M W Z;
  sys_free : Z → Z → Z → M W unit;
  sys_notify : Z → Z → M W Z;
  sys_add_queue : Z → Z → M W Z;
  sys_wait : Z → M W Z;
  sys_init_queue : Z → M W Z;
  sys_destroy_queue : Z → M W Z;
  sys_read : Z → Z → Z → M W Z;
  sys_write : Z → Z → Z → M W Z;
  sys_close : Z → M W Z;
  sys_sem_init : Z → Z → M W Z;
  sys_sem_destroy : Z → M W Z;
  sys_sem_post : Z → M W Z;
  sys_sem_trywait : Z → M W Z;
  sys_sem_timedwait : Z → Z → M W Z;
  sys_recmutex_init : Z → M W Z;
  sys_recmutex_destroy : Z → M W Z;
  sys_recmutex_lock : Z → M W Z;
  sys_recmutex_unlock : Z → M W Z;
  sys_getpid : M W Z;
  sys_exit : Z → M W Empty_set;
  sys_abort : M W Empty_set;
  sys_usleep : Z → M W unit;
  sys_spawn : Z → Z → Z → Z → Z → M W Z;
  sys_spawn2 : Z → Z → Z → Z → Z → M W Z;
  sys_join : Z → M W Z;
  sys_yield : M W unit;
  sys_clock_gettime : Z → Z → M W Z;
  sys_open : Z → Z → Z → M W Z;
  sys_unlink : Z → M W Z;
  sys_rand : M W Z;
  sys_srand : Z → M W unit;
  sys_secure_rand32 : M W (option Z);
  sys_secure_rand64 : M W (option Z);
  sys_block_current_task : M W unit;
  sys_wakeup_task : Z → M W unit;
  sys_get_priority : M W Z;
}.

Section Wrappers.
Context {W : Type} {kabi : KernelAbi W}.

(** initialize the network stack *)
Definition network_init : M W Z := sys_network_init.

Definition get_processor_count : M W Z := sys_get_processor_count.

Definition malloc (size : Z) (align : Z) : M W Z := sys_malloc size align.

Definition realloc (ptr : Z) (size : Z) (align : Z) (new_size : Z) : M W Z :=
  sys_realloc ptr size align new_size.

Definition free (ptr : Z) (size : Z) (align : Z) : M W unit := sys_free ptr size align.

Definition notify (id : Z) (count : Z) : M W Z := sys_notify id count.

Definition add_queue (id : Z) (timeout_ns : Z) : M W Z := sys_add_queue id timeout_ns.

Definition wait (id : Z) : M W Z := sys_wait id.

Definition init_queue (id : Z) : M W Z := sys_init_queue id.

Definition destroy_queue (id : Z) : M W Z := sys_destroy_queue id.

Definition read (fd : Z) (buf : Z) (len : Z) : M W Z := sys_read fd buf len.

Definition write (fd : Z) (buf : Z) (len : Z) : M W Z := sys_write fd buf len.

Definition close (fd : Z) : M W Z := sys_close fd.

Definition sem_init (sem : Z) (value : Z) : M W Z := sys_sem_init sem value.

Definition sem_destroy (sem : Z) : M W Z := sys_sem_destroy sem.

Definition sem_post (sem : Z) : M W Z := sys_sem_post sem.

Definition sem_trywait (sem : Z) : M W Z := sys_sem_trywait sem.

Definition sem_timedwait (sem : Z) (ms : Z) : M W Z := sys_sem_timedwait sem ms.

Definition recmutex_init (recmutex : Z) : M W Z := sys_recmutex_init recmutex.

Definition recmutex_destroy (recmutex : Z) : M W Z := sys_recmutex_destroy recmutex.

Definition recmutex_lock (recmutex : Z) : M W Z := sys_recmutex_lock recmutex.

Definition recmutex_unlock (recmutex : Z) : M W Z := sys_recmutex_unlock recmutex.

Definition getpid : M W Z := sys_getpid.

Definition exit (arg : Z) : M W Empty_set := sys_exit arg.

Definition abort : M W Empty_set := sys_abort.

Definition usleep (usecs : Z) : M W unit := sys_usleep usecs.

Definition spawn (id : Z) (func : Z) (arg : Z) (prio : Z) (core_id : Z) : M W Z :=
  sys_spawn id func arg prio core_id.

Definition spawn2 (func : Z) (arg : Z) (prio : Z) (stack_size : Z) (core_id : Z) : M W Z :=
  sys_spawn2 func arg prio stack_size core_id.

Definition join (id : Z) : M W Z := sys_join id.

Definition yield_now : M W unit := sys_yield.

Definition clock_gettime (clock_id : Z) (tp : Z) : M W Z := sys_clock_gettime clock_id tp.

Definition open (name : Z) (flags : Z) (mode : Z) : M W Z := sys_open name flags mode.

Definition unlink (name : Z) : M W Z := sys_unlink name.

Definition rand : M W Z := sys_rand.

Definition srand (seed : Z) : M W unit := sys_srand seed.

Definition secure_rand32 : M W (option Z) := sys_secure_rand32.

Definition secure_rand64 : M W (option Z) := sys_secure_rand64.

Definition block_current_task : M W unit := sys_block_current_task.

Definition wakeup_task (tid : Z) : M W unit := sys_wakeup_task tid.

Definition get_priority : M W Priority :=
  p ← sys_get_priority; mret (Priority_from p).
End Wrappers.

(** ** Properties of the constants *)

(** The flags that change how a file is opened. *)
Definition open_flags : list Z := [O_CREAT; O_EXCL; O_TRUNC; O_APPEND].

(** The union of a set of flags. *)
Definition flag_or (fs : list Z) : Z := fold_right Z.lor 0%Z fs.

(** The flags of [open] can be combined: each is one bit, apart from the access mode
    in the two lowest bits and from each other, so that from the mode and any
    combination of flags both can be read back. *)
Theorem open_flags_independent mode b1 b2 b3 b4 :
  mode ∈ [O_RDONLY; O_WRONLY; O_RDWR] →
  let pick (b : bool) (f : Z) := if b then f else 0%Z in
  let flags := flag_or [mode; pick b1 O_CREAT; pick b2 O_EXCL; pick b3 O_TRUNC; pick b4 O_APPEND] in
  Z.land flags 3 = mode ∧
  map (λ f, negb (Z.land flags f =? 0)%Z) open_flags = [b1; b2; b3; b4] ∧
  in_width 31 flags.
Proof.
  intros Hm. rewrite !elem_of_cons, elem_of_nil in Hm.
  destruct Hm as [->|[->|[->|[]]]]; destruct b1, b2, b3, b4; vm_compute;
    repeat split; try reflexivity; discriminate.
Qed.

Lemma open_flags_independent_witness :
  O_WRONLY ∈ [O_RDONLY; O_WRONLY; O_RDWR] ∧
  Z.land (flag_or [O_WRONLY; O_CREAT; 0%Z; O_TRUNC; 0%Z]) 3 = O_WRONLY.
Proof.
  assert (H : O_WRONLY ∈ [O_RDONLY; O_WRONLY; O_RDWR]) by (right; left).
  split; [exact H|]. exact (proj1 (open_flags_independent O_WRONLY true false true false H)).
Defined.
