(* ===== verification/Cmath.v ===== *)
(** * [hermit-sys/src/cmath.rs]: the C mathematics library

    The functions that C programs link to, on top of the crate [libm].  The floating
    point types and the functions of [libm] are the fields of the class [Libm]; a
    pointer argument is an address in a memory of typed cells. *)

From S2P Require Import Prelude.

(** The crate [libm]. *)
Class Libm : Type := {
  F64 : Type;
  F32 : Type;
  libm_acos : F64 → F64;
  libm_acosf : F32 → F32;
  libm_acosh : F64 → F64;
  libm_acoshf : F32 → F32;
  libm_asin : F64 → F64;
  libm_asinf : F32 → F32;
  libm_asinh : F64 → F64;
  libm_asinhf : F32 → F32;
  libm_atan : F64 → F64;
  libm_atan2 : F64 → F64 → F64;
  libm_atan2f : F32 → F32 → F32;
  libm_atanf : F32 → F32;
  libm_atanh : F64 → F64;
  libm_atanhf : F32 → F32;
  libm_cbrt : F64 → F64;
  libm_cbrtf : F32 → F32;
  libm_ceil : F64 → F64;
  libm_ceilf : F32 → F32;
  libm_copysign : F64 → F64 → F64;
  libm_copysignf : F32 → F32 → F32;
  libm_cos : F64 → F64;
  libm_cosf : F32 → F32;
  libm_cosh : F64 → F64;
  libm_coshf : F32 → F32;
  libm_erf : F64 → F64;
  libm_erfc : F64 → F64;
  libm_erfcf : F32 → F32;
  libm_erff : F32 → F32;
  libm_exp : F64 → F64;
  libm_exp10 : F64 → F64;
  libm_exp10f : F32 → F32;
  libm_exp2 : F64 → F64;
  libm_exp2f : F32 → F32;
  libm_expf : F32 → F32;
  libm_expm1 : F64 → F64;
  libm_expm1f : F32 → F32;
  libm_fabs : F64 → F64;
  libm_fabsf : F32 → F32;
  libm_fdim : F64 → F64 → F64;
  libm_fdimf : F32 → F32 → F32;
  libm_floorf : F32 → F32;
  libm_fma : F64 → F64 → F64 → F64;
  libm_fmaf : F32 → F32 → F32 → F32;
  libm_fmax : F64 → F64 → F64;
  libm_fmaxf : F32 → F32 → F32;
  libm_fmin : F64 → F64 → F64;
  libm_fminf : F32 → F32 → F32;
  libm_fmod : F64 → F64 → F64;
  libm_fmodf : F32 → F32 → F32;
  libm_frexp : F64 → F64 * Z;
  libm_frexpf : F32 → F32 * Z;
  libm_hypot : F64 → F64 → F64;
  libm_hypotf : F32 → F32 → F32;
  libm_ilogb : F64 → Z;
  libm_ilogbf : F32 → Z;
  libm_j0 : F64 → F64;
  libm_j0f : F32 → F32;
  libm_j1 : F64 → F64;
  libm_j1f : F32 → F32;
  libm_jn : Z → F64 → F64;
  libm_jnf : Z → F32 → F32;
  libm_ldexp : F64 → Z → F64;
  libm_ldexpf : F32 → Z → F32;
  libm_lgamma : F64 → F64;
  libm_lgamma_r : F64 → F64 * Z;
  libm_lgammaf : F32 → F32;
  libm_lgammaf_r : F32 → F32 * Z;
  libm_log : F64 → F64;
  libm_log10 : F64 → F64;
  libm_log10f : F32 → F32;
  libm_log1p : F64 → F64;
  libm_log1pf : F32 → F32;
  libm_log2 : F64 → F64;
  libm_log2f : F32 → F32;
  libm_logf : F32 → F32;
  libm_modf : F64 → F64 * F64;
  libm_modff : F32 → F32 * F32;
  libm_nextafter : F64 → F64 → F64;
  libm_nextafterf : F32 → F32 → F32;
  libm_pow : F64 → F64 → F64;
  libm_powf : F32 → F32 → F32;
  libm_remainder : F64 → F64 → F64;
  libm_remainderf : F32 → F32 → F32;
  libm_remquo : F64 → F64 → F64 * Z;
  libm_remquof : F32 → F32 → F32 * Z;
  libm_round : F64 → F64;
  libm_roundf : F32 → F32;
  libm_scalbn : F64 → Z → F64;
  libm_scalbnf : F32 → Z → F32;
  libm_sin : F64 → F64;
  libm_sincos : F64 → F64 * F64;
  libm_sincosf : F32 → F32 * F32;
  libm_sinf : F32 → F32;
  libm_sinh : F64 → F64;
  libm_sinhf : F32 → F32;
  libm_sqrt : F64 → F64;
  libm_sqrtf : F32 → F32;
  libm_tan : F64 → F64;
  libm_tanf : F32 → F32;
  libm_tanh : F64 → F64;
  libm_tanhf : F32 → F32;
  libm_tgamma : F64 → F64;
  libm_tgammaf : F32 → F32;
  libm_trunc : F64 → F64;
  libm_truncf : F32 → F32;
  libm_y0 : F64 → F64;
  libm_y0f : F32 → F32;
  libm_y1 : F64 → F64;
  libm_y1f : F32 → F32;
  libm_yn : Z → F64 → F64;
  libm_ynf : Z → F32 → F32;
}.

(** What a pointer argument can point to. *)
Inductive Cell {lm : Libm} : Type :=
| CI32 (z : Z)
| CF64 (x : F64)
| CF32 (x : F32).

Abbreviation Mem := (gmap Z Cell).

Section Cmath.
Context {lm : Libm}.

Definition store (p : Z) (c : Cell) : M Mem unit := modify (insert p c).

Definition acos (n : F64) : F64 := libm_acos n.

Definition acosf (n : F32) : F32 := libm_acosf n.

Definition acosh (x : F64) : F64 := libm_acosh x.

Definition acoshf (x : F32) : F32 := libm_acoshf x.

Definition asin (n : F64) : F64 := libm_asin n.

Definition asinf (n : F32) : F32 := libm_asinf n.

Definition asinh (x : F64) : F64 := libm_asinh x.

Definition asinhf (x : F32) : F32 := libm_asinhf x.

Definition atan (n : F64) : F64 := libm_atan n.

Definition atan2 (a : F64) (b : F64) : F64 := libm_atan2 a b.

Definition atan2f (a : F32) (b : F32) : F32 := libm_atan2f a b.

Definition atanf (n : F32) : F32 := libm_atanf n.

Definition atanh (x : F64) : F64 := libm_atanh x.

Definition atanhf (x : F32) : F32 := libm_atanhf x.

Definition cbrt (n : F64) : F64 := libm_cbrt n.

Definition cbrtf (n : F32) : F32 := libm_cbrtf n.

Definition ceil (x : F64) : F64 := libm_ceil x.

Definition ceilf (x : F32) : F32 := libm_ceilf x.

Definition copysign (x : F64) (y : F64) : F64 := libm_copysign x y.

Definition copysignf (x : F32) (y : F32) : F32 := libm_copysignf x y.

Definition cos (x : F64) : F64 := libm_cos x.

Definition cosf (x : F32) : F32 := libm_cosf x.

Definition cosh (x : F64) : F64 := libm_cosh x.

Definition coshf (x : F32) : F32 := libm_coshf x.

Definition erf (x : F64) : F64 := libm_erf x.

Definition erfc (x : F64) : F64 := libm_erfc x.

Definition erff (x : F32) : F32 := libm_erff x.

Definition erfcf (x : F32) : F32 := libm_erfcf x.

Definition exp (x : F64) : F64 := libm_exp x.

Definition expf (x : F32) : F32 := libm_expf x.

Definition exp2 (x : F64) : F64 := libm_exp2 x.

Definition exp2f (x : F32) : F32 := libm_exp2f x.

Definition exp10 (x : F64) : F64 := libm_exp10 x.

Definition exp10f (x : F32) : F32 := libm_exp10f x.

Definition expm1 (n : F64) : F64 := libm_expm1 n.

Definition expm1f (n : F32) : F32 := libm_expm1f n.

Definition fabs (n : F64) : F64 := libm_fabs n.

Definition fabsf (n : F32) : F32 := libm_expm1f n.

Definition fdim (a : F64) (b : F64) : F64 := libm_fdim a b.

Definition fdimf (a : F32) (b : F32) : F32 := libm_fdimf a b.

Definition floorf (x : F32) : F32 := libm_floorf x.

Definition fma (x : F64) (y : F64) (z : F64) : F64 := libm_fma x y z.

Definition fmaf (x : F32) (y : F32) (z : F32) : F32 := libm_fmaf x y z.

Definition fmax (x : F64) (y : F64) : F64 := libm_fmax x y.

Definition fmaxf (x : F32) (y : F32) : F32 := libm_fmaxf x y.

Definition fmin (x : F64) (y : F64) : F64 := libm_fmin x y.

Definition fminf (x : F32) (y : F32) : F32 := libm_fminf x y.

Definition fmod (x : F64) (y : F64) : F64 := libm_fmod x y.

Definition fmodf (x : F32) (y : F32) : F32 := libm_fmodf x y.

Definition frexp (arg : F64) (exp : Z) : M Mem F64 :=
  let '(mantissa, exponent) := libm_frexp arg in
  _ ← store exp (CI32 exponent);
  mret mantissa.

Definition frexpf (arg : F32) (exp : Z) : M Mem F32 :=
  let '(mantissa, exponent) := libm_frexpf arg in
  _ ← store exp (CI32 exponent);
  mret mantissa.

Definition hypot (x : F64) (y : F64) : F64 := libm_hypot x y.

Definition hypotf (x : F32) (y : F32) : F32 := libm_hypotf x y.

Definition ilogb (x : F64) : Z := libm_ilogb x.

Definition ilogbf (x : F32) : Z := libm_ilogbf x.

Definition j0 (x : F64) : F64 := libm_j0 x.

Definition j0f (x : F32) : F32 := libm_j0f x.

Definition j1 (x : F64) : F64 := libm_j1 x.

Definition j1f (x : F32) : F32 := libm_j1f x.

Definition jn (n : Z) (x : F64) : F64 := libm_jn n x.

Definition jnf (n : Z) (x : F32) : F32 := libm_jnf n x.

Definition ldexp (x : F64) (n : Z) : F64 := libm_ldexp x n.

Definition ldexpf (x : F32) (n : Z) : F32 := libm_ldexpf x n.

Definition lgamma (x : F64) : F64 := libm_lgamma x.

Definition lgammaf (x : F32) : F32 := libm_lgammaf x.

Definition lgamma_r (x : F64) (signp : Z) : M Mem F64 :=
  let '(lgamma, r) := libm_lgamma_r x in
  _ ← store signp (CI32 r);
  mret lgamma.

Definition lgammaf_r (x : F32) (signp : Z) : M Mem F32 :=
  let '(lgamma, r) := libm_lgammaf_r x in
  _ ← store signp (CI32 r);
  mret lgamma.

Definition log (x : F64) : F64 := libm_log x.

Definition log10 (x : F64) : F64 := libm_log10 x.

Definition log10f (x : F32) : F32 := libm_log10f x.

Definition logf (x : F32) : F32 := libm_logf x.

Definition log2 (x : F64) : F64 := libm_log2 x.

Definition log2f (x : F32) : F32 := libm_log2f x.

Definition log1p (n : F64) : F64 := libm_log1p n.

Definition log1pf (n : F32) : F32 := libm_log1pf n.

Definition modf (x : F64) (integer : Z) : M Mem F64 :=
  let '(frac_part, int_part) := libm_modf x in
  _ ← store integer (CF64 int_part);
  mret frac_part.

Definition modff (x : F32) (integer : Z) : M Mem F32 :=
  let '(frac_part, int_part) := libm_modff x in
  _ ← store integer (CF32 int_part);
  mret frac_part.

Definition nextafter (x : F64) (y : F64) : F64 := libm_nextafter x y.

Definition nextafterf (x : F32) (y : F32) : F32 := libm_nextafterf x y.

Definition pow (x : F64) (y : F64) : F64 := libm_pow x y.

Definition powf (x : F32) (y : F32) : F32 := libm_powf x y.

Definition remainder (x : F64) (y : F64) : F64 := libm_remainder x y.

Definition remainderf (x : F32) (y : F32) : F32 := libm_remainderf x y.

Definition remquo (x : F64) (y : F64) (quotient : Z) : M Mem F64 :=
  let '(rem, quo) := libm_remquo x y in
  _ ← store quotient (CI32 quo);
  mret rem.

Definition remquof (x : F32) (y : F32) (quotient : Z) : M Mem F32 :=
  let '(rem, quo) := libm_remquof x y in
  _ ← store quotient (CI32 quo);
  mret rem.

Definition round (n : F64) : F64 := libm_round n.

Definition roundf (n : F32) : F32 := libm_roundf n.

Definition scalbn (x : F64) (n : Z) : F64 := libm_scalbn x n.

Definition scalbnf (x : F32) (n : Z) : F32 := libm_scalbnf x n.

Definition sin (n : F64) : F64 := libm_sin n.

Definition sinf (n : F32) : F32 := libm_sinf n.

Definition sincos (n : F64) (sin : Z) (cos : Z) : M Mem unit :=
  let '(res_sin, res_cos) := libm_sincos n in
  _ ← store sin (CF64 res_sin);
  _ ← store cos (CF64 res_cos);
  mret tt.

Definition sincosf (n : F32) (sin : Z) (cos : Z) : M Mem unit :=
  let '(res_sin, res_cos) := libm_sincosf n in
  _ ← store sin (CF32 res_sin);
  _ ← store cos (CF32 res_cos);
  mret tt.

Definition sinh (n : F64) : F64 := libm_sinh n.

Definition sinhf (n : F32) : F32 := libm_sinhf n.

Definition sqrt (x : F64) : F64 := libm_sqrt x.

Definition sqrtf (x : F32) : F32 := libm_sqrtf x.

Definition tan (n : F64) : F64 := libm_tan n.

Definition tanf (n : F32) : F32 := libm_tanf n.

Definition tanh (n : F64) : F64 := libm_tanh n.

Definition tanhf (n : F32) : F32 := libm_tanhf n.

Definition tgamma (n : F64) : F64 := libm_tgamma n.

Definition tgammaf (n : F32) : F32 := libm_tgammaf n.

Definition trunc (n : F64) : F64 := libm_trunc n.

Definition truncf (n : F32) : F32 := libm_truncf n.

Definition y0 (n : F64) : F64 := libm_y0 n.

Definition y0f (n : F32) : F32 := libm_y0f n.

Definition y1 (n : F64) : F64 := libm_y1 n.

Definition y1f (n : F32) : F32 := libm_y1f n.

Definition yn (n : Z) (x : F64) : F64 := libm_yn n x.

Definition ynf (n : Z) (x : F32) : F32 := libm_ynf n x.
End Cmath.

(** ** Properties *)

(** What the C standard and the documentation of [libm] say about signs. *)
Class LibmSigns (lm : Libm) : Type := {
  negative : F32 → bool;
  libm_fabsf_sign x : negative (libm_fabsf x) = false;
  libm_expm1f_sign x : negative (libm_expm1f x) = negative x;
}.

Section Properties.
Context {lm : Libm}.
Implicit Types (m : Mem) (p q : Z).

(** The exported [fabsf] is not the absolute value: it calls [expm1f].  On every
    negative argument it answers a negative number, which [libm::fabsf] never does. *)
Theorem fabsf_not_absolute {ls : LibmSigns lm} x :
  negative x = true → negative (fabsf x) = true ∧ fabsf x ≠ libm_fabsf x.
Proof.
  intros Hx. unfold fabsf.
  assert (Hn : negative (libm_expm1f x) = true) by by rewrite libm_expm1f_sign.
  split; [done|]. intros Heq. pose proof (libm_fabsf_sign x) as Hf. rewrite <- Heq in Hf.
  congruence.
Qed.

(** The functions with a pointer argument return the first part of the answer of
    [libm] and store the second one behind the pointer, and touch no other cell;
    [sincos] stores both parts, the cosine last, which is the one that survives when
    both pointers are the same. *)
Theorem out_parameters m p q x y (a b : F32) :
  frexp x p m = Done (libm_frexp x).1 (<[p := CI32 (libm_frexp x).2]> m) ∧
  frexpf a p m = Done (libm_frexpf a).1 (<[p := CI32 (libm_frexpf a).2]> m) ∧
  lgamma_r x p m = Done (libm_lgamma_r x).1 (<[p := CI32 (libm_lgamma_r x).2]> m) ∧
  lgammaf_r a p m = Done (libm_lgammaf_r a).1 (<[p := CI32 (libm_lgammaf_r a).2]> m) ∧
  modf x p m = Done (libm_modf x).1 (<[p := CF64 (libm_modf x).2]> m) ∧
  modff a p m = Done (libm_modff a).1 (<[p := CF32 (libm_modff a).2]> m) ∧
  remquo x y p m = Done (libm_remquo x y).1 (<[p := CI32 (libm_remquo x y).2]> m) ∧
  remquof a b p m = Done (libm_remquof a b).1 (<[p := CI32 (libm_remquof a b).2]> m) ∧
  (∃ m', sincos x p q m = Done tt m' ∧
     m' !! q = Some (CF64 (libm_sincos x).2) ∧
     (p ≠ q → m' !! p = Some (CF64 (libm_sincos x).1)) ∧
     ∀ r, r ≠ p → r ≠ q → m' !! r = m !! r) ∧
  (∃ m', sincosf a p q m = Done tt m' ∧
     m' !! q = Some (CF32 (libm_sincosf a).2) ∧
     (p ≠ q → m' !! p = Some (CF32 (libm_sincosf a).1)) ∧
     ∀ r, r ≠ p → r ≠ q → m' !! r = m !! r).
Proof.
  unfold frexp, frexpf, lgamma_r, lgammaf_r, modf, modff, remquo, remquof, sincos, sincosf.
  destruct (libm_frexp x), (libm_frexpf a), (libm_lgamma_r x), (libm_lgammaf_r a), (libm_modf x),
    (libm_modff a), (libm_remquo x y), (libm_remquof a b), (libm_sincos x), (libm_sincosf a).
  split_and!; try done;
    (eexists; split_and!; [reflexivity|apply lookup_insert_eq| |]; [|intros r Hp Hq];
     simpl; intros; rewrite !lookup_insert_ne by done; rewrite ?lookup_insert_eq; done).
Qed.
End Properties.

(** ** Witness *)

(** Integers for both floating point types, with the signs right. *)
Definition sim_libm : Libm := {|
  F64 := Z;
  F32 := Z;
  libm_acos := λ _, 0%Z;
  libm_acosf := λ _, 0%Z;
  libm_acosh := λ _, 0%Z;
  libm_acoshf := λ _, 0%Z;
  libm_asin := λ _, 0%Z;
  libm_asinf := λ _, 0%Z;
  libm_asinh := λ _, 0%Z;
  libm_asinhf := λ _, 0%Z;
  libm_atan := λ _, 0%Z;
  libm_atan2 := λ _ _, 0%Z;
  libm_atan2f := λ _ _, 0%Z;
  libm_atanf := λ _, 0%Z;
  libm_atanh := λ _, 0%Z;
  libm_atanhf := λ _, 0%Z;
  libm_cbrt := λ _, 0%Z;
  libm_cbrtf := λ _, 0%Z;
  libm_ceil := λ _, 0%Z;
  libm_ceilf := λ _, 0%Z;
  libm_copysign := λ _ _, 0%Z;
  libm_copysignf := λ _ _, 0%Z;
  libm_cos := λ _, 0%Z;
  libm_cosf := λ _, 0%Z;
  libm_cosh := λ _, 0%Z;
  libm_coshf := λ _, 0%Z;
  libm_erf := λ _, 0%Z;
  libm_erfc := λ _, 0%Z;
  libm_erfcf := λ _, 0%Z;
  libm_erff := λ _, 0%Z;
  libm_exp := λ _, 0%Z;
  libm_exp10 := λ _, 0%Z;
  libm_exp10f := λ _, 0%Z;
  libm_exp2 := λ _, 0%Z;
  libm_exp2f := λ _, 0%Z;
  libm_expf := λ _, 0%Z;
  libm_expm1 := λ _, 0%Z;
  libm_expm1f := λ x, x;
  libm_fabs := λ _, 0%Z;
  libm_fabsf := λ x, Z.abs x;
  libm_fdim := λ _ _, 0%Z;
  libm_fdimf := λ _ _, 0%Z;
  libm_floorf := λ _, 0%Z;
  libm_fma := λ _ _ _, 0%Z;
  libm_fmaf := λ _ _ _, 0%Z;
  libm_fmax := λ _ _, 0%Z;
  libm_fmaxf := λ _ _, 0%Z;
  libm_fmin := λ _ _, 0%Z;
  libm_fminf := λ _ _, 0%Z;
  libm_fmod := λ _ _, 0%Z;
  libm_fmodf := λ _ _, 0%Z;
  libm_frexp := λ _, (0, 0)%Z;
  libm_frexpf := λ _, (0, 0)%Z;
  libm_hypot := λ _ _, 0%Z;
  libm_hypotf := λ _ _, 0%Z;
  libm_ilogb := λ _, 0%Z;
  libm_ilogbf := λ _, 0%Z;
  libm_j0 := λ _, 0%Z;
  libm_j0f := λ _, 0%Z;
  libm_j1 := λ _, 0%Z;
  libm_j1f := λ _, 0%Z;
  libm_jn := λ _ _, 0%Z;
  libm_jnf := λ _ _, 0%Z;
  libm_ldexp := λ _ _, 0%Z;
  libm_ldexpf := λ _ _, 0%Z;
  libm_lgamma := λ _, 0%Z;
  libm_lgamma_r := λ _, (0, 0)%Z;
  libm_lgammaf := λ _, 0%Z;
  libm_lgammaf_r := λ _, (0, 0)%Z;
  libm_log := λ _, 0%Z;
  libm_log10 := λ _, 0%Z;
  libm_log10f := λ _, 0%Z;
  libm_log1p := λ _, 0%Z;
  libm_log1pf := λ _, 0%Z;
  libm_log2 := λ _, 0%Z;
  libm_log2f := λ _, 0%Z;
  libm_logf := λ _, 0%Z;
  libm_modf := λ _, (0, 0)%Z;
  libm_modff := λ _, (0, 0)%Z;
  libm_nextafter := λ _ _, 0%Z;
  libm_nextafterf := λ _ _, 0%Z;
  libm_pow := λ _ _, 0%Z;
  libm_powf := λ _ _, 0%Z;
  libm_remainder := λ _ _, 0%Z;
  libm_remainderf := λ _ _, 0%Z;
  libm_remquo := λ _ _, (0, 0)%Z;
  libm_remquof := λ _ _, (0, 0)%Z;
  libm_round := λ _, 0%Z;
  libm_roundf := λ _, 0%Z;
  libm_scalbn := λ _ _, 0%Z;
  libm_scalbnf := λ _ _, 0%Z;
  libm_sin := λ _, 0%Z;
  libm_sincos := λ _, (0, 0)%Z;
  libm_sincosf := λ _, (0, 0)%Z;
  libm_sinf := λ _, 0%Z;
  libm_sinh := λ _, 0%Z;
  libm_sinhf := λ _, 0%Z;
  libm_sqrt := λ _, 0%Z;
  libm_sqrtf := λ _, 0%Z;
  libm_tan := λ _, 0%Z;
  libm_tanf := λ _, 0%Z;
  libm_tanh := λ _, 0%Z;
  libm_tanhf := λ _, 0%Z;
  libm_tgamma := λ _, 0%Z;
  libm_tgammaf := λ _, 0%Z;
  libm_trunc := λ _, 0%Z;
  libm_truncf := λ _, 0%Z;
  libm_y0 := λ _, 0%Z;
  libm_y0f := λ _, 0%Z;
  libm_y1 := λ _, 0%Z;
  libm_y1f := λ _, 0%Z;
  libm_yn := λ _ _, 0%Z;
  libm_ynf := λ _ _, 0%Z;
|}.

Lemma sim_signs : LibmSigns sim_libm.
Proof.
  refine {| negative := (λ z, z <? 0)%Z : @F32 sim_libm → bool |}; simpl; [|done].
  intros x. apply Z.ltb_ge. apply Z.abs_nonneg.
Defined.

Definition sim_minus_three : @F32 sim_libm := (-3)%Z.

Lemma fabsf_not_absolute_witness :
  fabsf sim_minus_three = sim_minus_three ∧
  fabsf sim_minus_three ≠ libm_fabsf sim_minus_three.
Proof.
  split; [reflexivity|].
  exact (proj2 (fabsf_not_absolute (ls := sim_signs) sim_minus_three eq_refl)).
Defined.
