(* ===== verification/Build.v ===== *)
(** * [hermit-sys/build.rs]: the build script

    What the script decides: the command line and the environment of the kernel build,
    the place of the library, the symbols it renames and the constants it writes.
    Whether a command succeeds and a directory exists are arguments; BuildScript carries
    the decisions out. *)

From S2P Require Import Prelude Extern WakerReg State Sim Device.
From Stdlib Require Import Ascii.
Local Open Scope string_scope.

(** [cfg(feature = ..)]. *)
Record Features : Type := mkFeatures {
  pci : bool; acpi : bool; fsgs_base : bool; smp : bool; vga : bool;
  instrument : bool; mem : bool;
}.

(** The target triple of the kernel, by the architecture of the application. *)
Definition kernel_target (target_arch : string) : option string :=
  if String.eqb target_arch "x86_64" then Some "x86_64-unknown-none-hermitkernel"
  else if String.eqb target_arch "aarch64" then Some "aarch64-unknown-hermit"
  else if String.eqb target_arch "riscv64" then Some "riscv64gc-unknown-hermit"
  else None.

Definition feature_args (on : bool) (name : string) : list string :=
  if on then ["--features"; name] else [].

(** The arguments of the [cargo] command, in order. *)
Definition build_args (target_arch target profile : string) (target_dir_opt : option string)
    (f : Features) : list string :=
  ["build"; "-Z"; "build-std=core,alloc"; "--target"; target]
  ++ match target_dir_opt with Some d => ["--target-dir"; d] | None => [] end
  ++ (if String.eqb profile "release" then ["--release"] else [])
  ++ ["--no-default-features"]
  ++ feature_args (String.eqb target_arch "aarch64") "aarch64-qemu-stdout"
  ++ feature_args (pci f) "pci" ++ feature_args (acpi f) "acpi"
  ++ feature_args (fsgs_base f) "fsgs_base" ++ feature_args (smp f) "smp"
  ++ feature_args (vga f) "vga".

(** ** The compiler flags *)

(** The unit separator between encoded flags, [\x1f]. *)
Definition sep : ascii := ascii_of_nat 31.

(** [str::split] at a character: the pieces between the separators. *)
Fixpoint split_at (c : ascii) (s : string) : list string :=
  match s with
  | EmptyString => [""]
  | String x s' =>
      if Ascii.eqb x c then "" :: split_at c s'
      else match split_at c s' with
           | p :: ps => String x p :: ps
           | [] => [String x ""]
           end
  end.

(** [slice::join]. *)
Fixpoint join (c : ascii) (ps : list string) : string :=
  match ps with
  | [] => ""
  | [p] => p
  | p :: ps => p +:+ String c (join c ps)
  end.

(** [str::contains]. *)
Fixpoint contains (pat s : string) : bool :=
  String.prefix pat s || match s with EmptyString => false | String _ s' => contains pat s' end.

(** The flags that go into [CARGO_ENCODED_RUSTFLAGS]. *)
Definition rustflags (f : Features) (outer_rustflags : string) : list string :=
  ["-Zmutable-noalias=no"] ++
  if instrument f then ["-Zinstrument-mcount"; outer_rustflags]
  else if String.eqb outer_rustflags "" then []
  else filter (λ flag, contains "instrument-mcount" flag = false) (split_at sep outer_rustflags).

Definition encoded_rustflags (f : Features) (outer_rustflags : string) : string :=
  join sep (rustflags f outer_rustflags).

(** ** [build_hermit] *)

Record Build : Type := mkBuild {
  current_dir : string;
  args : list string;
  envs : list (string * string);
  lib_location : string;
  renamed : list string;   (* the symbols given to [rename_symbol], in order *)
  printed : list string;
}.

Definition slash (a b : string) : string := a +:+ String "/"%char b.

Definition renamed_symbols (f : Features) : list string :=
  ["rust_begin_unwind"; "rust_oom"]
  ++ if mem f then ["memcpy"; "memmove"; "memset"; "memcmp"; "bcmp"] else [].

(** The argument of [--redefine-sym] in [rename_symbol]. *)
Definition redefine_arg (symbol : string) : string := symbol +:+ "=kernel-" +:+ symbol.

Definition UNWRAP : string := "called `Result::unwrap()` on an `Err` value".

(** The decisions of [build_hermit], given which paths exist and whether [cargo] succeeds. *)
Definition build_hermit (src_exists build_ok : bool) (canonicalize : string → option string)
    (target_arch profile outer_rustflags : string)
    (f : Features) (src_dir : string) (target_dir_opt : option string) : result Build string :=
  if negb src_exists then Err "rusty_hermit source folder does not exist"
  else match kernel_target target_arch with
  | None => Err "Try to build for an unsupported platform"
  | Some target =>
      let target_dir := match target_dir_opt with
                        | Some d => d
                        | None => slash src_dir "target"
                        end in
      if negb build_ok then Err "assertion failed: status.success()"
      else
        match canonicalize (slash (slash target_dir target) profile) with
        | None => Err UNWRAP
        | Some location =>
        Ok (mkBuild src_dir (build_args target_arch target profile target_dir_opt f)
              [("CARGO_TERM_COLOR", "always");
               ("CARGO_ENCODED_RUSTFLAGS", encoded_rustflags f outer_rustflags)]
              location (renamed_symbols f)
              ["Lib location: " +:+ location;
               "cargo:rustc-link-search=native=" +:+ location;
               "cargo:rustc-link-lib=static=hermit";
               "cargo:rerun-if-env-changed=HERMIT_LOG_LEVEL_FILTER"])
        end
  end.

(** [is_not_ignored]: which entries of the source tree are watched. *)
Definition is_not_ignored (depth : nat) (is_dir : bool) (name : string) : bool :=
  negb ((depth =? 1)%nat && is_dir &&
        (String.eqb name "target" || String.eqb name ".git" || String.eqb name ".vscode")).

(** ** [create_constants] *)

Definition constant_line (name value : string) : string :=
  "const " +:+ name +:+ ": &str = " +:+ String (ascii_of_nat 34) (value +:+ String (ascii_of_nat 34) ";").

Definition constants (ip gateway mask : option string) : string * string * string :=
  (default "10.0.5.3" ip, default "10.0.5.1" gateway, default "255.255.255.0" mask).

Definition create_constants (ip gateway mask : option string) : list string :=
  let '(ip, gateway, mask) := constants ip gateway mask in
  [constant_line "HERMIT_IP" ip; constant_line "HERMIT_GATEWAY" gateway;
   constant_line "HERMIT_MASK" mask].

(** ** Lemmas on splitting and joining *)

(** A flag without a separator in it. *)
Fixpoint no_sep (c : ascii) (s : string) : bool :=
  match s with EmptyString => true | String x s' => negb (Ascii.eqb x c) && no_sep c s' end.

Lemma split_at_nonempty c s : split_at c s ≠ [].
Proof. destruct s as [|x s]; simpl; [done|]. destruct (Ascii.eqb x c); [done|]. by destruct (split_at c s). Qed.

Lemma split_at_no_sep c s : Forall (λ p, no_sep c p = true) (split_at c s).
Proof.
  induction s as [|x s IH]; simpl; [by repeat constructor|].
  destruct (Ascii.eqb x c) eqn:Hx; [by constructor|].
  destruct IH as [|p ps Hp Hps]; [by repeat constructor; simpl; rewrite Hx|].
  constructor; [|done]. simpl. by rewrite Hx.
Qed.

Lemma split_at_app c p s :
  no_sep c p = true → split_at c (p +:+ String c s) = p :: split_at c s.
Proof.
  intros Hp. induction p as [|x p IH]; simpl in *; [by rewrite Ascii.eqb_refl|].
  apply andb_true_iff in Hp as [Hx Hp]. destruct (Ascii.eqb x c); [done|].
  by rewrite IH.
Qed.

Lemma split_at_single c p : no_sep c p = true → split_at c p = [p].
Proof.
  intros Hp. induction p as [|x p IH]; simpl in *; [done|].
  apply andb_true_iff in Hp as [Hx Hp]. destruct (Ascii.eqb x c); [done|]. by rewrite IH.
Qed.

(** Splitting undoes joining. *)
Lemma split_join c ps :
  ps ≠ [] → Forall (λ p, no_sep c p = true) ps → split_at c (join c ps) = ps.
Proof.
  intros Hne Hps. induction Hps as [|p ps Hp Hps IH]; [done|].
  destruct ps as [|q ps]; [by apply split_at_single|].
  change (join c (p :: q :: ps)) with (p +:+ String c (join c (q :: ps))).
  rewrite split_at_app by done. f_equal. by apply IH.
Qed.

(** ** Properties *)

Lemma filter_no_sep c (P : string → Prop) `{∀ x, Decision (P x)} ps :
  Forall (λ p, no_sep c p = true) ps → Forall (λ p, no_sep c p = true) (filter P ps).
Proof.
  induction 1 as [|p ps Hp _ IH]; [constructor|]. rewrite filter_cons.
  case_decide; [by constructor|done].
Qed.

(** C36: Without the feature [instrument] the compiler of the kernel gets, flag by flag
    and in order, the flag of the script and then the flags of the outer build except
    those that mention [instrument-mcount], so that the kernel is never instrumented
    behind the user's back; encoding and decoding the flags loses nothing. *)
Theorem rustflags_filtered f outer :
  instrument f = false →
  split_at sep (encoded_rustflags f outer) = rustflags f outer ∧
  rustflags f outer = "-Zmutable-noalias=no" ::
    (if String.eqb outer "" then []
     else filter (λ p, contains "instrument-mcount" p = false) (split_at sep outer)) ∧
  (∀ p, p ∈ rustflags f outer → contains "instrument-mcount" p = false).
Proof.
  intros Hf. unfold encoded_rustflags. split_and!.
  - apply split_join; [done|]. unfold rustflags. rewrite Hf. simpl.
    constructor; [reflexivity|]. destruct (String.eqb outer ""); [constructor|].
    apply filter_no_sep, split_at_no_sep.
  - unfold rustflags. by rewrite Hf.
  - intros p. unfold rustflags. rewrite Hf. simpl. intros [->|Hin]%elem_of_cons; [reflexivity|].
    destruct (String.eqb outer ""); [by apply elem_of_nil in Hin|].
    by apply list_elem_of_filter in Hin as [? _].
Qed.

(** With the feature [instrument] the outer flags are appended without looking at
    them: when there are none, the encoded flags end in a separator and the compiler is
    handed an empty argument as its last flag. *)
Theorem rustflags_empty_argument f :
  instrument f = true →
  split_at sep (encoded_rustflags f "") = ["-Zmutable-noalias=no"; "-Zinstrument-mcount"; ""].
Proof. intros Hf. unfold encoded_rustflags, rustflags. rewrite Hf. reflexivity. Qed.

Lemma not_in_feature_args on name :
  "--release" ∈ feature_args on name → name = "--release".
Proof.
  unfold feature_args. destruct on; [|by rewrite elem_of_nil].
  rewrite !elem_of_cons, elem_of_nil. by intros [?|[?|[]]].
Qed.

(** A build that succeeds looks for the library where [cargo] has put it: under the
    target directory it was given (or the default one of the kernel's source), in the
    directory named after the very target it was given, then after the profile; and
    [--release] is given exactly for the profile of that name.  An architecture that is
    not supported, a missing source and a failed build are errors. *)
Theorem build_finds_library src_exists build_ok canonicalize arch profile outer f src dir b :
  build_hermit src_exists build_ok canonicalize arch profile outer f src dir = Ok b →
  src_exists = true ∧ build_ok = true ∧ current_dir b = src ∧
  ∃ target, kernel_target arch = Some target ∧
    take 5 (args b) = ["build"; "-Z"; "build-std=core,alloc"; "--target"; target] ∧
    ("--release" ∈ args b ↔
       profile = "release" ∨ target = "--release" ∨ dir = Some "--release") ∧
    canonicalize (slash (slash (default (slash src "target") dir) target) profile) = Some (lib_location b) ∧
    "cargo:rustc-link-search=native=" +:+ lib_location b ∈ printed b ∧
    "rust_begin_unwind" ∈ renamed b ∧ "rust_oom" ∈ renamed b.
Proof.
  unfold build_hermit. destruct src_exists; simpl; [|done].
  destruct (kernel_target arch) as [target|]; [|done]. destruct build_ok; simpl; [|done].
  destruct (canonicalize _) as [location|] eqn:Hloc; [|done].
  intros [= <-]. simpl. split_and!; try done. exists target. split_and!; try done.
  - split.
    + unfold build_args. rewrite !elem_of_app. intros [Hin|[Hin|[Hin|[Hin|Hin]]]].
      * repeat (apply elem_of_cons in Hin as [Hin|Hin]; [by subst; auto|]).
        by apply elem_of_nil in Hin.
      * destruct dir as [d|]; [|by apply elem_of_nil in Hin].
        repeat (apply elem_of_cons in Hin as [Hin|Hin]; [by subst; auto|]).
        by apply elem_of_nil in Hin.
      * destruct (String.eqb_spec profile "release"); [by left|by apply elem_of_nil in Hin].
      * by apply list_elem_of_singleton in Hin.
      * repeat (destruct Hin as [Hin|Hin]; [by apply not_in_feature_args in Hin|]).
        by apply not_in_feature_args in Hin.
    + unfold build_args. intros [->|[->| ->]].
      * apply elem_of_app. right. apply elem_of_app. right. apply elem_of_app. left. left.
      * apply elem_of_app. left. by do 4 right; left.
      * apply elem_of_app. right. apply elem_of_app. left. by right; left.
  - right. left.
  - left.
  - right. left.
Qed.

(** The addresses that the script writes when the user gives none are dotted quads,
    so that the network comes up without a panic: [NetworkInterface::new] configures
    10.0.5.3 with a net mask of 24 bits and the gateway 10.0.5.1. *)
Theorem default_constants_configure {smol : Smoltcp} {kern : Kernel smol} {at_ : AsyncTask}
    (w : World) (mtu : Z) mac routes i :
  sys_get_mtu (kernel w) = Ok mtu → sys_get_mac_address (kernel w) = Ok mac →
  add_default_ipv4_route routes_new (ipv4_new 10 0 5 1) = Some routes →
  iface_build mtu mac [ipcidr_new (ipaddr_v4 10 0 5 3) 24] routes = Some i →
  let '(ip, gateway, mask) := constants None None None in
  new_static ip gateway mask w =
    Done (Initialized (mkNetworkInterface i sockets_new None wr_new)) w.
Proof.
  intros Hmtu Hmac Hroute Hi. unfold constants, default, new_static, gets, mbind, M_bind.
  replace (parse_ipv4 "10.0.5.3") with (Some (10, 0, 5, 3)%Z) by (vm_compute; reflexivity).
  replace (parse_ipv4 "10.0.5.1") with (Some (10, 0, 5, 1)%Z) by (vm_compute; reflexivity).
  replace (parse_ipv4 "255.255.255.0") with (Some (255, 255, 255, 0)%Z)
    by (vm_compute; reflexivity).
  rewrite Hmtu, Hmac. simpl. rewrite Hroute. simpl.
  replace (prefix_len 255 255 255 0) with 24%Z by (vm_compute; reflexivity). by rewrite Hi.
Qed.

(** ** Witnesses *)

Definition sim_features (instr : bool) : Features :=
  mkFeatures true true false true false instr true.

Definition sim_outer : string :=
  join sep ["-Cforce-frame-pointers"; "-Zinstrument-mcount"; "-Copt-level=3"].

Lemma rustflags_filtered_witness :
  rustflags (sim_features false) sim_outer =
    ["-Zmutable-noalias=no"; "-Cforce-frame-pointers"; "-Copt-level=3"] ∧
  split_at sep (encoded_rustflags (sim_features false) sim_outer) =
    rustflags (sim_features false) sim_outer.
Proof.
  split; [vm_compute; reflexivity|].
  exact (proj1 (rustflags_filtered (sim_features false) sim_outer eq_refl)).
Defined.

Lemma rustflags_empty_argument_witness :
  split_at sep (encoded_rustflags (sim_features true) "") =
    ["-Zmutable-noalias=no"; "-Zinstrument-mcount"; ""].
Proof. exact (rustflags_empty_argument (sim_features true) eq_refl). Defined.

Definition sim_build : Build :=
  match build_hermit true true Some "x86_64" "release" "" (sim_features false) "/src" None with
  | Ok b => b
  | Err _ => mkBuild "" [] [] "" [] []
  end.

Lemma build_finds_library_witness :
  build_hermit true true Some "x86_64" "release" "" (sim_features false) "/src" None = Ok sim_build ∧
  lib_location sim_build = "/src/target/x86_64-unknown-none-hermitkernel/release" ∧
  current_dir sim_build = "/src".
Proof.
  assert (H : build_hermit true true Some "x86_64" "release" "" (sim_features false) "/src" None
              = Ok sim_build) by reflexivity.
  split; [exact H|]. split; [reflexivity|].
  exact (proj1 (proj2 (proj2
    (build_finds_library true true Some "x86_64" "release" "" (sim_features false) "/src" None _ H)))).
Defined.

Lemma default_constants_configure_witness :
  let w := boot (at_ := sim_task) (kern := sim_kernel) 100%Z 5%Z in
  new_static "10.0.5.3" "10.0.5.1" "255.255.255.0" w =
    Done (Initialized (mkNetworkInterface (smol := sim)
      (mkSimIface [24]%Z [1]%Z true) ∅ None wr_new)) w.
Proof.
  intros w.
  exact (default_constants_configure (smol := sim) w 1500%Z [2; 0; 0; 0; 0; 1]%Z [1]%Z
           (mkSimIface [24]%Z [1]%Z true) eq_refl eq_refl eq_refl eq_refl).
Defined.
