(* ===== verification/BuildScript.v ===== *)
(** * [hermit-sys/build.rs]: carrying the decisions out

    The script as a whole: the files it writes, the commands it starts, in order, and what it
    prints.  The disk, the commands, [llvm_tools] and [walkdir] are a class.  [process::exit] ends
    the script like a panic. *)

From S2P Require Import Prelude Extern WakerReg State Sim Device Build.
From Stdlib Require Import Ascii.
#[local] Open Scope string_scope.
#[local] Open Scope list_scope.

(** [std::process::Command]. *)
Record Command : Type := mkCommand {
  program : string;
  cwd : option string;
  cmd_args : list string;
  cmd_envs : list (string * string);
}.

(** [llvm_tools::Error]. *)
Inductive LlvmError : Type := LlvmNotFound | LlvmOther (debug : string).

(** [walkdir::DirEntry]: the components of its path below the root of the walk. *)
Record DirEntry : Type := mkDirEntry { components : list string; is_dir : bool }.
Definition entry_depth (e : DirEntry) : nat := length (components e).

Class Tools : Type := {
  Disk : Type;
  path_exists : Disk → string → bool;
  canonicalize : Disk → string → option string;
  file_create : Disk → string → option Disk;
  file_writeln : Disk → string → string → option Disk;
  (* [None] when the command does not start *)
  status : Disk → Command → option bool * Disk;
  llvm_tools_new : result unit LlvmError;
  llvm_tool : string → option string;
  dir_at : Disk → string → list string → bool;
  (* [WalkDir::new(root).into_iter().filter_entry(f)]; [None] is an entry with an error *)
  walk : Disk → string → (DirEntry → bool) → list (option DirEntry);
}.

(** An entry is yielded when the filter accepts it and the directories above it, which are not
    descended into otherwise. *)
Class WalkLaws (tools : Tools) : Prop := {
  walk_entry d root f e :
    Some e ∈ walk d root f →
    e = mkDirEntry (components e) (dir_at d root (components e)) ∧
    (∀ cs, cs `prefix_of` components e → f (mkDirEntry cs (dir_at d root cs)) = true) ∧
    (∀ cs, cs `prefix_of` components e → cs ≠ components e → dir_at d root cs = true);
}.

(** What cargo reads from its arguments: the options and their values. *)
Fixpoint cargo_options (args : list string) : list (string * string) :=
  match args with
  | [] => []
  | o :: rest =>
      if existsb (String.eqb o) ["-Z"; "--target"; "--target-dir"; "--features"] then
        match rest with
        | v :: rest => (o, v) :: cargo_options rest
        | [] => []
        end
      else (o, "") :: cargo_options rest
  end.

Definition option_value (o : string) (args : list string) : option string :=
  snd <$> List.find (λ ov, String.eqb o (fst ov)) (cargo_options args).

(** A [cargo build] for [target] into [dir] with [profile]. *)
Definition reads_args (args : list string) target (dir : option string) (profile : string) : Prop :=
  head args = Some "build" ∧ option_value "--target" args = Some target ∧
  option_value "--target-dir" args = dir ∧
  profile = match option_value "--release" args with Some _ => "release" | None => "debug" end.

(** The bare-metal targets of the kernel. *)
Definition kernel_targets : list string :=
  ["x86_64-unknown-none-hermitkernel"; "aarch64-unknown-hermit"; "riscv64gc-unknown-hermit"].

(** What the script relies on when it uses the disk and the tools.  Files are created in
    directories that exist; a canonical path has the same files below it; [cargo download] puts
    the source where [--output] says; [cargo build] in the source of the kernel leaves the library
    in the directory of the target and the profile, below [--target-dir] if it is given;
    [llvm-objcopy] edits a library that is there.  Nothing of this deletes a file. *)
Class ToolLaws (tools : Tools) (cargo : string) : Prop := {
  create_in d dir name :
    path_exists d dir = true →
    ∃ d', file_create d (slash dir name) = Some d' ∧ path_exists d' (slash dir name) = true ∧
      ∀ p, path_exists d p = true → path_exists d' p = true;
  write_to d p l :
    path_exists d p = true →
    ∃ d', file_writeln d p l = Some d' ∧ ∀ p, path_exists d p = true → path_exists d' p = true;
  canonical d p :
    path_exists d p = true →
    ∃ c, canonicalize d p = Some c ∧
      ∀ name, path_exists d (slash p name) = true → path_exists d (slash c name) = true;
  cargo_downloads d out_dir dest crate :
    path_exists d out_dir = true →
    ∃ d', status d (mkCommand cargo (Some out_dir) ["download"; "--output"; dest; "--extract"; crate] []) =
            (Some true, d') ∧
      path_exists d' dest = true ∧ ∀ p, path_exists d p = true → path_exists d' p = true;
  cargo_builds d src args envs target dir profile :
    path_exists d src = true → reads_args args target dir profile → target ∈ kernel_targets →
    let place := slash (slash (default (slash src "target") dir) target) profile in
    ∃ d', status d (mkCommand cargo (Some src) args envs) = (Some true, d') ∧
      path_exists d' place = true ∧ path_exists d' (slash place "libhermit.a") = true ∧
      ∀ p, path_exists d p = true → path_exists d' p = true;
  objcopy_edits d tool lib old new :
    llvm_tool "llvm-objcopy" = Some tool → path_exists d lib = true →
    ∃ d', status d (mkCommand tool None ["--redefine-sym"; old +:+ "=" +:+ new; lib] []) =
            (Some true, d') ∧
      ∀ p, path_exists d p = true → path_exists d' p = true;
}.

(** The environment of the script and of its compilation. *)
Record Vars : Type := mkVars {
  CARGO : string;
  OUT_DIR : option string;
  PROFILE : option string;
  CARGO_ENCODED_RUSTFLAGS : option string;
  target_arch : option string;
  working_dir : option string;
  parent_dir : string → option string;
  temp_dir : string;
  HERMIT_IP : option string;
  HERMIT_GATEWAY : option string;
  HERMIT_MASK : option string;
}.

(** The [cfg]s of the build that do not concern the kernel. *)
Record Config : Type := mkConfig { windows : bool; with_submodule : bool; rustc_dep_of_std : bool }.

Section BuildScript.
Context {tools : Tools} (vars : Vars) (cfg : Config) (f : Features).

Record Script : Type := mkScript {
  disk : Disk;
  ran : list Command;
  out : list string;
  err : list string;
}.

Definition println (s : string) : M Script unit :=
  modify (λ w, mkScript (disk w) (ran w) (out w ++ [s]) (err w)).
Definition eprintln (s : string) : M Script unit :=
  modify (λ w, mkScript (disk w) (ran w) (out w) (err w ++ [s])).
Definition set_disk (d : Disk) : M Script unit :=
  modify (λ w, mkScript d (ran w) (out w) (err w)).
Definition exit1 {A} : M Script A := panic "process::exit(1)".
Definition assert (b : bool) (msg : string) : M Script unit := if b then mret tt else panic msg.

(** [cmd.status().expect(msg)]. *)
Definition run (msg : string) (c : Command) : M Script bool :=
  w ← gets (λ w, w);
  let '(r, d) := status (disk w) c in
  _ ← modify (λ w, mkScript d (ran w ++ [c]) (out w) (err w));
  unwrap_opt msg r.

Fixpoint for_each {A} (body : A → M Script unit) (l : list A) : M Script unit :=
  match l with [] => mret tt | x :: l => _ ← body x; for_each body l end.

Definition objcopy (tool symbol lib : string) : Command :=
  mkCommand tool None ["--redefine-sym"; redefine_arg symbol; lib] [].

Definition rename_symbol (symbol lib : string) : M Script unit :=
  match llvm_tools_new with
  | Err LlvmNotFound =>
      _ ← eprintln "Error: llvm-tools not found";
      _ ← eprintln "Maybe the rustup component `llvm-tools-preview` is missing?";
      _ ← eprintln "  Install it through: `rustup component add llvm-tools-preview`";
      exit1
  | Err (LlvmOther e) =>
      _ ← eprintln ("Failed to retrieve llvm-tools component: " +:+ e);
      exit1
  | Ok _ =>
      tool ← unwrap_opt "llvm-objcopy not found in llvm-tools" (llvm_tool "llvm-objcopy");
      success ← run "failed to execute llvm-objcopy" (objcopy tool symbol lib);
      assert success "llvm-objcopy was not successful"
  end.

Definition cargo_build (arch target profile outer src_dir : string) (target_dir_opt : option string)
    : Command :=
  mkCommand (CARGO vars) (Some src_dir) (build_args arch target profile target_dir_opt f)
    [("CARGO_TERM_COLOR", "always"); ("CARGO_ENCODED_RUSTFLAGS", encoded_rustflags f outer)].

(** What cargo is told about the library. *)
Definition link_directives (lib_location : string) : M Script unit :=
  _ ← println ("cargo:rustc-link-search=native=" +:+ lib_location);
  _ ← println "cargo:rustc-link-lib=static=hermit";
  println "cargo:rerun-if-env-changed=HERMIT_LOG_LEVEL_FILTER".

Definition run_build_hermit (src_dir : string) (target_dir_opt : option string) : M Script unit :=
  d ← gets disk;
  _ ← assert (path_exists d src_dir) "rusty_hermit source folder does not exist";
  arch ← unwrap_opt "Could not get target info" (target_arch vars);
  profile ← unwrap_opt "PROFILE was not set" (PROFILE vars);
  target ← unwrap_opt "Try to build for an unsupported platform" (kernel_target arch);
  let target_dir := match target_dir_opt with
                    | Some d => d
                    | None => slash src_dir "target"
                    end in
  outer ← unwrap_opt UNWRAP (CARGO_ENCODED_RUSTFLAGS vars);
  success ← run "failed to start kernel build"
              (cargo_build arch target profile outer src_dir target_dir_opt);
  _ ← assert success "assertion failed: status.success()";
  d ← gets disk;
  lib_location ← unwrap_opt UNWRAP (canonicalize d (slash (slash target_dir target) profile));
  _ ← println ("Lib location: " +:+ lib_location);
  _ ← for_each (λ symbol, rename_symbol symbol (slash lib_location "libhermit.a")) (renamed_symbols f);
  link_directives lib_location.

(** The path of an entry; [path().ends_with(name)] compares the last component. *)
Definition entry_path (root : string) (e : DirEntry) : string := foldl slash root (components e).
Definition entry_name (e : DirEntry) : string := default "" (last (components e)).

Definition entry_not_ignored (e : DirEntry) : bool :=
  is_not_ignored (entry_depth e) (is_dir e) (entry_name e).

Definition configure_cargo_rerun_if_changed (src_dir : string) : M Script unit :=
  d ← gets disk;
  let entries := omap (λ e, e) (walk d src_dir entry_not_ignored) in
  let paths := omap (λ e, canonicalize d (entry_path src_dir e)) entries in
  for_each (λ x, println ("cargo:rerun-if-changed=" +:+ x)) paths.

Definition cargo_download (out_dir src_dir : string) : Command :=
  mkCommand (CARGO vars) (Some out_dir)
    ["download"; "--output"; src_dir; "--extract"; "rusty-hermit"] [].

(** The two versions of [build]. *)
Definition build_download : M Script unit :=
  out_dir ← (if windows cfg then mret (temp_dir vars) else unwrap_opt UNWRAP (OUT_DIR vars));
  let src_dir := slash out_dir "rusty-hermit" in
  d ← gets disk;
  _ ← (if negb (path_exists d src_dir) then
         success ← run "failed to start kernel download" (cargo_download out_dir src_dir);
         assert success "Unable to download rusty-hermit. Is cargo-download installed?"
       else mret tt);
  run_build_hermit src_dir None.

Definition build_submodule : M Script unit :=
  out_dir ← unwrap_opt UNWRAP (OUT_DIR vars);
  let target_dir := slash out_dir "target" in
  wd ← unwrap_opt UNWRAP (working_dir vars);
  parent ← unwrap_opt "called `Option::unwrap()` on a `None` value" (parent_dir vars wd);
  let src_dir := slash parent "libhermit-rs" in
  _ ← run_build_hermit src_dir (Some target_dir);
  configure_cargo_rerun_if_changed src_dir.

Definition build : M Script unit := if with_submodule cfg then build_submodule else build_download.

(** [writeln!(&mut f, ..).expect(..)]. *)
Definition write_line (path l : string) : M Script unit :=
  d ← gets disk;
  d' ← unwrap_opt "Could not write file" (file_writeln d path l);
  set_disk d'.

Definition run_create_constants : M Script unit :=
  out_dir ← unwrap_opt "No out dir" (OUT_DIR vars);
  let dest_path := slash out_dir "constants.rs" in
  d ← gets disk;
  d' ← unwrap_opt "Could not create file" (file_create d dest_path);
  _ ← set_disk d';
  let '(ip, gateway, mask) := constants (HERMIT_IP vars) (HERMIT_GATEWAY vars) (HERMIT_MASK vars) in
  _ ← write_line dest_path (constant_line "HERMIT_IP" ip);
  _ ← println "cargo:rerun-if-env-changed=HERMIT_IP";
  _ ← write_line dest_path (constant_line "HERMIT_GATEWAY" gateway);
  _ ← println "cargo:rerun-if-env-changed=HERMIT_GATEWAY";
  _ ← write_line dest_path (constant_line "HERMIT_MASK" mask);
  println "cargo:rerun-if-env-changed=HERMIT_MASK".

Definition main : M Script unit :=
  if rustc_dep_of_std cfg then mret tt
  else _ ← run_create_constants; build.
End BuildScript.

Arguments Script : clear implicits.
Arguments Script {tools}.

(** ** The plan is carried out *)

Section Spec.
Context {tools : Tools} (vars : Vars) (cfg : Config) (f : Features).
Implicit Types (w : Script).

Lemma run_done msg c w success w' :
  run msg c w = Done success w' →
  status (disk w) c = (Some success, disk w') ∧
  ran w' = ran w ++ [c] ∧ out w' = out w ∧ err w' = err w.
Proof.
  unfold run, mbind, M_bind, gets, modify. destruct (status (disk w) c) as [[b|] d]; [|done].
  by intros [= <- <-].
Qed.

Lemma assert_done b msg w w' : assert b msg w = Done tt w' → b = true ∧ w' = w.
Proof. destruct b; [|done]. by intros [= <-]. Qed.

Lemma unwrap_opt_done {A} msg (o : option A) w a w' :
  unwrap_opt msg o w = Done a w' → o = Some a ∧ w' = w.
Proof. destruct o; [|done]. by intros [= -> <-]. Qed.

(** The program that renames the symbols. *)
Definition objcopy_path : string := default "" (llvm_tool "llvm-objcopy").

(** Renaming symbols starts one command for each of them. *)
Lemma rename_symbol_done symbol lib w w' :
  rename_symbol symbol lib w = Done tt w' →
  ran w' = ran w ++ [objcopy objcopy_path symbol lib] ∧ out w' = out w.
Proof.
  unfold rename_symbol, objcopy_path. destruct llvm_tools_new as [[]|[|e]].
  2,3: repeat (intros (? & ? & _ & H)%bind_done; revert H); done.
  intros (tool & w1 & [-> ->]%unwrap_opt_done & H)%bind_done.
  by apply bind_done in H as (b & w2 & (_ & Hr & Ho & _)%run_done & [_ ->]%assert_done).
Qed.

Lemma for_each_done {A B} (body : A → M Script unit) (get : Script → list B) (g : A → B) l w w' :
  (∀ x w w', body x w = Done tt w' → get w' = get w ++ [g x]) →
  for_each body l w = Done tt w' → get w' = get w ++ (g <$> l).
Proof.
  intros Hb. revert w. induction l as [|x l IH]; intros w; [intros [= <-]; by rewrite app_nil_r|].
  intros ([] & w1 & H1%Hb & H2)%bind_done. rewrite (IH _ H2), H1. by rewrite <- app_assoc.
Qed.

Lemma for_each_keeps {A B} (body : A → M Script unit) (get : Script → B) l w w' :
  (∀ x w w', body x w = Done tt w' → get w' = get w) →
  for_each body l w = Done tt w' → get w' = get w.
Proof.
  intros Hb. revert w. induction l as [|x l IH]; intros w; [by intros [= <-]|].
  intros ([] & w1 & H1%Hb & H2)%bind_done. by rewrite (IH _ H2).
Qed.

Lemma println_done s w w' :
  println s w = Done tt w' → disk w' = disk w ∧ ran w' = ran w ∧ out w' = out w ++ [s].
Proof. by intros [= <-]. Qed.

(** What a kernel build adds to the state of the script: the commands and the lines of the
    plan, where [d] is the disk that [cargo] has left. *)
Definition built (src_dir : string) (target_dir_opt : option string) w w' : Prop :=
  ∃ arch profile outer b d,
    target_arch vars = Some arch ∧ PROFILE vars = Some profile ∧
    CARGO_ENCODED_RUSTFLAGS vars = Some outer ∧
    build_hermit (path_exists (disk w) src_dir) true (canonicalize d) arch profile outer f
      src_dir target_dir_opt = Ok b ∧
    let cargo := mkCommand (CARGO vars) (Some (Build.current_dir b)) (args b) (envs b) in
    status (disk w) cargo = (Some true, d) ∧
    ran w' = ran w ++ cargo ::
      ((λ s, objcopy objcopy_path s (slash (lib_location b) "libhermit.a")) <$> renamed b) ∧
    out w' = out w ++ printed b.

Lemma run_build_hermit_done src_dir target_dir_opt w w' :
  run_build_hermit vars f src_dir target_dir_opt w = Done tt w' → built src_dir target_dir_opt w w'.
Proof.
  unfold run_build_hermit. intros (d & w0 & [= <- <-] & H)%bind_done.
  apply bind_done in H as ([] & w1 & [Hex ->]%assert_done & H).
  apply bind_done in H as (arch & w2 & [Harch ->]%unwrap_opt_done & H).
  apply bind_done in H as (profile & w3 & [Hprof ->]%unwrap_opt_done & H).
  apply bind_done in H as (target & w4 & [Ht ->]%unwrap_opt_done & H).
  apply bind_done in H as (outer & w5 & [Hout ->]%unwrap_opt_done & H).
  apply bind_done in H as (success & w6 & (Hst & Hr6 & Ho6 & _)%run_done & H).
  apply bind_done in H as ([] & w7 & [-> ->]%assert_done & H).
  apply bind_done in H as (d & w8 & [= <- <-] & H).
  apply bind_done in H as (loc & w9 & [Hloc ->]%unwrap_opt_done & H).
  apply bind_done in H as ([] & w10 & (_ & Hr10 & Ho10)%println_done & H).
  apply bind_done in H as ([] & w11 & H11 & H).
  pose proof (for_each_done _ ran _ _ _ _ (λ x w w' Hx, proj1 (rename_symbol_done _ _ w w' Hx)) H11) as Hr11.
  pose proof (for_each_keeps _ out _ _ _ (λ x w w' Hx, proj2 (rename_symbol_done _ _ w w' Hx)) H11) as Ho11.
  apply bind_done in H as ([] & w12 & (_ & Hr12 & Ho12)%println_done & H).
  apply bind_done in H as ([] & w13 & (_ & Hr13 & Ho13)%println_done & (_ & Hr14 & Ho14)%println_done).
  set (b := mkBuild src_dir (build_args arch target profile target_dir_opt f) [("CARGO_TERM_COLOR", "always");
     ("CARGO_ENCODED_RUSTFLAGS", encoded_rustflags f outer)] loc (renamed_symbols f)
     ["Lib location: " +:+ loc; "cargo:rustc-link-search=native=" +:+ loc;
      "cargo:rustc-link-lib=static=hermit"; "cargo:rerun-if-env-changed=HERMIT_LOG_LEVEL_FILTER"]).
  exists arch, profile, outer, b, (disk w6). do 3 (split; [done|]).
  split; [|split; [exact Hst|split]].
  - unfold build_hermit. rewrite Hex, Ht. simpl. by rewrite Hloc.
  - rewrite Hr14, Hr13, Hr12, Hr11, Hr10, Hr6, <- app_assoc. done.
  - rewrite Ho14, Ho13, Ho12, Ho11, Ho10, Ho6, <- !app_assoc. done.
Qed.

(** The constants have been written, one after the other, to the file of that name. *)
Definition constants_written w w' : Prop :=
  ∃ out_dir, OUT_DIR vars = Some out_dir ∧
    let dest := slash out_dir "constants.rs" in
    foldl (λ d l, d ≫= λ d, file_writeln d dest l) (file_create (disk w) dest)
      (create_constants (HERMIT_IP vars) (HERMIT_GATEWAY vars) (HERMIT_MASK vars)) = Some (disk w') ∧
    ran w' = ran w ∧
    out w' = out w ++ ((λ name, "cargo:rerun-if-env-changed=" +:+ name) <$>
                         ["HERMIT_IP"; "HERMIT_GATEWAY"; "HERMIT_MASK"]).

Lemma write_line_done path l w w' :
  write_line path l w = Done tt w' →
  file_writeln (disk w) path l = Some (disk w') ∧ ran w' = ran w ∧ out w' = out w.
Proof.
  intros (d & w0 & [= <- <-] & H)%bind_done.
  by apply bind_done in H as (d' & w1 & [-> ->]%unwrap_opt_done & [= <-]).
Qed.

Lemma run_create_constants_done w w' :
  run_create_constants vars w = Done tt w' → constants_written w w'.
Proof.
  unfold run_create_constants. intros (out_dir & w1 & [Hout ->]%unwrap_opt_done & H)%bind_done.
  exists out_dir. split; [done|]. set (dest := slash out_dir "constants.rs") in *. clearbody dest.
  apply bind_done in H as (d & w1 & [= <- <-] & H).
  apply bind_done in H as (d & w2 & [Hd ->]%unwrap_opt_done & H).
  apply bind_done in H as ([] & w2 & [= <-] & H).
  unfold create_constants. destruct (constants _ _ _) as [[ip gateway] mask].
  apply bind_done in H as ([] & w3 & (Hd3 & Hr3 & Ho3)%write_line_done & H).
  apply bind_done in H as ([] & w4 & (Hd4 & Hr4 & Ho4)%println_done & H).
  apply bind_done in H as ([] & w5 & (Hd5 & Hr5 & Ho5)%write_line_done & H).
  apply bind_done in H as ([] & w6 & (Hd6 & Hr6 & Ho6)%println_done & H).
  apply bind_done in H as ([] & w7 & (Hd7 & Hr7 & Ho7)%write_line_done & (Hd8 & Hr8 & Ho8)%println_done).
  simpl in Hd3, Hr3, Ho3. split_and!.
  - cbn [foldl]. rewrite Hd. simpl. rewrite Hd3. simpl. rewrite <- Hd4, Hd5. simpl.
    rewrite <- Hd6, Hd7, Hd8. done.
  - congruence.
  - rewrite Ho8, Ho7, Ho6, Ho5, Ho4, Ho3, <- !app_assoc. done.
Qed.

(** What is watched: the entries of the source that the filter lets through. *)
Definition watched_lines (src_dir : string) (d : Disk) : list string :=
  (λ x, "cargo:rerun-if-changed=" +:+ x) <$>
  omap (λ e, canonicalize d (entry_path src_dir e)) (omap (λ e, e) (walk d src_dir entry_not_ignored)).

Lemma configure_done src_dir w w' :
  configure_cargo_rerun_if_changed src_dir w = Done tt w' →
  ran w' = ran w ∧ out w' = out w ++ watched_lines src_dir (disk w).
Proof.
  intros (d & w0 & [= <- <-] & H)%bind_done. split.
  - apply (for_each_keeps _ ran) in H; [done|]. by intros x w1 w2 [= <-].
  - unfold watched_lines.
    apply (for_each_done _ out (λ x, "cargo:rerun-if-changed=" +:+ x)) in H; [done|].
    by intros x w1 w2 [= <-].
Qed.

(** Before the build the source of the kernel may be downloaded. *)
Definition downloaded (out_dir src_dir : string) w w' : Prop :=
  if path_exists (disk w) src_dir then w' = w
  else status (disk w) (cargo_download vars out_dir src_dir) = (Some true, disk w') ∧
       ran w' = ran w ++ [cargo_download vars out_dir src_dir] ∧ out w' = out w.

Lemma build_download_done w w' :
  build_download vars cfg f w = Done tt w' →
  ∃ out_dir w1, (if windows cfg then out_dir = temp_dir vars else OUT_DIR vars = Some out_dir) ∧
    downloaded out_dir (slash out_dir "rusty-hermit") w w1 ∧
    built (slash out_dir "rusty-hermit") None w1 w'.
Proof.
  intros (out_dir & w0 & H0 & H)%bind_done.
  assert (w0 = w ∧ if windows cfg then out_dir = temp_dir vars else OUT_DIR vars = Some out_dir)
    as [-> Hout].
  { destruct (windows cfg); [by injection H0 as <- <-|]. by apply unwrap_opt_done in H0 as [? ->]. }
  apply bind_done in H as (d & w1 & [= <- <-] & H).
  apply bind_done in H as ([] & w2 & Hd & H%run_build_hermit_done).
  exists out_dir, w2. split_and!; [done| |done]. unfold downloaded.
  destruct (path_exists _ _); simpl in Hd; [by injection Hd as <-|].
  by apply bind_done in Hd as (b & w3 & (Hst & Hr & Ho & _)%run_done & [-> ->]%assert_done).
Qed.
End Spec.

(** ** Properties *)

Section Properties.
Context {tools : Tools} (vars : Vars) (cfg : Config) (f : Features).
Implicit Types (w : Script).

(** C37: A run of the script that ends without a panic has followed the plan: it has written the
    three constants, downloaded the source if it was not there, started [cargo] in the source
    with the arguments and flags of the plan, and then one renaming for each symbol, on the
    library in the directory [cargo] has built; what it tells the outer [cargo] are the lines of
    the plan.  With the submodule the entries of the source are watched instead of downloaded. *)
Theorem script_follows_plan w w' :
  rustc_dep_of_std cfg = false → main vars cfg f w = Done tt w' →
  ∃ w1 out_dir, constants_written vars w w1 ∧
    if with_submodule cfg then
      ∃ w2 wd parent, OUT_DIR vars = Some out_dir ∧ working_dir vars = Some wd ∧
        parent_dir vars wd = Some parent ∧
        built vars f (slash parent "libhermit-rs") (Some (slash out_dir "target")) w1 w2 ∧
        ran w' = ran w2 ∧ out w' = out w2 ++ watched_lines (slash parent "libhermit-rs") (disk w2)
    else
      ∃ w2, (if windows cfg then out_dir = temp_dir vars else OUT_DIR vars = Some out_dir) ∧
        downloaded vars out_dir (slash out_dir "rusty-hermit") w1 w2 ∧
        built vars f (slash out_dir "rusty-hermit") None w2 w'.
Proof.
  intros Hdep. unfold main. rewrite Hdep.
  intros ([] & w1 & Hc%run_create_constants_done & H)%bind_done. exists w1.
  unfold build in H. destruct (with_submodule cfg).
  - apply bind_done in H as (out_dir & w2 & [Hout ->]%unwrap_opt_done & H).
    apply bind_done in H as (wd & w2 & [Hwd ->]%unwrap_opt_done & H).
    apply bind_done in H as (parent & w2 & [Hp ->]%unwrap_opt_done & H).
    apply bind_done in H as ([] & w2 & Hb%run_build_hermit_done & [Hr Ho]%configure_done).
    exists out_dir. split; [done|]. by exists w2, wd, parent.
  - apply build_download_done in H as (out_dir & w2 & Hout & Hd & Hb).
    exists out_dir. split; [done|]. by exists w2.
Qed.

(** What is under a directory [target], [.git] or [.vscode] of the source, or such a directory
    itself, does not start a new build; [.cargo], [.github] and deeper directories of
    these names do. *)
Lemma ignored_not_watched {wl : WalkLaws tools} d root e c cs :
  Some e ∈ walk d root entry_not_ignored → components e = c :: cs →
  c ∈ ["target"; ".git"; ".vscode"] → cs = [] ∧ is_dir e = false.
Proof.
  intros Hin He Hc. destruct (walk_entry _ _ _ _ Hin) as (Heq & Hf & Hd). rewrite He in *.
  assert (Hdir : dir_at d root [c] = false).
  { specialize (Hf [c] ltac:(by exists cs)). unfold entry_not_ignored, is_not_ignored in Hf.
    cbn [entry_depth components length is_dir entry_name last default from_option id] in Hf.
    destruct (dir_at d root [c]); [|done]. unfold entry_name, entry_depth in Hf; simpl in Hf.
    rewrite !elem_of_cons, elem_of_nil in Hc.
    by destruct Hc as [->|[->|[->|[]]]]. }
  destruct cs as [|c2 cs].
  - split; [done|]. by rewrite Heq.
  - rewrite Hd in Hdir; [done|by exists (c2 :: cs)|done].
Qed.

(** The state of the script grows: no file disappears, no line is taken back. *)
Definition grows w w' : Prop :=
  (∀ p, path_exists (disk w) p = true → path_exists (disk w') p = true) ∧
  (∀ l, l ∈ out w → l ∈ out w').

#[local] Instance grows_preorder : PreOrder grows.
Proof. split; [by split|]. intros w1 w2 w3 [Hp Ho] [Hp' Ho']. split; auto. Qed.

(** [m] ends without a panic in [w], in a state that has grown and satisfies [Q]. *)
Definition ends {A} (m : M Script A) (Q : A → Script → Prop) w : Prop :=
  wp true m (λ a w', grows w w' ∧ Q a w') (λ _ _, False) w.

Lemma ends_ret {A} (a : A) (Q : A → Script → Prop) w : Q a w → ends (mret a) Q w.
Proof. intros HQ. apply wp_ret. by split. Qed.

Lemma ends_bind {A B} (m : M Script A) (k : A → M Script B) Q R w :
  ends m Q w → (∀ a w', grows w w' → Q a w' → ends (k a) R w') → ends (m ≫= k) R w.
Proof.
  intros Hm Hk. apply wp_bind. eapply wp_conseq; [apply Hm|]. intros a w' [Hg HQ].
  eapply wp_conseq; [by apply Hk|]. intros b w'' [Hg' HR]. split; [by etrans|done].
Qed.

Lemma ends_unwrap {A B} msg (o : option A) (a : A) (k : A → M Script B) R w :
  o = Some a → ends (k a) R w → ends (unwrap_opt msg o ≫= k) R w.
Proof. by intros ->. Qed.

Lemma ends_assert {B} b msg (k : unit → M Script B) R w :
  b = true → ends (k tt) R w → ends (assert b msg ≫= k) R w.
Proof. by intros ->. Qed.

Lemma ends_gets {A B} (g : Script → A) (k : A → M Script B) R w :
  ends (k (g w)) R w → ends (gets g ≫= k) R w.
Proof. done. Qed.

Lemma ends_println s w : ends (println s) (λ _ w', s ∈ out w' ∧ disk w' = disk w) w.
Proof.
  apply wp_modify. split; [split; [done|]; simpl; intros; apply elem_of_app; by left|].
  split; [|done]. apply elem_of_app. right. by left.
Qed.

Lemma ends_for_each {A} (body : A → M Script unit) l (P : Script → Prop) w :
  (∀ x w, P w → ends (body x) (λ _, P) w) → P w → ends (for_each body l) (λ _, P) w.
Proof.
  intros Hb. revert w. induction l as [|x l IH]; intros w HP; [by apply ends_ret|].
  eapply ends_bind; [by apply Hb|]. intros [] w' _ HP'. by apply IH.
Qed.

Lemma ends_run {B} msg c d' (k : bool → M Script B) R w :
  status (disk w) c = (Some true, d') →
  (∀ p, path_exists (disk w) p = true → path_exists d' p = true) →
  (∀ w', disk w' = d' → grows w w' → ends (k true) R w') → ends (run msg c ≫= k) R w.
Proof.
  intros Hs Hd Hk. eapply (ends_bind _ _ (λ b w', b = true ∧ disk w' = d')).
  - unfold ends, run. wp_run. rewrite Hs. wp_run. by split.
  - intros b w' Hg [-> Hw]. by apply Hk.
Qed.

Context {laws : ToolLaws tools (CARGO vars)}.

(** A machine the script can run on: cargo has set the variables of a build script for an
    architecture of the kernel and one of the two profiles, [OUT_DIR] exists, the llvm tools are
    installed and the submodule, where it is used, is checked out. *)
Record ready w : Prop := mkReady {
  has_out_dir : ∃ o, OUT_DIR vars = Some o ∧ path_exists (disk w) o = true;
  has_temp_dir : path_exists (disk w) (temp_dir vars) = true;
  has_profile : ∃ p, PROFILE vars = Some p ∧ p ∈ ["release"; "debug"];
  has_flags : is_Some (CARGO_ENCODED_RUSTFLAGS vars);
  has_arch : ∃ a, target_arch vars = Some a ∧ a ∈ ["x86_64"; "aarch64"; "riscv64"];
  has_submodule : with_submodule cfg = true → ∃ wd parent,
    working_dir vars = Some wd ∧ parent_dir vars wd = Some parent ∧
    path_exists (disk w) (slash parent "libhermit-rs") = true;
  has_llvm : llvm_tools_new = Ok tt;
  has_objcopy : is_Some (llvm_tool "llvm-objcopy");
}.

(** Later the machine is as ready as before. *)
Lemma ready_grows w w' : grows w w' → ready w → ready w'.
Proof.
  intros [Hp _] [(o & Ho & Hoe) Htmp Hpr Hfl Har Hsub Hll Hob]. split; auto.
  - exists o. auto.
  - intros Hs. destruct (Hsub Hs) as (wd & parent & ? & ? & ?). exists wd, parent. auto.
Qed.

(** The library is there, in the directory that cargo is told to search. *)
Definition linked w : Prop :=
  ∃ loc, path_exists (disk w) (slash loc "libhermit.a") = true ∧
    "cargo:rustc-link-search=native=" +:+ loc ∈ out w ∧
    "cargo:rustc-link-lib=static=hermit" ∈ out w.

Lemma ends_rename symbol lib w :
  llvm_tools_new = Ok tt → is_Some (llvm_tool "llvm-objcopy") → path_exists (disk w) lib = true →
  ends (rename_symbol symbol lib) (λ _ w', path_exists (disk w') lib = true) w.
Proof.
  intros Hll [tool Ht] Hlib. unfold rename_symbol. rewrite Hll. eapply ends_unwrap; [done|].
  destruct (objcopy_edits (disk w) tool lib symbol ("kernel-" +:+ symbol) Ht Hlib) as (d & Hst & Hd).
  eapply ends_run; [exact Hst|done|]. intros w' <- _. apply wp_ret. split; [done|auto].
Qed.

(** What cargo makes of the arguments of the build, whatever the features. *)
Lemma build_args_read arch target profile dir :
  kernel_target arch = Some target → arch ∈ ["x86_64"; "aarch64"; "riscv64"] →
  profile ∈ ["release"; "debug"] →
  reads_args (build_args arch target profile dir f) target dir profile.
Proof.
  intros Ht Ha%list_elem_of_In Hp%list_elem_of_In.
  destruct f as [[] [] [] [] [] ? ?], dir, Hp as [<-|[<-|[]]], Ha as [<-|[<-|[<-|[]]]];
    injection Ht as <-; repeat split.
Qed.

Lemma ends_build_hermit src dir w :
  ready w → path_exists (disk w) src = true →
  ends (run_build_hermit vars f src dir) (λ _, linked) w.
Proof.
  intros [_ _ (profile & Hpr & Hprof) [outer Hfl] (arch & Har & Harch) _ Hll Hob] Hsrc.
  unfold run_build_hermit. apply ends_gets, ends_assert; [done|].
  eapply ends_unwrap; [done|]. eapply ends_unwrap; [done|].
  assert (∃ target, kernel_target arch = Some target ∧ target ∈ kernel_targets) as (target & Ht & Hin).
  { pose proof Harch as Ha%list_elem_of_In.
    destruct Ha as [<-|[<-|[<-|[]]]]; eexists; (split; [done|]); apply list_elem_of_In; simpl; auto. }
  eapply ends_unwrap; [done|]. eapply ends_unwrap; [done|].
  destruct (cargo_builds (disk w) src _ [("CARGO_TERM_COLOR", "always");
      ("CARGO_ENCODED_RUSTFLAGS", encoded_rustflags f outer)] _ _ _ Hsrc
      (build_args_read _ _ _ dir Ht Harch Hprof) Hin) as (d & Hst & Hdir & Hlib & Hd).
  eapply ends_run; [exact Hst|done|]. intros w1 <- _.
  apply ends_assert; [done|]. apply ends_gets.
  destruct (canonical (disk w1) _ Hdir) as (loc & Hloc & Hfiles). apply Hfiles in Hlib.
  eapply ends_unwrap; [exact Hloc|].
  eapply ends_bind; [apply ends_println|]. intros [] w2 _ [_ Hw2]. rewrite <- Hw2 in Hlib.
  eapply ends_bind; [apply (ends_for_each _ _ (λ w, path_exists (disk w) (slash loc "libhermit.a") = true));
                     [|exact Hlib]; intros; by apply ends_rename|]. intros [] w3 _ Hw3.
  eapply ends_bind; [apply ends_println|]. intros [] w4 _ [Ho4 Hw4].
  eapply ends_bind; [apply ends_println|]. intros [] w5 [_ Hg5] [Ho5 Hw5].
  eapply wp_conseq; [apply ends_println|]. intros [] w6 [[_ Hg6] [_ Hw6]].
  split; [by split; [intros p; rewrite Hw6|]|]. exists loc. split_and!; [congruence|auto|auto].
Qed.

Lemma ends_write_line path l w :
  path_exists (disk w) path = true →
  ends (write_line path l) (λ _ w', path_exists (disk w') path = true) w.
Proof.
  intros Hp. unfold write_line, set_disk. apply ends_gets.
  destruct (write_to (disk w) path l Hp) as (d & Hd & Hk).
  eapply ends_unwrap; [exact Hd|]. apply wp_modify. split; [by split|]. by apply Hk.
Qed.

Lemma ends_create_constants o w :
  OUT_DIR vars = Some o → path_exists (disk w) o = true →
  ends (run_create_constants vars) (λ _ w', path_exists (disk w') (slash o "constants.rs") = true) w.
Proof.
  intros Ho He. unfold run_create_constants, set_disk. eapply ends_unwrap; [exact Ho|].
  apply ends_gets. destruct (create_in (disk w) o "constants.rs" He) as (d & Hd & Hf & Hk).
  eapply ends_unwrap; [exact Hd|].
  eapply (ends_bind _ _ (λ _ w', path_exists (disk w') (slash o "constants.rs") = true)).
  { apply wp_modify. by split. }
  intros [] w1 _ H1. destruct (constants _ _ _) as [[ip gw] mask].
  eapply ends_bind; [by apply ends_write_line|]. intros [] w2 _ H2.
  eapply ends_bind; [apply ends_println|]. intros [] w3 [Hg3 _] _.
  eapply ends_bind; [by apply ends_write_line, Hg3|]. intros [] w4 _ H4.
  eapply ends_bind; [apply ends_println|]. intros [] w5 [Hg5 _] _.
  eapply ends_bind; [by apply ends_write_line, Hg5|]. intros [] w6 _ H6.
  eapply wp_conseq; [apply ends_println|]. intros [] w7 [Hg _]. split; [done|]. by apply Hg.
Qed.

Lemma ends_build_download w : ready w → ends (build_download vars cfg f) (λ _, linked) w.
Proof.
  intros Hr. unfold build_download.
  eapply (ends_bind _ _ (λ o w', path_exists (disk w') o = true ∧ w' = w)).
  { destruct (windows cfg); [apply ends_ret; by destruct Hr|].
    destruct (has_out_dir _ Hr) as (o & Ho & He). rewrite Ho. by apply ends_ret. }
  intros o w' _ [Ho ->]. apply ends_gets.
  eapply (ends_bind _ _ (λ _ w', path_exists (disk w') (slash o "rusty-hermit") = true)).
  - destruct (path_exists (disk w) (slash o "rusty-hermit")) eqn:Hsrc; [by apply ends_ret|]. simpl.
    destruct (cargo_downloads (disk w) o (slash o "rusty-hermit") "rusty-hermit" Ho) as (d & Hst & Hf & Hd).
    eapply ends_run; [exact Hst|done|]. intros w1 <- _. apply wp_ret. by split.
  - intros [] w1 Hg Hs. apply ends_build_hermit; [by eapply ready_grows|done].
Qed.

Lemma ends_build_submodule w :
  ready w → with_submodule cfg = true → ends (build_submodule vars f) (λ _, linked) w.
Proof.
  intros Hr Hsub. unfold build_submodule. destruct (has_out_dir _ Hr) as (o & Ho & _).
  destruct (has_submodule _ Hr Hsub) as (wd & parent & Hwd & Hp & Hs).
  eapply ends_unwrap; [exact Ho|]. eapply ends_unwrap; [exact Hwd|]. eapply ends_unwrap; [exact Hp|].
  eapply ends_bind; [by apply ends_build_hermit|]. intros [] w1 _ Hl.
  unfold configure_cargo_rerun_if_changed. apply ends_gets, ends_for_each; [|done].
  intros x w2 (loc & Hlib & Ho1 & Ho2). eapply wp_conseq; [apply ends_println|].
  intros [] w3 [Hg [_ Hd]]. split; [done|]. destruct Hg as [_ Hg]. exists loc. rewrite Hd. auto.
Qed.

(** C38: On a machine that is ready, the script ends without a panic in every configuration, for
    each of the three architectures and both profiles, whether the source of the kernel is there
    or has to be downloaded.  Then [constants.rs] is in [OUT_DIR], and [libhermit.a] is in the
    directory that the outer cargo is told to link from: the target, the target directory and the
    profile that the script passes on are those of the place where it looks for the library. *)
Theorem script_completes w :
  ready w → ∃ w', main vars cfg f w = Done tt w' ∧
    (rustc_dep_of_std cfg = false →
     linked w' ∧ ∃ o, OUT_DIR vars = Some o ∧ path_exists (disk w') (slash o "constants.rs") = true).
Proof.
  intros Hr. destruct (has_out_dir _ Hr) as (o & Ho & He). unfold main.
  destruct (rustc_dep_of_std cfg); [by exists w|].
  assert (Hm : ends (_ ← run_create_constants vars; build vars cfg f)
    (λ _ w', linked w' ∧ path_exists (disk w') (slash o "constants.rs") = true) w).
  { eapply ends_bind; [by apply ends_create_constants|]. intros [] w1 Hg Hc.
    apply (ready_grows _ _ Hg) in Hr.
    assert (Hb : ends (build vars cfg f) (λ _, linked) w1).
    { unfold build. destruct (with_submodule cfg) eqn:Hs;
        [by apply ends_build_submodule|by apply ends_build_download]. }
    eapply wp_conseq; [apply Hb|]. intros [] w2 [Hg2 Hl]. split; [done|]. split; [done|].
    by apply Hg2. }
  destruct (wp_returns _ _ _ Hm) as ([] & w' & Hrun & _ & Hl & Hc). exists w'. split; [done|].
  intros _. split; [done|]. by exists o.
Qed.
End Properties.

(** ** Witnesses *)

(** A machine on which everything works: the disk maps files to their lines. *)
#[local] Abbreviation sim_disk := (gmap string (list string)).

Definition sim_exists (d : sim_disk) (p : string) : bool := bool_decide (is_Some (d !! p)).

Definition sim_status (d : sim_disk) (c : Command) : sim_disk :=
  match cmd_args c with
  | "build" :: _ =>
      let dir := default (slash (default "" (cwd c)) "target") (option_value "--target-dir" (cmd_args c)) in
      let target := default "" (option_value "--target" (cmd_args c)) in
      let profile := match option_value "--release" (cmd_args c) with
                     | Some _ => "release"
                     | None => "debug"
                     end in
      let place := slash (slash dir target) profile in
      <[slash place "libhermit.a" := []]> (<[place := []]> d)
  | ["download"; _; dest; _; _] => <[dest := []]> d
  | _ => d
  end.

Definition sim_tools : Tools := {|
  Disk := sim_disk;
  path_exists := sim_exists;
  canonicalize d p := if sim_exists d p then Some p else None;
  file_create d p := Some (<[p := []]> d);
  file_writeln d p l := if sim_exists d p then Some (alter (λ ls, ls ++ [l]) p d) else None;
  status d c := (Some true, sim_status d c);
  llvm_tools_new := Ok tt;
  llvm_tool name := Some name;
  dir_at _ _ cs := match cs with [_] => true | _ => false end;
  walk _ _ f := Some <$> filter (λ e, f e = true)
    [mkDirEntry [] true; mkDirEntry [".cargo"] true; mkDirEntry ["target"] true];
|}.

Lemma sim_exists_insert d p q ls : sim_exists d q = true → sim_exists (<[p := ls]> d) q = true.
Proof.
  unfold sim_exists. rewrite !bool_decide_eq_true. intros [x Hx].
  destruct (decide (p = q)) as [->|]; [rewrite lookup_insert_eq|rewrite lookup_insert_ne by done];
    by eexists.
Qed.

Lemma sim_exists_new d p ls : sim_exists (<[p := ls]> d) p = true.
Proof. unfold sim_exists. by rewrite lookup_insert_eq. Qed.

Lemma sim_exists_alter d p q g : sim_exists d q = true → sim_exists (alter g p d) q = true.
Proof. unfold sim_exists. rewrite !bool_decide_eq_true. intros [x Hx]. rewrite lookup_alter_is_Some. by eexists. Qed.

Definition sim_tool_laws cargo : ToolLaws sim_tools cargo.
Proof.
  split; simpl.
  - intros d dir name _. eexists. split; [done|]. split; [apply sim_exists_new|].
    intros; by apply sim_exists_insert.
  - intros d p l ->. eexists. split; [done|]. intros; by apply sim_exists_alter.
  - intros d p ->. eauto.
  - intros d out_dir dest crate _. eexists. split; [done|]. split; [apply sim_exists_new|].
    intros; by apply sim_exists_insert.
  - intros d src args envs target dir profile _ (Hb & Ht & Hd & Hp) _.
    destruct args as [|b args]; [done|]. injection Hb as ->.
    eexists. split; [done|]. cbn [sim_status cmd_args cwd default from_option id].
    rewrite Ht, Hd, <- Hp. cbn [default from_option id]. split_and!.
    + apply sim_exists_insert, sim_exists_new.
    + apply sim_exists_new.
    + intros; by apply sim_exists_insert, sim_exists_insert.
  - intros d tool lib old new _ Hl. by exists d.
Qed.

Definition sim_vars : Vars :=
  mkVars "cargo" (Some "/out") (Some "release") (Some "") (Some "x86_64") (Some "/app/hermit-sys")
    (λ _, Some "/app") "/tmp" None None None.

(** [OUT_DIR], the directory for temporary files and the submodule are there. *)
Definition sim_script : Script (tools := sim_tools) :=
  mkScript (tools := sim_tools)
    (<["/out" := []]> (<["/tmp" := []]> (<["/app/libhermit-rs" := []]> (<["/app/libhermit-rs/.cargo" := []]> ∅))))
    [] [] [].

Definition sim_end : Script (tools := sim_tools) :=
  Eval vm_compute in final sim_script
    (main (tools := sim_tools) sim_vars (mkConfig false true false) (sim_features false) sim_script).

Lemma script_follows_plan_witness :
  last (out sim_end) = Some "cargo:rerun-if-changed=/app/libhermit-rs/.cargo" ∧
  length (ran sim_end) = 8 ∧
  ∃ w1 w2, constants_written sim_vars sim_script w1 ∧
    built sim_vars (sim_features false) "/app/libhermit-rs" (Some "/out/target") w1 w2 ∧
    ran sim_end = ran w2.
Proof.
  split; [reflexivity|]. split; [reflexivity|].
  assert (Hrun : main (tools := sim_tools) sim_vars (mkConfig false true false) (sim_features false)
                   sim_script = Done tt sim_end) by (vm_compute; reflexivity).
  destruct (script_follows_plan (tools := sim_tools) sim_vars (mkConfig false true false)
    (sim_features false) sim_script sim_end eq_refl Hrun)
    as (w1 & out_dir & Hc & w2 & wd & parent & Hout & Hwd & Hp & Hb & Hr & _).
  injection Hout as <-. injection Hp as <-. exists w1, w2. exact (conj Hc (conj Hb Hr)).
Defined.

Lemma sim_ready submodule :
  ready (tools := sim_tools) sim_vars (mkConfig false submodule false) sim_script.
Proof.
  split; try by (eexists; repeat split).
  - eexists. split; [done|]. left.
  - eexists. split; [done|]. left.
  - intros _. exists "/app/hermit-sys", "/app". by repeat split.
Qed.

(** The source of the kernel is not there: it is downloaded and built. *)
Lemma script_completes_witness :
  path_exists (disk sim_script) "/out/rusty-hermit" = false ∧
  ∃ w', main (tools := sim_tools) sim_vars (mkConfig false false false) (sim_features true)
          sim_script = Done tt w' ∧ linked (tools := sim_tools) w'.
Proof.
  split; [vm_compute; reflexivity|].
  destruct (script_completes (tools := sim_tools) sim_vars (mkConfig false false false)
    (sim_features true) (laws := sim_tool_laws "cargo") sim_script (sim_ready false)) as (w' & Hr & Hl).
  exists w'. exact (conj Hr (proj1 (Hl eq_refl))).
Defined.
