(* ===== verification/Netbench.v ===== *)
(** * [benches/netbench]: the network benchmark

    The message loops of connection.rs, the checks of config.rs, the pinning of
    threading.rs and the rounds of the four programs, over a stream whose operations
    are the fields of a class. *)

From S2P Require Import Prelude.

(** [io::ErrorKind], as far as the program tells the kinds apart. *)
Inductive ErrorKind : Type := WouldBlock | OtherKind.

(** [std::net::TcpStream]. *)
Class Stream (W : Type) : Type := {
  stream_write : list Z → M W (result nat ErrorKind);
  (* the buffer of the caller comes back with the result *)
  stream_read : list Z → M W (result nat ErrorKind * list Z);
  stream_set_nodelay : bool → M W (result unit ErrorKind);
  stream_set_nonblocking : bool → M W (result unit ErrorKind);
  stream_shutdown : M W (result unit ErrorKind);
}.

(** [struct Config]; address and port are strings. *)
Record Config : Type := mkConfig {
  address : string;
  port : string;
  n_bytes : nat;
  n_rounds : nat;
  no_delay : bool;
  non_blocking : bool;
  p_id : Z;
}.

Definition address_and_port (c : Config) : string := (address c +:+ ":" +:+ port c)%string.

(** The checks at the end of [parse_config], on a target with 64-bit [usize]: the
    product with 1000000 is taken in [usize], the rest in [u128]. *)
Definition config_check (n_bytes n_rounds : Z) : result unit string :=
  if (100000000 <? n_bytes)%Z then
    Err "More than 100 MB per round is probably too much data you want to send"
  else if (2 ^ 64 - 1 <? wrap 128 (wrap 64 (n_bytes * 1000000) * n_rounds))%Z then
    Err "There's going to be too much data"
  else Ok tt.

(** [threading::setup]: the index of the core to pin to; [None] when the thread is not
    pinned.  [p_id] is an [i8]. *)
Definition core_index (p_id cores : Z) : result (option Z) string :=
  if (0 <=? p_id)%Z then
    if (cores =? 0)%Z then Err "attempt to calculate the remainder with a divisor of zero"
    else Ok (Some (p_id mod cores)%Z)
  else Ok None.

Section Connection.
Context {W : Type} {st : Stream W}.
Variable fuel : nat.

Definition WRITE_ERROR : string := "Error occurred while writing".
Definition READ_ERROR : string := "Error occurred while reading".
Definition RANGE_ERROR : string := "range start index out of range for slice".
Definition REM_ZERO : string := "attempt to calculate the remainder with a divisor of zero".

(** [&buf[from..]]. *)
Definition slice_from (buf : list Z) (from : nat) : M W (list Z) :=
  if from <=? length buf then mret (drop from buf) else panic RANGE_ERROR.

(** The body of the loop of [send_message]. *)
Definition send_round (n_bytes : nat) (wbuf : list Z) (send : nat) : M W (nat + unit) :=
  if send <? n_bytes then
    rest ← slice_from wbuf send;
    r ← stream_write rest;
    match r with
    | Ok n => mret (inl (send + n))
    | Err WouldBlock => mret (inl send)
    | Err OtherKind => panic WRITE_ERROR
    end
  else mret (inr tt).

Definition send_message (n_bytes : nat) (wbuf : list Z) : M W unit :=
  loop fuel (send_round n_bytes wbuf) 0.

(** The body of the loop of [receive_message]; the buffer is carried along. *)
Definition receive_round (n_bytes : nat) (s : nat * list Z)
    : M W (nat * list Z + list Z) :=
  let '(recv, rbuf) := s in
  if recv <? n_bytes then
    rest ← slice_from rbuf recv;
    '(r, rest') ← stream_read rest;
    let rbuf' := take recv rbuf ++ rest' in
    match r with
    | Ok n => mret (inl (recv + n, rbuf'))
    | Err WouldBlock => mret (inl (recv, rbuf'))
    | Err OtherKind => panic READ_ERROR
    end
  else mret (inr rbuf).

Definition receive_message (n_bytes : nat) (rbuf : list Z) : M W (list Z) :=
  loop fuel (receive_round n_bytes) (0, rbuf).

(** [connection::setup]. *)
Definition setup (c : Config) : M W unit :=
  _ ← (if no_delay c then
         r ← stream_set_nodelay true; unwrap_res "Can't set no_delay to true" r
       else mret tt);
  if non_blocking c then
    r ← stream_set_nonblocking true; unwrap_res "Can't set channel to be non-blocking" r
  else mret tt.

Definition close_connection : M W unit :=
  r ← stream_shutdown; unwrap_res "shutdown call failed" r.

(** One round of the latency client; [hist] is the number of values in the histogram.
    The progress line is printed when [i] is a multiple of the step. *)
Definition latency_round (report : nat → M W unit) (n_rounds n_bytes : nat) (wbuf : list Z) (i : nat)
    (s : list Z * nat) : M W (list Z * nat) :=
  let '(rbuf, hist) := s in
  let progress_tracking_percentage := (n_rounds * 2) / 100 in
  _ ← send_message n_bytes wbuf;
  rbuf' ← receive_message n_bytes rbuf;
  let hist' := if n_rounds <=? i then 1 + hist else hist in
  _ ← (if progress_tracking_percentage =? 0 then panic REM_ZERO
       else if i mod progress_tracking_percentage =? 0
       then report (i / progress_tracking_percentage) else mret tt);
  mret (rbuf', hist').

(** The measurement of the latency client, once it is connected. *)
Definition latency_client (report : nat → M W unit) (n_rounds n_bytes : nat)
    : M W (list Z * nat) :=
  for_range 0 (n_rounds * 2) (latency_round report n_rounds n_bytes (repeat 0%Z n_bytes))
    (repeat 0%Z n_bytes, 0).

(** The rounds of the latency server. *)
Definition latency_server (n_rounds n_bytes : nat) : M W (list Z) :=
  for_range 0 (n_rounds * 2) (λ _ buf,
    buf' ← receive_message n_bytes buf;
    _ ← send_message n_bytes buf';
    mret buf') (repeat 0%Z n_bytes).

(** The inner loop of the bandwidth client. *)
Definition IO_ERROR : string := "encountered IO error".
Definition bw_round (buf : list Z) (pos : nat) : M W (nat + unit) :=
  if pos <? length buf then
    rest ← slice_from buf pos;
    r ← stream_write rest;
    match r with
    | Ok len => mret (inl (pos + len))
    | Err WouldBlock => mret (inl (pos + 0))
    | Err OtherKind => panic IO_ERROR
    end
  else mret (inr tt).

Definition bw_client (n_rounds n_bytes : nat) : M W unit :=
  for_range 0 n_rounds (λ _ _, loop fuel (bw_round (repeat 0%Z n_bytes)) 0) tt.
End Connection.

(** ** What the programs rely on *)

(** A stream that works while it is [usable]: it reports what it has moved.  When [tot] is set
    its operations return and the attempts in vain (nothing moved, or [WouldBlock]) are finite;
    otherwise they may also wait for ever, or be in vain for ever. *)
Class StreamLaws {W : Type} (tot : bool) (st : Stream W) : Type := {
  usable : W → Prop;
  sent : W → list Z;      (* the bytes the stream has taken *)
  got : W → list Z;       (* the bytes the stream has delivered *)
  patience : W → nat;     (* the attempts in vain still to come *)
  stream_write_spec buf w :
    usable w →
    wp tot (stream_write buf) (λ r w', usable w' ∧ got w' = got w ∧ match r with
      | Ok n => n ≤ length buf ∧ sent w' = sent w ++ take n buf ∧
                (tot = true → patience w' ≤ patience w ∧
                              (buf ≠ [] → n = 0 → patience w' < patience w))
      | Err WouldBlock => sent w' = sent w ∧ (tot = true → patience w' < patience w)
      | Err OtherKind => True
      end) (λ _ _, False) w;
  stream_read_spec buf w :
    usable w →
    wp tot (stream_read buf) (λ r w', usable w' ∧ sent w' = sent w ∧ length r.2 = length buf ∧
      match r.1 with
      | Ok n => n ≤ length buf ∧ got w' = got w ++ take n r.2 ∧ drop n r.2 = drop n buf ∧
                (tot = true → patience w' ≤ patience w ∧
                              (buf ≠ [] → n = 0 → patience w' < patience w))
      | Err WouldBlock => got w' = got w ∧ r.2 = buf ∧ (tot = true → patience w' < patience w)
      | Err OtherKind => True
      end) (λ _ _, False) w;
}.

Section Proofs.
Context {W : Type} {tot : bool} {st : Stream W} {laws : StreamLaws tot st}.
Implicit Types (w : W).

Lemma wp_slice_from t buf from (Q : list Z → W → Prop) E w :
  from ≤ length buf → Q (drop from buf) w → wp t (slice_from buf from) Q E w.
Proof. intros Hle HQ. unfold slice_from. by rewrite (proj2 (Nat.leb_le _ _) Hle). Qed.

Lemma take_take_drop {A} (l : list A) i n : take i l ++ take n (drop i l) = take (i + n) l.
Proof. apply take_take_drop. Qed.

Lemma drop_nonempty {A} (l : list A) i : i < length l → drop i l ≠ [].
Proof. intros Hi Hnil. apply (f_equal length) in Hnil. rewrite length_drop in Hnil. simpl in Hnil. lia. Qed.

(** Less patience is left, or the loops need not end. *)
Definition no_worse w w' : Prop := tot = true → patience w' ≤ patience w.

#[export] Instance no_worse_preorder : PreOrder no_worse.
Proof.
  split; [by intros w _|]. intros w1 w2 w3 H1 H2 Ht. specialize (H1 Ht). specialize (H2 Ht). lia.
Qed.

(** The invariant of the sending loops: since [w], [send] bytes of the buffer are out. *)
Definition sending w (wbuf : list Z) (send : nat) (w' : W) : Prop :=
  send ≤ length wbuf ∧ usable w' ∧ got w' = got w ∧ no_worse w w' ∧
  sent w' = sent w ++ take send wbuf.

Lemma sending_start w wbuf : usable w → sending w wbuf 0 w.
Proof. intros Hu. split_and!; [lia|done|done|done|by rewrite app_nil_r]. Qed.

Lemma wp_send_round n wbuf w send w1 :
  n ≤ length wbuf → sending w wbuf send w1 →
  wp tot (send_round n wbuf send) (λ r w', match r with
    | inl send' => sending w wbuf send' w' ∧
        (tot = true → (n - send') + patience w' < (n - send) + patience w1)
    | inr _ => n ≤ send ∧ sending w wbuf send w'
    end) (λ msg _, msg = WRITE_ERROR) w1.
Proof.
  intros Hn (Hs & Hu & Hg & Hp & Hsent). unfold send_round.
  destruct (Nat.ltb_spec send n) as [Hlt|Hge]; [|by wp_run].
  wp_run. apply wp_slice_from; [done|]. wp_run.
  pose proof (drop_nonempty wbuf send ltac:(lia)) as Hne.
  eapply wp_mono; [by apply stream_write_spec| |done]. cbv beta.
  intros [k|[]] w2 (Hu2 & Hg2 & Hr); wp_run; [| |done].
  - destruct Hr as (Hk & Hs2 & Hz). rewrite length_drop in Hk. unfold sending, no_worse in *.
    split_and!; [lia|done|congruence|intros Ht; destruct (Hz Ht); specialize (Hp Ht); lia| |].
    + by rewrite Hs2, Hsent, <- app_assoc, take_take_drop.
    + intros Ht. destruct (Hz Ht) as [Hp2 Hz2].
      destruct (decide (k = 0)) as [->|Hk0]; [|lia]. specialize (Hz2 Hne eq_refl). lia.
  - destruct Hr as [Hs2 Hz]. unfold sending, no_worse in *.
    split_and!; [done|done|congruence|intros Ht; specialize (Hz Ht); specialize (Hp Ht); lia
      |congruence|intros Ht; specialize (Hz Ht); lia].
Qed.

(** Sending stops at [n] bytes and has then sent a prefix of the buffer that is at
    least that long. *)
Lemma wp_send_message fuel n wbuf w :
  usable w → n ≤ length wbuf → (tot = true → n + patience w < fuel) →
  wp tot (send_message fuel n wbuf) (λ _ w', usable w' ∧ got w' = got w ∧ no_worse w w' ∧
    ∃ k, n ≤ k ≤ length wbuf ∧ sent w' = sent w ++ take k wbuf)
    (λ msg _, msg = WRITE_ERROR) w.
Proof.
  intros Hu Hn Hfuel. unfold send_message.
  apply (wp_loop tot (sending w wbuf) (λ send w', (n - send) + patience w')).
  - intros send w1 Hs. eapply wp_conseq; [by apply wp_send_round|]. cbv beta.
    intros [send'|[]] w2; [by intros []|]. intros (Hge & Hle & Hu2 & Hg & Hp & Hsent). eauto 10.
  - by apply sending_start.
  - intros Ht. specialize (Hfuel Ht). lia.
Qed.

(** The inner loop of the bandwidth client differs in the error it stops with. *)
Lemma wp_bw_round buf pos Q w :
  usable w →
  wp tot (send_round (length buf) buf pos) Q (λ msg _, msg = WRITE_ERROR) w →
  wp tot (bw_round buf pos) Q (λ msg _, msg = IO_ERROR) w.
Proof.
  intros Hu. unfold send_round, bw_round.
  destruct (Nat.ltb_spec pos (length buf)); [|by wp_run].
  unfold slice_from. rewrite (proj2 (Nat.leb_le pos (length buf))) by lia. wp_run.
  pose proof (stream_write_spec (drop pos buf) w Hu) as Hw. unfold wp in *.
  destruct (stream_write (drop pos buf) w) as [[k|[]] w'| | |]; try done.
  by rewrite Nat.add_0_r.
Qed.

(** The rounds of the bandwidth client. *)
Lemma wp_bw_client fuel n_rounds n_bytes w :
  usable w → (tot = true → n_bytes + patience w < fuel) →
  wp tot (bw_client fuel n_rounds n_bytes) (λ _ w', usable w' ∧ got w' = got w ∧
    no_worse w w' ∧ sent w' = sent w ++ repeat 0%Z (n_rounds * n_bytes))
    (λ msg _, msg = IO_ERROR) w.
Proof.
  intros Hu Hfuel. unfold bw_client.
  set (buf := repeat 0%Z n_bytes). assert (Hl : length buf = n_bytes) by apply repeat_length.
  apply (wp_for_range tot (λ i _ w', usable w' ∧ got w' = got w ∧ no_worse w w' ∧
           sent w' = sent w ++ repeat 0%Z (i * n_bytes))); [|by rewrite app_nil_r].
  intros i _ w1 _ (Hu1 & Hg1 & Hp1 & Hs1).
  apply (wp_loop tot (sending w1 buf) (λ pos w', (n_bytes - pos) + patience w')).
  - intros pos w2 Hs2. apply wp_bw_round; [apply Hs2|]. rewrite Hl.
    eapply wp_conseq; [apply wp_send_round; [lia|done]|]. cbv beta.
    intros [pos'|[]] w3; [by intros []|]. intros (Hge & Hle & Hu3 & Hg3 & Hp3 & Hs3).
    split_and!; [done|congruence|by etrans|].
    rewrite Hs3, Hs1, take_ge, <- app_assoc by lia.
    unfold buf. by rewrite <- repeat_app, Nat.add_comm.
  - by apply sending_start.
  - intros Ht. specialize (Hfuel Ht). specialize (Hp1 Ht). lia.
Qed.

Lemma wp_receive_message fuel n rbuf w :
  usable w → n ≤ length rbuf → (tot = true → n + patience w < fuel) →
  wp tot (receive_message fuel n rbuf) (λ rbuf' w', usable w' ∧ sent w' = sent w ∧
    no_worse w w' ∧ length rbuf' = length rbuf ∧
    ∃ k, n ≤ k ≤ length rbuf ∧ got w' = got w ++ take k rbuf' ∧ drop k rbuf' = drop k rbuf)
    (λ msg _, msg = READ_ERROR) w.
Proof.
  intros Hu Hn Hfuel. unfold receive_message.
  apply (wp_loop tot (λ s w', s.1 ≤ length rbuf ∧ usable w' ∧ sent w' = sent w ∧ no_worse w w' ∧
           length s.2 = length rbuf ∧ got w' = got w ++ take s.1 s.2 ∧
           drop s.1 s.2 = drop s.1 rbuf) (λ s w', (n - s.1) + patience w')).
  - intros [recv buf] w1 (Hs & Hu1 & Hse & Hp & Hl & Hg & Hd); simpl in *.
    destruct (Nat.ltb_spec recv n) as [Hlt|Hge].
    2:{ wp_run. split_and!; [done|done|done|done|]. exists recv. by split_and!; try lia. }
    wp_run. apply wp_slice_from; [lia|]. wp_run.
    pose proof (drop_nonempty buf recv ltac:(lia)) as Hne.
    eapply wp_mono; [by apply stream_read_spec| |done]. cbv beta.
    intros [r rest'] w2 (Hu2 & Hse2 & Hl2 & Hr); simpl in *. rewrite length_drop in Hl2.
    assert (Htake : length (take recv buf) = recv) by (rewrite length_take; lia).
    destruct r as [k|[]]; wp_run.
    + destruct Hr as (Hk & Hg2 & Hd2 & Hz). rewrite length_drop in Hk.
      split_and!; [lia|done|congruence| |rewrite length_app, Htake; lia| | |].
      * intros Ht. destruct (Hz Ht). specialize (Hp Ht). lia.
      * rewrite Hg2, Hg, <- app_assoc. f_equal.
        by rewrite take_app_ge, Htake, Nat.add_comm, Nat.add_sub by (rewrite Htake; lia).
      * rewrite drop_app_ge, Htake, Nat.add_comm, Nat.add_sub by (rewrite Htake; lia).
        rewrite Hd2, Hd, drop_drop. f_equal. lia.
      * intros Ht. destruct (Hz Ht) as [Hp2 Hz2].
        destruct (decide (k = 0)) as [->|Hk0]; [|lia]. specialize (Hz2 Hne eq_refl). lia.
    + destruct Hr as (Hg2 & Hb & Hz). rewrite Hb, take_drop.
      split_and!; try done; try congruence; intros Ht; specialize (Hz Ht); specialize (Hp Ht); lia.
    + done.
  - simpl. split_and!; [lia|done|done|done|done|by rewrite app_nil_r|done].
  - simpl. intros Ht. specialize (Hfuel Ht). lia.
Qed.
End Proofs.

(** ** Properties *)

Section Properties.
Context {W : Type} {tot : bool} {st : Stream W} {laws : StreamLaws tot st}.
Implicit Types (w : W).

(** Over a stream that works, [send_message] and [receive_message] move exactly the message when
    the buffer has the length of the message: what was sent is the buffer, what came in is in
    the buffer, in order and complete.  They stop only for an error of the stream, and they end
    when the stream does not let them try in vain for ever. *)
Theorem messages_complete fuel n buf w :
  usable w → length buf = n → (tot = true → n + patience w < fuel) →
  wp tot (send_message fuel n buf) (λ _ w', sent w' = sent w ++ buf ∧ got w' = got w)
    (λ msg _, msg = WRITE_ERROR) w ∧
  wp tot (receive_message fuel n buf) (λ buf' w', length buf' = n ∧
    got w' = got w ++ buf' ∧ sent w' = sent w) (λ msg _, msg = READ_ERROR) w.
Proof.
  intros Hu Hn Hfuel. split.
  - eapply wp_mono; [apply wp_send_message; [done|lia|done]| |done]. cbv beta.
    intros [] w' (_ & Hg & _ & k & Hk & Hs). split; [|done]. by rewrite Hs, take_ge by lia.
  - eapply wp_mono; [apply wp_receive_message; [done|lia|done]| |done]. cbv beta.
    intros buf' w' (_ & Hs & _ & Hl & k & Hk & Hg & _). split_and!; [lia| |done].
    by rewrite Hg, take_ge by lia.
Qed.

(** The latency client divides by a step of two per cent of its rounds, which is zero
    for fewer than 50 rounds: with 1 to 49 rounds it panics in the first round, after
    the message has been echoed (or stops there for an error of the stream). *)
Theorem latency_needs_fifty_rounds fuel report n_rounds n_bytes w :
  usable w → 1 ≤ n_rounds < 50 → (tot = true → n_bytes + patience w < fuel) →
  wp tot (latency_client fuel report n_rounds n_bytes) (λ _ _, False)
    (λ msg w', msg = REM_ZERO ∧ sent w' = sent w ++ repeat 0%Z n_bytes ∨
               msg = WRITE_ERROR ∨ msg = READ_ERROR) w.
Proof.
  intros Hu Hr Hfuel. unfold latency_client, latency_round.
  assert (Hstep : n_rounds * 2 / 100 = 0) by (apply Nat.div_small; lia). rewrite Hstep.
  destruct (n_rounds * 2) as [|m] eqn:Hm; [lia|]. cbn [for_range]. wp_run.
  pose proof (repeat_length 0%Z n_bytes) as Hl.
  eapply wp_mono; [apply wp_send_message; [done|lia|done]| |by auto]. cbv beta.
  intros [] w1 (Hu1 & _ & Hp & k & Hk & Hs). wp_run.
  eapply wp_mono; [apply wp_receive_message; [done|lia|]| |by auto].
  { intros Ht. specialize (Hfuel Ht). specialize (Hp Ht). lia. }
  cbv beta. intros buf w2 (_ & Hs2 & _). wp_run. left. split; [done|].
  by rewrite Hs2, Hs, take_ge by lia.
Qed.

(** On a stream that has come to its end, where reading answers [Ok(0)] for ever,
    [receive_message] goes round without end instead of reporting the missing bytes. *)
Theorem receive_at_end_spins (P : W → Prop) fuel n rbuf w :
  (∀ buf w, P w → ∃ w', stream_read buf w = Done (Ok 0, buf) w' ∧ P w') →
  P w → 0 < n ≤ length rbuf →
  ∃ w', receive_message fuel n rbuf w = Diverged w'.
Proof.
  intros Hend HP Hn. unfold receive_message.
  apply (loop_diverges (λ s w, s = (0, rbuf) ∧ P w)); [|done].
  intros s w1 [-> HP1]. destruct (Hend rbuf w1 HP1) as (w2 & Hread & HP2).
  exists (0, rbuf), w2. split; [|done]. simpl.
  rewrite (proj2 (Nat.ltb_lt 0 n)) by lia.
  unfold slice_from, mbind, M_bind, mret, M_ret; simpl. rewrite drop_0, Hread. done.
Qed.
End Properties.

(** What the checks of the configuration say about exact numbers. *)
Lemma config_check_iff n_bytes n_rounds :
  in_width 64 n_bytes → in_width 64 n_rounds →
  config_check n_bytes n_rounds = Ok tt ↔
  (n_bytes ≤ 100000000 ∧ n_bytes * 1000000 * n_rounds < 2 ^ 64)%Z.
Proof.
  unfold in_width. change (2 ^ 64)%Z with 18446744073709551616%Z. intros Hb Hr.
  unfold config_check. destruct (Z.ltb_spec 100000000 n_bytes); [split; [done|lia]|].
  rewrite (wrap_small 64) by (unfold in_width; change (2 ^ 64)%Z with 18446744073709551616%Z; lia).
  rewrite (wrap_small 128) by (unfold in_width;
    change (2 ^ 128)%Z with (18446744073709551616 * 18446744073709551616)%Z; nia).
  change (2 ^ 64 - 1)%Z with 18446744073709551615%Z.
  destruct (Z.ltb_spec 18446744073709551615 (n_bytes * 1000000 * n_rounds));
    split; try done; lia.
Qed.

Lemma check_in_range n_bytes n_rounds :
  in_width 64 n_bytes → in_width 64 n_rounds → config_check n_bytes n_rounds = Ok tt →
  in_width 64 (n_bytes * n_rounds).
Proof.
  intros Hb Hr. rewrite config_check_iff by done. unfold in_width in *.
  change (2 ^ 64)%Z with 18446744073709551616%Z in *. intros [Hle Hlt]. nia.
Qed.

(** A configuration that passes the checks keeps the later arithmetic in range: the
    sum of all bytes fits into 64 bits, and unless the messages are empty so does the
    doubled number of rounds.  The bound that is checked is 2^64 / 1000000, although
    the message speaks of [u128::MAX]. *)
Theorem config_check_bounds n_bytes n_rounds :
  in_width 64 n_bytes → in_width 64 n_rounds →
  (config_check n_bytes n_rounds = Ok tt ↔
   (n_bytes ≤ 100000000 ∧ n_bytes * 1000000 * n_rounds < 2 ^ 64)%Z) ∧
  (config_check n_bytes n_rounds = Ok tt → in_width 64 (n_bytes * n_rounds) ∧
   (n_bytes ≠ 0 → in_width 64 (n_rounds * 2))%Z).
Proof.
  intros Hb Hr. split; [by apply config_check_iff|]. intros Hc.
  split; [by apply check_in_range|]. apply config_check_iff in Hc as [Hle Hlt]; [|done..].
  unfold in_width in *. change (2 ^ 64)%Z with 18446744073709551616%Z in *. intros Hne. nia.
Qed.

(** The core a thread is pinned to exists whenever there is one, and a negative [p_id]
    pins to none. *)
Theorem core_index_in_range p_id cores :
  (0 < cores)%Z →
  ∃ o, core_index p_id cores = Ok o ∧
    match o with
    | Some i => (0 ≤ i < cores ∧ 0 ≤ p_id)%Z
    | None => (p_id < 0)%Z
    end.
Proof.
  intros Hc. unfold core_index. destruct (Z.leb_spec 0 p_id) as [Hp|Hp]; [|by eexists].
  destruct (Z.eqb_spec cores 0); [lia|]. eexists. split; [done|].
  pose proof (Z.mod_pos_bound p_id cores Hc). cbn. lia.
Qed.

(** ** Witnesses *)

(** A loop-back stream that takes and gives at most two bytes at a time, and has two
    [WouldBlock]s in it. *)
Record SimPipe : Type := mkSimPipe {
  sp_sent : list Z;
  sp_pending : list Z;
  sp_got : list Z;
  sp_blocks : nat;
}.

Definition sim_pipe_write (buf : list Z) : M SimPipe (result nat ErrorKind) := λ w,
  match sp_blocks w with
  | S b => Done (Err WouldBlock) (mkSimPipe (sp_sent w) (sp_pending w) (sp_got w) b)
  | O => let n := min 2 (length buf) in
         Done (Ok n) (mkSimPipe (sp_sent w ++ take n buf) (sp_pending w ++ take n buf) (sp_got w) 0)
  end.

(** At the end of the data it reports an error. *)
Definition sim_pipe_read (buf : list Z) : M SimPipe (result nat ErrorKind * list Z) := λ w,
  let n := min 2 (min (length (sp_pending w)) (length buf)) in
  if (n =? 0) && negb (length buf =? 0) then Done (Err OtherKind, buf) w
  else let data := take n (sp_pending w) in
       Done (Ok n, data ++ drop n buf)
         (mkSimPipe (sp_sent w) (drop n (sp_pending w)) (sp_got w ++ data) (sp_blocks w)).

#[export] Instance sim_pipe : Stream SimPipe := {|
  stream_write := sim_pipe_write;
  stream_read := sim_pipe_read;
  stream_set_nodelay _ := mret (Ok tt);
  stream_set_nonblocking _ := mret (Ok tt);
  stream_shutdown := mret (Ok tt);
|}.

#[export] Instance sim_pipe_laws : StreamLaws true sim_pipe.
Proof.
  refine {| usable := λ _, True; sent := sp_sent; got := sp_got; patience := sp_blocks |};
    unfold wp; simpl.
  - intros buf w _. unfold sim_pipe_write. destruct (sp_blocks w) as [|b] eqn:Hb.
    + split; [done|]. split; [done|]. split_and!; [apply Nat.le_min_r|done|].
      intros _. split; [simpl; lia|]. intros Hne H0. destruct buf; [done|]. simpl in H0. lia.
    + split_and!; [done|done|done|simpl; lia].
  - intros buf w _. unfold sim_pipe_read.
    set (n := min 2 (min (length (sp_pending w)) (length buf))).
    assert (Hn : n ≤ length (sp_pending w) ∧ n ≤ length buf) by lia.
    destruct ((n =? 0) && negb (length buf =? 0)) eqn:Hz; [done|].
    assert (Ht : length (take n (sp_pending w)) = n) by (rewrite length_take; lia).
    cbn [fst snd sp_sent sp_got sp_blocks]. clearbody n. do 2 (split; [done|]). rewrite length_app, Ht, length_drop. split; [lia|].
    split_and!; [lia| | |].
    + by rewrite take_app_length' by done.
    + by rewrite drop_app_length' by done.
    + intros _. split; [done|]. intros Hne H0. rewrite H0 in Hz. destruct buf; done.
Defined.

Definition sim_pipe_start (b : nat) : SimPipe := mkSimPipe [] [] [] b.

Lemma messages_complete_witness :
  send_message 10 3 [7; 8; 9]%Z (sim_pipe_start 2) =
    Done tt (mkSimPipe [7; 8; 9]%Z [7; 8; 9]%Z [] 0) ∧
  wp true (send_message 10 3 [7; 8; 9]%Z)
    (λ _ w', sent w' = [7; 8; 9]%Z ∧ got w' = []) (λ msg _, msg = WRITE_ERROR) (sim_pipe_start 2).
Proof.
  split; [reflexivity|].
  refine (proj1 (messages_complete 10 3 [7; 8; 9]%Z (sim_pipe_start 2) I eq_refl _)).
  simpl. lia.
Defined.

Lemma latency_needs_fifty_rounds_witness :
  wp true (latency_client 10 (λ _, mret tt) 49 3) (λ _ _, False)
    (λ msg w', msg = REM_ZERO ∧ sent w' = [0; 0; 0]%Z ∨ msg = WRITE_ERROR ∨ msg = READ_ERROR)
    (sim_pipe_start 2).
Proof.
  refine (latency_needs_fifty_rounds 10 (λ _, mret tt) 49 3 (sim_pipe_start 2) I _ _); [lia|simpl; lia].
Defined.

(** A stream at its end. *)
Definition sim_closed : Stream unit := {|
  stream_write buf := mret (Ok (length buf));
  stream_read buf := mret (Ok 0, buf);
  stream_set_nodelay _ := mret (Ok tt);
  stream_set_nonblocking _ := mret (Ok tt);
  stream_shutdown := mret (Ok tt);
|}.

Lemma receive_at_end_spins_witness :
  ∃ w', receive_message (st := sim_closed) 1000 1 [0%Z] tt = Diverged w'.
Proof.
  apply (receive_at_end_spins (st := sim_closed) (λ _, True)); [|done|simpl; lia].
  intros buf [] _. by exists tt.
Defined.

Lemma config_check_bounds_witness :
  config_check 1 100000 = Ok tt ∧ in_width 64 (1 * 100000).
Proof.
  split; [vm_compute; reflexivity|].
  refine (proj1 (proj2 (config_check_bounds 1 100000 _ _) _)); [| |vm_compute; reflexivity];
    (split; [discriminate|reflexivity]).
Defined.

Lemma core_index_in_range_witness :
  ∃ o, core_index 5 4 = Ok o ∧
    match o with Some i => (0 ≤ i < 4 ∧ 0 ≤ 5)%Z | None => (5 < 0)%Z end.
Proof. refine (core_index_in_range 5 4 _). reflexivity. Defined.
