(* ===== verification/NetbenchMain.v ===== *)
(** * [benches/netbench]: the configuration and the four programs

    [parse_config] with the numbers it reads, the remaining functions of connection.rs and
    threading.rs, and the [main] functions.  The command line parser clap is the function that
    gives the value of an argument; the network, the output and the cores are a class. *)

From S2P Require Import Prelude Netbench.
From Stdlib Require Import Ascii DecimalString DecimalFacts DecimalPos DecimalN.

(** ** The command line *)

(** [Arg::with_name(..)]; every argument takes a value and has a default. *)
Record Arg : Type := mkArg {
  arg_name : string;
  short : string;
  long : string;
  default_value : string;
}.

Definition cli_args : list Arg := [
  mkArg "address" "a" "address" "127.0.0.1";
  mkArg "port" "p" "port" "7878";
  mkArg "n_bytes" "k" "bytes" "1";
  mkArg "rounds" "r" "rounds" "100000";
  mkArg "nodelay" "d" "nodelay" "1";
  mkArg "nonblocking" "b" "nonblocking" "1";
  mkArg "thread" "t" "thread" "-1"
].

(** The defaults, as clap gives them when the user says nothing. *)
Definition no_args (name : string) : option string :=
  default_value <$> list_find (λ a, arg_name a = name) cli_args ≫= λ x, Some x.2.

(** ** Numbers *)

(** Decimal digits, at least one. *)
Definition parse_digits (s : string) : option N := N.of_uint <$> NilZero.uint_of_string s.

Definition strip (c : Ascii.ascii) (s : string) : option string :=
  match s with
  | String x s' => if Ascii.eqb x c then Some s' else None
  | EmptyString => None
  end.

(** [str::parse::<usize>]: a plus sign may come first. *)
Definition parse_usize (s : string) : result Z unit :=
  match parse_digits (default s (strip "+"%char s)) with
  | Some n => if (Z.of_N n <? 2 ^ 64)%Z then Ok (Z.of_N n) else Err tt
  | None => Err tt
  end.

(** [str::parse::<i8>]: a sign may come first. *)
Definition parse_i8 (s : string) : result Z unit :=
  let '(negative, digits) := match strip "-"%char s with
                             | Some s' => (true, s')
                             | None => (false, default s (strip "+"%char s))
                             end in
  match parse_digits digits with
  | Some n =>
      let v := if negative : bool then (- Z.of_N n)%Z else Z.of_N n in
      if ((-128 <=? v) && (v <=? 127))%Z then Ok v else Err tt
  | None => Err tt
  end.

(** ** [parse_config] *)

Section Parse.
Context {W : Type} (value_of : string → option string).

Definition NONE_UNWRAP : string := "called `Option::unwrap()` on a `None` value".
Definition ERR_UNWRAP : string := "called `Result::unwrap()` on an `Err` value".

Definition usize_arg (name : string) : M W Z :=
  s ← unwrap_opt NONE_UNWRAP (value_of name);
  unwrap_res ERR_UNWRAP (parse_usize s).

Definition parse_config : M W Config :=
  address ← unwrap_opt NONE_UNWRAP (value_of "address");
  port ← unwrap_opt NONE_UNWRAP (value_of "port");
  n_bytes ← usize_arg "n_bytes";
  n_rounds ← usize_arg "rounds";
  no_delay ← usize_arg "nodelay";
  non_blocking ← usize_arg "nonblocking";
  thread ← unwrap_opt NONE_UNWRAP (value_of "thread");
  p_id ← unwrap_res ERR_UNWRAP (parse_i8 thread);
  match config_check n_bytes n_rounds with
  | Err msg => panic msg
  | Ok _ => mret (mkConfig address port (Z.to_nat n_bytes) (Z.to_nat n_rounds)
                    (0 <? no_delay)%Z (0 <? non_blocking)%Z p_id)
  end.
End Parse.

(** ** The programs *)

(** The arguments of a [println!]; a measured value is left open. *)
Inductive piece : Type := Lit (s : string) | Num (n : Z) | Measured.

(** The network, the output, the clock's sleep and the crate core_affinity. *)
Class Net (W : Type) : Type := {
  client_connect : string → M W (result unit ErrorKind);
  bind : string → M W (result unit ErrorKind);
  incoming_next : M W (option (result unit ErrorKind));
  peer_addr : M W (result string ErrorKind);
  stream_flush : M W (result unit ErrorKind);
  println : list piece → M W unit;
  sleep_secs : Z → M W unit;
  get_core_ids : M W (option (list Z));
  set_for_current : Z → M W unit;
}.

Section Programs.
Context {W : Type} {st : Stream W} {net : Net W}.
Variable fuel : nat.
Variable value_of : string → option string.

(** [server_listen_and_get_first_connection]. *)
Definition server_listen_and_get_first_connection (port : string) : M W unit :=
  r ← bind ("0.0.0.0:" +:+ port);
  _ ← unwrap_res ERR_UNWRAP r;
  _ ← println [Lit "Server running, listening for connection on 0.0.0.0:"; Lit port];
  o ← incoming_next;
  r ← unwrap_opt NONE_UNWRAP o;
  _ ← unwrap_res ERR_UNWRAP r;
  a ← peer_addr;
  addr ← unwrap_res ERR_UNWRAP a;
  println [Lit "Connection established with "; Lit addr; Lit "!"].

(** [threading::setup]. *)
Definition threading_setup (c : Config) : M W unit :=
  if (0 <=? p_id c)%Z then
    o ← get_core_ids;
    core_ids ← unwrap_opt NONE_UNWRAP o;
    match core_index (p_id c) (Z.of_nat (length core_ids)) with
    | Err msg => panic msg
    | Ok None => mret tt
    | Ok (Some i) =>
        core ← unwrap_opt BOUNDS (core_ids !! Z.to_nat i);
        set_for_current core
    end
  else mret tt.

(** [Read::read_exact] of the standard library, for a reader that is not interrupted. *)
Definition UNEXPECTED_EOF : ErrorKind := OtherKind.
Definition read_exact_round (s : nat * list Z)
    : M W (nat * list Z + result unit ErrorKind * list Z) :=
  let '(pos, buf) := s in
  if pos <? length buf then
    rest ← slice_from buf pos;
    '(r, rest') ← stream_read rest;
    let buf' := take pos buf ++ rest' in
    match r with
    | Ok 0 => mret (inr (Err UNEXPECTED_EOF, buf'))
    | Ok n => mret (inl (pos + n, buf'))
    | Err e => mret (inr (Err e, buf'))
    end
  else mret (inr (Ok tt, buf)).
Definition read_exact (buf : list Z) : M W (result unit ErrorKind * list Z) :=
  loop fuel read_exact_round (0, buf).

(** rust-tcp-bw/client.rs. *)
Definition bw_client_main : M W unit :=
  args ← parse_config value_of;
  _ ← println [Lit "Connecting to the server "; Lit (address args); Lit "..."];
  r ← client_connect (address_and_port args);
  match r with
  | Ok _ =>
      _ ← setup args;
      _ ← println [Lit "Connection established! Ready to send..."];
      _ ← bw_client fuel (n_rounds args) (n_bytes args);
      f ← stream_flush;
      _ ← unwrap_res "Unexpected behaviour" f;
      _ ← close_connection;
      println [Lit "Sent everything!"]
  | Err _ => println [Lit "Couldn't connect to server..."]
  end.

(** The rounds of rust-tcp-bw/server.rs. *)
Definition receive_rounds (n_rounds n_bytes : nat) : M W (list Z) :=
  for_range 0 n_rounds (λ _ buf,
    '(r, buf') ← read_exact buf;
    _ ← unwrap_res ERR_UNWRAP r;
    mret buf') (repeat 0%Z n_bytes).

(** rust-tcp-bw/server.rs; the product of two [usize] is checked. *)
Definition bw_server_main : M W unit :=
  args ← parse_config value_of;
  let tot_bytes := (Z.of_nat (n_rounds args) * Z.of_nat (n_bytes args))%Z in
  _ ← (if (tot_bytes <? 2 ^ 64)%Z then mret tt else panic "attempt to multiply with overflow");
  _ ← server_listen_and_get_first_connection (port args);
  _ ← setup args;
  _ ← receive_rounds (n_rounds args) (n_bytes args);
  _ ← println [Lit "Sent in total "; Num (tot_bytes / 1024); Lit " KBytes"];
  println [Lit "Available approximated bandwidth: "; Measured; Lit " Mbit/s"].

(** [print_summary]; the histogram is the number of its values. *)
Definition print_line : M W unit :=
  println [Lit "-------------------------------------------------------------"].
Definition print_summary (hist : nat) : M W unit :=
  _ ← println [Lit "Sent/received everything!"];
  _ ← print_line;
  _ ← println [Lit "HDRHIST summary, measure in ns"];
  _ ← print_line;
  _ ← println [Lit "summary:"; Measured];
  _ ← print_line;
  _ ← println [Lit "Summary_string:"; Measured];
  _ ← print_line;
  println [Lit "CDF summary:"; Measured].

(** [n_rounds * 2], a checked product of [usize]. *)
Definition double_rounds (args : Config) : M W nat :=
  if (Z.of_nat (n_rounds args) * 2 <? 2 ^ 64)%Z then mret (n_rounds args * 2)
  else panic "attempt to multiply with overflow".

(** rust-tcp-latency/client.rs: it tries again until it is connected. *)
Definition latency_client_round (args : Config) (_ : unit) : M W (unit + unit) :=
  r ← client_connect (address_and_port args);
  match r with
  | Ok _ =>
      _ ← setup args;
      _ ← threading_setup args;
      _ ← println [Lit "Connection established! Ready to send..."];
      '(_, hist) ← latency_client fuel (λ p, println [Num (Z.of_nat p); Lit "% completed"])
                      (n_rounds args) (n_bytes args);
      _ ← close_connection;
      _ ← print_summary hist;
      mret (inr tt)
  | Err _ =>
      _ ← println [Lit "Couldn't connect to server, retrying... Error "; Measured];
      _ ← sleep_secs 1;
      mret (inl tt)
  end.
Definition latency_client_main : M W unit :=
  args ← parse_config value_of;
  _ ← println [Lit "Connecting to the server "; Lit (address args); Lit "..."];
  _ ← double_rounds args;
  loop fuel (latency_client_round args) tt.

(** rust-tcp-latency/server.rs. *)
Definition latency_server_main : M W unit :=
  args ← parse_config value_of;
  _ ← server_listen_and_get_first_connection (port args);
  _ ← setup args;
  _ ← threading_setup args;
  _ ← double_rounds args;
  _ ← latency_server fuel (n_rounds args) (n_bytes args);
  println [Lit "Done exchanging stuff"].
End Programs.

(** ** Printing and parsing *)

Definition show_N (n : N) : string := NilZero.string_of_uint (N.to_uint n).

Lemma parse_digits_show n : parse_digits (show_N n) = Some n.
Proof.
  unfold parse_digits, show_N. rewrite NilZero.usu.
  - simpl. by rewrite DecimalN.Unsigned.of_to.
  - intros H. apply (f_equal N.of_uint) in H as H'. rewrite DecimalN.Unsigned.of_to in H'.
    subst n. done.
Qed.

Lemma strip_sign n : strip "+"%char (show_N n) = None ∧ strip "-"%char (show_N n) = None.
Proof. unfold show_N. by destruct (N.to_uint n). Qed.

Lemma parse_usize_show n : (0 ≤ n < 2 ^ 64)%Z → parse_usize (show_N (Z.to_N n)) = Ok n.
Proof.
  intros Hn. unfold parse_usize. rewrite (proj1 (strip_sign _)). cbn [from_option id].
  rewrite parse_digits_show, Z2N.id by lia. by rewrite (proj2 (Z.ltb_lt _ _)) by lia.
Qed.

Definition show_i8 (v : Z) : string :=
  if (v <? 0)%Z then String "-" (show_N (Z.to_N (- v))) else show_N (Z.to_N v).

Lemma parse_i8_show v : (-128 ≤ v ≤ 127)%Z → parse_i8 (show_i8 v) = Ok v.
Proof.
  intros Hv. unfold parse_i8, show_i8. destruct (Z.ltb_spec v 0).
  - simpl. rewrite parse_digits_show, Z2N.id by lia.
    rewrite !(proj2 (Z.leb_le _ _)) by lia. simpl. f_equal. lia.
  - rewrite (proj2 (strip_sign _)), (proj1 (strip_sign _)). cbn [from_option id].
    rewrite parse_digits_show, Z2N.id by lia. by rewrite !(proj2 (Z.leb_le _ _)) by lia.
Qed.

Definition show_bool (b : bool) : string := if b then "1" else "0".

(** The arguments that ask for a configuration. *)
Definition show_config (c : Config) (name : string) : option string :=
  if String.eqb name "address" then Some (address c)
  else if String.eqb name "port" then Some (port c)
  else if String.eqb name "n_bytes" then Some (show_N (N.of_nat (n_bytes c)))
  else if String.eqb name "rounds" then Some (show_N (N.of_nat (n_rounds c)))
  else if String.eqb name "nodelay" then Some (show_bool (no_delay c))
  else if String.eqb name "nonblocking" then Some (show_bool (non_blocking c))
  else if String.eqb name "thread" then Some (show_i8 (p_id c))
  else None.

(** The values of the fields are of their types. *)
Definition in_types (c : Config) : Prop :=
  (Z.of_nat (n_bytes c) < 2 ^ 64 ∧ Z.of_nat (n_rounds c) < 2 ^ 64 ∧ -128 ≤ p_id c ≤ 127)%Z.

(** A configuration the programs can run with. *)
Definition well_formed (c : Config) : Prop :=
  in_types c ∧ config_check (Z.of_nat (n_bytes c)) (Z.of_nat (n_rounds c)) = Ok tt.

Section ParseSpec.
Context {W : Type}.
Implicit Types (w : W).

Lemma usize_arg_show (value_of : string → option string) name n w :
  value_of name = Some (show_N (N.of_nat n)) → (Z.of_nat n < 2 ^ 64)%Z →
  usize_arg value_of name w = Done (Z.of_nat n) w.
Proof.
  intros Hv Hn. unfold usize_arg, mbind, M_bind. rewrite Hv. cbn [unwrap_opt mret M_ret].
  replace (N.of_nat n) with (Z.to_N (Z.of_nat n)) by lia. rewrite parse_usize_show by lia. done.
Qed.

Lemma usize_arg_bool (value_of : string → option string) name b w :
  value_of name = Some (show_bool b) →
  ∃ n, usize_arg value_of name w = Done n w ∧ (0 <? n)%Z = b.
Proof.
  intros Hv. unfold usize_arg, mbind, M_bind. rewrite Hv.
  destruct b; [exists 1%Z|exists 0%Z]; done.
Qed.

Lemma parse_config_show c w :
  in_types c →
  parse_config (show_config c) w =
  match config_check (Z.of_nat (n_bytes c)) (Z.of_nat (n_rounds c)) with
  | Ok _ => Done c w
  | Err msg => Panicked msg w
  end.
Proof.
  intros (Hb & Hr & Hp). unfold parse_config, mbind, M_bind.
  change (show_config c "address") with (Some (address c)).
  change (show_config c "port") with (Some (port c)).
  change (show_config c "thread") with (Some (show_i8 (p_id c))).
  cbn [unwrap_opt mret M_ret].
  rewrite (usize_arg_show (show_config c) "n_bytes" (n_bytes c)) by done.
  rewrite (usize_arg_show (show_config c) "rounds" (n_rounds c)) by done.
  destruct (usize_arg_bool (show_config c) "nodelay" (no_delay c) w eq_refl) as (d & -> & Hd).
  destruct (usize_arg_bool (show_config c) "nonblocking" (non_blocking c) w eq_refl) as (n & -> & Hn).
  rewrite parse_i8_show by done. cbn [unwrap_res mret M_ret]. rewrite !Nat2Z.id, Hd, Hn.
  destruct (config_check _ _); [|done]. by destruct c.
Qed.
End ParseSpec.

(** ** What the programs rely on *)

(** The operations beside the stream: they print what they are told to, and move no
    data.  From a [startable] state a connection can be opened; it is then usable, and has
    moved nothing yet. *)
Class NetLaws {W : Type} {tot : bool} {st : Stream W} (laws : StreamLaws tot st) (net : Net W)
    : Type := {
  startable : W → Prop;
  out : W → list (list piece);     (* the lines on the standard output *)
  down : W → bool;                 (* the connection has been shut down *)
  println_spec l w :
    wp true (println l) (λ _ w', (startable w → startable w') ∧ (usable w → usable w') ∧
      out w' = out w ++ [l] ∧ sent w' = sent w ∧ patience w' = patience w ∧ down w' = down w ∧
      got w' = got w)
      (λ _ _, False) w;
  client_connect_spec a w :
    startable w →
    wp tot (client_connect a) (λ r w', out w' = out w ∧
      match r with Ok _ => usable w' ∧ sent w' = [] ∧ no_worse w w' ∧ down w' = false ∧ got w' = []
                 | Err _ => startable w' end) (λ _ _, False) w;
  set_nodelay_spec b w :
    usable w →
    wp tot (stream_set_nodelay b) (λ _ w', usable w' ∧ out w' = out w ∧ sent w' = sent w ∧
      no_worse w w' ∧ down w' = down w ∧ got w' = got w) (λ _ _, False) w;
  set_nonblocking_spec b w :
    usable w →
    wp tot (stream_set_nonblocking b) (λ _ w', usable w' ∧ out w' = out w ∧ sent w' = sent w ∧
      no_worse w w' ∧ down w' = down w ∧ got w' = got w) (λ _ _, False) w;
  write_out buf w :
    usable w → wp false (stream_write buf) (λ _ w', out w' = out w ∧ down w' = down w)
      (λ _ _, True) w;
  read_out buf w :
    usable w → wp false (stream_read buf) (λ _ w', out w' = out w ∧ down w' = down w)
      (λ _ _, True) w;
  stream_flush_spec w :
    usable w →
    wp tot stream_flush (λ _ w', usable w' ∧ out w' = out w ∧ sent w' = sent w ∧ down w' = down w)
      (λ _ _, False) w;
  shutdown_spec w :
    usable w →
    wp tot stream_shutdown (λ r w', out w' = out w ∧ sent w' = sent w ∧ got w' = got w ∧
      (r = Ok tt → down w' = true)) (λ _ _, False) w;
}.

(** ** Parsing *)

Section Typed.
Context {W : Type} (value_of : string → option string).
Implicit Types (w : W).

Lemma parse_usize_range s n : parse_usize s = Ok n → in_width 64 n.
Proof.
  unfold parse_usize, in_width. destruct (parse_digits _) as [d|]; [|done].
  destruct (Z.ltb_spec (Z.of_N d) (2 ^ 64)); [|done]. intros [= <-]. lia.
Qed.

Lemma parse_i8_range s v : parse_i8 s = Ok v → (-128 ≤ v ≤ 127)%Z.
Proof.
  unfold parse_i8. destruct (match strip "-" s with Some s' => (true, s') | None => _ end) as [neg d].
  destruct (parse_digits d) as [n|]; [|done]. destruct (_ && _)%Z eqn:Hb; [|done].
  apply andb_true_iff in Hb as [Hlo Hhi]. intros [= <-].
  split; [by apply Z.leb_le|by apply Z.leb_le].
Qed.

(** The arguments are read without touching the world. *)
Definition pure_M {A} (m : M W A) (P : A → Prop) : Prop :=
  ∀ w, wp true m (λ a w', w' = w ∧ P a) (λ _ w', w' = w) w.

Lemma pure_bind {A B} (m : M W A) (k : A → M W B) P Q :
  pure_M m P → (∀ a, P a → pure_M (k a) Q) → pure_M (m ≫= k) Q.
Proof.
  intros Hm Hk w. wp_run. eapply wp_conseq; [apply Hm|]. cbv beta.
  intros a w' [-> Ha]. by apply Hk.
Qed.

Lemma pure_unwrap_opt {A} msg (o : option A) : pure_M (unwrap_opt msg o) (λ a, o = Some a).
Proof. intros w. by destruct o. Qed.

Lemma pure_unwrap_res {A E} msg (r : result A E) : pure_M (unwrap_res msg r) (λ a, r = Ok a).
Proof. intros w. by destruct r. Qed.

Lemma pure_usize_arg name : pure_M (usize_arg value_of name) (in_width 64).
Proof.
  unfold usize_arg. eapply pure_bind; [apply pure_unwrap_opt|]. intros s _ w.
  eapply wp_conseq; [apply pure_unwrap_res|]. cbv beta. intros n w' [-> Hn].
  eauto using parse_usize_range.
Qed.

Lemma pure_parse_config : pure_M (parse_config value_of) well_formed.
Proof.
  unfold parse_config. do 2 (eapply pure_bind; [apply pure_unwrap_opt|]; intros ? _).
  eapply pure_bind; [apply pure_usize_arg|]. intros n_bytes [Hb0 Hb].
  eapply pure_bind; [apply pure_usize_arg|]. intros n_rounds [Hr0 Hr].
  do 2 (eapply pure_bind; [apply pure_usize_arg|]; intros ? _).
  eapply pure_bind; [apply pure_unwrap_opt|]. intros thread _.
  eapply pure_bind; [apply pure_unwrap_res|]. intros p_id Hp%parse_i8_range w.
  destruct (config_check n_bytes n_rounds) as [[]|] eqn:Hc; [|done]. wp_run.
  split; [done|]. unfold well_formed, in_types. simpl. rewrite !Z2Nat.id by done. done.
Qed.
End Typed.

(** C33: [parse_config] is typed and total on its arguments: a configuration written out
    as arguments is read back unchanged, or refused with the message of the check it
    fails; and whatever the arguments are, the function only panics or returns a
    configuration whose numbers are of their types and pass the checks, so that the sum
    of all bytes, [n_rounds * n_bytes], does not overflow.  The defaults give a
    non-blocking connection without delay and no pinning. *)
Theorem parse_config_typed {W} (value_of : string → option string) (w : W) :
  (∀ c, in_types c → parse_config (show_config c) w =
    match config_check (Z.of_nat (n_bytes c)) (Z.of_nat (n_rounds c)) with
    | Ok _ => Done c w
    | Err msg => Panicked msg w
    end) ∧
  wp true (parse_config value_of)
    (λ c w', w' = w ∧ well_formed c ∧
       in_width 64 (Z.of_nat (n_rounds c) * Z.of_nat (n_bytes c)))
    (λ _ w', w' = w) w ∧
  parse_config no_args w =
    Done (mkConfig "127.0.0.1" "7878" 1 (Z.to_nat 100000) true true (-1)) w.
Proof.
  split_and!.
  - intros c. apply parse_config_show.
  - eapply wp_conseq; [apply pure_parse_config|]. cbv beta. intros c w' [-> Hc].
    split_and!; [done|done|]. destruct Hc as [(Hb & Hr & _) Hc].
    apply check_in_range in Hc; [|by split; [lia|done]..]. rewrite Z.mul_comm. exact Hc.
  - apply (parse_config_show (mkConfig "127.0.0.1" "7878" 1 (Z.to_nat 100000) true true (-1)) w).
    unfold in_types. simpl. rewrite Z2Nat.id by lia. lia.
Qed.

(** ** The bandwidth client *)

Section Loops.
Context {W : Type}.
Implicit Types (w : W).

(** An invariant of the body is one of the loop. *)
Lemma wp_loop_keeps {S R} (I : W → Prop) (body : S → M W (S + R)) fuel s w :
  (∀ s w, I w → wp false (body s) (λ _ w', I w') (λ _ _, True) w) → I w →
  wp false (loop fuel body s) (λ _ w', I w') (λ _ _, True) w.
Proof.
  intros Hbody HI. apply (wp_loop false (λ _, I) (λ _ _, 0)); [|done|done].
  clear s w HI. intros s w HI. eapply wp_conseq; [by apply Hbody|]. by intros [s'|a] w'.
Qed.

Lemma wp_for_keeps {S} (I : W → Prop) (body : nat → S → M W S) from n s w :
  (∀ i s w, I w → wp false (body i s) (λ _ w', I w') (λ _ _, True) w) → I w →
  wp false (for_range from n body s) (λ _ w', I w') (λ _ _, True) w.
Proof. intros Hbody HI. apply (wp_for_range false (λ _ _, I)); auto. Qed.
End Loops.

(** The next call meets its specification [lem] and does not panic by it. *)
#[local] Tactic Notation "net_call" uconstr(lem) :=
  wp_run; eapply wp_mono; [by apply lem| |done]; cbv beta.

Section Client.
Context {W : Type} {tot : bool} {st : Stream W} {net : Net W} {laws : StreamLaws tot st}
        {nlaws : NetLaws laws net}.
Implicit Types (w : W).

(** The messages of the panics on the way. *)
Definition setup_errors : list string :=
  ["Can't set no_delay to true"; "Can't set channel to be non-blocking"].
Definition client_errors : list string :=
  setup_errors ++ [IO_ERROR; "Unexpected behaviour"; "shutdown call failed"].

Lemma wp_println l w :
  wp tot (println l) (λ _ w', (startable w → startable w') ∧ (usable w → usable w') ∧
    out w' = out w ++ [l] ∧ sent w' = sent w ∧ patience w' = patience w ∧ down w' = down w ∧
      got w' = got w)
    (λ _ _, False) w.
Proof. apply wp_total_partial, println_spec. Qed.

(** What setting the options of the stream leaves alone. *)
Definition quiet_step w w' : Prop :=
  usable w' ∧ out w' = out w ∧ sent w' = sent w ∧ no_worse w w' ∧ down w' = down w ∧
  got w' = got w.

Lemma wp_setup c w :
  usable w → wp tot (setup c) (λ _, quiet_step w) (λ msg _, msg ∈ setup_errors) w.
Proof.
  intros Hu. unfold setup. wp_run.
  apply (wp_mono tot _ (λ _, quiet_step w) _ (λ msg _, msg ∈ setup_errors) _ w); [| |done].
  - destruct (no_delay c); [|by wp_run]. net_call set_nodelay_spec.
    intros [[]|] w'; wp_run; [done|]. intros _. set_solver.
  - intros [] w1 (Hu1 & Ho & Hs & Hp & Hd & Hg). destruct (non_blocking c); [|by wp_run].
    net_call set_nonblocking_spec.
    intros [[]|] w' (Hu' & Ho' & Hs' & Hp' & Hd' & Hg'); wp_run; [|set_solver].
    split_and!; [done|congruence|congruence|by etrans|congruence|congruence].
Qed.

(** The stream is still usable, nothing was printed and the connection not shut down. *)
Definition silent w w' : Prop := usable w' ∧ out w' = out w ∧ down w' = down w.

#[export] Instance silent_trans : Transitive silent.
Proof. intros w1 w2 w3 (_ & Ho & Hd) (Hu & Ho' & Hd'). split_and!; [done|congruence..]. Qed.

Lemma silent_refl w : usable w → silent w w.
Proof. done. Qed.

(** Moving data is silent. *)
Lemma write_silent buf w :
  usable w → wp false (stream_write buf) (λ _, silent w) (λ _ _, True) w.
Proof.
  intros Hu. pose proof (write_out buf w Hu) as Hout. pose proof (stream_write_spec buf w Hu) as Hwr.
  unfold wp in *. destruct (stream_write buf w) as [r w3| | |]; try done.
  by destruct Hout, Hwr.
Qed.

Lemma read_silent buf w :
  usable w → wp false (stream_read buf) (λ _, silent w) (λ _ _, True) w.
Proof.
  intros Hu. pose proof (read_out buf w Hu) as Hout. pose proof (stream_read_spec buf w Hu) as Hrd.
  unfold wp in *. destruct (stream_read buf w) as [r w3| | |]; try done.
  by destruct Hout, Hrd.
Qed.

Lemma slice_silent {A} buf from (k : list Z → M W A) w0 w :
  (∀ rest, wp false (k rest) (λ _, silent w0) (λ _ _, True) w) →
  wp false (slice_from buf from ≫= k) (λ _, silent w0) (λ _ _, True) w.
Proof. intros Hk. apply wp_bind. unfold slice_from. destruct (_ <=? _); [|done]. apply Hk. Qed.

(** A step of a loop that writes or reads and then looks at the result. *)
Lemma write_step_silent {A} buf (k : result nat ErrorKind → M W A) w0 w :
  silent w0 w → (∀ r w, silent w0 w → wp false (k r) (λ _, silent w0) (λ _ _, True) w) →
  wp false (stream_write buf ≫= k) (λ _, silent w0) (λ _ _, True) w.
Proof.
  intros Hw Hk. apply wp_bind. eapply wp_conseq; [apply write_silent, Hw|cbv beta].
  intros r w' Hw'. apply Hk. by etrans.
Qed.

Lemma read_step_silent {A} buf (k : result nat ErrorKind * list Z → M W A) w0 w :
  silent w0 w → (∀ r w, silent w0 w → wp false (k r) (λ _, silent w0) (λ _ _, True) w) →
  wp false (stream_read buf ≫= k) (λ _, silent w0) (λ _ _, True) w.
Proof.
  intros Hw Hk. apply wp_bind. eapply wp_conseq; [apply read_silent, Hw|cbv beta].
  intros r w' Hw'. apply Hk. by etrans.
Qed.

Lemma bw_client_quiet fuel n_rounds n_bytes w :
  usable w →
  wp false (bw_client fuel n_rounds n_bytes) (λ _, silent w) (λ _ _, True) w.
Proof.
  intros Hu. apply (wp_for_keeps (silent w)); [|by apply silent_refl].
  intros _ _ w1 H1. apply (wp_loop_keeps (silent w)); [|done].
  intros pos w2 H2. unfold bw_round. destruct (_ <? _); [|done].
  apply slice_silent. intros rest. apply write_step_silent; [done|]. by intros [k|[]] w3 H3; wp_run.
Qed.

Lemma send_message_silent fuel n buf w :
  usable w → wp false (send_message fuel n buf) (λ _, silent w) (λ _ _, True) w.
Proof.
  intros Hu. apply (wp_loop_keeps (silent w)); [|by apply silent_refl].
  intros pos w2 H2. unfold send_round. destruct (_ <? _); [|done].
  apply slice_silent. intros rest. apply write_step_silent; [done|]. by intros [k|[]] w3 H3; wp_run.
Qed.

Lemma receive_message_silent fuel n buf w :
  usable w → wp false (receive_message fuel n buf) (λ _, silent w) (λ _ _, True) w.
Proof.
  intros Hu. apply (wp_loop_keeps (silent w)); [|by apply silent_refl].
  intros [pos b] w2 H2. unfold receive_round. destruct (_ <? _); [|done].
  apply slice_silent. intros rest. apply read_step_silent; [done|].
  by intros [[k|[]] b'] w3 H3; wp_run.
Qed.

(** [read_exact] fills the buffer, or reports an error. *)
Lemma wp_read_exact fuel buf w :
  usable w → (tot = true → length buf < fuel) →
  wp tot (read_exact fuel buf) (λ r w', usable w' ∧ sent w' = sent w ∧
    length r.2 = length buf ∧ (r.1 = Ok tt → no_worse w w' ∧ got w' = got w ++ r.2))
    (λ _ _, False) w.
Proof.
  intros Hu Hfuel. unfold read_exact.
  apply (wp_loop tot (λ s w', s.1 ≤ length buf ∧ length s.2 = length buf ∧ usable w' ∧
    sent w' = sent w ∧ no_worse w w' ∧ got w' = got w ++ take s.1 s.2)
    (λ s _, length buf - s.1)).
  - intros [pos b] w1 (Hs & Hl & Hu1 & Hse & Hp & Hg); simpl in *.
    destruct (Nat.ltb_spec pos (length b)) as [Hlt|Hge].
    2:{ wp_run. split_and!; try done. intros _. split; [done|]. by rewrite Hg, take_ge by lia. }
    wp_run. apply wp_slice_from; [lia|]. wp_run.
    eapply wp_conseq; [by apply stream_read_spec|]. cbv beta.
    intros [r rest'] w2 (Hu2 & Hse2 & Hl2 & Hr); simpl in *. rewrite length_drop in Hl2.
    assert (Htake : length (take pos b) = pos) by (rewrite length_take; lia).
    assert (Hlen : length (take pos b ++ rest') = length buf) by (rewrite length_app, Htake; lia).
    assert (Hw : no_worse w1 w2 → no_worse w w2) by (intros; by etrans).
    destruct r as [[|k]|e]; wp_run; [by split_and!; [|congruence| |]| |by split_and!; [|congruence| |]].
    destruct Hr as (Hk & Hg2 & _ & Hz). rewrite length_drop in Hk.
    split_and!; [lia|done|done|congruence| | |intros _; lia].
    + apply Hw. intros Ht. by apply Hz.
    + rewrite Hg2, Hg, <- app_assoc. f_equal.
      by rewrite take_app_ge, Htake, Nat.add_comm, Nat.add_sub by (rewrite Htake; lia).
  - simpl. split_and!; [lia|done|done|done|done|by rewrite List.app_nil_r].
  - simpl. intros Ht. specialize (Hfuel Ht). lia.
Qed.

Lemma wp_receive_rounds fuel n_rounds n_bytes w :
  usable w → (tot = true → n_bytes < fuel) →
  wp tot (receive_rounds fuel n_rounds n_bytes) (λ _ w', usable w' ∧ sent w' = sent w ∧
    ∃ data, length data = n_rounds * n_bytes ∧ got w' = got w ++ data)
    (λ msg _, msg = ERR_UNWRAP) w.
Proof.
  intros Hu Hfuel. unfold receive_rounds.
  eapply wp_conseq; [apply (wp_for_range tot (λ i buf w', length buf = n_bytes ∧ usable w' ∧
    sent w' = sent w ∧ ∃ data, length data = i * n_bytes ∧ got w' = got w ++ data))|].
  - intros i buf w1 _ (Hl & Hu1 & Hs1 & data & Hd & Hg1). wp_run.
    eapply wp_mono; [apply wp_read_exact; [done|by rewrite Hl]| |done]. cbv beta.
    intros [[[]|e] buf'] w2 (Hu2 & Hs2 & Hl2 & Hr); simpl in *; wp_run; [|done].
    destruct (Hr eq_refl) as [_ Hg2]. split_and!; [congruence|done|congruence|].
    exists (data ++ buf'). rewrite length_app, Hg2, Hg1, app_assoc. split; [lia|done].
  - split_and!; [apply repeat_length|done|done|]. exists []. by rewrite List.app_nil_r.
  - cbv beta. intros buf w' (_ & ? & ? & ?). done.
Qed.

Lemma receive_rounds_quiet fuel n_rounds n_bytes w :
  usable w →
  wp false (receive_rounds fuel n_rounds n_bytes) (λ _, silent w) (λ _ _, True) w.
Proof.
  intros Hu. unfold receive_rounds. apply (wp_for_keeps (silent w)); [|by apply silent_refl].
  intros _ buf w1 H1. wp_run.
  eapply (wp_conseq false _ (λ _, silent w)); [|by intros [[u|e] b] w' H; wp_run].
  apply (wp_loop_keeps (silent w)); [|done].
  intros [pos b] w2 H2. unfold read_exact_round. destruct (_ <? _); [|done].
  apply slice_silent. intros rest. apply read_step_silent; [done|].
  by intros [[[|k]|e] b'] w3 H3; wp_run.
Qed.

(** The bandwidth client over any network that keeps the laws. *)
Lemma wp_bw_client_main fuel c w :
  startable w → well_formed c → (tot = true → n_bytes c + patience w < fuel) →
  wp tot (bw_client_main fuel (show_config c)) (λ _ w',
      let connecting := [Lit "Connecting to the server "; Lit (address c); Lit "..."] in
      out w' = out w ++ [connecting; [Lit "Couldn't connect to server..."]] ∨
      out w' = out w ++ [connecting; [Lit "Connection established! Ready to send..."];
                         [Lit "Sent everything!"]] ∧
        sent w' = repeat 0%Z (n_rounds c * n_bytes c) ∧ down w' = true)
    (λ msg _, msg ∈ client_errors) w.
Proof.
  intros Hst [Ht Hc] Hfuel. unfold bw_client_main. wp_run.
  unfold wp at 1. rewrite parse_config_show, Hc by done.
  net_call wp_println. intros [] w1 (Hst1 & _ & Ho1 & _ & Hp1 & _).
  specialize (Hst1 Hst). net_call client_connect_spec.
  intros [[]|e] w2 [Ho2 Hconn]; wp_run.
  2:{ net_call wp_println. intros [] w3 (_ & _ & Ho3 & _). left.
      by rewrite Ho3, Ho2, Ho1, <- app_assoc. }
  destruct Hconn as (Hu2 & Hs2 & Hp2 & Hd2 & _).
  eapply wp_mono; [by apply wp_setup| |by intros msg ? Hmsg; apply elem_of_app; left].
  cbv beta. intros [] w3 (Hu3 & Ho3 & Hs3 & Hp3 & Hd3 & _).
  net_call wp_println. intros [] w4 (_ & Hu4 & Ho4 & Hs4 & Hp4 & Hd4 & _). wp_run.
  specialize (Hu4 Hu3).
  eapply wp_mono; [apply wp_and; [apply wp_bw_client; [done|]|by apply bw_client_quiet]| |].
  { intros Htot. specialize (Hfuel Htot). specialize (Hp2 Htot). specialize (Hp3 Htot). lia. }
  2:{ cbv beta. intros msg w' ->. set_solver. }
  cbv beta. intros [] w5 [(Hu5 & _ & _ & Hs5) (_ & Ho5 & Hd5)]. net_call stream_flush_spec.
  intros [[]|] w6 (Hu6 & Ho6 & Hs6 & Hd6); wp_run; [|set_solver]. unfold close_connection.
  net_call shutdown_spec.
  intros [[]|] w7 (Ho7 & Hs7 & _ & Hd7); wp_run; [|set_solver].
  net_call wp_println. intros [] w8 (_ & _ & Ho8 & Hs8 & _ & Hd8 & _). right.
  split_and!.
  - by rewrite Ho8, Ho7, Ho6, Ho5, Ho4, Ho3, Ho2, Ho1, <- !app_assoc.
  - by rewrite Hs8, Hs7, Hs6, Hs5, Hs4, Hs3, Hs2.
  - rewrite Hd8. by apply Hd7.
Qed.
End Client.

(** The bandwidth client, run with a configuration it accepts over a network that
    works, ends and does one of two things: it reports that it could not connect, or it
    sends exactly [n_rounds] times [n_bytes] zeros over the new connection, shuts the
    connection down and reports it.  It panics for an error of the stream only. *)
Theorem bw_client_main_sends {W : Type} {st : Stream W} {net : Net W} {laws : StreamLaws true st}
    {nlaws : NetLaws laws net} fuel c (w : W) :
  startable w → well_formed c → n_bytes c + patience w < fuel →
  wp true (bw_client_main fuel (show_config c)) (λ _ w',
      let connecting := [Lit "Connecting to the server "; Lit (address c); Lit "..."] in
      out w' = out w ++ [connecting; [Lit "Couldn't connect to server..."]] ∨
      out w' = out w ++ [connecting; [Lit "Connection established! Ready to send..."];
                         [Lit "Sent everything!"]] ∧
        sent w' = repeat 0%Z (n_rounds c * n_bytes c) ∧ down w' = true)
    (λ msg _, msg ∈ client_errors) w.
Proof. intros Hst Hc Hfuel. by apply wp_bw_client_main. Qed.

(** ** The bandwidth server *)

(** A stream that can be non-blocking: then reading answers [WouldBlock] while nothing
    has arrived. *)
Class NonBlockingLaws {W : Type} (st : Stream W) : Type := {
  nonblocking : W → bool;
  arrived : W → list Z;
  set_nodelay_ok b w : ∃ w', stream_set_nodelay b w = Done (Ok tt) w' ∧
    arrived w' = arrived w ∧ nonblocking w' = nonblocking w;
  set_nonblocking_ok b w : ∃ w', stream_set_nonblocking b w = Done (Ok tt) w' ∧
    arrived w' = arrived w ∧ nonblocking w' = b;
  read_would_block buf w : nonblocking w = true → arrived w = [] → buf ≠ [] →
    stream_read buf w = Done (Err WouldBlock, buf) w;
}.

Section Server.
Context {W : Type} {st : Stream W} {net : Net W} {laws : NonBlockingLaws st}.
Implicit Types (w : W).

Lemma setup_nonblocking c w :
  non_blocking c = true →
  ∃ w', setup c w = Done tt w' ∧ arrived w' = arrived w ∧ nonblocking w' = true.
Proof.
  intros Hc. unfold setup, mbind, M_bind. rewrite Hc.
  destruct (set_nodelay_ok true w) as (w1 & Hd & Ha1 & _).
  destruct (no_delay c); [rewrite Hd; simpl|cbn [mret M_ret]].
  - destruct (set_nonblocking_ok true w1) as (w2 & -> & Ha2 & Hn2). exists w2.
    by split_and!; [|congruence|].
  - destruct (set_nonblocking_ok true w) as (w2 & -> & Ha2 & Hn2). by exists w2.
Qed.

Lemma read_exact_would_block fuel buf w :
  nonblocking w = true → arrived w = [] → buf ≠ [] → 0 < fuel →
  read_exact fuel buf w = Done (Err WouldBlock, buf) w.
Proof.
  intros Hn Ha Hb Hf. destruct fuel as [|fuel]; [lia|]. destruct buf as [|x buf]; [done|].
  unfold read_exact, slice_from, mbind, M_bind. simpl. unfold mbind, M_bind. simpl.
  by rewrite read_would_block.
Qed.

(** C34: The bandwidth server reads with [read_exact(..).unwrap()], which does not allow
    for the non-blocking mode that [connection::setup] has just put the connection in
    (and that is the default): when no byte has arrived by the time of the first read,
    the server panics instead of waiting, although the other three programs go round
    again on [WouldBlock]. *)
Theorem bw_server_nonblocking_panics fuel c w w1 :
  well_formed c → non_blocking c = true → 0 < n_rounds c → 0 < n_bytes c → 0 < fuel →
  server_listen_and_get_first_connection (port c) w = Done tt w1 → arrived w1 = [] →
  ∃ w', bw_server_main fuel (show_config c) w = Panicked ERR_UNWRAP w'.
Proof.
  intros [Ht Hc] Hnb Hr Hb Hf Hlisten Ha.
  assert (Hin : in_width 64 (Z.of_nat (n_bytes c) * Z.of_nat (n_rounds c))).
  { destruct Ht as (Hb' & Hr' & _). apply check_in_range; [split; [lia|done]..|done]. }
  destruct (setup_nonblocking c w1 Hnb) as (w2 & Hsetup & Ha2 & Hn2). exists w2.
  unfold bw_server_main, mbind, M_bind. rewrite parse_config_show, Hc by done.
  rewrite Z.mul_comm, (proj2 (Z.ltb_lt _ _)) by apply Hin. cbn [mret M_ret].
  rewrite Hlisten, Hsetup. destruct (n_rounds c) as [|n]; [lia|]. unfold receive_rounds. cbn [for_range].
  unfold mbind, M_bind. rewrite read_exact_would_block; [done|done|congruence| |done].
  by destruct (n_bytes c); [lia|].
Qed.
End Server.

(** ** Witnesses *)

(** The loop-back stream of Netbench.v, with a standard output. *)
Record SimNet : Type := mkSimNet {
  sn_pipe : SimPipe;
  sn_out : list (list piece);
  sn_down : bool;
}.

Definition sim_lift {A} (m : M SimPipe A) : M SimNet A := λ w,
  let put p := mkSimNet p (sn_out w) (sn_down w) in
  match m (sn_pipe w) with
  | Done a p => Done a (put p)
  | Panicked msg p => Panicked msg (put p)
  | Deadlock p => Deadlock (put p)
  | Diverged p => Diverged (put p)
  end.

Lemma wp_sim_lift {A} t (m : M SimPipe A) (Q : A → SimNet → Prop) E w :
  wp t m (λ a p, Q a (mkSimNet p (sn_out w) (sn_down w)))
    (λ s p, E s (mkSimNet p (sn_out w) (sn_down w))) (sn_pipe w) →
  wp t (sim_lift m) Q E w.
Proof. unfold wp, sim_lift. by destruct (m (sn_pipe w)). Qed.

#[export] Instance sim_net_stream : Stream SimNet := {|
  stream_write buf := sim_lift (stream_write buf);
  stream_read buf := sim_lift (stream_read buf);
  stream_set_nodelay b := sim_lift (stream_set_nodelay b);
  stream_set_nonblocking b := sim_lift (stream_set_nonblocking b);
  stream_shutdown := λ w, Done (Ok tt) (mkSimNet (sn_pipe w) (sn_out w) true);
|}.

#[export] Instance sim_net_stream_laws : StreamLaws true sim_net_stream.
Proof.
  refine {| usable := λ _, True; sent := λ w, sent (sn_pipe w); got := λ w, got (sn_pipe w);
            patience := λ w, patience (sn_pipe w) |}; intros buf w _; apply wp_sim_lift.
  - pose proof (stream_write_spec buf (sn_pipe w)) as Hs. exact (Hs I).
  - pose proof (stream_read_spec buf (sn_pipe w)) as Hs. exact (Hs I).
Defined.

(** A peer listens on port 7878 and on no other. *)
#[export] Instance sim_net : Net SimNet := {|
  client_connect a := λ w,
    if String.eqb a "127.0.0.1:7878"
    then Done (Ok tt) (mkSimNet (sim_pipe_start (sp_blocks (sn_pipe w))) (sn_out w) false)
    else Done (Err OtherKind) w;
  bind _ := mret (Ok tt);
  incoming_next := mret (Some (Ok tt));
  peer_addr := mret (Ok "127.0.0.1:40000");
  stream_flush := mret (Ok tt);
  println l := λ w, Done tt (mkSimNet (sn_pipe w) (sn_out w ++ [l]) (sn_down w));
  sleep_secs _ := mret tt;
  get_core_ids := mret (Some [0%Z]);
  set_for_current _ := mret tt;
|}.

#[export] Instance sim_net_laws : NetLaws sim_net_stream_laws sim_net.
Proof.
  refine {| startable := λ _, True; out := sn_out; down := sn_down |}; try done.
  - intros a w _. unfold wp; simpl. destruct (String.eqb a "127.0.0.1:7878"); [|done].
    split_and!; try done. by intros _.
  - intros b w _. split_and!; try done. by intros _.
  - intros b w _. split_and!; try done. by intros _.
  - intros buf w _. apply wp_sim_lift. unfold wp; simpl. unfold sim_pipe_write.
    by destruct (sp_blocks (sn_pipe w)).
  - intros buf w _. apply wp_sim_lift. unfold wp; simpl. unfold sim_pipe_read.
    by destruct (_ && _).
Defined.

Definition sim_config (port : string) : Config := mkConfig "127.0.0.1" port 3 4 true true (-1).
Definition sim_net_start : SimNet := mkSimNet (sim_pipe_start 2) [] false.

Lemma sim_config_well_formed port : well_formed (sim_config port).
Proof. split; [unfold in_types; simpl; lia|reflexivity]. Qed.

Lemma parse_config_typed_witness :
  parse_config (show_config (sim_config "7878")) tt = Done (sim_config "7878") tt ∧
  parse_config (W := unit) (λ name, if String.eqb name "thread" then Some "128" else no_args name)
    tt = Panicked ERR_UNWRAP tt.
Proof.
  split; [|vm_compute; reflexivity].
  refine (proj1 (parse_config_typed no_args tt) (sim_config "7878") _).
  apply sim_config_well_formed.
Defined.

(** The first client sends its twelve bytes, the second finds nobody. *)
Lemma bw_client_main_sends_witness :
  bw_client_main 10 (show_config (sim_config "7878")) sim_net_start =
    Done tt (mkSimNet (mkSimPipe (repeat 0%Z 12) (repeat 0%Z 12) [] 0)
      [[Lit "Connecting to the server "; Lit "127.0.0.1"; Lit "..."];
       [Lit "Connection established! Ready to send..."]; [Lit "Sent everything!"]] true) ∧
  wp true (bw_client_main 10 (show_config (sim_config "80"))) (λ _ w',
      let connecting := [Lit "Connecting to the server "; Lit "127.0.0.1"; Lit "..."] in
      sn_out w' = [connecting; [Lit "Couldn't connect to server..."]] ∨
      sn_out w' = [connecting; [Lit "Connection established! Ready to send..."];
                   [Lit "Sent everything!"]] ∧
        sp_sent (sn_pipe w') = repeat 0%Z 12 ∧ sn_down w' = true)
    (λ msg _, msg ∈ client_errors) sim_net_start.
Proof.
  split; [vm_compute; reflexivity|].
  refine (bw_client_main_sends 10 (sim_config "80") sim_net_start I _ _).
  - apply sim_config_well_formed.
  - simpl. lia.
Defined.

(** A connection on which nothing arrives; the state is whether it is non-blocking. *)
Definition sim_silent : Stream bool := {|
  stream_write buf := mret (Ok (length buf));
  stream_read buf := λ w : bool, Done (Err (if w then WouldBlock else OtherKind), buf) w;
  stream_set_nodelay _ := mret (Ok tt);
  stream_set_nonblocking b := λ _, Done (Ok tt) b;
  stream_shutdown := mret (Ok tt);
|}.

Definition sim_silent_net : Net bool := {|
  client_connect _ := mret (Ok tt);
  bind _ := mret (Ok tt);
  incoming_next := mret (Some (Ok tt));
  peer_addr := mret (Ok "127.0.0.1:40000");
  stream_flush := mret (Ok tt);
  println _ := mret tt;
  sleep_secs _ := mret tt;
  get_core_ids := mret (Some [0%Z]);
  set_for_current _ := mret tt;
|}.

Definition sim_silent_laws : NonBlockingLaws sim_silent.
Proof.
  refine {| nonblocking := λ w : bool, w; arrived := λ _, [] |}.
  - intros b w. by exists w.
  - intros b w. by exists b.
  - intros buf w -> _ _. done.
Defined.

Lemma bw_server_nonblocking_panics_witness :
  ∃ w', bw_server_main (st := sim_silent) (net := sim_silent_net) 5
          (show_config (sim_config "7878")) false = Panicked ERR_UNWRAP w'.
Proof.
  apply (bw_server_nonblocking_panics (laws := sim_silent_laws) 5 (sim_config "7878") false false);
    [apply sim_config_well_formed|done|simpl; lia..|done|done].
Defined.
