(* ===== verification/NetbenchHermit.v ===== *)
(** * [benches/netbench] on RustyHermit

    The network benchmark over the standard library for the hermit target, hermit-abi and the
    network stack of hermit-sys.  The [TcpStream] of that standard library keeps the handle of
    the connection and forwards each operation to [hermit_abi::tcpstream]; every failure
    becomes an error of one kind, and [shutdown(Both)] is passed on as the number 2. *)

From S2P Require Import Prelude Extern WakerReg State Sim Invariant Nic Executor Utf8 Socket Syscalls Tcpstream Link Others Netbench NetbenchMain.

(** ** The standard library over hermit-abi *)

Section Std.
Context {W : Type} {api : TcpApi W}.
(** The address and the port that a string stands for, as the standard library reads it; how
    it writes an address; the cores of the machine. *)
Variable resolve : string → option (list Z * Z).
Variable show_addr : IpAddr * Z → string.
Variable core_ids : option (list Z).

(** The state below, the connection, and what the program has seen: the bytes the stream has
    taken and given, the lines printed, whether the connection was shut down. *)
Record StdNet : Type := mkStdNet {
  below : W;
  conn : option Handle;
  taken : list Z;
  given : list Z;
  lines : list (list piece);
  is_down : bool;
}.

Definition set_below (b : W) (s : StdNet) : StdNet :=
  mkStdNet b (conn s) (taken s) (given s) (lines s) (is_down s).
Definition set_taken (f : list Z → list Z) (s : StdNet) : StdNet :=
  mkStdNet (below s) (conn s) (f (taken s)) (given s) (lines s) (is_down s).
Definition set_given (f : list Z → list Z) (s : StdNet) : StdNet :=
  mkStdNet (below s) (conn s) (taken s) (f (given s)) (lines s) (is_down s).
Definition set_down (s : StdNet) : StdNet :=
  mkStdNet (below s) (conn s) (taken s) (given s) (lines s) true.
Definition opened_conn (h : Handle) (s : StdNet) : StdNet :=
  mkStdNet (below s) (Some h) [] [] (lines s) false.

(** A call of hermit-abi. *)
Definition abi {A} (m : M W A) : M StdNet A := λ s,
  match m (below s) with
  | Done a b => Done a (set_below b s)
  | Panicked msg b => Panicked msg (set_below b s)
  | Deadlock b => Deadlock (set_below b s)
  | Diverged b => Diverged (set_below b s)
  end.

(** Any failure is an error of one kind. *)
Definition io {A} (r : result A unit) : result A ErrorKind := map_err (λ _, OtherKind) r.

(** A method of [TcpStream]: the value exists once there is a connection. *)
Definition on_stream {A} (f : Handle → M StdNet A) : M StdNet A :=
  c ← gets conn;
  h ← unwrap_opt "no stream" c;
  f h.

#[export] Instance hermit_stream : Stream StdNet := {|
  stream_write buf := on_stream (λ h,
    r ← abi (Tcpstream.write h buf);
    match r with
    | Ok n => _ ← modify (set_taken (λ l, l ++ take n buf)); mret (Ok n)
    | Err _ => mret (Err OtherKind)
    end);
  stream_read buf := on_stream (λ h,
    '(r, buf') ← abi (Tcpstream.read h buf);
    match r with
    | Ok n => _ ← modify (set_given (λ l, l ++ take n buf')); mret (Ok n, buf')
    | Err _ => mret (Err OtherKind, buf')
    end);
  stream_set_nodelay b := on_stream (λ h, r ← abi (set_nodelay h b); mret (io r));
  stream_set_nonblocking b := on_stream (λ h, r ← abi (set_nonblocking h b); mret (io r));
  stream_shutdown := on_stream (λ h,
    r ← abi (Tcpstream.shutdown h 2);
    _ ← (if is_ok r then modify set_down else mret tt);
    mret (io r));
|}.

(** [TcpListener::bind] only keeps the address; [port] is where [incoming] listens. *)
Definition hermit_net (port : Z) : Net StdNet := {|
  client_connect a :=
    match resolve a with
    | None => mret (Err OtherKind)
    | Some (ip, port) =>
        r ← abi (Tcpstream.connect ip port None);
        match r with
        | Ok h => _ ← modify (opened_conn h); mret (Ok tt)
        | Err _ => mret (Err OtherKind)
        end
    end;
  bind a := mret (match resolve a with Some _ => Ok tt | None => Err OtherKind end);
  incoming_next :=
    r ← abi (accept port);
    match r with
    | Ok (h, _, _) => _ ← modify (opened_conn h); mret (Some (Ok tt))
    | Err _ => mret (Some (Err OtherKind))
    end;
  peer_addr := on_stream (λ h,
    r ← abi (Tcpstream.peer_addr h);
    mret (match r with Ok a => Ok (show_addr a) | Err _ => Err OtherKind end));
  stream_flush := mret (Ok tt);
  println l := modify (λ s, mkStdNet (below s) (conn s) (taken s) (given s)
                              (lines s ++ [l]) (is_down s));
  sleep_secs _ := mret tt;
  get_core_ids := mret core_ids;
  set_for_current _ := mret tt;
|}.

(** ** The laws of the benchmark *)

Context {spec : TcpApiSpec api}.

Definition hermit_usable (s : StdNet) : Prop :=
  ∃ hs h, conn s = Some h ∧ hs h ∧ api_inv hs (below s).
Definition hermit_startable (s : StdNet) : Prop := ∃ hs, api_inv hs (below s).

Lemma wp_abi {A} t (m : M W A) (Q : A → StdNet → Prop) E s :
  wp t m (λ a b, Q a (set_below b s)) (λ msg b, E msg (set_below b s)) (below s) →
  wp t (abi m) Q E s.
Proof. unfold wp, abi. by destruct (m (below s)). Qed.

Lemma wp_on_stream {A} t (f : Handle → M StdNet A) h Q E s :
  conn s = Some h → wp t (f h) Q E s → wp t (on_stream f) Q E s.
Proof. intros Hc Hf. unfold on_stream. wp_run. by rewrite Hc. Qed.

#[export] Instance hermit_stream_laws : StreamLaws false hermit_stream.
Proof.
  refine {| usable := hermit_usable; sent := taken; got := given; patience := λ _, 0 |}.
  - intros buf s (hs & h & Hc & Hin & Hinv). eapply wp_on_stream; [done|]. wp_run.
    apply wp_abi. eapply wp_conseq; [by apply (api_write_spec hs)|cbv beta].
    intros [n|[]] b [Hinv' Hn]; wp_run.
    + split; [by exists hs, h|]. split; [done|]. by split_and!.
    + split; [by exists hs, h|done].
  - intros buf s (hs & h & Hc & Hin & Hinv). eapply wp_on_stream; [done|]. wp_run.
    apply wp_abi. eapply wp_conseq; [by apply (api_read_spec hs)|cbv beta].
    intros [[n|[]] buf'] b (Hinv' & Hl & Hr); wp_run.
    + destruct Hr as [Hn Hd]. split; [by exists hs, h|]. split; [done|]. by split_and!.
    + split; [by exists hs, h|]. by split_and!.
Defined.

#[export] Instance hermit_net_laws port : NetLaws hermit_stream_laws (hermit_net port).
Proof.
  refine {| startable := hermit_startable; out := lines; down := is_down |}.
  - intros l s. wp_run. by split_and!.
  - intros a s [hs Hinv]. simpl. destruct (resolve a) as [[ip p]|]; wp_run; [|by split; [|exists hs]].
    apply wp_abi. eapply wp_conseq; [by apply (api_connect_spec hs)|cbv beta].
    intros [h|[]] b Hr; wp_run; [|by split; [|exists hs]]. destruct Hr as [_ Hinv']. split; [done|].
    split_and!; try done. exists (λ h', hs h' ∨ h' = h), h. split_and!; [done|by right|done].
  - intros b s (hs & h & Hc & Hin & Hinv). eapply wp_on_stream; [done|]. wp_run.
    apply wp_abi. wp_run. split; [by exists hs, h|]. by split_and!.
  - intros b s (hs & h & Hc & Hin & Hinv). eapply wp_on_stream; [done|]. wp_run.
    apply wp_abi. eapply wp_conseq; [by apply (api_nonblocking_spec hs)|cbv beta].
    intros r b' Hinv'. wp_run. split; [by exists hs, h|]. by split_and!.
  - intros buf s (hs & h & Hc & Hin & Hinv). eapply wp_on_stream; [done|]. wp_run.
    apply wp_abi. eapply wp_mono; [by apply (api_write_spec hs)| |done]. cbv beta.
    by intros [n|[]] b _; wp_run.
  - intros buf s (hs & h & Hc & Hin & Hinv). eapply wp_on_stream; [done|]. wp_run.
    apply wp_abi. eapply wp_mono; [by apply (api_read_spec hs)| |done]. cbv beta.
    by intros [[n|[]] buf'] b _; wp_run.
  - intros s Hu. simpl. wp_run. by split_and!.
  - intros s (hs & h & Hc & Hin & Hinv). eapply wp_on_stream; [done|]. wp_run.
    apply wp_abi. eapply wp_mono; [by apply (api_shutdown_spec hs)|cbv beta|].
    + intros [[]|[]] b Hinv'; wp_run; by split_and!.
    + intros msg b (Hhow & _). cbv beta in Hhow. lia.
Defined.

(** A connection is opened, as client or as server. *)
Definition fresh_conn (s : StdNet) : Prop := hermit_usable s ∧ taken s = [] ∧ given s = [].

Lemma wp_hermit_connect port a s :
  hermit_startable s →
  wp false (client_connect (Net := hermit_net port) a) (λ r s', lines s' = lines s ∧
    match r with Ok _ => fresh_conn s' | Err _ => hermit_startable s' end) (λ _ _, False) s.
Proof.
  intros Hst. eapply wp_conseq; [by apply (client_connect_spec (NetLaws := hermit_net_laws port))|].
  cbv beta. intros [[]|e] s' [Hl Hr]; (split; [done|]); [|done].
  by destruct Hr as (Hu & Ht & _ & _ & Hg).
Qed.

Lemma wp_hermit_listen port p s :
  hermit_startable s →
  wp false (server_listen_and_get_first_connection (net := hermit_net port) p)
    (λ _ s', fresh_conn s' ∧ ∃ peer, lines s' = lines s ++
       [[Lit "Server running, listening for connection on 0.0.0.0:"; Lit p];
        [Lit "Connection established with "; Lit peer; Lit "!"]])
    (λ msg _, msg = ERR_UNWRAP) s.
Proof.
  intros [hs Hinv]. unfold server_listen_and_get_first_connection. wp_run.
  destruct (resolve _); wp_run; [|done]. apply wp_abi. simpl.
  eapply wp_mono; [by apply (api_accept_spec hs)| |done]. cbv beta.
  intros [[[h a] p']|[]] b Hr; wp_run; [|done]. destruct Hr as [_ Hinv'].
  eapply wp_on_stream; [done|]. wp_run. apply wp_abi. simpl.
  eapply wp_mono; [apply (api_peer_addr_spec (λ h', hs h' ∨ h' = h)); [by right|done]| |done].
  cbv beta. intros [x|[]] b' Hinv2; wp_run; [|done].
  split; [|exists (show_addr x); by rewrite <- app_assoc]. split; [|done].
  exists (λ h', hs h' ∨ h' = h), h. split_and!; [done|by right|done].
Qed.

(** The bandwidth server: what it reports it has received. *)
Definition server_errors : list string := ERR_UNWRAP :: client_errors.

Lemma wp_bw_server_main listen fuel c s :
  hermit_startable s → well_formed c →
  wp false (bw_server_main (net := hermit_net listen) fuel (show_config c))
    (λ _ s', length (given s') = n_rounds c * n_bytes c ∧ ∃ peer, lines s' = lines s ++
       [[Lit "Server running, listening for connection on 0.0.0.0:"; Lit (Netbench.port c)];
        [Lit "Connection established with "; Lit peer; Lit "!"];
        [Lit "Sent in total "; Num (Z.of_nat (n_rounds c * n_bytes c) / 1024); Lit " KBytes"];
        [Lit "Available approximated bandwidth: "; Measured; Lit " Mbit/s"]])
    (λ msg _, msg ∈ server_errors) s.
Proof.
  intros Hst [Ht Hc]. unfold bw_server_main. apply wp_bind.
  unfold wp at 1. rewrite parse_config_show, Hc by done. cbv zeta.
  assert (Hin : in_width 64 (Z.of_nat (n_bytes c) * Z.of_nat (n_rounds c))).
  { destruct Ht as (Hb' & Hr' & _). apply check_in_range; [split; [lia|done]..|done]. }
  rewrite (proj2 (Z.ltb_lt _ _)) by (rewrite Z.mul_comm; apply Hin). do 2 apply wp_bind.
  eapply wp_mono; [by apply wp_hermit_listen| |by intros msg ? ->; set_solver]. cbv beta.
  intros [] s1 [(Hu1 & _ & Hg1) [peer Hl1]]. apply wp_bind.
  eapply wp_mono; [apply (wp_setup (nlaws := hermit_net_laws listen) c s1 Hu1)|
    |by intros msg ? Hmsg; apply list_elem_of_further, elem_of_app; left]. cbv beta.
  intros [] s2 (Hu2 & Hl2 & _ & _ & _ & Hg2). apply wp_bind.
  eapply wp_mono; [apply wp_and; [by apply (wp_receive_rounds (laws := hermit_stream_laws) fuel _ _ s2 Hu2)
    |by apply (receive_rounds_quiet (nlaws := hermit_net_laws listen))]| |].
  2:{ intros msg ? ->. set_solver. }
  cbv beta. intros _ s3 [(_ & _ & data & Hd & Hg3) (_ & Hl3 & _)]. wp_run.
  simpl in *. split; [by rewrite Hg3, Hg2, Hg1|]. exists peer.
  rewrite Hl3, Hl2, Hl1, <- !app_assoc. by rewrite <- Nat2Z.inj_mul.
Qed.

(** ** A connection that cannot be made non-blocking *)

(** The linked network functions answer every request for the non-blocking mode with an error. *)
Definition refuses_nonblocking : Prop := ∀ h mode, sys_set_nonblocking h mode = mret (Err tt).

Context (Href : refuses_nonblocking).

Definition NONBLOCKING_ERROR : string := "Can't set channel to be non-blocking".

Lemma setup_refused c s :
  non_blocking c = true → hermit_usable s →
  wp true (setup c) (λ _ _, False) (λ msg s', msg = NONBLOCKING_ERROR ∧ taken s' = taken s ∧
    given s' = given s) s.
Proof.
  intros Hc (hs & h & Hconn & _). unfold setup. apply wp_bind. rewrite Hc.
  assert (Hend : ∀ s', conn s' = Some h → taken s' = taken s → given s' = given s →
    wp true (r ← stream_set_nonblocking true;
             unwrap_res "Can't set channel to be non-blocking" r) (λ _ _, False)
      (λ msg s', msg = NONBLOCKING_ERROR ∧ taken s' = taken s ∧ given s' = given s) s').
  { intros s' Hc' Ht Hg. wp_run. eapply wp_on_stream; [done|]. wp_run. apply wp_abi.
    unfold set_nonblocking. rewrite Href. by wp_run. }
  destruct (no_delay c).
  - apply wp_bind. eapply wp_on_stream; [done|]. apply wp_bind, wp_abi, wp_ret, wp_ret, wp_ret.
    by apply Hend.
  - apply wp_ret. by apply Hend.
Qed.

(** The panic of [setup] on a new connection. *)
Definition refused (msg : string) (s : StdNet) : Prop :=
  msg = NONBLOCKING_ERROR ∧ taken s = [] ∧ given s = [].

Lemma wp_setup_refused {A} t c (k : unit → M StdNet A) Q (E : string → StdNet → Prop) s :
  non_blocking c = true → fresh_conn s → (∀ msg s', refused msg s' → E msg s') →
  wp t (setup c ≫= k) Q E s.
Proof.
  intros Hc (Hu & Ht & Hg) HE. apply wp_bind.
  eapply wp_mono; [by apply wp_total_partial, setup_refused|done|].
  cbv beta. intros msg s' (-> & Ht' & Hg'). apply HE. split; [done|]. split; congruence.
Qed.

Lemma bw_client_refused port fuel c s :
  well_formed c → non_blocking c = true → hermit_startable s →
  wp false (bw_client_main (net := hermit_net port) fuel (show_config c))
    (λ _ s', lines s' = lines s ++ [[Lit "Connecting to the server "; Lit (address c); Lit "..."];
                                    [Lit "Couldn't connect to server..."]]) refused s.
Proof.
  intros [Ht Hc] Hnb Hst. unfold bw_client_main. apply wp_bind.
  unfold wp at 1. rewrite parse_config_show, Hc by done. do 2 apply wp_bind.
  eapply wp_mono; [by apply wp_hermit_connect| |done]. cbv beta.
  intros [[]|e] s1 [Hl1 Hs1].
  - by apply wp_setup_refused.
  - wp_run. rewrite Hl1. simpl. by rewrite <- app_assoc.
Qed.

Lemma bw_server_refused port fuel c s :
  well_formed c → non_blocking c = true → hermit_startable s →
  wp false (bw_server_main (net := hermit_net port) fuel (show_config c))
    (λ _ _, False) (λ msg s', refused msg s' ∨ msg = ERR_UNWRAP) s.
Proof.
  intros [Ht Hc] Hnb Hst. unfold bw_server_main. apply wp_bind.
  unfold wp at 1. rewrite parse_config_show, Hc by done. cbv zeta.
  assert (Hin : in_width 64 (Z.of_nat (n_bytes c) * Z.of_nat (n_rounds c))).
  { destruct Ht as (Hb' & Hr' & _). apply check_in_range; [split; [lia|done]..|done]. }
  rewrite Z.mul_comm, (proj2 (Z.ltb_lt _ _)) by apply Hin. do 2 apply wp_bind.
  eapply wp_mono; [by apply wp_hermit_listen| |by auto]. cbv beta. intros [] s1 [Hs1 _].
  apply wp_setup_refused; [done|done|by left].
Qed.

Definition MUL_OVERFLOW : string := "attempt to multiply with overflow".

Lemma latency_client_refused port fuel c s :
  well_formed c → non_blocking c = true → hermit_startable s →
  wp false (latency_client_main (net := hermit_net port) fuel (show_config c))
    (λ _ _, False) (λ msg s', refused msg s' ∨ msg = MUL_OVERFLOW) s.
Proof.
  intros [Ht Hc] Hnb Hst. unfold latency_client_main. apply wp_bind.
  unfold wp at 1. rewrite parse_config_show, Hc by done. do 2 apply wp_bind.
  unfold double_rounds. destruct (_ <? _)%Z; [|by right].
  apply (wp_loop false (λ _, hermit_startable) (λ _ _, 0)); [|done|done].
  intros [] s1 Hst1. unfold latency_client_round. apply wp_bind.
  eapply wp_mono; [by apply wp_hermit_connect| |done]. cbv beta.
  intros [[]|e] s2 [Hl2 Hs2].
  - apply wp_setup_refused; [done|done|by left].
  - by wp_run.
Qed.

Lemma latency_server_refused port fuel c s :
  well_formed c → non_blocking c = true → hermit_startable s →
  wp false (latency_server_main (net := hermit_net port) fuel (show_config c))
    (λ _ _, False) (λ msg s', refused msg s' ∨ msg = ERR_UNWRAP) s.
Proof.
  intros [Ht Hc] Hnb Hst. unfold latency_server_main. apply wp_bind.
  unfold wp at 1. rewrite parse_config_show, Hc by done. apply wp_bind.
  eapply wp_mono; [by apply wp_hermit_listen| |by auto]. cbv beta. intros [] s1 [Hs1 _].
  apply wp_setup_refused; [done|done|by left].
Qed.
End Std.

(** ** Properties *)

Section Properties.
Context {smol : Smoltcp} {kern : Kernel smol} {at_ : AsyncTask} {envt : Environment kern at_}
        {atl : AsyncTaskLaws at_} {laws : SmoltcpLaws smol}.
Variable (resolve : string → option (list Z * Z)) (show_addr : IpAddress * Z → string)
         (core_ids : option (list Z)).

(** The benchmark on the network stack; [fuel] bounds the loops of the stack. *)
#[local] Instance stack_net (fuel : nat) (listen : Z) : Net (StdNet (api := stack_api fuel)) :=
  hermit_net (api := stack_api fuel) resolve show_addr core_ids listen.

Lemma stack_refuses fuel : refuses_nonblocking (api := stack_api fuel).
Proof. done. Qed.

(** C6: The bandwidth benchmark on RustyHermit, from the command line through the standard library
    and hermit-abi down to the network stack, whatever the other threads of the program do:
    neither program deadlocks or fails inside the stack, their panics are those of their own
    error handling.  When the client ends it has reported that it could not connect, or it has
    handed exactly [n_rounds] times [n_bytes] zeros to the stack, shut the connection down and
    reported it.  When the server ends it has taken exactly as many bytes from the stack as it
    reports, in whole KBytes. *)
Theorem bandwidth_on_stack fuel fuel' listen c hs (s : StdNet (api := stack_api fuel)) :
  others_only envt → thread_inv hs (below s) → well_formed c →
  wp false (bw_client_main (net := stack_net fuel listen) fuel' (show_config c)) (λ _ s',
      let connecting := [Lit "Connecting to the server "; Lit (address c); Lit "..."] in
      lines s' = lines s ++ [connecting; [Lit "Couldn't connect to server..."]] ∨
      lines s' = lines s ++ [connecting; [Lit "Connection established! Ready to send..."];
                             [Lit "Sent everything!"]] ∧
        taken s' = repeat 0%Z (n_rounds c * n_bytes c) ∧ is_down s' = true)
    (λ msg _, msg ∈ client_errors) s ∧
  wp false (bw_server_main (net := stack_net fuel listen) fuel' (show_config c)) (λ _ s',
      length (given s') = n_rounds c * n_bytes c ∧ ∃ peer, lines s' = lines s ++
       [[Lit "Server running, listening for connection on 0.0.0.0:"; Lit (port c)];
        [Lit "Connection established with "; Lit peer; Lit "!"];
        [Lit "Sent in total "; Num (Z.of_nat (n_rounds c * n_bytes c) / 1024); Lit " KBytes"];
        [Lit "Available approximated bandwidth: "; Measured; Lit " Mbit/s"]])
    (λ msg _, msg ∈ server_errors) s.
Proof.
  intros Ho Hinv Hc. pose proof (others_laws envt Ho) as envl.
  assert (Hst : hermit_startable (api := stack_api fuel) s) by by exists hs.
  split.
  - refine (wp_bw_client_main (nlaws := hermit_net_laws (api := stack_api fuel) resolve show_addr
      core_ids listen) fuel' c s Hst Hc _). done.
  - exact (wp_bw_server_main (api := stack_api fuel) resolve show_addr core_ids listen fuel' c s
      Hst Hc).
Qed.

(** C35: With the default of [--nonblocking] no benchmark measures anything on RustyHermit: the
    network stack refuses the non-blocking mode, so each of the four programs panics in
    [connection::setup] as soon as it has a connection, before a byte of the benchmark is sent
    or received.  The bandwidth client may also end because it could not connect; the other
    three never end without a panic. *)
Theorem default_nonblocking_refused fuel fuel' listen c hs (s : StdNet (api := stack_api fuel)) :
  others_only envt → thread_inv hs (below s) → well_formed c → non_blocking c = true →
  wp false (bw_client_main (net := stack_net fuel listen) fuel' (show_config c))
    (λ _ s', lines s' = lines s ++ [[Lit "Connecting to the server "; Lit (address c); Lit "..."];
                                    [Lit "Couldn't connect to server..."]]) refused s ∧
  wp false (bw_server_main (net := stack_net fuel listen) fuel' (show_config c))
    (λ _ _, False) (λ msg s', refused msg s' ∨ msg = ERR_UNWRAP) s ∧
  wp false (latency_client_main (net := stack_net fuel listen) fuel' (show_config c))
    (λ _ _, False) (λ msg s', refused msg s' ∨ msg = MUL_OVERFLOW) s ∧
  wp false (latency_server_main (net := stack_net fuel listen) fuel' (show_config c))
    (λ _ _, False) (λ msg s', refused msg s' ∨ msg = ERR_UNWRAP) s.
Proof.
  intros Ho Hinv Hc Hnb. pose proof (others_laws envt Ho) as envl.
  assert (Hst : hermit_startable (api := stack_api fuel) s) by by exists hs.
  set (api := stack_api fuel). pose proof (stack_refuses fuel : refuses_nonblocking (api := api)) as Href.
  split_and!.
  - exact (bw_client_refused (api := api) resolve show_addr core_ids Href listen fuel' c s Hc Hnb Hst).
  - exact (bw_server_refused (api := api) resolve show_addr core_ids Href listen fuel' c s Hc Hnb Hst).
  - exact (latency_client_refused (api := api) resolve show_addr core_ids Href listen fuel' c s Hc Hnb Hst).
  - exact (latency_server_refused (api := api) resolve show_addr core_ids Href listen fuel' c s Hc Hnb Hst).
Qed.
End Properties.

(** ** Witnesses *)

Definition sim_resolve (a : string) : option (list Z * Z) :=
  if String.eqb a "10.0.5.1:7878" then Some ([49]%Z, 7878%Z) else None.

Definition sim_hermit : StdNet (api := stack_api (envt := sim_busy) 10) :=
  mkStdNet (api := stack_api (envt := sim_busy) 10) (sim_ready ∅) None [] [] [] false.

(** Two rounds of three bytes. *)
Definition sim_bench (non_blocking : bool) : Config :=
  mkConfig "10.0.5.1" "7878" 3 2 true non_blocking (-1).

Definition sim_bench_run_main (b : bool) :
    M (StdNet (api := stack_api (envt := sim_busy) 10)) unit :=
  bw_client_main (net := stack_net (envt := sim_busy) sim_resolve (λ _, "") None 10 7878)
    100 (show_config (sim_bench b)).

Definition sim_bench_run (b : bool) := sim_bench_run_main b sim_hermit.

Lemma sim_bench_well_formed b : well_formed (sim_bench b).
Proof. split; [unfold in_types; simpl; lia|reflexivity]. Defined.

Lemma sim_hermit_inv : thread_inv (at_ := sim_task) no_handles (below sim_hermit).
Proof. apply sim_ready_thread_inv. by intros h []. Defined.

(** The client connects, sends its six bytes and closes, while packets come and go. *)
Lemma bandwidth_on_stack_witness :
  let s' := final sim_hermit (sim_bench_run false) in
  sim_bench_run false = Done tt s' ∧
  (let connecting := [Lit "Connecting to the server "; Lit "10.0.5.1"; Lit "..."] in
   lines s' = [connecting; [Lit "Couldn't connect to server..."]] ∨
   lines s' = [connecting; [Lit "Connection established! Ready to send..."];
               [Lit "Sent everything!"]] ∧
     taken s' = repeat 0%Z 6 ∧ is_down s' = true).
Proof.
  intros s'.
  assert (Hrun : sim_bench_run false = Done tt s') by (apply run_returns; vm_compute; reflexivity).
  split; [exact Hrun|].
  exact (wp_done _ _ _ _ _ _ _
    (proj1 (bandwidth_on_stack (envt := sim_busy) sim_resolve (λ _, "") None 10 100 7878
       (sim_bench false) no_handles sim_hermit sim_busy_only sim_hermit_inv
       (sim_bench_well_formed false))) Hrun).
Defined.

Definition panic_of {W' A} (o : outcome W' A) : option string :=
  match o with Panicked msg _ => Some msg | _ => None end.

Lemma default_nonblocking_refused_witness :
  panic_of (sim_bench_run true) = Some NONBLOCKING_ERROR ∧
  wp false (sim_bench_run_main true) (λ _ s', lines s' =
    [[Lit "Connecting to the server "; Lit "10.0.5.1"; Lit "..."];
     [Lit "Couldn't connect to server..."]]) refused sim_hermit.
Proof.
  split; [vm_compute; reflexivity|].
  exact (proj1 (default_nonblocking_refused (envt := sim_busy) sim_resolve (λ _, "") None 10 100
    7878 (sim_bench true) no_handles sim_hermit sim_busy_only sim_hermit_inv
    (sim_bench_well_formed true) eq_refl)).
Defined.
