(* ===== verification/NetbenchLatency.v ===== *)
(** * The latency benchmark of [benches/netbench]

    Client and server of rust-tcp-latency: what their rounds move and print over any stream
    that works, and the two programs on the network stack of RustyHermit. *)

From S2P Require Import Prelude Extern WakerReg State Sim Invariant Nic Executor Socket Syscalls Tcpstream Link Others Netbench NetbenchMain NetbenchHermit.

(** ** The progress of the client *)

Definition percent_line (p : nat) : list piece := [Num (Z.of_nat p); Lit "% completed"].

(** What the rounds before [i] print, with a line in every round that [step] divides. *)
Definition progress (step i : nat) : list (list piece) :=
  flat_map (λ j, if j mod step =? 0 then [percent_line (j / step)] else []) (seq 0 i).

Lemma progress_S step i :
  progress step (Datatypes.S i) =
  progress step i ++ (if i mod step =? 0 then [percent_line (i / step)] else []).
Proof. unfold progress. by rewrite seq_S, flat_map_app; simpl; rewrite List.app_nil_r. Qed.

(** They are the numbers from 0 on, as many as [i] has begun steps. *)
Lemma progress_counts step i :
  0 < step → progress step i = percent_line <$> seq 0 ((i + step - 1) / step).
Proof.
  intros Hstep. induction i as [|i IH]; [by rewrite Nat.div_small by lia|].
  rewrite progress_S, IH. pose proof (Nat.div_mod_eq i step) as Hdm.
  pose proof (Nat.mod_upper_bound i step ltac:(lia)) as Hr.
  set (q := i / step) in *. set (r := i mod step) in *.
  assert (Hnext : (Datatypes.S i + step - 1) / step = Datatypes.S q).
  { symmetry. apply (Nat.div_unique _ _ _ r); nia. }
  rewrite Hnext. destruct (Nat.eqb_spec r 0) as [Hr0|Hr0].
  - replace ((i + step - 1) / step) with q; [by rewrite seq_S, fmap_app|].
    apply (Nat.div_unique _ _ _ (step - 1)); nia.
  - replace ((i + step - 1) / step) with (Datatypes.S q); [by rewrite List.app_nil_r|].
    apply (Nat.div_unique _ _ _ (r - 1)); nia.
Qed.

(** ** The rounds *)

Section Rounds.
Context {W : Type} {tot : bool} {st : Stream W} {net : Net W} {laws : StreamLaws tot st}
        {nlaws : NetLaws laws net}.
Implicit Types (w : W).

(** One message out or in, whole, and nothing else. *)
Lemma wp_send_whole fuel buf w :
  usable w → (tot = true → length buf + patience w < fuel) →
  wp tot (send_message fuel (length buf) buf) (λ _ w', silent w w' ∧ no_worse w w' ∧
    sent w' = sent w ++ buf ∧ got w' = got w) (λ msg _, msg = WRITE_ERROR) w.
Proof.
  intros Hu Hfuel. eapply wp_conseq.
  { apply wp_and; [by apply wp_send_message|by apply send_message_silent]. }
  cbv beta. intros [] w' [(_ & Hg & Hp & k & Hk & Hs) Hq].
  split_and!; [done|done| |done]. by rewrite Hs, take_ge by lia.
Qed.

Lemma wp_receive_whole fuel buf w :
  usable w → (tot = true → length buf + patience w < fuel) →
  wp tot (receive_message fuel (length buf) buf) (λ buf' w', silent w w' ∧ no_worse w w' ∧
    length buf' = length buf ∧ got w' = got w ++ buf' ∧ sent w' = sent w)
    (λ msg _, msg = READ_ERROR) w.
Proof.
  intros Hu Hfuel. eapply wp_conseq.
  { apply wp_and; [by apply wp_receive_message|by apply receive_message_silent]. }
  cbv beta. intros buf' w' [(_ & Hs & Hp & Hl & k & Hk & Hg & _) Hq].
  split_and!; [done|done|done| |done]. by rewrite Hg, take_ge by lia.
Qed.

(** The panics of the rounds. *)
Definition round_errors : list string := [WRITE_ERROR; READ_ERROR].

(** The server sends what it has received. *)
Lemma wp_latency_server fuel n_rounds n_bytes w :
  usable w → (tot = true → n_bytes + patience w < fuel) →
  wp tot (latency_server fuel n_rounds n_bytes) (λ _ w', silent w w' ∧
    ∃ data, length data = n_rounds * 2 * n_bytes ∧ got w' = got w ++ data ∧
            sent w' = sent w ++ data) (λ msg _, msg ∈ round_errors) w.
Proof.
  intros Hu Hfuel. unfold latency_server.
  eapply wp_conseq; [apply (wp_for_range tot (λ i buf w', length buf = n_bytes ∧ silent w w' ∧
    no_worse w w' ∧ ∃ data, length data = i * n_bytes ∧ got w' = got w ++ data ∧
      sent w' = sent w ++ data))|].
  - intros i buf w1 _ (Hl & Hq1 & Hp1 & data & Hd & Hg1 & Hs1). wp_run.
    assert (Hf1 : tot = true → length buf + patience w1 < fuel).
    { intros Ht. specialize (Hfuel Ht). specialize (Hp1 Ht). lia. }
    rewrite <- Hl. eapply wp_mono; [apply wp_receive_whole; [apply Hq1|done]| |].
    2:{ intros msg ? ->. set_solver. }
    cbv beta. intros buf' w2 (Hq2 & Hp2 & Hl2 & Hg2 & Hs2). wp_run. rewrite <- Hl2.
    eapply wp_mono; [apply wp_send_whole; [apply Hq2|]| |].
    { intros Ht. specialize (Hf1 Ht). specialize (Hp2 Ht). lia. }
    2:{ intros msg ? ->. set_solver. }
    cbv beta. intros [] w3 (Hq3 & Hp3 & Hs3 & Hg3). wp_run.
    split_and!; [done|by do 2 (etrans; [done|])|by do 2 (etrans; [done|])|].
    exists (data ++ buf'). rewrite length_app, Hg3, Hg2, Hg1, Hs3, Hs2, Hs1, <- !app_assoc.
    split_and!; [lia|done|done].
  - split_and!; [apply repeat_length|done..|]. exists []. by rewrite !List.app_nil_r.
  - cbv beta. intros buf w' (_ & Hq & _ & Hdata). by split.
Qed.

(** The client counts its progress in steps of two per cent of [n_rounds]. *)
Definition progress_step (n_rounds : nat) : nat := n_rounds * 2 / 100.
Definition report_percent (p : nat) : M W unit := println [Num (Z.of_nat p); Lit "% completed"].

(** The client, before round [i]: it has sent [i] messages of zeros, and received as many bytes;
    the second half of the rounds is in the histogram. *)
Definition client_inv w n_rounds n_bytes (i : nat) (s : list Z * nat) w' : Prop :=
  length s.1 = n_bytes ∧ s.2 = i - n_rounds ∧ (i = 0 ∨ 0 < progress_step n_rounds) ∧
  usable w' ∧ down w' = down w ∧ no_worse w w' ∧ out w' = out w ++ progress (progress_step n_rounds) i ∧
  sent w' = sent w ++ repeat 0%Z (i * n_bytes) ∧
  ∃ data, length data = i * n_bytes ∧ got w' = got w ++ data.

(** A line of progress, when it is due. *)
Lemma wp_report_progress n_rounds i E w :
  usable w → (progress_step n_rounds = 0 → E REM_ZERO w) →
  wp tot (if progress_step n_rounds =? 0 then panic REM_ZERO
          else if i mod progress_step n_rounds =? 0
          then report_percent (i / progress_step n_rounds) else mret tt)
    (λ _ w', usable w' ∧ down w' = down w ∧ no_worse w w' ∧ 0 < progress_step n_rounds ∧
       out w' = out w ++ (if i mod progress_step n_rounds =? 0
                          then [percent_line (i / progress_step n_rounds)] else []) ∧
       sent w' = sent w ∧ got w' = got w) E w.
Proof.
  intros Hu HE. destruct (Nat.eqb_spec (progress_step n_rounds) 0); [by wp_run; apply HE|].
  destruct (_ =? 0).
  - eapply wp_mono; [by apply wp_println| |done]. cbv beta.
    intros [] w' (_ & Hu' & Ho & Hs & Hp & Hd & Hg).
    split_and!; [by apply Hu'|done| |lia|done..]. intros _. by rewrite Hp.
  - wp_run. split_and!; [done..|lia|by rewrite List.app_nil_r|done|done].
Qed.

Lemma wp_latency_round fuel n_rounds n_bytes i s w w1 :
  (tot = true → n_bytes + patience w < fuel) → i < n_rounds * 2 →
  client_inv w n_rounds n_bytes i s w1 →
  wp tot (latency_round fuel report_percent n_rounds n_bytes (repeat 0%Z n_bytes) i s)
    (client_inv w n_rounds n_bytes (Datatypes.S i))
    (λ msg _, msg ∈ round_errors ∨ msg = REM_ZERO ∧ 1 ≤ n_rounds < 50) w1.
Proof.
  intros Hfuel Hi. destruct s as [rbuf hist].
  intros (Hl & Hh & _ & Hu1 & Hd1 & Hp1 & Ho1 & Hs1 & data & Hdl & Hg1); simpl in *.
  unfold latency_round. cbv zeta. fold (progress_step n_rounds).
  set (zeros := repeat 0%Z n_bytes). assert (Hz : length zeros = n_bytes) by apply repeat_length.
  apply wp_bind. rewrite <- Hz at 1.
  eapply wp_mono; [apply wp_send_whole; [done|]| |].
  { intros Ht. specialize (Hfuel Ht). specialize (Hp1 Ht). lia. }
  2:{ intros msg ? ->. left. set_solver. }
  cbv beta. intros [] w2 ((Hu2 & Ho2 & Hd2) & Hp2 & Hs2 & Hg2). apply wp_bind. rewrite <- Hl at 1.
  eapply wp_mono; [apply wp_receive_whole; [done|]| |].
  { intros Ht. specialize (Hfuel Ht). specialize (Hp1 Ht). specialize (Hp2 Ht). lia. }
  2:{ intros msg ? ->. left. set_solver. }
  cbv beta. intros rbuf' w3 ((Hu3 & Ho3 & Hd3) & Hp3 & Hl3 & Hg3 & Hs3). apply wp_bind.
  eapply wp_conseq; [apply wp_report_progress; [done|]|].
  { intros H0. right. split; [done|]. unfold progress_step in H0.
    apply Nat.div_small_iff in H0; lia. }
  cbv beta. intros [] w4 (Hu4 & Hd4 & Hp4 & Hpos & Ho4 & Hs4 & Hg4). wp_run.
  split_and!; simpl; [congruence| |by right|done|congruence| | | |].
  - destruct (Nat.leb_spec n_rounds i); lia.
  - by repeat (etrans; [done|]).
  - by rewrite Ho4, Ho3, Ho2, Ho1, progress_S, <- app_assoc.
  - rewrite Hs4, Hs3, Hs2, Hs1, <- app_assoc. unfold zeros.
    by rewrite <- repeat_app, (Nat.add_comm (i * n_bytes)).
  - exists (data ++ rbuf'). rewrite length_app, Hg4, Hg3, Hg2, Hg1, <- app_assoc. split; [lia|done].
Qed.

Lemma wp_latency_client fuel n_rounds n_bytes w :
  usable w → (tot = true → n_bytes + patience w < fuel) →
  wp tot (latency_client fuel report_percent n_rounds n_bytes)
    (client_inv w n_rounds n_bytes (n_rounds * 2))
    (λ msg _, msg ∈ round_errors ∨ msg = REM_ZERO ∧ 1 ≤ n_rounds < 50) w.
Proof.
  intros Hu Hfuel. unfold latency_client.
  apply (wp_for_range tot (client_inv w n_rounds n_bytes)).
  - intros i s w1 Hi. apply wp_latency_round; [done|lia].
  - split_and!; [apply repeat_length|done|by left|done..|by rewrite List.app_nil_r| |].
    + by rewrite List.app_nil_r.
    + exists []. by rewrite List.app_nil_r.
Qed.
End Rounds.

(** ** The programs over hermit-abi *)

(** The lines of the client. *)
Definition connecting_line (c : Config) : list piece :=
  [Lit "Connecting to the server "; Lit (address c); Lit "..."].
Definition retry_line : list piece :=
  [Lit "Couldn't connect to server, retrying... Error "; Measured].
Definition established_line : list piece := [Lit "Connection established! Ready to send..."].
Definition rule_line : list piece :=
  [Lit "-------------------------------------------------------------"].
Definition summary_lines : list (list piece) :=
  [[Lit "Sent/received everything!"]; rule_line; [Lit "HDRHIST summary, measure in ns"]; rule_line;
   [Lit "summary:"; Measured]; rule_line; [Lit "Summary_string:"; Measured]; rule_line;
   [Lit "CDF summary:"; Measured]].

(** The progress of a whole measurement. *)
Definition percent_lines (n_rounds : nat) : list (list piece) :=
  let step := progress_step n_rounds in
  percent_line <$> seq 0 ((n_rounds * 2 + step - 1) / step).

(** The number printed goes past one hundred. *)
Lemma percent_lines_exceed : last (percent_lines 99) = Some (percent_line 197).
Proof. reflexivity. Qed.

(** The panics of both programs, and when those that do not come from the stream occur. *)
Definition latency_failure (core_ids : option (list Z)) (c : Config) (msg : string) : Prop :=
  msg ∈ setup_errors ∨ msg ∈ round_errors ∨
  (msg = NONE_UNWRAP ∧ 0 ≤ p_id c ∧ core_ids = None)%Z ∨
  (msg = REM_ZERO ∧ 0 ≤ p_id c ∧ core_ids = Some [])%Z ∨
  msg = MUL_OVERFLOW ∧ n_bytes c = 0.
Definition client_failure (core_ids : option (list Z)) (c : Config) (msg : string) : Prop :=
  latency_failure core_ids c msg ∨ msg = "shutdown call failed" ∨
  msg = REM_ZERO ∧ 1 ≤ n_rounds c < 50.
Definition server_failure (core_ids : option (list Z)) (c : Config) (msg : string) : Prop :=
  latency_failure core_ids c msg ∨ msg = ERR_UNWRAP.

Section Std.
Context {W : Type} {api : TcpApi W} {spec : TcpApiSpec api}.
Variable resolve : string → option (list Z * Z).
Variable show_addr : IpAddr * Z → string.
Variable core_ids : option (list Z).
Variable listen : Z.
#[local] Instance lat_net : Net (StdNet (api := api)) :=
  hermit_net resolve show_addr core_ids listen.
#[local] Instance lat_laws : NetLaws hermit_stream_laws lat_net :=
  hermit_net_laws resolve show_addr core_ids listen.
Implicit Types (s : StdNet (api := api)).

(** The core exists, or the reason is known. *)
Lemma wp_threading_setup c s :
  wp false (threading_setup c) (λ _ s', s' = s) (λ msg _, latency_failure core_ids c msg) s.
Proof.
  unfold threading_setup. destruct (Z.leb_spec 0 (p_id c)) as [Hp|]; [|by wp_run].
  wp_run. destruct core_ids as [cores|]; wp_run; [|unfold latency_failure; tauto].
  destruct cores as [|x cores].
  { unfold core_index. rewrite (proj2 (Z.leb_le _ _)) by done. right. right. right. left. done. }
  destruct (core_index_in_range (p_id c) (Z.of_nat (length (x :: cores)))) as (o & -> & Ho);
    [simpl; lia|].
  destruct o as [i|]; [|lia].
  destruct (lookup_lt_is_Some_2 (x :: cores) (Z.to_nat i)) as [core ->]; [lia|]. by wp_run.
Qed.

Lemma wp_double_rounds c s :
  well_formed c → wp false (double_rounds c) (λ _ s', s' = s)
    (λ msg _, latency_failure core_ids c msg) s.
Proof.
  intros [(Hb & Hr & _) Hc]. unfold double_rounds.
  destruct (Z.ltb_spec (Z.of_nat (n_rounds c) * 2) (2 ^ 64)) as [|Hge]; [done|].
  do 4 right. split; [done|]. destruct (decide (n_bytes c = 0)) as [|Hne]; [done|].
  destruct (config_check_bounds (Z.of_nat (n_bytes c)) (Z.of_nat (n_rounds c))) as [_ Hin];
    [by split; [lia|]..|].
  destruct (Hin Hc) as [_ [_ Hlt]]; [lia|]. lia.
Qed.

(** The two set-ups between the connection and the rounds. *)
Lemma wp_setups {A} c (k : M StdNet A) Q (E : string → StdNet → Prop) s :
  usable s → (∀ msg s', latency_failure core_ids c msg → E msg s') →
  (∀ s', quiet_step s s' → wp false k Q E s') →
  wp false (_ ← setup c; _ ← threading_setup c; k) Q E s.
Proof.
  intros Hu HE Hk. apply wp_bind.
  eapply wp_mono; [by apply (wp_setup (nlaws := lat_laws))| |by intros; apply HE; left]. cbv beta.
  intros [] s1 H1. apply wp_bind.
  eapply wp_mono; [apply wp_threading_setup| |by intros; apply HE]. by intros [] s2 ->; apply Hk.
Qed.

Lemma wp_print_summary n s :
  wp true (print_summary n) (λ _ s', lines s' = lines s ++ summary_lines ∧ taken s' = taken s ∧
    given s' = given s ∧ is_down s' = is_down s) (λ _ _, False) s.
Proof.
  unfold wp, print_summary, print_line, mbind, M_bind. cbn. by rewrite <- !app_assoc.
Qed.

(** What the client has done when it ends, after [retries] attempts in vain. *)
Definition client_done c s s' : Prop :=
  let total := n_rounds c * 2 * n_bytes c in
  (n_rounds c = 0 ∨ 50 ≤ n_rounds c) ∧
  taken s' = repeat 0%Z total ∧ length (given s') = total ∧ is_down s' = true ∧
  ∃ retries, lines s' = lines s ++ connecting_line c :: repeat retry_line retries ++
    established_line :: percent_lines (n_rounds c) ++ summary_lines.

(** Once connected, with the given lines printed. *)
Lemma wp_client_connected fuel c s :
  fresh_conn s →
  wp false
    (_ ← setup c;
     _ ← threading_setup c;
     _ ← println established_line;
     '(_, hist) ← latency_client fuel report_percent (n_rounds c) (n_bytes c);
     _ ← close_connection;
     _ ← print_summary hist;
     mret (inr tt : unit + unit))
    (λ r s', r = inr tt ∧ let total := n_rounds c * 2 * n_bytes c in
      (n_rounds c = 0 ∨ 50 ≤ n_rounds c) ∧ taken s' = repeat 0%Z total ∧
      length (given s') = total ∧ is_down s' = true ∧
      lines s' = lines s ++ established_line :: percent_lines (n_rounds c) ++ summary_lines)
    (λ msg _, client_failure core_ids c msg) s.
Proof.
  intros (Hu & Ht & Hg). apply wp_setups; [done|by left|].
  intros s1 (Hu1 & Ho1 & Hs1 & _ & _ & Hg1). apply wp_bind.
  eapply wp_mono; [apply (wp_println (nlaws := lat_laws))| |done]. cbv beta.
  intros [] s2 (_ & Hu2 & Ho2 & Hs2 & _ & _ & Hg2). specialize (Hu2 Hu1). apply wp_bind.
  eapply wp_mono; [apply (wp_latency_client (nlaws := lat_laws)); [done|done]| |].
  2:{ cbv beta. intros msg _ [Hm|Hm]; [left; right; by left|by do 2 right]. }
  cbv beta. intros [rbuf hist] s3 (_ & _ & Hpos & Hu3 & _ & _ & Ho3 & Hs3 & data & Hd & Hg3).
  unfold close_connection. do 2 apply wp_bind.
  eapply wp_mono; [by apply (shutdown_spec (NetLaws := lat_laws))| |done]. cbv beta.
  intros [[]|e] s4 (Ho4 & Hs4 & Hg4 & Hd4); wp_run; [|right; by left].
  eapply wp_mono; [apply wp_total_partial, wp_print_summary| |done]. cbv beta.
  intros [] s5 (Ho5 & Hs5 & Hg5 & Hd5). apply wp_ret. split; [done|]. cbv zeta.
  assert (Hn : n_rounds c = 0 ∨ 50 ≤ n_rounds c).
  { destruct Hpos as [|Hpos]; [lia|]. unfold progress_step in Hpos.
    destruct (decide (50 ≤ n_rounds c)); [by right|]. rewrite Nat.div_small in Hpos; lia. }
  simpl in *. split_and!; [done| | |by rewrite Hd5, Hd4|].
  - by rewrite Hs5, Hs4, Hs3, Hs2, Hs1, Ht.
  - by rewrite Hg5, Hg4, Hg3, Hg2, Hg1, Hg.
  - rewrite Ho5, Ho4, Ho3, Ho2, Ho1, <- !app_assoc. simpl. do 2 f_equal. f_equal.
    destruct Hn as [->|Hn]; [done|]. apply progress_counts. by destruct Hpos as [|]; [lia|].
Qed.

Lemma wp_latency_client_main fuel c s :
  hermit_startable s → well_formed c →
  wp false (latency_client_main fuel (show_config c)) (λ _, client_done c s)
    (λ msg _, client_failure core_ids c msg) s.
Proof.
  intros Hst Hwf. unfold latency_client_main. apply wp_bind.
  unfold wp at 1. rewrite parse_config_show, (proj2 Hwf) by apply Hwf. do 2 apply wp_bind.
  eapply wp_mono; [by apply wp_double_rounds| |by left]. cbv beta. intros _ s1 ->.
  set (s1 := mkStdNet _ _ _ _ _ _).
  apply (wp_loop false (λ _ s', hermit_startable s' ∧ ∃ n,
    lines s' = lines s ++ connecting_line c :: repeat retry_line n) (λ _ _, 0)); [| |done].
  2:{ split; [done|]. by exists 0. }
  intros [] s2 [Hst2 [n Hl2]]. unfold latency_client_round. apply wp_bind.
  eapply wp_mono; [by apply wp_hermit_connect| |done]. cbv beta.
  intros [[]|e] s3 [Hl3 Hs3].
  - eapply wp_conseq; [by apply wp_client_connected|]. cbv beta.
    intros r s4 (-> & Hn & Ht & Hg & Hd & Hl). split_and!; [done..|]. exists n.
    by rewrite Hl, Hl3, Hl2, <- app_assoc.
  - wp_run. split; [|done]. split; [done|]. exists (Datatypes.S n). simpl.
    rewrite Hl3, Hl2, <- app_assoc. by rewrite repeat_cons.
Qed.

(** What the server has done when it ends. *)
Definition server_done c s s' : Prop :=
  taken s' = given s' ∧ length (given s') = n_rounds c * 2 * n_bytes c ∧
  ∃ peer, lines s' = lines s ++
    [[Lit "Server running, listening for connection on 0.0.0.0:"; Lit (Netbench.port c)];
     [Lit "Connection established with "; Lit peer; Lit "!"]; [Lit "Done exchanging stuff"]].

Lemma wp_latency_server_main fuel c s :
  hermit_startable s → well_formed c →
  wp false (latency_server_main fuel (show_config c)) (λ _, server_done c s)
    (λ msg _, server_failure core_ids c msg) s.
Proof.
  intros Hst Hwf. unfold latency_server_main. apply wp_bind.
  unfold wp at 1. rewrite parse_config_show, (proj2 Hwf) by apply Hwf. apply wp_bind.
  eapply wp_mono; [by apply wp_hermit_listen| |by right]. cbv beta.
  intros [] s1 [(Hu1 & Ht1 & Hg1) [peer Hl1]]. apply wp_setups; [done|by left|].
  intros s2 (Hu2 & Ho2 & Hs2 & _ & _ & Hg2). apply wp_bind.
  eapply wp_mono; [by apply wp_double_rounds| |by left]. cbv beta. intros _ s3 ->. apply wp_bind.
  eapply wp_mono; [apply (wp_latency_server (nlaws := lat_laws)); [done|done]| |].
  2:{ cbv beta. intros msg _ Hm. left. right. by left. }
  cbv beta. intros _ s3 [(_ & Ho3 & _) (data & Hd & Hg3 & Hs3)]. wp_run. simpl in *.
  split_and!; simpl.
  - by rewrite Hs3, Hs2, Ht1, Hg3, Hg2, Hg1.
  - by rewrite Hg3, Hg2, Hg1.
  - exists peer. by rewrite Ho3, Ho2, Hl1, <- app_assoc.
Qed.
End Std.

(** ** Properties *)

Section Properties.
Context {smol : Smoltcp} {kern : Kernel smol} {at_ : AsyncTask} {envt : Environment kern at_}
        {atl : AsyncTaskLaws at_} {laws : SmoltcpLaws smol}.
Variable (resolve : string → option (list Z * Z)) (show_addr : IpAddress * Z → string)
         (core_ids : option (list Z)).
#[local] Abbreviation stack_net := (stack_net resolve show_addr core_ids).

(** C7: The latency benchmark on RustyHermit, from the command line down to the network stack,
    whatever the other threads of the program do.  Neither program deadlocks or fails inside the
    stack, and their panics are those of their own error handling, each with its cause.  When
    the client ends it has tried until it was connected, sent twice [n_rounds] messages of
    zeros, received as many bytes, shut the connection down and printed its progress and the
    summary; this takes no round at all or at least 50 of them.  When the server ends it has sent
    exactly the bytes it received, that many.  So over a network that delivers to each
    side a prefix of what the other has sent, the client gets its zeros back. *)
Theorem latency_on_stack fuel fuel' listen c hs hs2 (s s2 : StdNet (api := stack_api fuel)) :
  others_only envt → thread_inv hs (below s) → thread_inv hs2 (below s2) → well_formed c →
  let client := latency_client_main (net := stack_net fuel listen) fuel' (show_config c) in
  let server := latency_server_main (net := stack_net fuel listen) fuel' (show_config c) in
  wp false client (λ _, client_done c s) (λ msg _, client_failure core_ids c msg) s ∧
  wp false server (λ _, server_done c s2) (λ msg _, server_failure core_ids c msg) s2 ∧
  (∀ s' s2', client s = Done tt s' → server s2 = Done tt s2' →
     given s2' `prefix_of` taken s' → given s' `prefix_of` taken s2' →
     given s' = taken s').
Proof.
  intros Ho Hinv Hinv2 Hc client server. pose proof (others_laws envt Ho) as envl.
  assert (Hst : hermit_startable (api := stack_api fuel) s) by by exists hs.
  assert (Hst2 : hermit_startable (api := stack_api fuel) s2) by by exists hs2.
  pose proof (wp_latency_client_main (api := stack_api fuel) resolve show_addr core_ids listen
    fuel' c s Hst Hc) as Hclient.
  pose proof (wp_latency_server_main (api := stack_api fuel) resolve show_addr core_ids listen
    fuel' c s2 Hst2 Hc) as Hserver.
  split_and!; [exact Hclient|exact Hserver|]. intros s' s2' Hrun Hrun2 Hp1 Hp2.
  apply (wp_done _ _ _ _ _ _ _ Hclient) in Hrun as (_ & Ht & Hg & _).
  apply (wp_done _ _ _ _ _ _ _ Hserver) in Hrun2 as (Ht2 & Hg2 & _).
  assert (given s2' = taken s') as Heq.
  { apply prefix_length_eq; [done|]. by rewrite Hg2, Ht, repeat_length. }
  rewrite <- Heq, <- Ht2. apply prefix_length_eq; [done|]. by rewrite Ht2, Hg, Hg2.
Qed.
End Properties.

(** ** Witness *)

(** Fifty rounds of one byte, measured twice over; the peer of the client sends back what it gets,
    and the peer of the server sends a hundred zeros. *)
Definition sim_latency : Config := mkConfig "10.0.5.1" "7878" 1 50 true false (-1).

Definition sim_name (a : string) : option (list Z * Z) := Some ([49]%Z, 7878%Z).

#[local] Abbreviation sim_latency_client :=
  (latency_client_main (net := stack_net (envt := sim_busy) sim_name (λ _, "peer") None 10 7878)
    100 (show_config sim_latency)).
#[local] Abbreviation sim_latency_server :=
  (latency_server_main (net := stack_net (envt := sim_busy) sim_name (λ _, "peer") None 10 7878)
    100 (show_config sim_latency)).

Lemma sim_latency_well_formed : well_formed sim_latency.
Proof. split; [unfold in_types; simpl; lia|reflexivity]. Defined.

(** A run that has ended has done what is known of its program. *)
Lemma run_meets {W} (m : M W unit) (Q : unit → W → Prop) E w :
  wp false m Q E w → value_of (m w) = Some tt →
  Q tt (final w (m w)) ∧ m w = Done tt (final w (m w)).
Proof.
  intros Hm Hv. pose proof (run_returns w (m w) tt Hv) as Hrun. split; [|done].
  exact (wp_done _ _ _ _ _ _ _ Hm Hrun).
Defined.

Lemma latency_on_stack_witness :
  let s' := final sim_hermit (sim_latency_client sim_hermit) in
  let s2' := final sim_hermit (sim_latency_server sim_hermit) in
  client_done sim_latency sim_hermit s' ∧ server_done sim_latency sim_hermit s2' ∧
  given s' = taken s'.
Proof.
  intros s' s2'.
  pose proof (latency_on_stack (envt := sim_busy) sim_name (λ _, "peer") None 10 100 7878 sim_latency
    no_handles no_handles sim_hermit sim_hermit sim_busy_only sim_hermit_inv sim_hermit_inv
    sim_latency_well_formed) as Hall.
  cbv zeta in Hall. destruct Hall as (Hc & Hs & Hback).
  assert (Hv : value_of (sim_latency_client sim_hermit) = Some tt) by (vm_compute; reflexivity).
  assert (Hv2 : value_of (sim_latency_server sim_hermit) = Some tt) by (vm_compute; reflexivity).
  destruct (run_meets _ _ _ _ Hc Hv) as [Hdone Hrun].
  destruct (run_meets _ _ _ _ Hs Hv2) as [Hdone2 Hrun2].
  specialize (Hback _ _ Hrun Hrun2).
  split; [exact Hdone|]. split; [exact Hdone2|].
  apply Hback; exists []; vm_compute; reflexivity.
Defined.
