(* ===== verification/Numeric.v ===== *)
(** * Numbers of the demo programs

    [f32] and [f64] are the binary formats of IEEE 754, with the operations that the
    Standard Library specifies in [SpecFloat].  The algorithms are written over a class
    of numbers; the class [Exact] says on which integers the numbers of an instance
    compute without rounding. *)

From S2P Require Import Prelude.
From Stdlib Require Import SpecFloat.
#[local] Open Scope Z_scope.

(** What matrix multiplication uses of a number type. *)
Class Num : Type := {
  num : Type;
  nzero : num;
  nadd : num → num → num;
  nsub : num → num → num;
  nmul : num → num → num;
}.

(** [rep x z]: the number [x] stands for the integer [z]; the operations compute
    exactly as long as the result is an integer that [fits]. *)
Class Exact (N : Num) : Type := {
  rep : num → Z → Prop;
  fits : Z → Prop;
  rep_zero : rep nzero 0;
  rep_add x y a b : rep x a → rep y b → fits (a + b) → rep (nadd x y) (a + b);
  rep_sub x y a b : rep x a → rep y b → fits (a - b) → rep (nsub x y) (a - b);
  rep_mul x y a b : rep x a → rep y b → fits (a * b) → rep (nmul x y) (a * b);
}.

(** The integers themselves. *)
Definition Z_num : Num := {|
  num := Z; nzero := 0; nadd := Z.add; nsub := Z.sub; nmul := Z.mul;
|}.

#[export] Instance Z_exact : Exact Z_num.
Proof.
  refine {| rep := (λ x z, x = z) : @num Z_num → Z → Prop; fits := λ _, True |};
    simpl; congruence.
Defined.

(** ** Binary formats *)

Lemma digits2_log2 m : Z.pos (digits2_pos m) = Z.log2 (Z.pos m) + 1.
Proof.
  induction m as [m IH|m IH|]; [..|done]; cbn [digits2_pos]; rewrite Pos2Z.inj_succ, IH.
  - rewrite Pos2Z.inj_xI, Z.log2_succ_double by lia. lia.
  - rewrite Pos2Z.inj_xO, Z.log2_double by lia. lia.
Qed.

Lemma iter_xO m d : Z.pos (Pos.iter xO m d) = Z.pos m * 2 ^ Z.pos d.
Proof.
  revert m. induction d as [|d IH] using Pos.peano_ind; intros m; [simpl; lia|].
  rewrite Pos.iter_succ, Pos2Z.inj_xO, IH, Pos2Z.inj_succ, Z.pow_succ_r by lia. lia.
Qed.

Lemma shl_align_pow m e e' :
  e' ≤ e → Z.pos (shl_align m e e').1 = Z.pos m * 2 ^ (e - e') ∧ (shl_align m e e').2 = e'.
Proof.
  intros He. unfold shl_align. destruct (e' - e) as [|d|d] eqn:Hd; [..|split; [|done]]; simpl.
  - replace e' with e by lia. rewrite Z.sub_diag. by split; [lia|].
  - lia.
  - rewrite iter_xO. do 2 f_equal. lia.
Qed.

Lemma shl_align_id m e e' : e ≤ e' → shl_align m e e' = (m, e).
Proof. intros He. unfold shl_align. destruct (e' - e) eqn:Hd; [done|done|lia]. Qed.

(** Shifting out zeros loses nothing. *)
Lemma iter_shr_1 p m :
  iter_pos shr_1 p (Build_shr_record (Z.pos (Pos.iter xO m p)) false false) =
  Build_shr_record (Z.pos m) false false.
Proof.
  assert (Hiter : ∀ A (f : A → A) p x, iter_pos f p x = Pos.iter f x p).
  { clear. intros A f p. induction p as [p IH|p IH|]; intros x; simpl; [..|done];
      rewrite !IH; [|done]. rewrite <- Pos.iter_swap. f_equal. by rewrite Pos.iter_swap. }
  rewrite Hiter. induction p as [|p IH] using Pos.peano_ind; [done|].
  rewrite !Pos.iter_succ, <- Pos.iter_swap, <- IH. f_equal.
Qed.

Section Format.
Context (prec emax : Z) (Hprec : 1 < prec) (Hemax : prec < emax).

(** The bit representation of an integer below [2^prec]: a zero of either sign, or a
    mantissa of full length with an exponent that is not positive. *)
Definition represents (x : spec_float) (z : Z) : Prop :=
  match x with
  | S754_zero _ => z = 0
  | S754_finite s m e =>
      Z.log2 (Z.pos m) = prec - 1 ∧ e ≤ 0 ∧ z * 2 ^ (- e) = cond_Zopp s (Z.pos m)
  | _ => False
  end.

Definition exact_range (z : Z) : Prop := Z.abs z < 2 ^ prec.

(** The number of binary digits of [m * 2^ex]. *)
Lemma log2_scaled m ex v :
  ex ≤ 0 → 0 < v → Z.pos m = v * 2 ^ (- ex) → Z.log2 (Z.pos m) + ex = Z.log2 v.
Proof.
  intros He Hv ->. rewrite Z.log2_mul_pow2 by lia. lia.
Qed.

(** Rounding a number that needs no rounding. *)
Lemma round_aux_exact s m ex v :
  ex ≤ 0 → exact_range v → 0 < v → Z.pos m = v * 2 ^ (- ex) → prec - 1 ≤ Z.log2 (Z.pos m) →
  represents (binary_round_aux prec emax s (Z.pos m) ex loc_Exact) (cond_Zopp s v).
Proof.
  intros He Hr Hv Hm Hlog. pose proof (log2_scaled m ex v He Hv Hm) as Hlv.
  unfold exact_range in Hr. rewrite Z.abs_eq in Hr by lia.
  assert (Hlt : Z.log2 v < prec) by (apply Z.log2_lt_pow2; lia).
  pose proof (Z.log2_nonneg v) as Hge.
  set (e := Z.log2 v + 1 - prec).
  set (M := v * 2 ^ (- e)).
  assert (HM : 0 < M) by (apply Z.mul_pos_pos; [lia|apply Z.pow_pos_nonneg; lia]).
  assert (HlM : Z.log2 M = prec - 1) by (unfold M; rewrite Z.log2_mul_pow2 by lia; lia).
  assert (Hfexp : ∀ d, d = Z.log2 v + 1 → fexp prec emax d = e).
  { intros d ->. unfold fexp, emin. lia. }
  assert (HmM : Z.pos m = M * 2 ^ (e - ex)).
  { unfold M. rewrite Hm, <- Z.mul_assoc, <- Z.pow_add_r by lia. do 2 f_equal. lia. }
  assert (Hshr : shr_fexp prec emax (Z.pos m) ex loc_Exact = (Build_shr_record M false false, e)).
  { unfold shr_fexp. cbn [Zdigits2 shr_record_of_loc]. rewrite digits2_log2, Hfexp by lia.
    unfold shr. destruct (e - ex) as [|p|p] eqn:Hd; [| |lia].
    - rewrite Z.mul_1_r in HmM. rewrite HmM. f_equal. lia.
    - destruct M as [|M'|M'] eqn:EM; [lia| |lia].
      rewrite <- iter_xO in HmM. rewrite HmM, iter_shr_1. f_equal. lia. }
  unfold binary_round_aux. rewrite Hshr. cbn [shr_m loc_of_shr_record round_nearest_even].
  destruct M as [|M'|M'] eqn:EM; [lia| |lia].
  assert (Hshr2 : shr_fexp prec emax (Z.pos M') e loc_Exact = (Build_shr_record (Z.pos M') false false, e)).
  { unfold shr_fexp. cbn [Zdigits2 shr_record_of_loc]. rewrite digits2_log2, Hfexp by lia.
    by rewrite Z.sub_diag. }
  rewrite Hshr2. cbn [shr_m]. rewrite (proj2 (Z.leb_le _ _)) by lia.
  split_and!; [done|lia|]. rewrite <- EM. unfold M. destruct s; simpl; lia.
Qed.

Lemma round_exact s m ex v :
  ex ≤ 0 → exact_range v → 0 < v → Z.pos m = v * 2 ^ (- ex) →
  represents (binary_round prec emax s m ex) (cond_Zopp s v).
Proof.
  intros He Hr Hv Hm. pose proof (log2_scaled m ex v He Hv Hm) as Hlv.
  assert (Hlt : Z.log2 v < prec).
  { apply Z.log2_lt_pow2; [done|]. unfold exact_range in Hr. lia. }
  pose proof (Z.log2_nonneg v) as Hge.
  unfold binary_round. rewrite digits2_log2.
  set (e := fexp prec emax (Z.log2 (Z.pos m) + 1 + ex)).
  assert (He' : e = Z.log2 v + 1 - prec) by (unfold e, fexp, emin; lia).
  destruct (Z.le_gt_cases ex e) as [Hle|Hgt].
  - rewrite shl_align_id by done. apply round_aux_exact; [done..|]. lia.
  - destruct (shl_align m ex e) as [m' e1] eqn:Hsh.
    pose proof (shl_align_pow m ex e ltac:(lia)) as [Hm' He1].
    rewrite Hsh in Hm', He1. simpl in Hm', He1. subst e1.
    assert (Hmv : Z.pos m' = v * 2 ^ (- e)).
    { rewrite Hm', Hm, <- Z.mul_assoc, <- Z.pow_add_r by lia. do 2 f_equal. lia. }
    apply round_aux_exact; [lia|done..|]. rewrite Hmv, Z.log2_mul_pow2 by lia. lia.
Qed.

Lemma normalize_exact m ex z b :
  ex ≤ 0 → exact_range z → m = z * 2 ^ (- ex) →
  represents (binary_normalize prec emax m ex b) z.
Proof.
  intros He Hr Hm. assert (0 < 2 ^ (- ex)) by (apply Z.pow_pos_nonneg; lia).
  destruct m as [|m|m]; simpl; [nia|..].
  - apply (round_exact false m ex z); [done..|nia|done].
  - replace z with (cond_Zopp true (- z)) by (simpl; lia).
    apply round_exact; [done| |nia|nia]. unfold exact_range in *. lia.
Qed.

(** The sign and the magnitude of a scaled integer. *)
Lemma cond_Zopp_scaled s m z q :
  0 < q → z * q = cond_Zopp s (Z.pos m) →
  s = (z <? 0) ∧ 0 < Z.abs z ∧ z = cond_Zopp s (Z.abs z) ∧ Z.pos m = Z.abs z * q.
Proof.
  intros Hq Hz. destruct s; cbn [cond_Zopp] in *.
  - assert (0 < - z) by (apply (Z.mul_pos_cancel_r _ q); lia).
    rewrite (proj2 (Z.ltb_lt z 0)), Z.abs_neq by lia. lia.
  - assert (0 < z) by (apply (Z.mul_pos_cancel_r _ q); lia).
    rewrite (proj2 (Z.ltb_ge z 0)), Z.abs_eq by lia. lia.
Qed.

(** Two mantissas aligned to the same exponent. *)
Lemma align_value s m e z ez :
  ez ≤ e → e ≤ 0 → z * 2 ^ (- e) = cond_Zopp s (Z.pos m) →
  cond_Zopp s (Z.pos (shl_align m e ez).1) = z * 2 ^ (- ez).
Proof.
  intros Hle He Hz. destruct (shl_align_pow m e ez Hle) as [-> _].
  transitivity (cond_Zopp s (Z.pos m) * 2 ^ (e - ez)); [destruct s; simpl; lia|].
  rewrite <- Hz, <- Z.mul_assoc, <- Z.pow_add_r by lia. do 2 f_equal. lia.
Qed.

Lemma SFadd_exact x y a b :
  represents x a → represents y b → exact_range (a + b) →
  represents (SFadd prec emax x y) (a + b).
Proof.
  destruct x as [sx| | |sx mx ex], y as [sy| | |sy my ey]; simpl; try done.
  - intros -> -> _. by destruct sx, sy.
  - by intros -> Hy _.
  - intros Hx -> _. by rewrite Z.add_0_r.
  - intros (_ & Hex & Ha) (_ & Hey & Hb) Hr. apply normalize_exact; [lia|done|].
    rewrite (align_value sx mx ex a), (align_value sy my ey b) by (done || lia). lia.
Qed.

Lemma SFsub_exact x y a b :
  represents x a → represents y b → exact_range (a - b) →
  represents (SFsub prec emax x y) (a - b).
Proof.
  destruct x as [sx| | |sx mx ex], y as [sy| | |sy my ey]; simpl; try done.
  - intros -> -> _. by destruct sx, sy.
  - intros -> (? & ? & Hb) _. split_and!; [done|done|]. destruct sy; simpl in *; lia.
  - intros Hx -> _. by rewrite Z.sub_0_r.
  - intros (_ & Hex & Ha) (_ & Hey & Hb) Hr. apply normalize_exact; [lia|done|].
    rewrite (align_value sx mx ex a), (align_value sy my ey b) by (done || lia). lia.
Qed.

Lemma SFmul_exact x y a b :
  represents x a → represents y b → exact_range (a * b) →
  represents (SFmul prec emax x y) (a * b).
Proof.
  destruct x as [sx| | |sx mx ex], y as [sy| | |sy my ey]; simpl; try done.
  - by intros -> -> _.
  - by intros -> _ _.
  - intros _ -> _. lia.
  - intros (Hlx & Hex & Ha) (Hly & Hey & Hb) Hr.
    assert (Hp : 0 < 2 ^ (- (ex + ey))) by (apply Z.pow_pos_nonneg; lia).
    assert (Hab : a * b * 2 ^ (- (ex + ey)) = cond_Zopp (xorb sx sy) (Z.pos (mx * my))).
    { replace (- (ex + ey)) with (- ex + - ey) by lia. rewrite Z.pow_add_r by lia.
      transitivity (a * 2 ^ (- ex) * (b * 2 ^ (- ey))); [lia|]. rewrite Ha, Hb.
      destruct sx, sy; simpl; lia. }
    change (Z.log2 (Z.pos mx) = prec - 1) in Hlx. change (Z.log2 (Z.pos my) = prec - 1) in Hly.
    pose proof (Z.log2_mul_below (Z.pos mx) (Z.pos my) ltac:(lia) ltac:(lia)) as Hlog.
    rewrite <- Pos2Z.inj_mul in Hlog.
    destruct (cond_Zopp_scaled _ _ _ _ Hp Hab) as (_ & Hv & Hv1 & Hmv).
    rewrite Hv1. apply round_aux_exact; [lia| |done..|lia].
    unfold exact_range in *. lia.
Qed.

Definition SF_num : Num := {|
  num := spec_float; nzero := S754_zero false;
  nadd := SFadd prec emax; nsub := SFsub prec emax; nmul := SFmul prec emax;
|}.

Definition SF_exact : Exact SF_num.
Proof.
  refine {| rep := represents : @num SF_num → Z → Prop; fits := exact_range |};
    [done|exact SFadd_exact|exact SFsub_exact|exact SFmul_exact].
Defined.

(** The conversion [z as f32]. *)
Definition SF_of_Z (z : Z) : spec_float := binary_normalize prec emax z 0 false.

Lemma SF_of_Z_exact z : exact_range z → represents (SF_of_Z z) z.
Proof. intros Hr. apply normalize_exact; [done|done|]. simpl. lia. Qed.

(** Numbers that stand for the same integer compare as equal. *)
Lemma represents_eqb x y z : represents x z → represents y z → SFeqb x y = true.
Proof.
  destruct x as [sx| | |sx mx ex], y as [sy| | |sy my ey]; simpl; try done.
  - intros -> (_ & _ & H). by destruct sy.
  - intros (_ & _ & H) ->. by destruct sx.
  - intros (Hlx & Hex & Hx) (Hly & Hey & Hy).
    assert (Hpx : 0 < 2 ^ (- ex)) by (apply Z.pow_pos_nonneg; lia).
    assert (Hpy : 0 < 2 ^ (- ey)) by (apply Z.pow_pos_nonneg; lia).
    destruct (cond_Zopp_scaled _ _ _ _ Hpx Hx) as (Hsx & Hz & _ & Hmx).
    destruct (cond_Zopp_scaled _ _ _ _ Hpy Hy) as (Hsy & _ & _ & Hmy).
    change (Z.log2 (Z.pos mx) = prec - 1) in Hlx. change (Z.log2 (Z.pos my) = prec - 1) in Hly.
    pose proof (log2_scaled mx ex _ Hex Hz Hmx). pose proof (log2_scaled my ey _ Hey Hz Hmy).
    assert (ex = ey) as -> by lia. rewrite <- Hmy in Hmx. injection Hmx as ->. subst sx sy.
    unfold SFeqb, SFcompare. rewrite Z.compare_refl.
    change (Pos.compare_cont Eq my my) with (Pos.compare my my). rewrite Pos.compare_refl.
    by destruct (z <? 0).
Qed.
End Format.

(** [f32] and [f64]. *)
Definition f32 : Num := SF_num 24 128.
Definition f64 : Num := SF_num 53 1024.
#[export] Instance f32_exact : Exact f32 := SF_exact 24 128 ltac:(done) ltac:(done).
#[export] Instance f64_exact : Exact f64 := SF_exact 53 1024 ltac:(done) ltac:(done).

(** [z as f32]. *)
Definition f32_of_Z (z : Z) : @num f32 := SF_of_Z 24 128 z.

Lemma f32_of_Z_rep z : Z.abs z < 2 ^ 24 → @rep f32 f32_exact (f32_of_Z z) z.
Proof. intros Hz. by apply (SF_of_Z_exact 24 128). Qed.
