(* ===== verification/Rayon.v ===== *)
(** * The crate rayon, as the demo programs use it

    The parallel operations are parameters of the model; their laws say what they
    promise for closures that share nothing but what they read.  The instance at the end
    runs everything in order and serves the witnesses. *)

From S2P Require Import Prelude.

Class Rayon : Type := {
  join : ∀ {W A B}, M W A → M W B → M W (A * B);
  (* [dest.par_iter_mut().zip(src.par_iter()).for_each], the closure updating the first *)
  par_zip : ∀ {W A}, (A → A → M W A) → list A → list A → M W (list A);
  (* [v.par_chunks_mut(n).enumerate().for_each] on the chunks *)
  par_update : ∀ {W A}, (nat → A → M W A) → list A → M W (list A);
  (* [(range).into_par_iter().map(f).sum()] with the zero and the addition of the type *)
  par_sum : ∀ {W A}, A → (A → A → A) → (nat → M W A) → list nat → M W A;
}.

(** The shorter slice ends the iteration; the rest of [dest] stays. *)
Fixpoint zip_update {A} (f : A → A → A) (dest src : list A) : list A :=
  match dest, src with
  | d :: dest', s :: src' => f d s :: zip_update f dest' src'
  | _, _ => dest
  end.

(** A sum in some bracketing: the pieces are summed from the zero on, the sums of
    the pieces added up as the threads happen to have split the work. *)
Inductive bracketing {A} (zero : A) (add : A → A → A) : list A → A → Prop :=
| bracket_piece l : bracketing zero add l (foldl add zero l)
| bracket_node l1 l2 s1 s2 :
    bracketing zero add l1 s1 → bracketing zero add l2 s2 →
    bracketing zero add (l1 ++ l2) (add s1 s2).

(** Closures that return and leave the state alone run in any order; when one of them
    panics and the others return or panic, the whole operation panics. *)
Class RayonLaws (ry : Rayon) : Prop := {
  join_done {W A B} (m1 : M W A) (m2 : M W B) a b w :
    m1 w = Done a w → m2 w = Done b w → join m1 m2 w = Done (a, b) w;
  par_zip_done {W A} (f : A → A → M W A) g dest src w :
    (∀ i d s, dest !! i = Some d → src !! i = Some s → f d s w = Done (g d s) w) →
    par_zip f dest src w = Done (zip_update g dest src) w;
  par_update_done {W A} (f : nat → A → M W A) g l w :
    (∀ i x, l !! i = Some x → f i x w = Done (g i x) w) →
    par_update f l w = Done (imap g l) w;
  par_update_panics {W A} (f : nat → A → M W A) l w :
    (∀ i x, l !! i = Some x → (∃ y, f i x w = Done y w) ∨ (∃ msg, f i x w = Panicked msg w)) →
    (∃ i x msg, l !! i = Some x ∧ f i x w = Panicked msg w) →
    ∃ msg, par_update f l w = Panicked msg w;
  par_sum_done {W A} (zero : A) add (f : nat → M W A) g l w :
    (∀ i, i ∈ l → f i w = Done (g i) w) →
    ∃ s, par_sum zero add f l w = Done s w ∧ bracketing zero add (g <$> l) s;
}.

(** ** Everything in order *)

Fixpoint seq_zip {W A} (f : A → A → M W A) (dest src : list A) : M W (list A) :=
  match dest, src with
  | d :: dest', s :: src' => d' ← f d s; r ← seq_zip f dest' src'; mret (d' :: r)
  | _, _ => mret dest
  end.

Fixpoint seq_update {W A} (i : nat) (f : nat → A → M W A) (l : list A) : M W (list A) :=
  match l with
  | [] => mret []
  | x :: l' => y ← f i x; r ← seq_update (S i) f l'; mret (y :: r)
  end.

Fixpoint seq_sum {W A} (acc : A) (add : A → A → A) (f : nat → M W A) (l : list nat) : M W A :=
  match l with
  | [] => mret acc
  | i :: l' => x ← f i; seq_sum (add acc x) add f l'
  end.

Definition sim_rayon : Rayon := {|
  join W A B m1 m2 := a ← m1; b ← m2; mret (a, b);
  par_zip W A := seq_zip;
  par_update W A := seq_update 0;
  par_sum W A := seq_sum;
|}.

Lemma seq_update_done {W A} (f : nat → A → M W A) g l k w :
  (∀ i x, l !! i = Some x → f (k + i) x w = Done (g (k + i) x) w) →
  seq_update k f l w = Done (imap (λ i, g (k + i)) l) w.
Proof.
  revert k. induction l as [|x l IH]; intros k H; [done|]. simpl.
  unfold mbind, M_bind. pose proof (H 0 x eq_refl) as H0. rewrite Nat.add_0_r in H0.
  rewrite H0, IH; [|intros i y Hy; specialize (H (S i) y Hy); by rewrite Nat.add_succ_r in H].
  simpl. rewrite Nat.add_0_r. do 2 f_equal. apply imap_ext. intros i y _. simpl. f_equal. lia.
Qed.

Lemma seq_update_panics {W A} (f : nat → A → M W A) l k w :
  (∀ i x, l !! i = Some x →
     (∃ y, f (k + i) x w = Done y w) ∨ (∃ msg, f (k + i) x w = Panicked msg w)) →
  (∃ i x msg, l !! i = Some x ∧ f (k + i) x w = Panicked msg w) →
  ∃ msg, seq_update k f l w = Panicked msg w.
Proof.
  revert k. induction l as [|x l IH]; intros k H (i & y & msg & Hy & Hp); [done|]. simpl.
  unfold mbind, M_bind. destruct (H 0 x eq_refl) as [[z Hz]|[msg' Hm]];
    rewrite Nat.add_0_r in *; [rewrite Hz|rewrite Hm; by exists msg'].
  destruct i as [|i]; [simplify_eq/=; rewrite Nat.add_0_r in Hp; congruence|].
  destruct (IH (S k)) as [msg2 Hmsg2].
  - intros i' x' Hx'. specialize (H (S i') x' Hx'). by rewrite Nat.add_succ_r in H.
  - exists i, y, msg. by rewrite Nat.add_succ_r in Hp.
  - rewrite Hmsg2. eauto.
Qed.

Lemma sim_rayon_laws : RayonLaws sim_rayon.
Proof.
  split.
  - intros W A B m1 m2 a b w H1 H2. simpl. unfold mbind, M_bind. by rewrite H1, H2.
  - intros W A f g dest. simpl. induction dest as [|d dest IH]; intros [|s src] w H; try done.
    simpl. unfold mbind, M_bind. rewrite (H 0 d s eq_refl eq_refl).
    rewrite IH; [done|]. intros i d' s' Hd Hs. by apply (H (S i)).
  - intros W A f g l w H. simpl. by rewrite (seq_update_done f g).
  - intros W A f l w H Hp. simpl. by apply seq_update_panics.
  - intros W A zero add f g l w H. simpl. exists (foldl add zero (g <$> l)).
    split; [|apply bracket_piece].
    revert zero. induction l as [|i l IH]; intros zero; [done|]. simpl.
    unfold mbind, M_bind. rewrite H by constructor. apply IH. intros j Hj. apply H. by constructor.
Qed.
