(* ===== verification/Morton.v ===== *)
(** * [examples/demo/src/tests/matmul.rs]: the Z-order layout

    A matrix whose side is a power of two is stored as its four quarters, one after
    the other, each stored in the same way; the index of an entry is its row and its
    column with the bits interleaved.  [SplayedBitsCounter] counts through the indices of
    one row. *)

From S2P Require Import Prelude.
From Stdlib Require Import Zbitwise.
#[local] Open Scope Z_scope.

(** ** The counter *)

(** [0x5555_5555] and [0xaaaa_aaaa]. *)
Definition ODD_BITS : Z := 0x55555555.
Definition EVEN_BITS : Z := 0xaaaaaaaa.

Definition ADD_OVERFLOW : string := "attempt to add with overflow".

Record SplayedBitsCounter : Type := mkSplayedBitsCounter { value : Z; max : Z }.

Definition SplayedBitsCounter_new (max : Z) : SplayedBitsCounter := mkSplayedBitsCounter 0 max.

(** The addition to a [usize] of 64 bits is checked. *)
Definition SplayedBitsCounter_next {W} (c : SplayedBitsCounter)
    : M W (option Z * SplayedBitsCounter) :=
  let prev := Z.land (value c) ODD_BITS in
  if prev <? max c then
    let v := Z.lor (value c) EVEN_BITS in
    if v + 1 <? 2 ^ 64 then mret (Some prev, mkSplayedBitsCounter (v + 1) (max c))
    else panic ADD_OVERFLOW
  else mret (None, c).

(** One round of [for k in counter { body }]. *)
Definition for_round {W S} (body : Z → S → M W S) (cs : SplayedBitsCounter * S)
    : M W ((SplayedBitsCounter * S) + S) :=
  '(o, c') ← SplayedBitsCounter_next cs.1;
  match o with
  | Some k => s' ← body k cs.2; mret (inl (c', s'))
  | None => mret (inr cs.2)
  end.

Definition for_counter {W S} (fuel : nat) (max : Z) (body : Z → S → M W S) (s : S) : M W S :=
  loop fuel (for_round body) (SplayedBitsCounter_new max, s).

(** ** Interleaved bits *)

(** The lowest [k] bits of [i], each followed by a zero. *)
Fixpoint spread (k i : nat) : Z :=
  match k with
  | O => 0
  | S k' => 4 * spread k' (i / 2) + Z.of_nat (i mod 2)
  end.

(** The index of row [i] and column [j]. *)
Definition zindex (k i j : nat) : Z := 2 * spread k i + spread k j.

Lemma mod2_cases n : (n mod 2 = 0 ∨ n mod 2 = 1)%nat.
Proof. pose proof (Nat.mod_upper_bound n 2). lia. Qed.

Lemma spread_bound k i : 0 ≤ spread k i ∧ 3 * spread k i < 4 ^ Z.of_nat k.
Proof.
  revert i. induction k as [|k IH]; intros i; cbn [spread]; [simpl; lia|].
  specialize (IH (i / 2)%nat). rewrite Nat2Z.inj_succ, Z.pow_succ_r by lia.
  destruct (mod2_cases i) as [->| ->]; lia.
Qed.

Lemma div2_add_pow i k : ((i + 2 ^ S k) / 2 = i / 2 + 2 ^ k)%nat.
Proof. rewrite Nat.pow_succ_r', Nat.mul_comm. by apply Nat.div_add. Qed.

Lemma mod2_add_pow i k : ((i + 2 ^ S k) mod 2 = i mod 2)%nat.
Proof. rewrite Nat.pow_succ_r', Nat.mul_comm. by apply Nat.Div0.mod_add. Qed.

Lemma div2_lt_pow i k : (i < 2 ^ S k → i / 2 < 2 ^ k)%nat.
Proof. intros H. apply Nat.Div0.div_lt_upper_bound. by rewrite <- Nat.pow_succ_r'. Qed.

(** The highest bit, clear or set. *)
Lemma spread_low k i : (i < 2 ^ k)%nat → spread (S k) i = spread k i.
Proof.
  revert i. induction k as [|k IH]; intros i Hi.
  { assert (i = 0)%nat as -> by (simpl in Hi; lia). done. }
  change (spread (S (S k)) i) with (4 * spread (S k) (i / 2) + Z.of_nat (i mod 2)).
  rewrite IH by by apply div2_lt_pow. done.
Qed.

Lemma spread_high k i :
  (i < 2 ^ k)%nat → spread (S k) (i + 2 ^ k) = spread k i + 4 ^ Z.of_nat k.
Proof.
  revert i. induction k as [|k IH]; intros i Hi.
  { assert (i = 0)%nat as -> by (simpl in Hi; lia). done. }
  change (spread (S (S k)) (i + 2 ^ S k))
    with (4 * spread (S k) ((i + 2 ^ S k) / 2) + Z.of_nat ((i + 2 ^ S k) mod 2)).
  rewrite div2_add_pow, mod2_add_pow, IH by by apply div2_lt_pow.
  rewrite Nat2Z.inj_succ, Z.pow_succ_r by lia. cbn [spread]. lia.
Qed.

Lemma spread_widen k n i : (i < 2 ^ k)%nat → (k ≤ n)%nat → spread n i = spread k i.
Proof.
  intros Hi Hle. induction Hle as [|n Hle IH]; [done|]. rewrite spread_low; [done|].
  pose proof (Nat.pow_le_mono_r 2 k n). lia.
Qed.

Lemma spread_pow k n : (k < n)%nat → spread n (2 ^ k) = 4 ^ Z.of_nat k.
Proof.
  intros Hlt. pose proof (Nat.pow_nonzero 2 k).
  rewrite (spread_widen (S k)) by (simpl; lia).
  rewrite <- (Nat.add_0_l (2 ^ k)), spread_high by lia.
  by rewrite (spread_widen 0 k) by (simpl; lia).
Qed.

(** Every index of a square of side [2^k] has a row and a column. *)
Lemma zindex_inv k p :
  0 ≤ p < 4 ^ Z.of_nat k →
  ∃ i j, (i < 2 ^ k)%nat ∧ (j < 2 ^ k)%nat ∧ p = zindex k i j.
Proof.
  revert p. induction k as [|k IH]; intros p Hp.
  { exists 0%nat, 0%nat. simpl in *. unfold zindex. simpl. lia. }
  rewrite Nat2Z.inj_succ, Z.pow_succ_r in Hp by lia.
  destruct (IH (p / 4)) as (i & j & Hi & Hj & Hij).
  { split; [apply Z.div_pos; lia|apply Z.div_lt_upper_bound; lia]. }
  pose proof (Z.div_mod p 4 ltac:(lia)) as Hpm.
  pose proof (Z.mod_pos_bound p 4 ltac:(lia)) as Hm.
  assert (Hbits : ∃ bi bj, (bi < 2)%nat ∧ (bj < 2)%nat ∧ p mod 4 = 2 * Z.of_nat bi + Z.of_nat bj).
  { exists (Z.to_nat (p mod 4 / 2)), (Z.to_nat (p mod 4 mod 2)).
    pose proof (Z.div_mod (p mod 4) 2). pose proof (Z.mod_pos_bound (p mod 4) 2). lia. }
  destruct Hbits as (bi & bj & Hbi & Hbj & Hb).
  exists (2 * i + bi)%nat, (2 * j + bj)%nat. simpl Nat.pow. split_and!; [lia..|].
  unfold zindex in *. cbn [spread].
  assert (Hd : ∀ n b, (b < 2 → (2 * n + b) / 2 = n ∧ (2 * n + b) mod 2 = b)%nat).
  { intros n b Hb2. rewrite (Nat.mul_comm 2 n), Nat.add_comm, Nat.div_add, Nat.Div0.mod_add by lia.
    split; [rewrite Nat.div_small; lia|by apply Nat.mod_small]. }
  destruct (Hd i bi Hbi) as [-> ->], (Hd j bj Hbj) as [-> ->]. lia.
Qed.

(** ** The masks *)

Lemma testbit_quad x c n :
  0 ≤ c < 4 → 0 ≤ n →
  Z.testbit (4 * x + c) n = if n <? 2 then Z.testbit c n else Z.testbit x (n - 2).
Proof.
  intros Hc Hn. destruct (Z.ltb_spec n 2).
  - rewrite <- (Z.mod_pow2_bits_low (4 * x + c) 2) by done. f_equal.
    change (2 ^ 2) with 4. rewrite Z.add_comm, Z.mul_comm, Z.mod_add by lia.
    by apply Z.mod_small.
  - replace n with ((n - 2) + 2) at 1 by lia. rewrite <- Z.div_pow2_bits by lia. f_equal.
    change (2 ^ 2) with 4. rewrite Z.add_comm, Z.mul_comm, Z.div_add by lia.
    rewrite Z.div_small by lia. lia.
Qed.

(** A bitwise operation goes through the pairs of bits. *)
Lemma land_quads x y c d :
  0 ≤ c < 4 → 0 ≤ d < 4 →
  Z.land (4 * x + c) (4 * y + d) = 4 * Z.land x y + Z.land c d.
Proof.
  intros Hc Hd.
  assert (Hcd : 0 ≤ Z.land c d < 4).
  { assert (c = 0 ∨ c = 1 ∨ c = 2 ∨ c = 3) as [->|[->|[->| ->]]] by lia;
    assert (d = 0 ∨ d = 1 ∨ d = 2 ∨ d = 3) as [->|[->|[->| ->]]] by lia; done. }
  apply Z.bits_inj'. intros n Hn. rewrite Z.land_spec, !testbit_quad by done.
  by destruct (n <? 2); rewrite Z.land_spec.
Qed.

(** [ODD_BITS] and [EVEN_BITS] cut to [n] pairs of bits. *)
Fixpoint odd_mask (n : nat) : Z := match n with O => 0 | S n' => 4 * odd_mask n' + 1 end.

Lemma odd_mask_bound n : 0 ≤ odd_mask n ∧ 3 * odd_mask n + 1 = 4 ^ Z.of_nat n.
Proof.
  induction n as [|n IH]; [done|]. rewrite Nat2Z.inj_succ, Z.pow_succ_r by lia. simpl. lia.
Qed.

Lemma zindex_S k i j :
  zindex (S k) i j =
  4 * zindex k (i / 2) (j / 2) + (2 * Z.of_nat (i mod 2) + Z.of_nat (j mod 2)).
Proof. unfold zindex. cbn [spread]. lia. Qed.

Lemma zindex_bound k i j : 0 ≤ zindex k i j < 4 ^ Z.of_nat k.
Proof. unfold zindex. pose proof (spread_bound k i). pose proof (spread_bound k j). lia. Qed.

Lemma zindex_odd k n i j :
  (k ≤ n)%nat → Z.land (zindex k i j) (odd_mask n) = spread k j.
Proof.
  revert n i j. induction k as [|k IH]; intros n i j Hle; [done|].
  destruct n as [|n]; [lia|]. rewrite zindex_S. cbn [odd_mask spread].
  pose proof (zindex_bound k (i / 2) (j / 2)). pose proof (odd_mask_bound n).
  destruct (mod2_cases i) as [-> | ->], (mod2_cases j) as [-> | ->];
    rewrite land_quads, IH by lia; done.
Qed.

Lemma zindex_even k n i j :
  (k ≤ n)%nat → Z.land (zindex k i j) (2 * odd_mask n) = 2 * spread k i.
Proof.
  revert n i j. induction k as [|k IH]; intros n i j Hle; [done|].
  destruct n as [|n]; [lia|]. rewrite zindex_S. cbn [odd_mask spread].
  replace (2 * (4 * odd_mask n + 1)) with (4 * (2 * odd_mask n) + 2) by lia.
  pose proof (zindex_bound k (i / 2) (j / 2)). pose proof (odd_mask_bound n).
  destruct (mod2_cases i) as [-> | ->], (mod2_cases j) as [-> | ->];
    rewrite land_quads, IH by lia;
    match goal with |- context [Z.land ?c ?d] =>
      let v := eval vm_compute in (Z.land c d) in change (Z.land c d) with v end; lia.
Qed.

Lemma land_spread k i j : Z.land (2 * spread k i) (spread k j) = 0.
Proof.
  revert i j. induction k as [|k IH]; intros i j; [done|]. cbn [spread].
  replace (2 * (4 * spread k (i / 2) + Z.of_nat (i mod 2)))
    with (4 * (2 * spread k (i / 2)) + 2 * Z.of_nat (i mod 2)) by lia.
  pose proof (spread_bound k (i / 2)). pose proof (spread_bound k (j / 2)).
  destruct (mod2_cases i) as [-> | ->], (mod2_cases j) as [-> | ->];
    rewrite land_quads, IH by lia; done.
Qed.

Lemma lor_add a b : Z.land a b = 0 → Z.lor a b = a + b.
Proof.
  intros H. rewrite Z.add_nocarry_lxor, Z.lxor_lor by done. done.
Qed.

(** [row | column]. *)
Lemma lor_spread k i j : Z.lor (2 * spread k i) (spread k j) = zindex k i j.
Proof. apply lor_add, land_spread. Qed.

(** ** What the counter counts *)

Lemma land_low x m : 0 ≤ m < 2 ^ 32 → Z.land x m = Z.land (x mod 2 ^ 32) m.
Proof.
  intros Hm. rewrite <- Z.land_ones, <- Z.land_assoc by done. f_equal.
  rewrite Z.land_comm, Z.land_ones by done. symmetry. by apply Z.mod_small.
Qed.

Lemma land_fill k j :
  Z.land (spread k j + 2 * odd_mask k) (odd_mask k) = spread k j.
Proof.
  revert j. induction k as [|k IH]; intros j; [done|]. cbn [spread odd_mask].
  specialize (IH (j / 2)%nat).
  replace (4 * spread k (j / 2) + Z.of_nat (j mod 2) + 2 * (4 * odd_mask k + 1))
    with (4 * (spread k (j / 2) + 2 * odd_mask k) + (Z.of_nat (j mod 2) + 2)) by lia.
  destruct (mod2_cases j) as [-> | ->]; by rewrite land_quads, IH by lia.
Qed.

(** Adding one to an index with the bits of the row set carries through them. *)
Lemma land_succ k j :
  Z.land (spread k j + 2 * odd_mask k + 1) (odd_mask k) = spread k (S j).
Proof.
  revert j. induction k as [|k IH]; intros j; [done|]. cbn [spread odd_mask].
  specialize (IH (j / 2)%nat). pose proof (land_fill k (j / 2)) as Hfill.
  pose proof (Nat.div_mod j 2 ltac:(lia)) as Hj.
  destruct (mod2_cases j) as [Hm|Hm]; rewrite Hm in *.
  - assert (S j / 2 = j / 2 ∧ S j mod 2 = 1)%nat as [-> ->].
    { pose proof (Nat.div_mod (S j) 2 ltac:(lia)). pose proof (Nat.mod_upper_bound (S j) 2). lia. }
    replace (4 * spread k (j / 2) + Z.of_nat 0 + 2 * (4 * odd_mask k + 1) + 1)
      with (4 * (spread k (j / 2) + 2 * odd_mask k) + 3) by lia.
    by rewrite land_quads, Hfill by lia.
  - assert (S j / 2 = S (j / 2) ∧ S j mod 2 = 0)%nat as [-> ->].
    { pose proof (Nat.div_mod (S j) 2 ltac:(lia)). pose proof (Nat.mod_upper_bound (S j) 2). lia. }
    replace (4 * spread k (j / 2) + Z.of_nat 1 + 2 * (4 * odd_mask k + 1) + 1)
      with (4 * (spread k (j / 2) + 2 * odd_mask k + 1) + 0) by lia.
    by rewrite land_quads, IH by lia.
Qed.

(** The state of the counter after [t] steps. *)
Definition counted (t : nat) (v : Z) : Prop :=
  0 ≤ v ≤ Z.of_nat t * 2 ^ 32 ∧ Z.land v ODD_BITS = spread 16 t.

Lemma counted_0 : counted 0 0.
Proof. done. Qed.

Lemma counted_S t v : counted t v → counted (S t) (Z.lor v EVEN_BITS + 1).
Proof.
  intros [Hv Hodd]. change ODD_BITS with (odd_mask 16) in *.
  change EVEN_BITS with (2 * odd_mask 16).
  pose proof (odd_mask_bound 16) as [Ho0 Ho]. change (4 ^ Z.of_nat 16) with (2 ^ 32) in Ho.
  pose proof (Z.mod_pos_bound v (2 ^ 32) ltac:(done)) as Hu.
  destruct (zindex_inv 16 (v mod 2 ^ 32)) as (i & j & _ & _ & Hz); [done|].
  rewrite land_low, Hz, zindex_odd in Hodd by lia.
  assert (Heven : Z.land v (2 * odd_mask 16) = 2 * spread 16 i).
  { rewrite land_low, Hz by lia. by apply zindex_even. }
  assert (Hlor : Z.lor v (2 * odd_mask 16) =
                 (v - v mod 2 ^ 32) + (spread 16 t + 2 * odd_mask 16)).
  { pose proof (Z.add_lor_land v (2 * odd_mask 16)) as Hsum.
    rewrite Heven in Hsum. rewrite Hz. unfold zindex. rewrite Hodd. lia. }
  pose proof (spread_bound 16 t) as [_ Hs]. change (4 ^ Z.of_nat 16) with (2 ^ 32) in Hs.
  pose proof (Z.mod_le v (2 ^ 32) ltac:(lia) ltac:(lia)). pose proof (spread_bound 16 t).
  split; [rewrite Hlor; lia|]. rewrite Hlor, <- land_succ.
  change ODD_BITS with (odd_mask 16).
  rewrite land_low, (land_low (spread 16 t + _ + 1)) by lia. f_equal.
  replace (v - v mod 2 ^ 32) with (v / 2 ^ 32 * 2 ^ 32)
    by (pose proof (Z.div_mod v (2 ^ 32) ltac:(done)); lia).
  rewrite <- Z.add_assoc, Z.add_comm. by rewrite Z.mod_add.
Qed.

(** A step that finds its item below the bound. *)
Lemma next_counted {W} t v max :
  Z.of_nat t < 2 ^ 31 → counted t v → spread 16 t < max →
  SplayedBitsCounter_next (W := W) (mkSplayedBitsCounter v max) =
  mret (Some (spread 16 t), mkSplayedBitsCounter (Z.lor v EVEN_BITS + 1) max).
Proof.
  intros Ht Hv Hmax. pose proof (counted_S t v Hv) as [HS _]. destruct Hv as [_ Hodd].
  unfold SplayedBitsCounter_next. cbn [value Morton.max]. rewrite Hodd.
  rewrite (proj2 (Z.ltb_lt _ _)) by done. by rewrite (proj2 (Z.ltb_lt _ _)) by lia.
Qed.

Lemma next_done {W} t v max :
  counted t v → max ≤ spread 16 t →
  SplayedBitsCounter_next (W := W) (mkSplayedBitsCounter v max) =
  mret (None, mkSplayedBitsCounter v max).
Proof.
  intros [_ Hodd] Hmax. unfold SplayedBitsCounter_next. cbn [value Morton.max].
  rewrite Hodd. by rewrite (proj2 (Z.ltb_ge _ _)) by done.
Qed.

Lemma for_counter_from {W S} k (body : Z → S → M W S) t n v fuel s w :
  (k ≤ 15)%nat → (t + n = 2 ^ k)%nat → counted t v → (n < fuel)%nat →
  loop fuel (for_round body) (mkSplayedBitsCounter v (4 ^ Z.of_nat k), s) w =
  for_range t n (λ j, body (spread k j)) s w.
Proof.
  intros Hk. pose proof (Nat.pow_le_mono_r 2 k 15 ltac:(lia) Hk) as Hpow.
  change (2 ^ 15)%nat with (Z.to_nat (2 ^ 15)) in Hpow.
  revert t v fuel s w. induction n as [|n IH]; intros t v fuel s w Htn Hv Hf;
    (destruct fuel as [|fuel]; [lia|]); cbn [loop for_range];
    unfold mbind at 1, M_bind at 1, for_round at 1; cbn [fst snd].
  - assert (t = 2 ^ k)%nat as -> by lia.
    by rewrite (next_done (2 ^ k)) by (rewrite ?spread_pow by lia; done || lia).
  - assert (Hs : spread 16 t = spread k t) by (apply spread_widen; lia).
    pose proof (spread_bound k t).
    rewrite (next_counted t) by (done || lia). rewrite Hs. unfold mbind, M_bind. simpl.
    destruct (body (spread k t) s w) as [s' w'| | |]; [|done..]. simpl.
    apply IH; [lia|by apply counted_S|lia].
Qed.

(** A counter up to the size of a square of side [2^k] visits the columns of the first row, in
    order, and stops. *)
Lemma for_counter_square {W S} k (body : Z → S → M W S) fuel s w :
  (k ≤ 15)%nat → (2 ^ k < fuel)%nat →
  for_counter fuel (4 ^ Z.of_nat k) body s w = for_range 0 (2 ^ k) (λ j, body (spread k j)) s w.
Proof. intros Hk Hf. by apply for_counter_from; [|rewrite Nat.add_0_l|apply counted_0|]. Qed.

(** Beyond [0x5555_5555] no item is ever large enough to stop: the counter starts over. *)
Lemma for_counter_spins_from {W S} max (body : Z → S → M W S) t v fuel s w :
  (∀ t s w, ∃ s' w', body (spread 16 t) s w = Done s' w') → ODD_BITS < max →
  Z.of_nat t + Z.of_nat fuel < 2 ^ 31 → counted t v →
  ∃ w', loop fuel (for_round body) (mkSplayedBitsCounter v max, s) w = Diverged w'.
Proof.
  intros Hbody Hmax. revert t v s w. induction fuel as [|fuel IH]; intros t v s w Ht Hv;
    cbn [loop]; [eauto|].
  unfold mbind at 1, M_bind at 1, for_round at 1; cbn [fst snd].
  pose proof (spread_bound 16 t) as [_ Hs].
  replace (4 ^ Z.of_nat 16) with (3 * ODD_BITS + 1) in Hs by (vm_compute; reflexivity).
  rewrite (next_counted t) by (assumption || lia). unfold mbind, M_bind.
  destruct (Hbody t s w) as (s' & w1 & Hb). revert Hb. generalize (spread 16 t).
  intros item Hb. simpl. rewrite Hb. simpl.
  apply (IH (Datatypes.S t)); [lia|by apply counted_S].
Qed.

(** ** The layout *)

(** A square of side [2^k], given by its entries, in Z-order. *)
Fixpoint of_mat {A} (k : nat) (m : nat → nat → A) : list A :=
  match k with
  | O => [m 0%nat 0%nat]
  | Datatypes.S k' =>
      let h := (2 ^ k')%nat in
      of_mat k' m ++ of_mat k' (λ i j, m i (j + h)%nat) ++
      of_mat k' (λ i j, m (i + h)%nat j) ++ of_mat k' (λ i j, m (i + h)%nat (j + h)%nat)
  end.

Lemma of_mat_length {A} k (m : nat → nat → A) : length (of_mat k m) = (4 ^ k)%nat.
Proof.
  revert m. induction k as [|k IH]; intros m; [done|]. cbn [of_mat].
  rewrite !length_app, !IH. simpl. lia.
Qed.

Lemma of_mat_lengthZ {A} k (m : nat → nat → A) : Z.of_nat (length (of_mat k m)) = 4 ^ Z.of_nat k.
Proof. by rewrite of_mat_length, Nat2Z.inj_pow. Qed.

Lemma of_mat_ext {A} k (m m' : nat → nat → A) :
  (∀ i j, (i < 2 ^ k)%nat → (j < 2 ^ k)%nat → m i j = m' i j) → of_mat k m = of_mat k m'.
Proof.
  revert m m'. induction k as [|k IH]; intros m m' H; cbn [of_mat].
  { f_equal. apply H; simpl; lia. }
  rewrite Nat.pow_succ_r' in H. f_equal; [|f_equal; [|f_equal]]; apply IH; intros; apply H; lia.
Qed.

Lemma of_mat_fmap {A B} (f : A → B) k (m : nat → nat → A) :
  f <$> of_mat k m = of_mat k (λ i j, f (m i j)).
Proof.
  revert m. induction k as [|k IH]; intros m; [done|]. cbn [of_mat].
  by rewrite !fmap_app, !IH.
Qed.

Lemma of_mat_Forall2 {A B} (R : A → B → Prop) k m m' :
  (∀ i j, (i < 2 ^ k)%nat → (j < 2 ^ k)%nat → R (m i j) (m' i j)) →
  Forall2 R (of_mat k m) (of_mat k m').
Proof.
  revert m m'. induction k as [|k IH]; intros m m' H; cbn [of_mat].
  { constructor; [|constructor]. apply H; simpl; lia. }
  rewrite Nat.pow_succ_r' in H. repeat apply Forall2_app; apply IH; intros; apply H; lia.
Qed.

#[local] Open Scope nat_scope.
Lemma lookup_quarter {A} (l0 l1 l2 l3 l : list A) n q p :
  length l0 = n → length l1 = n → length l2 = n → p < n → [l0; l1; l2; l3] !! q = Some l →
  (l0 ++ l1 ++ l2 ++ l3) !! (q * n + p) = l !! p.
Proof.
  intros H0 H1 H2 Hp Hq.
  destruct q as [|[|[|[|q]]]]; cbn in Hq; simplify_eq.
  - by rewrite lookup_app_l by lia.
  - rewrite lookup_app_r, lookup_app_l by lia. f_equal. lia.
  - rewrite lookup_app_r, lookup_app_r, lookup_app_l by lia. f_equal. lia.
  - rewrite lookup_app_r, lookup_app_r, lookup_app_r by lia. f_equal. lia.
Qed.

(** A coordinate below [2^(k+1)] is one below [2^k], or [2^k] more than one. *)
Lemma spread_split k n :
  n < 2 ^ S k →
  ∃ b n', n = n' + b * 2 ^ k ∧ b < 2 ∧ n' < 2 ^ k ∧
    spread (S k) n = (Z.of_nat b * Z.of_nat (4 ^ k) + spread k n')%Z.
Proof.
  rewrite Nat.pow_succ_r'. intros Hn. rewrite Nat2Z.inj_pow.
  destruct (Nat.lt_ge_cases n (2 ^ k)) as [Hl|Hg].
  - exists 0, n. rewrite spread_low by done. split_and!; lia.
  - exists 1, (n - 2 ^ k). replace n with (n - 2 ^ k + 2 ^ k) at 4 by lia.
    rewrite spread_high by lia. split_and!; lia.
Qed.

Lemma of_mat_lookup {A} k (m : nat → nat → A) i j :
  i < 2 ^ k → j < 2 ^ k → of_mat k m !! Z.to_nat (zindex k i j) = Some (m i j).
Proof.
  revert m i j. induction k as [|k IH]; intros m i j Hi Hj; cbn [of_mat].
  { assert (i = 0 ∧ j = 0) as [-> ->] by (simpl in *; lia). done. }
  destruct (spread_split k i Hi) as (bi & i' & -> & Hbi & Hi' & Hsi).
  destruct (spread_split k j Hj) as (bj & j' & -> & Hbj & Hj' & Hsj).
  pose proof (zindex_bound k i' j') as Hz.
  replace (4 ^ Z.of_nat k)%Z with (Z.of_nat (4 ^ k)) in Hz by by rewrite Nat2Z.inj_pow.
  replace (Z.to_nat (zindex (S k) (i' + bi * 2 ^ k) (j' + bj * 2 ^ k)))
    with ((2 * bi + bj) * 4 ^ k + Z.to_nat (zindex k i' j'))
    by (unfold zindex in *; rewrite Hsi, Hsj; lia).
  destruct bi as [|[|bi]], bj as [|[|bj]]; try lia;
    (erewrite lookup_quarter; [|apply of_mat_length..|lia|reflexivity]);
    rewrite IH by done; do 2 f_equal; lia.
Qed.
