(* ===== verification/Matmul.v ===== *)
(** * [examples/demo/src/tests/matmul.rs]: matrix multiplication

    The row-major and the Z-order multiplication, the parallel one and Strassen's, over any
    number type.  A slice is a list of cells; a cell of the scratch space that nobody
    has written yet is [None], and reading it is undefined behaviour, as is an access
    without a bounds check outside of a slice. *)

From S2P Require Import Prelude Numeric Morton Rayon.
#[local] Open Scope Z_scope.

Section Matmul.
Context {N : Num} {ry : Rayon} {W : Type}.
(** The bound on the rounds of [SplayedBitsCounter] and on the recursion of [rcopy]. *)
Variable fuel : nat.

(** An element of a slice; [None] is uninitialised memory. *)
#[local] Abbreviation cell := (option num).
#[local] Abbreviation slice := (list (option num)).

Definition UNDEFINED : string := "undefined behaviour".
Definition ASSERT : string := "assertion failed".
Definition LENGTHS : string := "source slice length does not match destination slice length".

Definition len (v : slice) : Z := Z.of_nat (length v).

Definition read_cell (c : cell) : M W num := unwrap_opt UNDEFINED c.

Definition get_unchecked (v : slice) (i : Z) : M W num :=
  c ← unwrap_opt UNDEFINED (v !! Z.to_nat i);
  read_cell c.

(** [dest[i] = x]. *)
Definition set_index (dest : slice) (i : Z) (x : num) : M W slice :=
  if i <? len dest then mret (<[Z.to_nat i := Some x]> dest) else panic BOUNDS.

(** [for d in dest.iter_mut() { *d = 0.0 }]. *)
Definition zero_all (dest : slice) : slice := (λ _, Some nzero) <$> dest.

(** [1 << bits]; a shift by the width of [usize] or more panics. *)
Definition shift_one (bits : Z) : M W Z :=
  if bits <? 64 then mret (Z.shiftl 1 bits) else panic "attempt to shift left with overflow".

Definition seq_matmul (a b dest : slice) : M W slice :=
  let bits := trailing_zeros 64 (len dest) / 2 in
  n ← shift_one bits;
  for_range 0 (Z.to_nat n) (λ i dest,
    for_range 0 (Z.to_nat n) (λ j dest,
      sum ← for_range 0 (Z.to_nat n) (λ k sum,
        x ← get_unchecked a (Z.lor (Z.shiftl (Z.of_nat i) bits) (Z.of_nat k));
        y ← get_unchecked b (Z.lor (Z.shiftl (Z.of_nat k) bits) (Z.of_nat j));
        mret (nadd sum (nmul x y))) nzero;
      set_index dest (Z.lor (Z.shiftl (Z.of_nat i) bits) (Z.of_nat j)) sum) dest)
    (zero_all dest).

(** [for (i, d) in dest.iter_mut().enumerate() { *d = f(i) }]. *)
Fixpoint iter_mut_enumerate (i : nat) (f : nat → M W num) (dest : slice) : M W slice :=
  match dest with
  | [] => mret []
  | _ :: dest' =>
      d ← f i;
      dest'' ← iter_mut_enumerate (S i) f dest';
      mret (Some d :: dest'')
  end.

Definition assert (b : bool) : M W unit := if b then mret tt else panic ASSERT.

Definition seq_matmulz (a b dest : slice) : M W slice :=
  _ ← assert ((len a =? len b) && (len a =? len dest));
  _ ← assert ((count_ones (len a) =? 1) && Z.even (trailing_zeros 64 (len a)));
  let n := len dest in
  iter_mut_enumerate 0 (λ ij,
    let i := Z.land (Z.of_nat ij) EVEN_BITS in
    let j := Z.land (Z.of_nat ij) ODD_BITS in
    for_counter fuel n (λ k sum,
      x ← get_unchecked a (Z.lor i k);
      y ← get_unchecked b (Z.lor (Z.shiftl k 1) j);
      mret (nadd sum (nmul x y))) nzero) (zero_all dest).

Definition MULT_CHUNK : Z := 1024.
Definition LINEAR_CHUNK : Z := 64 * 1024.

(** [quarter_chunks] and [quarter_chunks_mut]. *)
Definition quarter_chunks (v : slice) : slice * slice * slice * slice :=
  let mid := (length v / 2)%nat in
  let quarter := (mid / 2)%nat in
  let left := take mid v in
  let right := drop mid v in
  (take quarter left, drop quarter left, take quarter right, drop quarter right).

Definition join4 {R1 R2 R3 R4} (f1 : M W R1) (f2 : M W R2) (f3 : M W R3) (f4 : M W R4)
    : M W (R1 * R2 * R3 * R4) :=
  '((r1, r2), (r3, r4)) ← join (join f1 f2) (join f3 f4);
  mret (r1, r2, r3, r4).

Definition join8 {R1 R2 R3 R4 R5 R6 R7 R8} (f1 : M W R1) (f2 : M W R2) (f3 : M W R3)
    (f4 : M W R4) (f5 : M W R5) (f6 : M W R6) (f7 : M W R7) (f8 : M W R8)
    : M W (R1 * R2 * R3 * R4 * R5 * R6 * R7 * R8) :=
  '(((r1, r2), (r3, r4)), ((r5, r6), (r7, r8))) ←
    join (join (join f1 f2) (join f3 f4)) (join (join f5 f6) (join f7 f8));
  mret (r1, r2, r3, r4, r5, r6, r7, r8).

(** [Vec::with_capacity(n)] with [set_len(n)]: nothing is written. *)
Definition raw_buffer (n : nat) : slice := repeat None n.

Definition rmatsum (src dest : slice) : M W slice :=
  par_zip (λ d s, x ← read_cell d; y ← read_cell s; mret (Some (nadd x y))) dest src.

Definition rmatsub (src dest : slice) : M W slice :=
  par_zip (λ d s, x ← read_cell d; y ← read_cell s; mret (Some (nsub x y))) dest src.

(** [v.split_at(mid)]. *)
Definition split_at (mid : nat) (v : slice) : M W (slice * slice) :=
  if (mid <=? length v)%nat then mret (take mid v, drop mid v) else panic "mid > len".

Fixpoint rcopy_depth (depth : nat) (src dest : slice) : M W slice :=
  match depth with
  | O => λ w, Diverged w
  | S depth' =>
      if len dest <=? LINEAR_CHUNK then
        if (length dest =? length src)%nat then mret src else panic LENGTHS
      else
        let mid := (length dest / 2)%nat in
        '(s1, s2) ← split_at mid src;
        '(d1, d2) ← split_at mid dest;
        '(r1, r2) ← join (rcopy_depth depth' s1 d1) (rcopy_depth depth' s2 d2);
        mret (r1 ++ r2)
  end.

Definition rcopy : slice → slice → M W slice := rcopy_depth fuel.

Definition rtmp_sum (a b : slice) : M W slice :=
  let tmp := raw_buffer (length a) in
  tmp ← rcopy a tmp;
  rmatsum b tmp.

Definition rtmp_sub (a b : slice) : M W slice :=
  let tmp := raw_buffer (length a) in
  tmp ← rcopy a tmp;
  rmatsub b tmp.

Definition strassen_sum (a b dest : slice) : M W slice :=
  dest ← rcopy a dest;
  rmatsum b dest.

Definition strassen_sum_sub (a b c s dest : slice) : M W slice :=
  dest ← rcopy a dest;
  dest ← rmatsum b dest;
  dest ← rmatsum c dest;
  rmatsub s dest.

(** The four functions that call [matmul_strassen] again take it as an argument. *)
Section Products.
Variable mul : slice → slice → slice → M W slice.

Definition strassen_add2_mul (a1 a2 b1 b2 : slice) : M W slice :=
  let dest := raw_buffer (length a1) in
  '(a, b) ← join (rtmp_sum a1 a2) (rtmp_sum b1 b2);
  mul a b dest.

Definition strassen_sub_add_mul (a1 a2 b1 b2 : slice) : M W slice :=
  let dest := raw_buffer (length a1) in
  '(a, b) ← join (rtmp_sub a1 a2) (rtmp_sum b1 b2);
  mul a b dest.

Definition strassen_add_mul (a1 a2 b : slice) : M W slice :=
  let dest := raw_buffer (length a1) in
  a ← rtmp_sum a1 a2;
  mul a b dest.

Definition strassen_sub_mul (b1 b2 a : slice) : M W slice :=
  let dest := raw_buffer (length a) in
  b ← rtmp_sub b1 b2;
  mul a b dest.
End Products.

Fixpoint matmulz (depth : nat) (a b dest : slice) : M W slice :=
  match depth with
  | O => λ w, Diverged w
  | S depth' =>
      if len a <=? MULT_CHUNK then seq_matmulz a b dest
      else
        let tmp := raw_buffer (length dest) in
        let '(a1, a2, a3, a4) := quarter_chunks a in
        let '(b1, b2, b3, b4) := quarter_chunks b in
        let '(d1, d2, d3, d4) := quarter_chunks dest in
        let '(t1, t2, t3, t4) := quarter_chunks tmp in
        '(d1, d2, d3, d4, t1, t2, t3, t4) ←
          join8 (matmulz depth' a1 b1 d1) (matmulz depth' a1 b2 d2)
                (matmulz depth' a3 b1 d3) (matmulz depth' a3 b2 d4)
                (matmulz depth' a2 b3 t1) (matmulz depth' a2 b4 t2)
                (matmulz depth' a4 b3 t3) (matmulz depth' a4 b4 t4);
        rmatsum (t1 ++ t2 ++ t3 ++ t4) (d1 ++ d2 ++ d3 ++ d4)
  end.

Fixpoint matmul_strassen (depth : nat) (a b dest : slice) : M W slice :=
  match depth with
  | O => λ w, Diverged w
  | S depth' =>
      if len a <=? MULT_CHUNK then seq_matmulz a b dest
      else
        let mul := matmul_strassen depth' in
        let '(a11, a12, a21, a22) := quarter_chunks a in
        let '(b11, b12, b21, b22) := quarter_chunks b in
        '(m1, m2, m3, m4, m5, m6, m7, _) ←
          join8 (strassen_add2_mul mul a11 a22 b11 b22)
                (strassen_add_mul mul a21 a22 b11)
                (strassen_sub_mul mul b12 b22 a11)
                (strassen_sub_mul mul b21 b11 a22)
                (strassen_add_mul mul a11 a12 b22)
                (strassen_sub_add_mul mul a21 a11 b11 b12)
                (strassen_sub_add_mul mul a12 a22 b21 b22)
                (mret tt);
        let '(c11, c12, c21, c22) := quarter_chunks dest in
        '(c11, c12, c21, c22) ←
          join4 (strassen_sum_sub m1 m4 m7 m5 c11)
                (strassen_sum m3 m5 c12)
                (strassen_sum m2 m4 c21)
                (strassen_sum_sub m1 m3 m6 m2 c22);
        mret (c11 ++ c12 ++ c21 ++ c22)
  end.
End Matmul.
