(* ===== verification/MatmulSpec.v ===== *)
(** * The product that the multiplications are to compute

    Computations that return in every state ([runs]), matrices in Z-order, and the sequential
    multiplications: they compute the sums of products in the order of the columns, over any
    number type. *)

From S2P Require Import Prelude Numeric Morton Rayon Matmul.

(** [m] returns in every state, leaves it alone, and its result satisfies [Q]. *)
Definition runs {W A} (m : M W A) (Q : A → Prop) : Prop := ∀ w, ∃ a, m w = Done a w ∧ Q a.

Lemma runs_ret {W A} (a : A) (Q : A → Prop) : Q a → runs (W := W) (mret a) Q.
Proof. intros HQ w. by exists a. Qed.

Lemma runs_bind {W A B} (m : M W A) (k : A → M W B) P Q :
  runs m P → (∀ a, P a → runs (k a) Q) → runs (m ≫= k) Q.
Proof.
  intros Hm Hk w. destruct (Hm w) as (a & Ha & HP). destruct (Hk a HP w) as (b & Hb & HQ).
  exists b. unfold mbind, M_bind. by rewrite Ha.
Qed.

Lemma runs_mono {W A} (m : M W A) (P Q : A → Prop) : runs m P → (∀ a, P a → Q a) → runs m Q.
Proof. intros Hm HQ w. destruct (Hm w) as (a & ? & ?). eauto. Qed.

Lemma runs_join {ry : Rayon} {rl : RayonLaws ry} {W A B} (m1 : M W A) (m2 : M W B) P1 P2 :
  runs m1 P1 → runs m2 P2 → runs (join m1 m2) (λ r, P1 r.1 ∧ P2 r.2).
Proof.
  intros H1 H2 w. destruct (H1 w) as (a & Ha & ?). destruct (H2 w) as (b & Hb & ?).
  exists (a, b). split; [by apply join_done|done].
Qed.

#[export] Hint Resolve runs_ret runs_join : hermit.

(** ** Sums of products *)

(** Row [i] of [A] times column [j] of [B], in the order of the loops. *)
Definition mmul {N : Num} (n : nat) (A B : nat → nat → num) (i j : nat) : num :=
  foldl (λ s k, nadd s (nmul (A i k) (B k j))) nzero (seq 0 n).

Lemma for_range_pure {W S} (body : nat → S → M W S) g from n s w :
  (∀ k s, from ≤ k < from + n → body k s w = Done (g s k) w) →
  for_range from n body s w = Done (foldl g s (seq from n)) w.
Proof.
  revert from s. induction n as [|n IH]; intros from s H; [done|]. simpl.
  unfold mbind, M_bind. rewrite H by lia. apply IH. intros k s' Hk. apply H. lia.
Qed.

Lemma iter_mut_enumerate_pure {N : Num} {W} (f : nat → M W num) g dest i w :
  (∀ p, i ≤ p < i + length dest → f p w = Done (g p) w) →
  iter_mut_enumerate i f dest w = Done (Some <$> (g <$> seq i (length dest))) w.
Proof.
  revert i. induction dest as [|d dest IH]; intros i H; [done|]. simpl in *.
  unfold mbind, M_bind. rewrite H by lia. rewrite IH; [done|]. intros p Hp. apply H. lia.
Qed.

Section Leaf.
Context {N : Num} {W : Type}.
Implicit Types (A B : nat → nat → num) (w : W).

Lemma get_unchecked_done (l : list num) z x w :
  l !! Z.to_nat z = Some x → get_unchecked (Some <$> l) z w = Done x w.
Proof. intros H. unfold get_unchecked. by rewrite list_lookup_fmap, H. Qed.

Lemma get_unchecked_mat k A i j w :
  i < 2 ^ k → j < 2 ^ k → get_unchecked (Some <$> of_mat k A) (zindex k i j) w = Done (A i j) w.
Proof. intros Hi Hj. by apply get_unchecked_done, of_mat_lookup. Qed.

(** A list in Z-order from the values at the indices. *)
Lemma of_mat_from_indices k (g : nat → num) C :
  (∀ i j, i < 2 ^ k → j < 2 ^ k → g (Z.to_nat (zindex k i j)) = C i j) →
  g <$> seq 0 (4 ^ k) = of_mat k C.
Proof.
  intros H. apply list_eq_same_length with (n := 4 ^ k);
    [apply of_mat_length|by rewrite length_fmap, length_seq|].
  intros p x y Hp Hx Hy.
  destruct (zindex_inv k (Z.of_nat p)) as (i & j & Hi & Hj & Hz).
  { change 4%Z with (Z.of_nat 4). rewrite <- Nat2Z.inj_pow. lia. }
  assert (p = Z.to_nat (zindex k i j)) as -> by lia.
  rewrite list_lookup_fmap, lookup_seq_lt in Hx by done. simpl in Hx.
  rewrite of_mat_lookup in Hy by done. rewrite H in Hx by done. congruence.
Qed.

Lemma len_mat {T} k (C : nat → nat → T) : Z.of_nat (length (of_mat k C)) = (2 ^ Z.of_nat (2 * k))%Z.
Proof.
  rewrite of_mat_lengthZ. change 4%Z with (2 ^ 2)%Z. rewrite <- Z.pow_mul_r by lia. f_equal. lia.
Qed.

(** The inner loop of the multiplication in Z-order. *)
Lemma product_loop fuel k A B i j w :
  k ≤ 15 → 2 ^ k < fuel → i < 2 ^ k → j < 2 ^ k →
  for_counter fuel (4 ^ Z.of_nat k) (λ c sum,
    x ← get_unchecked (Some <$> of_mat k A) (Z.lor (2 * spread k i) c);
    y ← get_unchecked (Some <$> of_mat k B) (Z.lor (Z.shiftl c 1) (spread k j));
    mret (nadd sum (nmul x y))) nzero w = Done (mmul (2 ^ k) A B i j) w.
Proof.
  intros Hk Hfuel Hi Hj. rewrite for_counter_square by done.
  apply for_range_pure. intros c s [_ Hc]. rewrite Z.shiftl_mul_pow2, Z.pow_1_r, Z.mul_comm by done.
  rewrite !lor_spread. unfold mbind, M_bind. by rewrite !get_unchecked_mat by done.
Qed.

(** The sequential multiplication, on any numbers: the cells of the destination do not
    matter, and the sums are taken in the order of the columns. *)
Lemma seq_matmulz_spec fuel k A B (dest : list (option num)) w :
  k ≤ 15 → 2 ^ k < fuel → length dest = 4 ^ k →
  seq_matmulz fuel (Some <$> of_mat k A) (Some <$> of_mat k B) dest w =
  Done (Some <$> of_mat k (mmul (2 ^ k) A B)) w.
Proof.
  intros Hk Hfuel Hdest. unfold seq_matmulz, len.
  rewrite !length_fmap, !len_mat. unfold zero_all.
  assert (Hd : Z.of_nat (length dest) = (2 ^ Z.of_nat (2 * k))%Z).
  { by rewrite Hdest, <- (len_mat k A), of_mat_length. }
  rewrite Hd, Z.eqb_refl, count_ones_pow2, trailing_zeros_pow2 by lia.
  assert (Heven : Z.even (Z.of_nat (2 * k)) = true) by by rewrite Nat2Z.inj_mul, Z.even_mul.
  rewrite Heven. unfold mbind at 1 2, M_bind at 1 2, assert; cbn [andb Z.eqb Pos.eqb mret M_ret].
  replace (2 ^ Z.of_nat (2 * k))%Z with (4 ^ Z.of_nat k)%Z
    by (rewrite <- (len_mat k A); by rewrite of_mat_lengthZ).
  set (g p := default nzero (of_mat k (mmul (2 ^ k) A B) !! p)).
  rewrite (iter_mut_enumerate_pure _ g).
  - rewrite length_fmap, Hdest, (of_mat_from_indices k g (mmul (2 ^ k) A B)); [done|].
    intros i j Hi Hj. unfold g. by rewrite of_mat_lookup.
  - intros p Hp. rewrite length_fmap, Hdest in Hp.
    destruct (zindex_inv k (Z.of_nat p)) as (i & j & Hi & Hj & Hz).
    { change 4%Z with (Z.of_nat 4). rewrite <- Nat2Z.inj_pow. lia. }
    change EVEN_BITS with (2 * odd_mask 16)%Z. change ODD_BITS with (odd_mask 16).
    rewrite Hz, zindex_even, zindex_odd by lia. rewrite product_loop by done.
    unfold g. replace p with (Z.to_nat (zindex k i j)) by lia. by rewrite of_mat_lookup.
Qed.
End Leaf.

(** ** Row-major order *)

Definition of_rows {A} (n : nat) (m : nat → nat → A) : list A :=
  (λ p, m (p / n) (p mod n)) <$> seq 0 (n * n).

Lemma row_col n i j : j < n → (i * n + j) / n = i ∧ (i * n + j) mod n = j.
Proof.
  intros Hj. rewrite Nat.add_comm, Nat.div_add, Nat.Div0.mod_add by lia.
  by rewrite Nat.div_small, Nat.mod_small.
Qed.

Lemma of_rows_lookup {A} n (m : nat → nat → A) i j :
  i < n → j < n → of_rows n m !! (i * n + j) = Some (m i j).
Proof.
  intros Hi Hj. unfold of_rows. rewrite list_lookup_fmap, lookup_seq_lt by nia. simpl.
  by destruct (row_col n i j Hj) as [-> ->].
Qed.

Lemma for_range_runs {W S} (I : nat → S → Prop) (body : nat → S → M W S) from n s :
  (∀ k s, from ≤ k < from + n → I k s → runs (body k s) (I (k + 1))) →
  I from s → runs (for_range from n body s) (I (from + n)).
Proof.
  revert from s. induction n as [|n IH]; intros from s Hb Hs; simpl.
  { apply runs_ret. by rewrite Nat.add_0_r. }
  eapply runs_bind; [apply Hb; [lia|done]|]. intros s' Hs'.
  replace (from + Datatypes.S n) with (Datatypes.S from + n) by lia.
  apply IH; [|by rewrite Nat.add_1_r in Hs']. intros k s'' Hk. apply Hb. lia.
Qed.

Section Rows.
Context {N : Num} {W : Type}.
Implicit Types (A B C : nat → nat → num).

(** The first [q] cells hold their entry of the result. *)
Definition filled (n q : nat) C (dest : list (option num)) : Prop :=
  length dest = n * n ∧ ∀ p, p < q → dest !! p = Some (Some (C (p / n) (p mod n))).

Lemma lor_row k i j :
  j < 2 ^ k → Z.to_nat (Z.lor (Z.shiftl (Z.of_nat i) (Z.of_nat k)) (Z.of_nat j)) = i * 2 ^ k + j.
Proof.
  intros Hj. rewrite lor_add.
  - rewrite Z.shiftl_mul_pow2 by lia. change 2%Z with (Z.of_nat 2). rewrite <- Nat2Z.inj_pow. lia.
  - apply Z.bits_inj'. intros b Hb. rewrite Z.land_spec, Z.shiftl_spec, Z.bits_0 by done.
    destruct (Z.lt_ge_cases b (Z.of_nat k)); [by rewrite Z.testbit_neg_r by lia|].
    apply andb_false_intro2. destruct (decide (j = 0)) as [->|Hj0]; [apply Z.testbit_0_l|].
    apply Z.bits_above_log2, Z.log2_lt_pow2; [lia..|]. eapply Z.lt_le_trans; [|apply Z.pow_le_mono_r; [lia|exact H]].
    change 2%Z with (Z.of_nat 2). rewrite <- Nat2Z.inj_pow. lia.
Qed.

Lemma get_unchecked_row k A i j (w : W) :
  i < 2 ^ k → j < 2 ^ k →
  get_unchecked (Some <$> of_rows (2 ^ k) A)
    (Z.lor (Z.shiftl (Z.of_nat i) (Z.of_nat k)) (Z.of_nat j)) w = Done (A i j) w.
Proof.
  intros Hi Hj. apply get_unchecked_done. rewrite lor_row by done. by apply of_rows_lookup.
Qed.

Lemma set_index_filled n i j C x (dest : list (option num)) z :
  i < n → j < n → Z.to_nat z = i * n + j → (0 ≤ z)%Z → x = C i j → filled n (i * n + j) C dest →
  runs (W := W) (set_index dest z x) (filled n (i * n + j + 1) C).
Proof.
  intros Hi Hj Hz Hz0 -> [Hl Hf]. unfold set_index, len. assert (i * n + j < n * n) by nia.
  rewrite (proj2 (Z.ltb_lt _ _)) by lia. apply runs_ret. split; [by rewrite length_insert|].
  intros p Hp. rewrite Hz. destruct (decide (p = i * n + j)) as [->|Hne].
  - rewrite list_lookup_insert_eq by lia. by destruct (row_col n i j Hj) as [-> ->].
  - rewrite list_lookup_insert_ne by done. apply Hf. lia.
Qed.

Lemma seq_matmul_spec k A B (dest : list (option num)) (w : W) :
  k < 32 → length dest = 4 ^ k →
  seq_matmul (Some <$> of_rows (2 ^ k) A) (Some <$> of_rows (2 ^ k) B) dest w =
  Done (Some <$> of_rows (2 ^ k) (mmul (2 ^ k) A B)) w.
Proof.
  intros Hk Hd. set (C := mmul (2 ^ k) A B). set (n := 2 ^ k).
  assert (Hnn : length dest = n * n).
  { rewrite Hd. unfold n. by rewrite <- Nat.pow_mul_l. }
  cut (runs (W := W) (seq_matmul (Some <$> of_rows n A) (Some <$> of_rows n B) dest)
         (filled n (n * n) C)).
  { intros Hr. destruct (Hr w) as (r & -> & Hl & Hf). f_equal.
    apply list_eq_same_length with (n := n * n);
      [by rewrite length_fmap; unfold of_rows; rewrite length_fmap, length_seq|done|].
    intros p x y Hp Hx Hy. rewrite Hf in Hx by done.
    unfold of_rows in Hy. rewrite !list_lookup_fmap, lookup_seq_lt in Hy by done. simpl in Hy.
    congruence. }
  unfold seq_matmul, len. assert (Hlz : Z.of_nat (length dest) = (2 ^ Z.of_nat (2 * k))%Z).
  { rewrite Hd. rewrite Nat2Z.inj_pow. change (Z.of_nat 4) with (2 ^ 2)%Z.
    rewrite <- Z.pow_mul_r by lia. f_equal. lia. }
  rewrite Hlz, trailing_zeros_pow2 by lia.
  replace (Z.of_nat (2 * k) / 2)%Z with (Z.of_nat k)
    by (rewrite Nat2Z.inj_mul, Z.mul_comm; symmetry; by apply Z.div_mul).
  unfold shift_one. rewrite (proj2 (Z.ltb_lt _ _)) by lia.
  apply (runs_bind _ _ (λ z, Z.to_nat z = n)).
  { apply runs_ret. rewrite Z.shiftl_1_l. unfold n. change 2%Z with (Z.of_nat 2).
    rewrite <- Nat2Z.inj_pow. apply Nat2Z.id. }
  intros z ->.
  assert (H0 : filled n (0 * n) C (zero_all dest)).
  { split; [by unfold zero_all; rewrite length_fmap|]. intros p Hp. lia. }
  eapply runs_mono; [apply (for_range_runs (λ i, filled n (i * n) C)); [|exact H0]|done].
  intros i d Hi Hf. cbv beta in Hf.
  eapply runs_mono; [apply (for_range_runs (λ j, filled n (i * n + j) C));
    [|by rewrite Nat.add_0_r]|].
  2:{ intros r. cbv beta. by replace ((i + 1) * n) with (i * n + (0 + n)) by lia. }
  intros j d' Hj Hf'. cbv beta in Hf'. apply (runs_bind _ _ (λ x, x = C i j)).
  - intros w'. eexists. split; [|reflexivity]. apply for_range_pure. intros c s Hc.
    unfold mbind, M_bind. unfold n in *. by rewrite !get_unchecked_row by lia.
  - intros x ->. rewrite Nat.add_assoc. apply set_index_filled;
      [lia|lia|apply lor_row; lia| |done|done].
    apply Z.lor_nonneg. split; [apply Z.shiftl_nonneg|]; lia.
Qed.
End Rows.
