(* ===== verification/MatmulExact.v ===== *)
(** * The parallel and the Strassen multiplication are exact on integers

    Every number type that computes exactly on the integers that fit multiplies integer
    matrices exactly, whatever the destination and the scratch space hold before, as
    long as the intermediate results fit.  The bound says how large they become. *)

From S2P Require Import Prelude Numeric Morton Rayon Matmul MatmulSpec.
#[local] Open Scope Z_scope.

(** ** Sums *)

Fixpoint sum (n : nat) (f : nat → Z) : Z :=
  match n with O => 0 | S n' => sum n' f + f n' end.

Lemma sum_ext n f g : (∀ m, (m < n)%nat → f m = g m) → sum n f = sum n g.
Proof. intros H. induction n as [|n IH]; [done|]. simpl. rewrite IH, H; auto with lia. Qed.

Lemma sum_add n f g : sum n f + sum n g = sum n (λ m, f m + g m).
Proof. induction n as [|n IH]; [done|]. simpl. lia. Qed.

Lemma sum_sub n f g : sum n f - sum n g = sum n (λ m, f m - g m).
Proof. induction n as [|n IH]; [done|]. simpl. lia. Qed.

Lemma sum_split h n f : sum (n + h) f = sum h f + sum n (λ m, f (m + h)%nat).
Proof. induction n as [|n IH]; simpl; [lia|]. rewrite IH. lia. Qed.

Lemma sum_bound n f c :
  (∀ m, (m < n)%nat → Z.abs (f m) ≤ c) → Z.abs (sum n f) ≤ Z.of_nat n * c.
Proof.
  intros H. induction n as [|n IH]; [simpl; lia|]. cbn [sum].
  specialize (IH ltac:(auto with lia)). specialize (H n ltac:(lia)). lia.
Qed.

(** The product of integer matrices. *)
Definition mprod : nat → (nat → nat → Z) → (nat → nat → Z) → nat → nat → Z := mmul (N := Z_num).

Lemma mprod_sum n A B i j : mprod n A B i j = sum n (λ m, A i m * B m j).
Proof.
  unfold mprod, mmul. induction n as [|n IH]; [done|]. by rewrite seq_S, foldl_app, IH.
Qed.

Definition bounded (n : nat) (A : nat → nat → Z) (α : Z) : Prop :=
  ∀ i j, (i < n)%nat → (j < n)%nat → Z.abs (A i j) ≤ α.

Lemma bounded_nonneg n A α : (0 < n)%nat → bounded n A α → 0 ≤ α.
Proof. intros Hn H. specialize (H 0%nat 0%nat Hn Hn). lia. Qed.

Lemma term_bound n A B α β i j m :
  bounded n A α → bounded n B β → (i < n)%nat → (j < n)%nat → (m < n)%nat →
  Z.abs (A i m * B m j) ≤ α * β.
Proof.
  intros HA HB Hi Hj Hm. rewrite Z.abs_mul.
  apply Z.mul_le_mono_nonneg; auto using Z.abs_nonneg.
Qed.

Lemma mprod_bounded n A B α β :
  bounded n A α → bounded n B β → bounded n (mprod n A B) (Z.of_nat n * (α * β)).
Proof.
  intros HA HB i j Hi Hj. rewrite mprod_sum. apply sum_bound. intros m Hm.
  by apply (term_bound n).
Qed.

Lemma bounded_add n A B α β γ :
  bounded n A α → bounded n B β → γ = α + β → bounded n (λ i j, A i j + B i j) γ.
Proof. intros HA HB -> i j Hi Hj. specialize (HA i j Hi Hj). specialize (HB i j Hi Hj). lia. Qed.

Lemma bounded_sub n A B α β γ :
  bounded n A α → bounded n B β → γ = α + β → bounded n (λ i j, A i j - B i j) γ.
Proof. intros HA HB -> i j Hi Hj. specialize (HA i j Hi Hj). specialize (HB i j Hi Hj). lia. Qed.

(** The four quarters of a matrix. *)
Definition q01 {A} (h : nat) (m : nat → nat → A) i j : A := m i (j + h)%nat.
Definition q10 {A} (h : nat) (m : nat → nat → A) i j : A := m (i + h)%nat j.
Definition q11 {A} (h : nat) (m : nat → nat → A) i j : A := m (i + h)%nat (j + h)%nat.

Lemma bounded_quarters h A α :
  bounded (h + h) A α →
  bounded h A α ∧ bounded h (q01 h A) α ∧ bounded h (q10 h A) α ∧ bounded h (q11 h A) α.
Proof. intros H. split_and!; intros i j Hi Hj; apply H; lia. Qed.

Lemma pow2_double k : (2 ^ S k = 2 ^ k + 2 ^ k)%nat.
Proof. simpl. lia. Qed.

Lemma pow2_pos k : (0 < 2 ^ k)%nat.
Proof. pose proof (Nat.pow_nonzero 2 k). lia. Qed.

(** The quarters of the product, as sums of products of quarters. *)
Lemma mprod_quarters h A B :
  let P := mprod (h + h) A B in
  ∀ i j,
    P i j = mprod h A B i j + mprod h (q01 h A) (q10 h B) i j ∧
    q01 h P i j = mprod h A (q01 h B) i j + mprod h (q01 h A) (q11 h B) i j ∧
    q10 h P i j = mprod h (q10 h A) B i j + mprod h (q11 h A) (q10 h B) i j ∧
    q11 h P i j = mprod h (q10 h A) (q01 h B) i j + mprod h (q11 h A) (q11 h B) i j.
Proof.
  intros P i j. unfold P, q01, q10, q11. by rewrite !mprod_sum, !sum_split.
Qed.

(** The seven products, and how they add up to the quarters of the result. *)
Definition s1 h A B := mprod h (λ i j, A i j + q11 h A i j) (λ i j, B i j + q11 h B i j).
Definition s2 h A B := mprod h (λ i j, q10 h A i j + q11 h A i j) B.
Definition s3 h A B := mprod h A (λ i j, q01 h B i j - q11 h B i j).
Definition s4 h A B := mprod h (q11 h A) (λ i j, q10 h B i j - B i j).
Definition s5 h A B := mprod h (λ i j, A i j + q01 h A i j) (q11 h B).
Definition s6 h A B := mprod h (λ i j, q10 h A i j - A i j) (λ i j, B i j + q01 h B i j).
Definition s7 h A B := mprod h (λ i j, q01 h A i j - q11 h A i j) (λ i j, q10 h B i j + q11 h B i j).

Lemma strassen_identity h A B i j :
  let P := mprod (h + h) A B in
  s1 h A B i j + s4 h A B i j + s7 h A B i j - s5 h A B i j = P i j ∧
  s3 h A B i j + s5 h A B i j = q01 h P i j ∧
  s2 h A B i j + s4 h A B i j = q10 h P i j ∧
  s1 h A B i j + s3 h A B i j + s6 h A B i j - s2 h A B i j = q11 h P i j.
Proof.
  intros P. destruct (mprod_quarters h A B i j) as (H1 & H2 & H3 & H4). fold P in H1, H2, H3, H4.
  rewrite H1, H2, H3, H4. unfold s1, s2, s3, s4, s5, s6, s7. rewrite !mprod_sum.
  rewrite ?sum_add, ?sum_sub, ?sum_add. repeat split; (apply sum_ext; intros m Hm; unfold q01, q10, q11; ring).
Qed.

Ltac bounded_entries :=
  first [eassumption | eapply bounded_add; [eassumption..|reflexivity]
        | eapply bounded_sub; [eassumption..|reflexivity]].

Lemma strassen_products_bounded h A B α β :
  0 ≤ α → 0 ≤ β → bounded (h + h) A α → bounded (h + h) B β →
  let p := Z.of_nat (h + h) * (α * β) in
  bounded h (s1 h A B) (2 * p) ∧ bounded h (s2 h A B) p ∧ bounded h (s3 h A B) p ∧
  bounded h (s4 h A B) p ∧ bounded h (s5 h A B) p ∧ bounded h (s6 h A B) (2 * p) ∧
  bounded h (s7 h A B) (2 * p).
Proof.
  intros Hα Hβ HA HB p.
  destruct (bounded_quarters h A α HA) as (HA0 & HA1 & HA2 & HA3).
  destruct (bounded_quarters h B β HB) as (HB0 & HB1 & HB2 & HB3).
  assert (Hp : ∀ X Y a b c, bounded h X a → bounded h Y b → Z.of_nat h * (a * b) = c →
            bounded h (mprod h X Y) c) by (intros X Y a b c HX HY <-; by apply mprod_bounded).
  assert (E1 : Z.of_nat h * ((α + α) * (β + β)) = 2 * p) by (unfold p; lia).
  assert (E2 : Z.of_nat h * ((α + α) * β) = p) by (unfold p; lia).
  assert (E3 : Z.of_nat h * (α * (β + β)) = p) by (unfold p; lia).
  split_and!; unfold s1, s2, s3, s4, s5, s6, s7;
    (eapply Hp; [bounded_entries|bounded_entries|first [exact E1|exact E2|exact E3]]).
Qed.

(** How large the intermediate results become, when the entries of the product are at most
    [p]: every level doubles the bound on the entries, and adds up to five of them. *)
Definition strassen_bound (k : nat) (p : Z) : Z :=
  if (k <=? 5)%nat then p else 5 * 2 ^ Z.of_nat (k - 6) * p.

Lemma strassen_bound_step k p :
  (5 ≤ k)%nat → 0 ≤ p →
  strassen_bound k (2 * p) ≤ strassen_bound (S k) p ∧ 5 * p ≤ strassen_bound (S k) p.
Proof.
  intros Hk Hp. unfold strassen_bound. rewrite (proj2 (Nat.leb_gt (S k) 5)) by lia.
  assert (1 ≤ 2 ^ Z.of_nat (S k - 6)) by (pose proof (Z.pow_pos_nonneg 2 (Z.of_nat (S k - 6))); lia).
  split; [|nia]. destruct (Nat.leb_spec k 5); [nia|].
  replace (S k - 6)%nat with (S (k - 6)) by lia. rewrite Nat2Z.inj_succ, Z.pow_succ_r by lia. nia.
Qed.

Lemma strassen_bound_mono k p q : 0 ≤ p ≤ q → strassen_bound k p ≤ strassen_bound k q.
Proof.
  intros Hp. unfold strassen_bound. destruct (k <=? 5)%nat; [lia|].
  apply Z.mul_le_mono_nonneg_l; [|lia]. pose proof (Z.pow_nonneg 2 (Z.of_nat (k - 6))). lia.
Qed.

(** ** Cells that stand for integers *)

Section Exact.
Context {N : Num} {ex : Exact N} {ry : Rayon} {rl : RayonLaws ry} {W : Type}.
Implicit Types (A B : nat → nat → Z) (x : list (option num)).

Definition crep (c : option num) (z : Z) : Prop := ∃ y, c = Some y ∧ rep y z.

Definition holds k x A : Prop := Forall2 crep x (of_mat k A).

Definition fits_upto (b : Z) : Prop := ∀ z, Z.abs z ≤ b → fits z.

Lemma fits_upto_le b b' : b' ≤ b → fits_upto b → fits_upto b'.
Proof. intros Hle Hf z Hz. apply Hf. lia. Qed.

Lemma holds_length k x A : holds k x A → length x = (4 ^ k)%nat.
Proof. intros H. by rewrite (Forall2_length _ _ _ H), of_mat_length. Qed.

Lemma holds_ext k x A B :
  holds k x A → (∀ i j, (i < 2 ^ k)%nat → (j < 2 ^ k)%nat → A i j = B i j) → holds k x B.
Proof. intros H HAB. unfold holds. by rewrite <- (of_mat_ext k A B). Qed.

Lemma holds_inv k x A :
  holds k x A →
  ∃ X : nat → nat → num, x = Some <$> of_mat k X ∧
    ∀ i j, (i < 2 ^ k)%nat → (j < 2 ^ k)%nat → rep (X i j) (A i j).
Proof.
  intros H. exists (λ i j, default nzero (default None (x !! Z.to_nat (zindex k i j)))).
  assert (Hl : ∀ i j, (i < 2 ^ k)%nat → (j < 2 ^ k)%nat →
            ∃ y, x !! Z.to_nat (zindex k i j) = Some (Some y) ∧ rep y (A i j)).
  { intros i j Hi Hj.
    destruct (Forall2_lookup_r _ _ _ _ _ H (of_mat_lookup k A i j Hi Hj)) as (c & Hc & y & -> & Hy).
    eauto. }
  split.
  - apply list_eq_same_length with (n := (4 ^ k)%nat);
      [by rewrite length_fmap, of_mat_length|by apply (holds_length k x A)|].
    intros p c c' Hp Hc Hc'.
    destruct (zindex_inv k (Z.of_nat p)) as (i & j & Hi & Hj & Hz).
    { change 4 with (Z.of_nat 4). rewrite <- Nat2Z.inj_pow. lia. }
    assert (p = Z.to_nat (zindex k i j)) as -> by lia.
    destruct (Hl i j Hi Hj) as (y & Hy & _).
    rewrite list_lookup_fmap, of_mat_lookup, Hy in Hc' by done. simpl in Hc'. congruence.
  - intros i j Hi Hj. destruct (Hl i j Hi Hj) as (y & -> & Hy). done.
Qed.

Lemma holds_app k x0 x1 x2 x3 A :
  holds k x0 A → holds k x1 (q01 (2 ^ k) A) → holds k x2 (q10 (2 ^ k) A) →
  holds k x3 (q11 (2 ^ k) A) → holds (S k) (x0 ++ x1 ++ x2 ++ x3) A.
Proof. intros. unfold holds. cbn [of_mat]. by repeat apply Forall2_app. Qed.

(** ** The operations on slices *)

Lemma quarter_chunks_app (x0 x1 x2 x3 : list (option num)) n :
  length x0 = n → length x1 = n → length x2 = n → length x3 = n →
  quarter_chunks (x0 ++ x1 ++ x2 ++ x3) = (x0, x1, x2, x3).
Proof.
  intros H0 H1 H2 H3. unfold quarter_chunks.
  assert (Hm : (length (x0 ++ x1 ++ x2 ++ x3) / 2 = n + n)%nat).
  { rewrite !length_app. replace (length x0 + _)%nat with ((n + n) * 2)%nat by lia.
    by apply Nat.div_mul. }
  assert (Hq : ((n + n) / 2 = n)%nat).
  { replace (n + n)%nat with (n * 2)%nat by lia. by apply Nat.div_mul. }
  cbv zeta. rewrite Hm, Hq, (app_assoc x0 x1).
  rewrite (take_app_length' (x0 ++ x1)), (drop_app_length' (x0 ++ x1)) by (rewrite length_app; lia).
  by rewrite !take_app_length', !drop_app_length' by done.
Qed.

Lemma quarter_chunks_length (x : list (option num)) n x0 x1 x2 x3 :
  length x = (4 * n)%nat → quarter_chunks x = (x0, x1, x2, x3) →
  length x0 = n ∧ length x1 = n ∧ length x2 = n ∧ length x3 = n.
Proof.
  intros Hx Hq. unfold quarter_chunks in Hq. rewrite Hx in Hq.
  replace (4 * n)%nat with ((2 * n) * 2)%nat in Hq by lia. rewrite Nat.div_mul in Hq by done.
  replace (2 * n)%nat with (n * 2)%nat in Hq by lia. rewrite Nat.div_mul in Hq by done.
  simplify_eq. rewrite !length_take, !length_drop, !length_take. lia.
Qed.

Lemma holds_quarters k x A :
  holds (S k) x A →
  ∃ x0 x1 x2 x3, quarter_chunks x = (x0, x1, x2, x3) ∧ holds k x0 A ∧
    holds k x1 (q01 (2 ^ k) A) ∧ holds k x2 (q10 (2 ^ k) A) ∧ holds k x3 (q11 (2 ^ k) A).
Proof.
  unfold holds. cbn [of_mat]. intros H.
  apply Forall2_app_inv_r in H as (x0 & y0 & H0 & H & ->).
  apply Forall2_app_inv_r in H as (x1 & y1 & H1 & H & ->).
  apply Forall2_app_inv_r in H as (x2 & x3 & H2 & H3 & ->).
  exists x0, x1, x2, x3. split; [|done].
  apply (quarter_chunks_app _ _ _ _ (4 ^ k)); eapply holds_length; eassumption.
Qed.

Definition cell_op (op : num → num → num) (d s : option num) : option num :=
  match d, s with Some x, Some y => Some (op x y) | _, _ => None end.

Lemma zip_op_holds k (op : num → num → num) (opz : Z → Z → Z) d s D S' :
  (∀ u v z z', rep u z → rep v z' → fits (opz z z') → rep (op u v) (opz z z')) →
  holds k d D → holds k s S' →
  (∀ i j, (i < 2 ^ k)%nat → (j < 2 ^ k)%nat → fits (opz (D i j) (S' i j))) →
  runs (W := W) (par_zip (λ d s, u ← read_cell d; v ← read_cell s; mret (Some (op u v))) d s)
    (λ r, holds k r (λ i j, opz (D i j) (S' i j))).
Proof.
  intros Hop Hd Hs Hf w.
  destruct (holds_inv k d D Hd) as (D' & -> & HD). destruct (holds_inv k s S' Hs) as (T' & -> & HS).
  rewrite (par_zip_done _ (cell_op op)).
  2:{ intros i c c' Hc Hc'. rewrite list_lookup_fmap in Hc, Hc'.
      destruct (of_mat k D' !! i), (of_mat k T' !! i); simplify_eq/=. done. }
  eexists. split; [reflexivity|]. unfold holds.
  assert (Hz : ∀ k D T, zip_update (cell_op op) (Some <$> of_mat k D) (Some <$> of_mat k T) =
                   Some <$> of_mat k (λ i j, op (D i j) (T i j))).
  { clear. intros k. induction k as [|k IH]; intros D T; [done|]. cbn [of_mat].
    assert (Happ : ∀ f (d1 d2 s1 s2 : list (option num)), length d1 = length s1 →
              zip_update f (d1 ++ d2) (s1 ++ s2) = zip_update f d1 s1 ++ zip_update f d2 s2).
    { clear. intros f d1. induction d1 as [|d d1 IH]; intros d2 [|s s1] s2 Hl; simplify_eq/=;
        [done|]. by rewrite IH. }
    rewrite !fmap_app, !Happ, !IH by (by rewrite !length_fmap, !of_mat_length). done. }
  rewrite Hz, of_mat_fmap. apply of_mat_Forall2. intros i j Hi Hj.
  eexists. split; [reflexivity|]. apply Hop; auto.
Qed.

Lemma runs_matsum k s d S' D :
  holds k s S' → holds k d D →
  (∀ i j, (i < 2 ^ k)%nat → (j < 2 ^ k)%nat → fits (D i j + S' i j)) →
  runs (W := W) (rmatsum s d) (λ r, holds k r (λ i j, D i j + S' i j)).
Proof. intros Hs Hd. by apply (zip_op_holds k nadd Z.add); [apply rep_add|..]. Qed.

Lemma runs_matsub k s d S' D :
  holds k s S' → holds k d D →
  (∀ i j, (i < 2 ^ k)%nat → (j < 2 ^ k)%nat → fits (D i j - S' i j)) →
  runs (W := W) (rmatsub s d) (λ r, holds k r (λ i j, D i j - S' i j)).
Proof. intros Hs Hd. by apply (zip_op_holds k nsub Z.sub); [apply rep_sub|..]. Qed.

Variable fuel : nat.
Hypothesis Hfuel : (32 < fuel)%nat.

(** [rcopy] overwrites its destination, also when it splits the work. *)
Lemma runs_rcopy_depth depth (src dest : list (option num)) :
  length dest = length src → Z.of_nat (length src) ≤ LINEAR_CHUNK * 2 ^ Z.of_nat depth →
  runs (W := W) (rcopy_depth (S depth) src dest) (λ r, r = src).
Proof.
  revert src dest. induction depth as [|depth IH]; intros src dest Hl Hd;
    cbn [rcopy_depth]; unfold len; rewrite Hl, Nat.eqb_refl.
  - rewrite (proj2 (Z.leb_le _ _)) by lia. by apply runs_ret.
  - destruct (Z.leb_spec (Z.of_nat (length src)) LINEAR_CHUNK); [by apply runs_ret|].
    rewrite Nat2Z.inj_succ, Z.pow_succ_r in Hd by lia.
    pose proof (Nat.div_mod (length src) 2 ltac:(lia)) as Hm.
    pose proof (Nat.mod_upper_bound (length src) 2 ltac:(lia)) as Hmb.
    set (mid := (length src / 2)%nat) in *.
    assert (Hchunk : LINEAR_CHUNK = 65536) by done.
    unfold split_at. rewrite Hl, (proj2 (Nat.leb_le _ _)) by lia.
    apply (runs_bind _ _ (λ p, p = (take mid src, drop mid src))); [by apply runs_ret|].
    intros ? ->. apply (runs_bind _ _ (λ p, p = (take mid dest, drop mid dest)));
      [by apply runs_ret|]. intros ? ->.
    eapply runs_bind; [apply runs_join; apply IH; rewrite ?length_take, ?length_drop; lia|].
    intros [r1 r2] [H1 H2]. simpl in H1, H2. subst. apply runs_ret, take_drop.
Qed.

Lemma runs_rcopy k src dest A :
  (k ≤ 24)%nat → holds k src A → length dest = length src →
  runs (W := W) (rcopy fuel src dest) (λ r, holds k r A).
Proof.
  intros Hk Hs Hl. unfold rcopy. replace fuel with (S (fuel - 1))%nat by lia.
  eapply runs_mono; [apply runs_rcopy_depth; [done|]|by intros ? ->].
  rewrite (holds_length k src A Hs), Nat2Z.inj_pow. change (Z.of_nat 4) with (2 ^ 2).
  change LINEAR_CHUNK with (2 ^ 16). rewrite <- Z.pow_mul_r, <- Z.pow_add_r by lia.
  apply Z.pow_le_mono_r; lia.
Qed.

Lemma runs_tmp_sum k a b A B :
  (k ≤ 24)%nat → holds k a A → holds k b B →
  (∀ i j, (i < 2 ^ k)%nat → (j < 2 ^ k)%nat → fits (A i j + B i j)) →
  runs (W := W) (rtmp_sum fuel a b) (λ r, holds k r (λ i j, A i j + B i j)).
Proof.
  intros Hk Ha Hb Hf. unfold rtmp_sum. eapply runs_bind.
  { apply (runs_rcopy k a _ A); [done..|]. unfold raw_buffer. by rewrite repeat_length. }
  intros r Hr. by apply runs_matsum.
Qed.

Lemma runs_tmp_sub k a b A B :
  (k ≤ 24)%nat → holds k a A → holds k b B →
  (∀ i j, (i < 2 ^ k)%nat → (j < 2 ^ k)%nat → fits (A i j - B i j)) →
  runs (W := W) (rtmp_sub fuel a b) (λ r, holds k r (λ i j, A i j - B i j)).
Proof.
  intros Hk Ha Hb Hf. unfold rtmp_sub. eapply runs_bind.
  { apply (runs_rcopy k a _ A); [done..|]. unfold raw_buffer. by rewrite repeat_length. }
  intros r Hr. by apply runs_matsub.
Qed.

Lemma runs_strassen_sum k a b dest A B :
  (k ≤ 24)%nat → holds k a A → holds k b B → length dest = (4 ^ k)%nat →
  (∀ i j, (i < 2 ^ k)%nat → (j < 2 ^ k)%nat → fits (A i j + B i j)) →
  runs (W := W) (strassen_sum fuel a b dest) (λ r, holds k r (λ i j, A i j + B i j)).
Proof.
  intros Hk Ha Hb Hd Hf. unfold strassen_sum. eapply runs_bind.
  { apply (runs_rcopy k a _ A); [done..|]. by rewrite (holds_length k a A). }
  intros r Hr. by apply runs_matsum.
Qed.

Lemma runs_strassen_sum_sub k a b c s dest A B C S' :
  (k ≤ 24)%nat → holds k a A → holds k b B → holds k c C → holds k s S' →
  length dest = (4 ^ k)%nat →
  (∀ i j, (i < 2 ^ k)%nat → (j < 2 ^ k)%nat →
     fits (A i j + B i j) ∧ fits (A i j + B i j + C i j) ∧ fits (A i j + B i j + C i j - S' i j)) →
  runs (W := W) (strassen_sum_sub fuel a b c s dest)
    (λ r, holds k r (λ i j, A i j + B i j + C i j - S' i j)).
Proof.
  intros Hk Ha Hb Hc Hs Hd Hf. unfold strassen_sum_sub. eapply runs_bind.
  { apply (runs_rcopy k a _ A); [done..|]. by rewrite (holds_length k a A). }
  intros r Hr. eapply runs_bind; [apply (runs_matsum k b r B A); [done..|]; by apply Hf|].
  intros r2 Hr2. eapply runs_bind; [apply (runs_matsum k c r2 C (λ i j, A i j + B i j)); [done..|]|].
  { intros i j Hi Hj. by apply Hf. }
  intros r3 Hr3. apply (runs_matsub k s r3 S' (λ i j, A i j + B i j + C i j)); [done..|].
  intros i j Hi Hj. by apply Hf.
Qed.

(** ** The leaf *)

Lemma rep_product n (X Y : nat → nat → num) A B α β i j :
  (∀ i j, (i < n)%nat → (j < n)%nat → rep (X i j) (A i j)) →
  (∀ i j, (i < n)%nat → (j < n)%nat → rep (Y i j) (B i j)) →
  bounded n A α → bounded n B β → fits_upto (Z.of_nat n * (α * β)) →
  (i < n)%nat → (j < n)%nat → rep (mmul n X Y i j) (mprod n A B i j).
Proof.
  intros HX HY HA HB Hf Hi Hj. rewrite mprod_sum. unfold mmul.
  assert (H : ∀ m, (m ≤ n)%nat →
    rep (foldl (λ s c, nadd s (nmul (X i c) (Y c j))) nzero (seq 0 m))
        (sum m (λ c, A i c * B c j))).
  { intros m. induction m as [|m IH]; intros Hm; [apply rep_zero|].
    rewrite seq_S, foldl_app. cbn [foldl sum Nat.add].
    assert (Ht : ∀ c, (c < n)%nat → Z.abs (A i c * B c j) ≤ α * β)
      by (intros c Hc; by apply (term_bound n)).
    pose proof (Z.le_trans _ _ _ (Z.abs_nonneg _) (Ht m Hm)) as Hab.
    apply rep_add; [apply IH; lia| |].
    - apply rep_mul; [apply HX|apply HY|apply Hf]; [lia..|]. specialize (Ht m Hm). nia.
    - apply Hf. change (sum m ?f + ?f' m) with (sum (S m) f).
      transitivity (Z.of_nat (S m) * (α * β)); [|nia].
      apply (sum_bound (S m) (λ c, A i c * B c j)). intros c Hc. apply Ht. lia. }
  by apply H.
Qed.

Lemma runs_leaf k a b dest A B α β :
  (k ≤ 5)%nat → holds k a A → holds k b B → length dest = (4 ^ k)%nat →
  bounded (2 ^ k) A α → bounded (2 ^ k) B β → fits_upto (Z.of_nat (2 ^ k) * (α * β)) →
  runs (W := W) (seq_matmulz fuel a b dest) (λ r, holds k r (mprod (2 ^ k) A B)).
Proof.
  intros Hk Ha Hb Hd HA HB Hf w.
  destruct (holds_inv k a A Ha) as (X & -> & HX). destruct (holds_inv k b B Hb) as (Y & -> & HY).
  assert (2 ^ k ≤ 2 ^ 5)%nat by (apply Nat.pow_le_mono_r; lia). simpl in H.
  rewrite seq_matmulz_spec by (lia || done). eexists. split; [reflexivity|].
  unfold holds. rewrite of_mat_fmap. apply of_mat_Forall2. intros i j Hi Hj.
  eexists. split; [reflexivity|]. by apply (rep_product _ _ _ _ _ α β).
Qed.

Lemma chunk_leaf k a A : holds k a A → (len a <=? MULT_CHUNK) = (k <=? 5)%nat.
Proof.
  intros Ha. unfold len. rewrite (holds_length k a A Ha), Nat2Z.inj_pow.
  change MULT_CHUNK with (Z.of_nat 4 ^ Z.of_nat 5).
  destruct (Nat.leb_spec k 5).
  - apply Z.leb_le, Z.pow_le_mono_r; lia.
  - apply Z.leb_gt, Z.pow_lt_mono_r; lia.
Qed.

(** ** The parallel multiplication in eight products *)

Lemma runs_join4 {R1 R2 R3 R4} (f1 : M W R1) (f2 : M W R2) (f3 : M W R3) (f4 : M W R4)
    P1 P2 P3 P4 :
  runs f1 P1 → runs f2 P2 → runs f3 P3 → runs f4 P4 →
  runs (join4 f1 f2 f3 f4) (λ '(r1, r2, r3, r4), P1 r1 ∧ P2 r2 ∧ P3 r3 ∧ P4 r4).
Proof.
  intros. unfold join4. eapply runs_bind; [repeat (apply runs_join; try eassumption)|].
  intros [[r1 r2] [r3 r4]] H'. simpl in H'. apply runs_ret. tauto.
Qed.

Lemma runs_join8 {R1 R2 R3 R4 R5 R6 R7 R8} (f1 : M W R1) (f2 : M W R2) (f3 : M W R3)
    (f4 : M W R4) (f5 : M W R5) (f6 : M W R6) (f7 : M W R7) (f8 : M W R8)
    P1 P2 P3 P4 P5 P6 P7 P8 :
  runs f1 P1 → runs f2 P2 → runs f3 P3 → runs f4 P4 →
  runs f5 P5 → runs f6 P6 → runs f7 P7 → runs f8 P8 →
  runs (join8 f1 f2 f3 f4 f5 f6 f7 f8) (λ '(r1, r2, r3, r4, r5, r6, r7, r8),
    P1 r1 ∧ P2 r2 ∧ P3 r3 ∧ P4 r4 ∧ P5 r5 ∧ P6 r6 ∧ P7 r7 ∧ P8 r8).
Proof.
  intros. unfold join8. eapply runs_bind; [repeat (apply runs_join; try eassumption)|].
  intros [[[r1 r2] [r3 r4]] [[r5 r6] [r7 r8]]] H'. simpl in H'. apply runs_ret. tauto.
Qed.

Lemma holds_quarter_chunks_length k (dest : list (option num)) x0 x1 x2 x3 :
  length dest = (4 ^ S k)%nat → quarter_chunks dest = (x0, x1, x2, x3) →
  length x0 = (4 ^ k)%nat ∧ length x1 = (4 ^ k)%nat ∧ length x2 = (4 ^ k)%nat ∧
  length x3 = (4 ^ k)%nat.
Proof. intros Hd. by apply quarter_chunks_length. Qed.

Lemma runs_matmulz depth k a b dest A B α β :
  (1 ≤ depth)%nat → (k < depth + 5)%nat → (k ≤ 24)%nat →
  holds k a A → holds k b B → length dest = (4 ^ k)%nat →
  bounded (2 ^ k) A α → bounded (2 ^ k) B β → fits_upto (Z.of_nat (2 ^ k) * (α * β)) →
  runs (W := W) (matmulz fuel depth a b dest) (λ r, holds k r (mprod (2 ^ k) A B)).
Proof.
  revert k a b dest A B. induction depth as [|depth IH]; [lia|].
  intros k a b dest A B _ Hkd Hk Ha Hb Hd HA HB Hf. cbn [matmulz].
  rewrite (chunk_leaf k a A Ha). destruct (Nat.leb_spec k 5).
  { by apply (runs_leaf k a b dest A B α β). }
  destruct k as [|k]; [lia|]. rewrite pow2_double in *. set (h := (2 ^ k)%nat) in *.
  pose proof (pow2_pos k) as Hh. fold h in Hh.
  destruct (bounded_quarters h A α HA) as (HA0 & HA1 & HA2 & HA3).
  destruct (bounded_quarters h B β HB) as (HB0 & HB1 & HB2 & HB3).
  destruct (holds_quarters k a A Ha) as (a1 & a2 & a3 & a4 & -> & Ha1 & Ha2 & Ha3 & Ha4).
  destruct (holds_quarters k b B Hb) as (b1 & b2 & b3 & b4 & -> & Hb1 & Hb2 & Hb3 & Hb4).
  destruct (quarter_chunks dest) as [[[d1 d2] d3] d4] eqn:Hqd.
  destruct (quarter_chunks (raw_buffer (length dest))) as [[[t1 t2] t3] t4] eqn:Hqt.
  apply holds_quarter_chunks_length with (k := k) in Hqd as (Hd1 & Hd2 & Hd3 & Hd4); [|done].
  apply holds_quarter_chunks_length with (k := k) in Hqt as (Ht1 & Ht2 & Ht3 & Ht4);
    [|by unfold raw_buffer; rewrite repeat_length].
  assert (Hα : 0 ≤ α) by by eapply bounded_nonneg. assert (Hβ : 0 ≤ β) by by eapply bounded_nonneg.
  pose proof (Z.mul_nonneg_nonneg α β Hα Hβ) as Hαβ.
  assert (Hfh : fits_upto (Z.of_nat h * (α * β))).
  { eapply fits_upto_le; [|exact Hf]. apply Z.mul_le_mono_nonneg_r; lia. }
  fold h in Ha2, Ha3, Ha4, Hb2, Hb3, Hb4.
  eapply runs_bind; [apply runs_join8; (eapply (IH k); [lia..|eassumption|eassumption|done|done|done|done])|].
  intros [[[[[[[r1 r2] r3] r4] s1] s2] s3] s4] (H1 & H2 & H3 & H4 & H5 & H6 & H7 & H8).
  set (D := λ i j, sum h (λ m, A i m * B m j)).
  set (T := λ i j, sum h (λ m, A i (m + h)%nat * B (m + h)%nat j)).
  assert (HD : holds (S k) (r1 ++ r2 ++ r3 ++ r4) D).
  { apply holds_app; (eapply holds_ext; [eassumption|]); intros i j _ _; by rewrite mprod_sum. }
  assert (HT : holds (S k) (s1 ++ s2 ++ s3 ++ s4) T).
  { apply holds_app; (eapply holds_ext; [eassumption|]); intros i j _ _; by rewrite mprod_sum. }
  assert (Hsum : ∀ i j, D i j + T i j = mprod (h + h) A B i j).
  { intros i j. unfold D, T. by rewrite mprod_sum, sum_split. }
  eapply runs_mono; [apply (runs_matsum (S k) _ _ T D); [done..|]|].
  - intros i j Hi Hj. rewrite Hsum. apply Hf. rewrite pow2_double in Hi, Hj.
    by apply (mprod_bounded (h + h) A B α β).
  - cbv beta. intros r Hr. eapply holds_ext; [exact Hr|]. intros i j _ _. apply Hsum.
Qed.

(** ** Strassen's seven products *)

(** What the recursive multiplication is assumed to do for matrices of side [2^k]. *)
Definition multiplies (k : nat) (mul : list (option num) → list (option num) →
    list (option num) → M W (list (option num))) : Prop :=
  ∀ a b dest A B α β, 1 ≤ α → 1 ≤ β → holds k a A → holds k b B → length dest = (4 ^ k)%nat →
    bounded (2 ^ k) A α → bounded (2 ^ k) B β →
    fits_upto (strassen_bound k (Z.of_nat (2 ^ k) * (α * β))) →
    runs (mul a b dest) (λ r, holds k r (mprod (2 ^ k) A B)).

Section Products.
Context (k : nat) (mul : list (option num) → list (option num) → list (option num) →
           M W (list (option num))) (Hmul : multiplies k mul) (Hk : (5 ≤ k ≤ 23)%nat).
Context (α β : Z) (Hα : 1 ≤ α) (Hβ : 1 ≤ β)
  (Hfit : fits_upto (strassen_bound (S k) (Z.of_nat (2 ^ S k) * (α * β)))).
#[local] Abbreviation h := (2 ^ k)%nat.

Lemma pab_pos : 1 ≤ α * β.
Proof. nia. Qed.

Lemma fits_sum (z : Z) (γ : Z) : Z.abs z ≤ 2 * γ → γ ≤ α * β → fits z.
Proof.
  intros Hz Hγ. apply Hfit. pose proof pab_pos.
  destruct (strassen_bound_step k (Z.of_nat (2 ^ S k) * (α * β)) ltac:(lia) ltac:(lia)) as [_ H5].
  pose proof (pow2_pos (S k)). nia.
Qed.

(** The factors of the recursive products have entries up to [2 α] and [2 β]. *)
Lemma fits_product α' β' :
  0 ≤ α' ≤ 2 * α → 0 ≤ β' ≤ 2 * β → fits_upto (strassen_bound k (Z.of_nat h * (α' * β'))).
Proof.
  intros HA HB. eapply fits_upto_le; [|exact Hfit]. pose proof pab_pos.
  assert (Hp : α' * β' ≤ 4 * (α * β)) by nia. assert (0 ≤ α' * β') by nia.
  etransitivity; [apply (strassen_bound_mono k _ (2 * (Z.of_nat (2 ^ S k) * (α * β))))|].
  - rewrite pow2_double. nia.
  - apply strassen_bound_step; [lia|nia].
Qed.

Lemma add_fits (A B : nat → nat → Z) γ :
  γ = α ∨ γ = β → bounded h A γ → bounded h B γ →
  (∀ i j, (i < h)%nat → (j < h)%nat → fits (A i j + B i j)) ∧
  (∀ i j, (i < h)%nat → (j < h)%nat → fits (A i j - B i j)).
Proof.
  intros Hγ HA HB. split; intros i j Hi Hj; apply (fits_sum _ γ);
    specialize (HA i j Hi Hj); specialize (HB i j Hi Hj); destruct Hγ as [->| ->]; nia.
Qed.

Lemma runs_add2_mul a1 a2 b1 b2 A1 A2 B1 B2 :
  holds k a1 A1 → holds k a2 A2 → holds k b1 B1 → holds k b2 B2 →
  bounded h A1 α → bounded h A2 α → bounded h B1 β → bounded h B2 β →
  runs (strassen_add2_mul fuel mul a1 a2 b1 b2)
    (λ r, holds k r (mprod h (λ i j, A1 i j + A2 i j) (λ i j, B1 i j + B2 i j))).
Proof.
  intros Ha1 Ha2 Hb1 Hb2 HA1 HA2 HB1 HB2. unfold strassen_add2_mul. eapply runs_bind.
  { apply runs_join; apply (runs_tmp_sum k); try eassumption; [lia|by (apply (add_fits _ _ α); auto)|lia|].
    by (apply (add_fits _ _ β); auto). }
  intros [a b] [Ha Hb]. simpl in Ha, Hb.
  apply (Hmul _ _ _ _ _ (2 * α) (2 * β)); try done; [lia|lia| | | |].
  - unfold raw_buffer. by rewrite repeat_length, (holds_length k a1 A1).
  - eapply bounded_add; [done..|lia].
  - eapply bounded_add; [done..|lia].
  - apply fits_product; lia.
Qed.

Lemma runs_sub_add_mul a1 a2 b1 b2 A1 A2 B1 B2 :
  holds k a1 A1 → holds k a2 A2 → holds k b1 B1 → holds k b2 B2 →
  bounded h A1 α → bounded h A2 α → bounded h B1 β → bounded h B2 β →
  runs (strassen_sub_add_mul fuel mul a1 a2 b1 b2)
    (λ r, holds k r (mprod h (λ i j, A1 i j - A2 i j) (λ i j, B1 i j + B2 i j))).
Proof.
  intros Ha1 Ha2 Hb1 Hb2 HA1 HA2 HB1 HB2. unfold strassen_sub_add_mul. eapply runs_bind.
  { apply runs_join; [apply (runs_tmp_sub k)|apply (runs_tmp_sum k)]; try eassumption;
      [lia|by (apply (add_fits _ _ α); auto)|lia|]. by (apply (add_fits _ _ β); auto). }
  intros [a b] [Ha Hb]. simpl in Ha, Hb.
  apply (Hmul _ _ _ _ _ (2 * α) (2 * β)); try done; [lia|lia| | | |].
  - unfold raw_buffer. by rewrite repeat_length, (holds_length k a1 A1).
  - eapply bounded_sub; [done..|lia].
  - eapply bounded_add; [done..|lia].
  - apply fits_product; lia.
Qed.

Lemma runs_add_mul a1 a2 b A1 A2 B :
  holds k a1 A1 → holds k a2 A2 → holds k b B →
  bounded h A1 α → bounded h A2 α → bounded h B β →
  runs (strassen_add_mul fuel mul a1 a2 b)
    (λ r, holds k r (mprod h (λ i j, A1 i j + A2 i j) B)).
Proof.
  intros Ha1 Ha2 Hb HA1 HA2 HB. unfold strassen_add_mul. eapply runs_bind.
  { apply (runs_tmp_sum k); try eassumption; [lia|]. by (apply (add_fits _ _ α); auto). }
  intros a Ha. apply (Hmul _ _ _ _ _ (2 * α) β); try done; [lia| | |].
  - unfold raw_buffer. by rewrite repeat_length, (holds_length k a1 A1).
  - eapply bounded_add; [done..|lia].
  - apply fits_product; lia.
Qed.

Lemma runs_sub_mul b1 b2 a B1 B2 A :
  holds k b1 B1 → holds k b2 B2 → holds k a A →
  bounded h B1 β → bounded h B2 β → bounded h A α →
  runs (strassen_sub_mul fuel mul b1 b2 a)
    (λ r, holds k r (mprod h A (λ i j, B1 i j - B2 i j))).
Proof.
  intros Hb1 Hb2 Ha HB1 HB2 HA. unfold strassen_sub_mul. eapply runs_bind.
  { apply (runs_tmp_sub k); try eassumption; [lia|]. by (apply (add_fits _ _ β); auto). }
  intros b Hb. apply (Hmul _ _ _ _ _ α (2 * β)); try done; [lia| | |].
  - unfold raw_buffer. by rewrite repeat_length, (holds_length k a A).
  - eapply bounded_sub; [done..|lia].
  - apply fits_product; lia.
Qed.
(** The quarters of the factors, and the products of them. *)
Context (A B : nat → nat → Z) (HA : bounded (h + h) A α) (HB : bounded (h + h) B β).
#[local] Abbreviation p := (Z.of_nat (h + h) * (α * β)).
#[local] Abbreviation P := (mprod (h + h) A B).

Lemma runs_products a11 a12 a21 a22 b11 b12 b21 b22 :
  holds k a11 A → holds k a12 (q01 h A) → holds k a21 (q10 h A) → holds k a22 (q11 h A) →
  holds k b11 B → holds k b12 (q01 h B) → holds k b21 (q10 h B) → holds k b22 (q11 h B) →
  runs (join8 (strassen_add2_mul fuel mul a11 a22 b11 b22) (strassen_add_mul fuel mul a21 a22 b11)
          (strassen_sub_mul fuel mul b12 b22 a11) (strassen_sub_mul fuel mul b21 b11 a22)
          (strassen_add_mul fuel mul a11 a12 b22) (strassen_sub_add_mul fuel mul a21 a11 b11 b12)
          (strassen_sub_add_mul fuel mul a12 a22 b21 b22) (mret tt))
    (λ '(m1, m2, m3, m4, m5, m6, m7, _),
       holds k m1 (s1 h A B) ∧ holds k m2 (s2 h A B) ∧ holds k m3 (s3 h A B) ∧
       holds k m4 (s4 h A B) ∧ holds k m5 (s5 h A B) ∧ holds k m6 (s6 h A B) ∧
       holds k m7 (s7 h A B) ∧ True).
Proof.
  intros.
  destruct (bounded_quarters h A α HA) as (HA0 & HA1 & HA2 & HA3).
  destruct (bounded_quarters h B β HB) as (HB0 & HB1 & HB2 & HB3).
  apply runs_join8; [apply runs_add2_mul|apply runs_add_mul|apply runs_sub_mul|
    apply runs_sub_mul|apply runs_add_mul|apply runs_sub_add_mul|apply runs_sub_add_mul|
    by apply (runs_ret _ (λ _, True))]; assumption.
Qed.

Lemma fits_5p z : Z.abs z ≤ 5 * p → fits z.
Proof.
  intros Hz. apply Hfit. rewrite pow2_double.
  destruct (strassen_bound_step k p) as [_ ?]; [lia|nia|lia].
Qed.

Lemma runs_sums m1 m2 m3 m4 m5 m6 m7 c11 c12 c21 c22 :
  holds k m1 (s1 h A B) → holds k m2 (s2 h A B) → holds k m3 (s3 h A B) →
  holds k m4 (s4 h A B) → holds k m5 (s5 h A B) → holds k m6 (s6 h A B) →
  holds k m7 (s7 h A B) →
  length c11 = (4 ^ k)%nat → length c12 = (4 ^ k)%nat → length c21 = (4 ^ k)%nat →
  length c22 = (4 ^ k)%nat →
  runs (W := W) (join4 (strassen_sum_sub fuel m1 m4 m7 m5 c11) (strassen_sum fuel m3 m5 c12)
          (strassen_sum fuel m2 m4 c21) (strassen_sum_sub fuel m1 m3 m6 m2 c22))
    (λ '(r11, r12, r21, r22), holds k r11 P ∧ holds k r12 (q01 h P) ∧
       holds k r21 (q10 h P) ∧ holds k r22 (q11 h P)).
Proof.
  intros.
  destruct (strassen_products_bounded h A B α β) as (M1 & M2 & M3 & M4 & M5 & M6 & M7);
    [lia|lia|done|done|].
  destruct (bounded_quarters h P p) as (P0 & P1 & P2 & P3); [by apply mprod_bounded|].
  eapply runs_mono.
  { apply runs_join4;
      [apply (runs_strassen_sum_sub k _ _ _ _ _ (s1 h A B) (s4 h A B) (s7 h A B) (s5 h A B))
      |apply (runs_strassen_sum k _ _ _ (s3 h A B) (s5 h A B))
      |apply (runs_strassen_sum k _ _ _ (s2 h A B) (s4 h A B))
      |apply (runs_strassen_sum_sub k _ _ _ _ _ (s1 h A B) (s3 h A B) (s6 h A B) (s2 h A B))];
      try (first [eassumption|lia]); intros i j Hi Hj;
      destruct (strassen_identity h A B i j) as (I1 & I2 & I3 & I4);
      specialize (M1 i j Hi Hj); specialize (M2 i j Hi Hj); specialize (M3 i j Hi Hj);
      specialize (M4 i j Hi Hj); specialize (M5 i j Hi Hj); specialize (M6 i j Hi Hj);
      specialize (M7 i j Hi Hj); specialize (P0 i j Hi Hj); specialize (P3 i j Hi Hj);
      repeat split; apply fits_5p; lia. }
  intros [[[r1 r2] r3] r4] (R1 & R2 & R3 & R4).
  split_and!; (eapply holds_ext; [eassumption|]); intros i j _ _; apply strassen_identity.
Qed.
End Products.

Lemma runs_strassen depth k a b dest A B α β :
  (1 ≤ depth)%nat → (k < depth + 5)%nat → (k ≤ 24)%nat → 1 ≤ α → 1 ≤ β →
  holds k a A → holds k b B → length dest = (4 ^ k)%nat →
  bounded (2 ^ k) A α → bounded (2 ^ k) B β →
  fits_upto (strassen_bound k (Z.of_nat (2 ^ k) * (α * β))) →
  runs (W := W) (matmul_strassen fuel depth a b dest) (λ r, holds k r (mprod (2 ^ k) A B)).
Proof.
  revert k a b dest A B α β. induction depth as [|depth IH]; [lia|].
  intros k a b dest A B α β _ Hkd Hk Hα Hβ Ha Hb Hd HA HB Hf. cbn [matmul_strassen].
  rewrite (chunk_leaf k a A Ha). destruct (Nat.leb_spec k 5) as [Hle|Hgt].
  { apply (runs_leaf k a b dest A B α β); try done.
    unfold strassen_bound in Hf. by rewrite (proj2 (Nat.leb_le _ _)) in Hf. }
  destruct k as [|k]; [lia|]. assert (Hk' : (5 ≤ k ≤ 23)%nat) by lia.
  assert (Hmul : multiplies k (matmul_strassen fuel depth)).
  { intros a' b' dest' A' B' α' β' ????????. apply (IH k a' b' dest' A' B' α' β'); done || lia. }
  rewrite pow2_double in HA, HB |- *.
  destruct (holds_quarters k a A Ha) as (a1 & a2 & a3 & a4 & -> & Ha1 & Ha2 & Ha3 & Ha4).
  destruct (holds_quarters k b B Hb) as (b1 & b2 & b3 & b4 & -> & Hb1 & Hb2 & Hb3 & Hb4).
  eapply runs_bind; [by apply (runs_products k _ Hmul Hk' α β Hα Hβ Hf A B HA HB)|].
  intros [[[[[[[r1 r2] r3] r4] r5] r6] r7] []] (H1 & H2 & H3 & H4 & H5 & H6 & H7 & _).
  destruct (quarter_chunks dest) as [[[c1 c2] c3] c4] eqn:Hqd.
  apply holds_quarter_chunks_length with (k := k) in Hqd as (Hc1 & Hc2 & Hc3 & Hc4); [|done].
  eapply runs_bind; [by apply (runs_sums k Hk' α β Hα Hβ Hf A B HA HB)|].
  intros [[[e1 e2] e3] e4] (E1 & E2 & E3 & E4). apply runs_ret. by apply holds_app.
Qed.
End Exact.
