(* ===== verification/MatmulDemo.v ===== *)
(** * The matrix multiplications of the demo agree

    What the test of matmul.rs asserts on one pair of matrices, for every pair of integer
    matrices whose products are small enough, in [f32]; and what the demo program
    computes. *)

From Stdlib Require Import SpecFloat.
From S2P Require Import Prelude Numeric Morton Rayon Matmul MatmulSpec MatmulExact.
#[local] Open Scope Z_scope.

(** A slice of initialised elements in Z-order. *)
Definition zorder {N : Num} (k : nat) (m : nat → nat → num) : list (option num) :=
  Some <$> of_mat k m.

(** [assert_eq!] on two slices of [f32]; [-0.0] and [0.0] are equal. *)
Definition slice_eqb (x y : list (option (@num f32))) : Prop :=
  Forall2 (λ c c', ∃ u v : spec_float, c = Some u ∧ c' = Some v ∧ SFeqb u v = true) x y.

(** Slices that hold the same integers compare as equal. *)
Lemma holds_slice_eqb k (x y : list (option (@num f32))) A :
  holds (ex := f32_exact) k x A → holds (ex := f32_exact) k y A → slice_eqb x y.
Proof.
  intros Hx Hy. unfold slice_eqb. apply Forall2_same_length_lookup_2.
  { etrans; [exact (holds_length (ex := f32_exact) k x A Hx)|symmetry].
    exact (holds_length (ex := f32_exact) k y A Hy). }
  intros i c c' Hc Hc'.
  destruct (Forall2_lookup_l _ _ _ _ _ Hx Hc) as (z & Hz & u & -> & Hu).
  destruct (Forall2_lookup_l _ _ _ _ _ Hy Hc') as (z' & Hz' & v & -> & Hv).
  assert (z' = z) as -> by congruence. exists u, v. split; [done|]. split; [done|].
  by apply (represents_eqb 24 u v z).
Qed.

Section Demo.
Context {ry : Rayon} {rl : RayonLaws ry} {W : Type}.
Implicit Types (w : W).

(** The row-major and the Z-order multiplication compute the same matrix, over any number
    type, bit for bit: the entry in row [i] and column [j] is the sum of the products in the
    order of the columns.  The counter of the Z-order one ends after one item per column, no
    access leaves the slices, and what the destination held does not matter. *)
Theorem row_major_and_z_order_agree {N : Num} fuel k (A B : nat → nat → num)
    (dest : list (option num)) w :
  (k ≤ 15)%nat → (2 ^ k < fuel)%nat → length dest = (4 ^ k)%nat →
  let C := mmul (2 ^ k) A B in
  seq_matmul (Some <$> of_rows (2 ^ k) A) (Some <$> of_rows (2 ^ k) B) dest w =
    Done (Some <$> of_rows (2 ^ k) C) w ∧
  seq_matmulz fuel (zorder k A) (zorder k B) dest w = Done (zorder k C) w.
Proof.
  intros Hk Hfuel Hd. split; [apply seq_matmul_spec; [lia|done]|by apply seq_matmulz_spec].
Qed.

(** C21: On every number type that computes exactly on the integers that fit, the parallel and
    the Strassen multiplication return the exact product of two integer matrices in Z-order,
    whatever the destination holds; the uninitialised scratch space is never read.  It
    is enough that the entries of the product fit, and for Strassen [strassen_bound] of
    them. *)
Theorem multiplications_exact {N : Num} {ex : Exact N} fuel depth k
    (a b dest : list (option num)) A B α β w :
  (32 < fuel)%nat → (1 ≤ depth)%nat → (k < depth + 5)%nat → (k ≤ 24)%nat → 1 ≤ α → 1 ≤ β →
  holds k a A → holds k b B → length dest = (4 ^ k)%nat →
  bounded (2 ^ k) A α → bounded (2 ^ k) B β →
  (fits_upto (Z.of_nat (2 ^ k) * (α * β)) →
   ∃ r, matmulz fuel depth a b dest w = Done r w ∧ holds k r (mprod (2 ^ k) A B)) ∧
  (fits_upto (strassen_bound k (Z.of_nat (2 ^ k) * (α * β))) →
   ∃ r, matmul_strassen fuel depth a b dest w = Done r w ∧ holds k r (mprod (2 ^ k) A B)).
Proof.
  intros Hfuel Hd Hkd Hk Hα Hβ Ha Hb Hl HA HB. split; intros Hf.
  - by apply (runs_matmulz fuel Hfuel depth k a b dest A B α β).
  - by apply (runs_strassen fuel Hfuel depth k a b dest A B α β).
Qed.

Lemma strassen_bound_ge k p : 0 ≤ p → p ≤ strassen_bound k p.
Proof.
  intros Hp. unfold strassen_bound. destruct (k <=? 5)%nat; [lia|].
  pose proof (Z.pow_pos_nonneg 2 (Z.of_nat (k - 6))). nia.
Qed.

(** The matrices of integers, converted to [f32]. *)
Definition of_ints (k : nat) (A : nat → nat → Z) : list (option (@num f32)) :=
  zorder (N := f32) k (λ i j, f32_of_Z (A i j)).

Lemma of_ints_holds k A α :
  bounded (2 ^ k) A α → α < 2 ^ 24 → holds (ex := f32_exact) k (of_ints k A) A.
Proof.
  intros HA Hα. unfold holds, of_ints, zorder. rewrite of_mat_fmap.
  apply of_mat_Forall2. intros i j Hi Hj. eexists. split; [reflexivity|].
  apply f32_of_Z_rep. specialize (HA i j Hi Hj). lia.
Qed.

Lemma f32_fits b : b < 2 ^ 24 → fits_upto (ex := f32_exact) b.
Proof. intros Hb z Hz. change (Z.abs z < 2 ^ 24). lia. Qed.

(** The three multiplications, each with a destination of its own. *)
Lemma f32_agree fuel depth k A B α β d1 d2 d3 w :
  (k ≤ 15)%nat → (2 ^ k < fuel)%nat → (32 < fuel)%nat → (1 ≤ depth)%nat → (k < depth + 5)%nat →
  1 ≤ α → 1 ≤ β → bounded (2 ^ k) A α → bounded (2 ^ k) B β →
  strassen_bound k (Z.of_nat (2 ^ k) * (α * β)) < 2 ^ 24 →
  length d1 = (4 ^ k)%nat → length d2 = (4 ^ k)%nat → length d3 = (4 ^ k)%nat →
  ∃ seqmul rmul smul,
    seq_matmulz fuel (of_ints k A) (of_ints k B) d1 w = Done seqmul w ∧
    matmulz fuel depth (of_ints k A) (of_ints k B) d2 w = Done rmul w ∧
    matmul_strassen fuel depth (of_ints k A) (of_ints k B) d3 w = Done smul w ∧
    holds (ex := f32_exact) k seqmul (mprod (2 ^ k) A B) ∧
    holds (ex := f32_exact) k rmul (mprod (2 ^ k) A B) ∧
    holds (ex := f32_exact) k smul (mprod (2 ^ k) A B).
Proof.
  intros Hk Hf Hf32 Hd Hkd Hα Hβ HA HB Hbound Hl1 Hl2 Hl3.
  assert (Hpos : 1 ≤ Z.of_nat (2 ^ k)) by exact (inj_le 1 _ (pow2_pos k)).
  assert (Hp : 0 ≤ Z.of_nat (2 ^ k) * (α * β)) by nia.
  pose proof (strassen_bound_ge k _ Hp) as Hge.
  assert (Hab : α ≤ α * β ∧ β ≤ α * β) by nia.
  assert (Hn : 1 * (α * β) ≤ Z.of_nat (2 ^ k) * (α * β)) by (apply Z.mul_le_mono_nonneg_r; lia).
  assert (Hα24 : α < 2 ^ 24) by lia. assert (Hβ24 : β < 2 ^ 24) by lia.
  pose proof (of_ints_holds k A α HA Hα24) as Ha. pose proof (of_ints_holds k B β HB Hβ24) as Hb.
  assert (Hp24 : Z.of_nat (2 ^ k) * (α * β) < 2 ^ 24) by lia.
  eexists. destruct (runs_matmulz (W := W) fuel Hf32 depth k _ _ d2 A B α β Hd Hkd ltac:(lia)
    Ha Hb Hl2 HA HB (f32_fits _ Hp24) w) as (r & Hr & Hrp).
  destruct (runs_strassen (W := W) fuel Hf32 depth k _ _ d3 A B α β Hd Hkd ltac:(lia) Hα Hβ
    Ha Hb Hl3 HA HB (f32_fits _ Hbound) w) as (s & Hs & Hsp).
  exists r, s. split; [by apply seq_matmulz_spec|]. split; [done|]. split; [done|].
  split; [|done].
  unfold holds, zorder. rewrite of_mat_fmap. apply of_mat_Forall2. intros i j Hi Hj.
  eexists. split; [reflexivity|].
  apply (rep_product (ex := f32_exact)) with (α := α) (β := β) (fuel := fuel); try done.
  - intros i' j' Hi' Hj'. apply f32_of_Z_rep. specialize (HA i' j' Hi' Hj'). lia.
  - intros i' j' Hi' Hj'. apply f32_of_Z_rep. specialize (HB i' j' Hi' Hj'). lia.
  - apply f32_fits. lia.
Qed.

(** C22: The assertions of the test of matmul.rs hold for every pair of integer matrices, not
    only for the ones it tries: in [f32] the sequential, the parallel and the Strassen
    multiplication give slices that compare as equal, as long as the bound on Strassen's
    intermediate results stays below 2^24. *)
Theorem f32_multiplications_agree fuel depth k A B α β dest w :
  (k ≤ 15)%nat → (2 ^ k < fuel)%nat → (32 < fuel)%nat → (1 ≤ depth)%nat → (k < depth + 5)%nat →
  1 ≤ α → 1 ≤ β → bounded (2 ^ k) A α → bounded (2 ^ k) B β →
  strassen_bound k (Z.of_nat (2 ^ k) * (α * β)) < 2 ^ 24 → length dest = (4 ^ k)%nat →
  ∃ seqmul rmul smul,
    seq_matmulz fuel (of_ints k A) (of_ints k B) dest w = Done seqmul w ∧
    matmulz fuel depth (of_ints k A) (of_ints k B) dest w = Done rmul w ∧
    matmul_strassen fuel depth (of_ints k A) (of_ints k B) dest w = Done smul w ∧
    slice_eqb rmul seqmul ∧ slice_eqb smul seqmul.
Proof.
  intros Hk Hf Hf32 Hd Hkd Hα Hβ HA HB Hbound Hl.
  destruct (f32_agree fuel depth k A B α β dest dest dest w Hk Hf Hf32 Hd Hkd Hα Hβ HA HB Hbound
    Hl Hl Hl) as (q & r & s & ? & ? & ? & Hq & Hr & Hs).
  exists q, r, s. split_and!; [done..| |]; by eapply holds_slice_eqb.
Qed.

(** C26: On matrices of side 2^16 the sequential multiplication does not end: the largest
    item of the counter is [0x5555_5555], which is below the number of elements, so that it
    starts over instead of stopping, for more than two thousand million rounds and at the
    very first element. *)
Theorem seq_matmulz_spins {N : Num} fuel (a b dest : list (option num)) w :
  Z.of_nat fuel < 2 ^ 31 →
  Z.of_nat (length a) = 4 ^ 16 → length b = length a → length dest = length a →
  Forall is_Some a → Forall is_Some b →
  ∃ w', seq_matmulz fuel a b dest w = Diverged w'.
Proof.
  intros Hfuel Ha Hlb Hld Hia Hib. unfold seq_matmulz, len, zero_all. rewrite Hlb, Hld, Ha.
  change (count_ones (4 ^ 16) =? 1) with true.
  change (Z.even (trailing_zeros 64 (4 ^ 16))) with true.
  rewrite Z.eqb_refl. unfold mbind at 1 2, M_bind at 1 2, assert; cbn [andb mret M_ret].
  destruct dest as [|d dest]; [simpl in Hld; lia|]. cbn [fmap list_fmap iter_mut_enumerate].
  unfold mbind at 1, M_bind at 1.
  change (Z.land (Z.of_nat 0) EVEN_BITS) with 0. change (Z.land (Z.of_nat 0) ODD_BITS) with 0.
  match goal with |- context [for_counter fuel (4 ^ 16) ?body nzero w] =>
    destruct (for_counter_spins_from (4 ^ 16) body 0 0 fuel nzero w) as (w' & Hw') end.
  - intros t s w1. pose proof (spread_bound 16 t) as [Hs0 Hs1].
    change (4 ^ Z.of_nat 16) with (4 ^ 16) in Hs1.
    assert (Hget : ∀ l z, Z.of_nat (length l) = 4 ^ 16 → Forall is_Some l → 0 ≤ z < 4 ^ 16 →
              ∃ x, get_unchecked (N := N) l z w1 = Done x w1).
    { intros l z Hl Hi Hz. unfold get_unchecked.
      destruct (lookup_lt_is_Some_2 l (Z.to_nat z)) as [c Hc]; [lia|]. rewrite Hc.
      destruct (Forall_lookup_1 _ _ _ _ Hi Hc) as [x ->]. by exists x. }
    destruct (Hget a (Z.lor 0 (spread 16 t))) as [x Hx]; [done|done|rewrite Z.lor_0_l; lia|].
    destruct (Hget b (Z.lor (Z.shiftl (spread 16 t) 1) 0)) as [y Hy];
      [congruence|done|rewrite Z.lor_0_r, Z.shiftl_mul_pow2 by lia; lia|].
    unfold mbind, M_bind. rewrite Hx, Hy. eauto.
  - done.
  - simpl; lia.
  - apply counted_0.
  - exists w'. unfold for_counter, SplayedBitsCounter_new. by rewrite Hw'.
Qed.

(** ** The demo program *)

Definition ROW_SIZE : Z := 512.

(** [test_matmul_strassen]; [build] is the answer of [ThreadPoolBuilder::build].  The matrix
    [z] comes back with the result; the timing is left out. *)
Definition test_matmul_strassen (fuel depth : nat) (build : result unit unit)
    : M W (list (option (@num f32)) * result unit unit) :=
  _ ← unwrap_res "called `Result::unwrap()` on an `Err` value" build;
  let n := Z.to_nat (ROW_SIZE * ROW_SIZE) in
  let x := repeat (Some (f32_of_Z 1)) n in
  let y := repeat (Some (f32_of_Z 2)) n in
  let z := repeat (Some (f32_of_Z 0)) n in
  z ← matmul_strassen fuel depth x y z;
  mret (z, Ok tt).

Lemma of_mat_const {A} k (c : A) : of_mat k (λ _ _, c) = repeat c (4 ^ k).
Proof.
  induction k as [|k IH]; [done|]. cbn [of_mat]. rewrite !IH, <- !repeat_app. f_equal. simpl. lia.
Qed.

Lemma fmap_repeat {A B} (f : A → B) c n : f <$> repeat c n = repeat (f c) n.
Proof. induction n as [|n IH]; [done|]. simpl. by rewrite <- IH. Qed.

Lemma sum_const n c : sum n (λ _, c) = Z.of_nat n * c.
Proof. induction n as [|n IH]; [done|]. cbn [sum]. lia. Qed.

(** A matrix of equal entries times another one. *)
Lemma constant_product fuel depth k c d w :
  (32 < fuel)%nat → (1 ≤ depth)%nat → (k < depth + 5)%nat → (k ≤ 24)%nat → 1 ≤ c → 1 ≤ d →
  c < 2 ^ 24 → d < 2 ^ 24 → strassen_bound k (Z.of_nat (2 ^ k) * (c * d)) < 2 ^ 24 →
  ∃ z, matmul_strassen fuel depth (repeat (Some (f32_of_Z c)) (4 ^ k))
         (repeat (Some (f32_of_Z d)) (4 ^ k)) (repeat (Some (f32_of_Z 0)) (4 ^ k)) w = Done z w ∧
       length z = (4 ^ k)%nat ∧
       Forall (λ x, ∃ u : @num f32, x = Some u ∧
                      @rep f32 f32_exact u (Z.of_nat (2 ^ k) * (c * d))) z.
Proof.
  intros Hfuel Hd Hkd Hk Hc1 Hd1 Hc24 Hd24 Hb.
  assert (Hc : ∀ e, repeat (Some (f32_of_Z e)) (4 ^ k) = of_ints k (λ _ _, e)).
  { intros e. unfold of_ints, zorder. by rewrite of_mat_const, fmap_repeat. }
  assert (HB : ∀ e, 1 ≤ e → bounded (2 ^ k) (λ _ _, e) e) by (intros e He i j _ _; lia).
  destruct (runs_strassen (W := W) fuel Hfuel depth k (of_ints k (λ _ _, c)) (of_ints k (λ _ _, d))
    (of_ints k (λ _ _, 0)) (λ _ _, c) (λ _ _, d) c d Hd Hkd Hk Hc1 Hd1
    (of_ints_holds k _ c (HB c Hc1) Hc24) (of_ints_holds k _ d (HB d Hd1) Hd24)) with (w := w)
    as (z & Hz & Hh).
  - unfold of_ints, zorder. by rewrite length_fmap, of_mat_length.
  - by apply HB.
  - by apply HB.
  - by apply f32_fits.
  - exists z. rewrite !Hc. split; [done|]. split; [exact (holds_length (ex := f32_exact) k z _ Hh)|].
    apply Forall_lookup_2. intros p x Hp.
    destruct (Forall2_lookup_l _ _ _ _ _ Hh Hp) as (v & Hv & u & -> & Hu). exists u. split; [done|].
    assert (v = Z.of_nat (2 ^ k) * (c * d)) as <-; [|done].
    apply list_elem_of_lookup_2 in Hv. revert Hv.
    rewrite (of_mat_ext k _ (λ _ _, Z.of_nat (2 ^ k) * (c * d))).
    + rewrite of_mat_const. intros Hv. by apply list_elem_of_In, repeat_spec in Hv.
    + intros i j _ _. by rewrite mprod_sum, sum_const.
Qed.

(** The demo program multiplies a matrix of ones with a matrix of twos: it returns [Ok], and
    all the [512 * 512] entries of the result are initialised and exactly 1024. *)
Theorem demo_multiplies fuel depth w :
  (32 < fuel)%nat → (5 ≤ depth)%nat →
  ∃ z, test_matmul_strassen fuel depth (Ok tt) w = Done (z, Ok tt) w ∧
       Z.of_nat (length z) = ROW_SIZE * ROW_SIZE ∧
       Forall (λ c, ∃ u : spec_float, c = Some u ∧ SFeqb u (f32_of_Z 1024) = true) z.
Proof.
  intros Hfuel Hdepth. set (k := 9%nat).
  assert (Hn : Z.to_nat (ROW_SIZE * ROW_SIZE) = (4 ^ k)%nat).
  { apply Nat2Z.inj. rewrite Nat2Z.inj_pow, Z2Nat.id by done. done. }
  assert (Hk : Z.of_nat (2 ^ k) * (1 * 2) = 1024) by (vm_compute; reflexivity).
  destruct (constant_product fuel depth k 1 2 w) as (z & Hz & Hl & Hf);
    [done|lia|unfold k; lia|unfold k; lia|lia|lia|lia|lia|by rewrite Hk|].
  exists z. unfold test_matmul_strassen. rewrite Hn. unfold mbind, M_bind. simpl unwrap_res.
  cbn [mret M_ret]. rewrite Hz. split; [done|]. split.
  { by rewrite Hl, <- Hn, Z2Nat.id. }
  eapply Forall_impl; [exact Hf|]. intros x (u & -> & Hu). rewrite Hk in Hu.
  exists u. split; [done|].
  apply (represents_eqb 24 u (f32_of_Z 1024) 1024); [done|by apply f32_of_Z_rep].
Qed.
End Demo.

(** ** Witnesses *)

Lemma row_major_and_z_order_agree_witness :
  let A := λ i j : nat, Z.of_nat (i + j) in
  let C := mmul (N := Z_num) (2 ^ 1) A A in
  seq_matmul (N := Z_num) (W := unit) (Some <$> of_rows (2 ^ 1) A) (Some <$> of_rows (2 ^ 1) A)
    [None; None; None; None] tt = Done (Some <$> of_rows (2 ^ 1) C) tt ∧
  of_rows (2 ^ 1) C = [1; 2; 2; 5] ∧
  seq_matmulz (N := Z_num) (W := unit) 9 (zorder (N := Z_num) 1 A) (zorder (N := Z_num) 1 A)
    [None; None; None; None] tt = Done (zorder (N := Z_num) 1 C) tt.
Proof.
  intros A C.
  destruct (row_major_and_z_order_agree (N := Z_num) (W := unit) 9 1 A A [None; None; None; None] tt
    ltac:(lia) ltac:(simpl; lia) eq_refl) as [H1 H2].
  split; [exact H1|]. split; [vm_compute; reflexivity|exact H2].
Defined.

(** The matrices of the test. *)
Definition test_a (i j : nat) : Z := zindex 7 i j mod 101.
Definition test_b (i j : nat) : Z := zindex 7 i j mod 101 + 7.

Lemma test_a_bounded : bounded (2 ^ 7) test_a 100.
Proof. intros i j _ _. unfold test_a. pose proof (Z.mod_pos_bound (zindex 7 i j) 101). lia. Defined.
Lemma test_b_bounded : bounded (2 ^ 7) test_b 107.
Proof. intros i j _ _. unfold test_b. pose proof (Z.mod_pos_bound (zindex 7 i j) 101). lia. Defined.

Lemma multiplications_exact_witness :
  ∃ r, matmul_strassen (N := Z_num) (ry := sim_rayon) (W := unit) 200 3
         (zorder (N := Z_num) 7 test_a) (zorder (N := Z_num) 7 test_b)
         (raw_buffer (N := Z_num) (4 ^ 7)) tt = Done r tt ∧
       holds (ex := Z_exact) 7 r (mprod (2 ^ 7) test_a test_b).
Proof.
  assert (Hh : ∀ m, holds (ex := Z_exact) 7 (zorder (N := Z_num) 7 m) m).
  { intros m. unfold holds, zorder. rewrite of_mat_fmap. apply of_mat_Forall2. intros i j _ _.
    exists (m i j). done. }
  apply (multiplications_exact (ry := sim_rayon) (rl := sim_rayon_laws) (ex := Z_exact) 200 3 7
    (zorder (N := Z_num) 7 test_a) (zorder (N := Z_num) 7 test_b) (raw_buffer (N := Z_num) (4 ^ 7))
    test_a test_b 100 107 tt); try lia; try apply Hh.
  - apply repeat_length.
  - exact test_a_bounded.
  - exact test_b_bounded.
  - by intros z Hz.
Defined.

Lemma f32_multiplications_agree_witness :
  strassen_bound 7 (Z.of_nat (2 ^ 7) * (100 * 107)) = 13696000 ∧
  ∃ seqmul rmul smul,
    seq_matmulz (W := unit) 200 (of_ints 7 test_a) (of_ints 7 test_b)
      (raw_buffer (4 ^ 7)) tt = Done seqmul tt ∧
    matmulz (ry := sim_rayon) 200 3 (of_ints 7 test_a) (of_ints 7 test_b)
      (raw_buffer (4 ^ 7)) tt = Done rmul tt ∧
    matmul_strassen (ry := sim_rayon) 200 3 (of_ints 7 test_a) (of_ints 7 test_b)
      (raw_buffer (4 ^ 7)) tt = Done smul tt ∧
    slice_eqb rmul seqmul ∧ slice_eqb smul seqmul.
Proof.
  split; [vm_compute; reflexivity|].
  apply (f32_multiplications_agree (ry := sim_rayon) (rl := sim_rayon_laws)) with (α := 100) (β := 107);
    first [lia | exact test_a_bounded | exact test_b_bounded | apply repeat_length
          | vm_compute; reflexivity | apply Nat.ltb_lt; vm_compute; reflexivity].
Defined.

Lemma demo_multiplies_witness :
  ∃ z, test_matmul_strassen (ry := sim_rayon) (W := unit) 40 5 (Ok tt) tt = Done (z, Ok tt) tt ∧
       Z.of_nat (length z) = ROW_SIZE * ROW_SIZE ∧
       Forall (λ c, ∃ u : spec_float, c = Some u ∧ SFeqb u (f32_of_Z 1024) = true) z.
Proof.
  apply (demo_multiplies (ry := sim_rayon) (rl := sim_rayon_laws) 40 5 tt); lia.
Defined.

Lemma seq_matmulz_spins_witness :
  let m := repeat (Some 0) (Z.to_nat (4 ^ 16)) in
  Z.of_nat (length m) = 4 ^ 16 ∧
  ∃ w', seq_matmulz (N := Z_num) (W := unit) 1000 m m m tt = Diverged w'.
Proof.
  intros m. assert (Hm : Z.of_nat (length m) = 4 ^ 16).
  { unfold m. rewrite repeat_length. apply Z2Nat.id. lia. }
  assert (Hi : Forall is_Some m).
  { apply Forall_forall. intros x Hx%list_elem_of_In%repeat_spec. subst. by exists 0. }
  split; [exact Hm|].
  apply (seq_matmulz_spins (N := Z_num) 1000 m m m tt); [lia|exact Hm|done|done|exact Hi|exact Hi].
Defined.
