(* ===== verification/MatmulTest.v ===== *)
(** * The unit tests of [examples/demo/src/tests/matmul.rs]

    [test_splayed_counter], [test_matmul], and [timed_matmul], which no one calls; the two tests
    pass. *)

From Stdlib Require Import SpecFloat.
From S2P Require Import Prelude Numeric Morton Rayon Matmul MatmulSpec MatmulExact MatmulDemo.
#[local] Open Scope Z_scope.

Section Tests.
Context {ry : Rayon} {W : Type}.
Variables fuel depth : nat.
#[local] Abbreviation vec := (list (option (@num f32))).

Definition ASSERT_EQ : string := "assertion failed: `(left == right)`".

(** [assert_eq!] on vectors of integers. *)
Definition assert_eq_usize (x y : list Z) : M W unit :=
  if decide (x = y) then mret tt else panic ASSERT_EQ.

(** [assert_eq!] on vectors of [f32], whose elements are all initialised. *)
Definition cell_eqb (c d : option (@num f32)) : bool :=
  match c, d with Some u, Some v => SFeqb u v | _, _ => false end.
Definition assert_eq_f32 (x y : vec) : M W unit :=
  if (length x =? length y)%nat && forallb (λ p, cell_eqb p.1 p.2) (zip x y)
  then mret tt else panic ASSERT_EQ.

(** [SplayedBitsCounter::new(n).collect()]. *)
Definition collect (n : Z) : M W (list Z) :=
  for_counter fuel n (λ x items, mret (items ++ [x])) [].

Definition test_splayed_counter : M W unit :=
  bits ← collect 64;
  assert_eq_usize [0; 1; 4; 5; 16; 17; 20; 21] bits.

Definition literals (xs : list Z) : vec := (λ x, Some (f32_of_Z x)) <$> xs.

(** [(0..n).map(|i| f(i) as f32).collect()]. *)
Definition vec_from (n : Z) (f : Z → Z) : vec :=
  (λ i, Some (f32_of_Z (f (Z.of_nat i)))) <$> seq 0 (Z.to_nat n).

(** The part of [test_matmul] on a small matrix. *)
Definition test_matmul_small : M W unit :=
  let a := literals [1; 2; 3; 4] in
  let b := literals [5; 6; 7; 8] in
  let mul := literals [19; 22; 43; 50] in
  dest ← matmulz fuel depth a b (repeat (Some (f32_of_Z 0)) 4);
  _ ← assert_eq_f32 mul dest;
  dest ← seq_matmulz fuel a b dest;
  _ ← assert_eq_f32 mul dest;
  dest ← matmul_strassen fuel depth a b dest;
  assert_eq_f32 mul dest.

(** The part on a large one. *)
Definition test_matmul_large : M W unit :=
  let n := Z.shiftl 1 14 in
  _ ← assert (MULT_CHUNK <? n);
  let a := vec_from n (λ i, i mod 101) in
  let b := vec_from n (λ i, i mod 101 + 7) in
  seqmul ← seq_matmulz fuel a b (repeat (Some (f32_of_Z 0)) (Z.to_nat n));
  rmul ← matmulz fuel depth a b (repeat (Some (f32_of_Z 0)) (Z.to_nat n));
  _ ← assert_eq_f32 rmul seqmul;
  rmul ← matmul_strassen fuel depth a b (zero_all rmul);
  assert_eq_f32 rmul seqmul.

Definition test_matmul : M W unit :=
  _ ← test_matmul_small; test_matmul_large.

(** [usize::next_power_of_two]; zero gives one. *)
Definition next_power_of_two (n : Z) : Z := if n <=? 1 then 1 else 2 ^ Z.log2_up n.

(** [now] is the clock in nanoseconds, [report] prints the line with name, size and time. *)
Definition timed_matmul (now : M W Z) (report : string → Z → Z → M W unit) (size : Z)
    (f : vec → vec → vec → M W vec) (name : string) : M W Z :=
  let size := next_power_of_two size in
  let n := size * size in
  let a := vec_from n (λ i, i) in
  let b := vec_from n (λ i, i + 7) in
  let dest := repeat (Some (f32_of_Z 0)) (Z.to_nat n) in
  start ← now;
  _ ← f a b dest;
  stop ← now;
  let nanos := stop - start in
  _ ← report name size nanos;
  mret nanos.
End Tests.

(** ** The tests pass *)

Section Passes.
Context {ry : Rayon} {rl : RayonLaws ry} {W : Type}.
Implicit Types (w : W).

Lemma assert_eq_f32_done x y w : slice_eqb x y → assert_eq_f32 x y w = Done tt w.
Proof.
  intros H. unfold assert_eq_f32.
  assert (Hl : length x = length y) by exact (Forall2_length _ _ _ H).
  rewrite (proj2 (Nat.eqb_eq _ _) Hl).
  replace (forallb _ _) with true; [done|]. symmetry. clear Hl.
  induction H as [|c c' x y (u & v & -> & -> & Huv) _ IH]; [done|].
  cbn [zip zip_with forallb fst snd cell_eqb]. by rewrite Huv.
Qed.

(** The integer at each index, as a matrix in Z-order. *)
Definition at_index (k : nat) (f : Z → Z) (i j : nat) : Z := f (zindex k i j).

Lemma vec_from_ints k f : vec_from (4 ^ Z.of_nat k) f = of_ints k (at_index k f).
Proof.
  unfold vec_from, of_ints, zorder. change 4 with (Z.of_nat 4). rewrite <- Nat2Z.inj_pow, Nat2Z.id.
  rewrite (list_fmap_compose (λ i, f32_of_Z (f (Z.of_nat i))) Some). f_equal.
  apply (of_mat_from_indices (N := f32) k). intros i j Hi Hj. unfold at_index. repeat f_equal.
  rewrite Z2Nat.id; [done|]. apply zindex_bound.
Qed.

Lemma at_index_bounded k f α :
  (∀ z, 0 ≤ z < 4 ^ Z.of_nat k → Z.abs (f z) ≤ α) → bounded (2 ^ k) (at_index k f) α.
Proof. intros H i j _ _. apply H, zindex_bound. Qed.

Lemma zeros_length n : length (repeat (Some (f32_of_Z 0)) n) = n.
Proof. apply repeat_length. Qed.

(** The small matrices, and what they are multiplied to. *)
Definition small (xs : list Z) : nat → nat → Z := λ i j, default 0 (xs !! (2 * i + j)%nat).

Lemma literals_ints a b c d :
  literals [a; b; c; d] = of_ints 1 (small [a; b; c; d]).
Proof. reflexivity. Qed.

Lemma small_product :
  holds (ex := f32_exact) 1 (literals [19; 22; 43; 50])
    (mprod (2 ^ 1) (small [1; 2; 3; 4]) (small [5; 6; 7; 8])).
Proof.
  rewrite literals_ints. assert (Hp : of_mat 1 (mprod (2 ^ 1) (small [1; 2; 3; 4]) (small [5; 6; 7; 8]))
    = of_mat 1 (small [19; 22; 43; 50])) by reflexivity.
  unfold holds. rewrite Hp. apply (of_ints_holds 1 _ 50); [|done].
  intros i j Hi Hj. destruct i as [|[|i]]; [| |simpl in Hi; lia];
    (destruct j as [|[|j]]; [| |simpl in Hj; lia]); vm_compute; discriminate.
Qed.

(** The three multiplications of two integer matrices with any destinations. *)
Context (fuel depth : nat) (Hfuel : (128 < fuel)%nat) (Hdepth : (3 ≤ depth)%nat).

Lemma test_matmul_small_passes w : test_matmul_small fuel depth w = Done tt w.
Proof.
  set (A := small [1; 2; 3; 4]). set (B := small [5; 6; 7; 8]).
  assert (HA : bounded (2 ^ 1) A 4 ∧ bounded (2 ^ 1) B 8).
  { split; intros i j Hi Hj; (destruct i as [|[|i]]; [| |simpl in Hi; lia]);
      (destruct j as [|[|j]]; [| |simpl in Hj; lia]); vm_compute; discriminate. }
  destruct HA as [HA HB].
  assert (Hall : ∀ d : list (option (@num f32)), length d = (4 ^ 1)%nat → _) by
    exact (λ d Hd, f32_agree fuel depth 1 A B 4 8 d d d w ltac:(lia) ltac:(simpl; lia) ltac:(lia)
      ltac:(lia) ltac:(lia) ltac:(lia) ltac:(lia) HA HB ltac:(reflexivity) Hd Hd Hd).
  pose proof small_product as Hmul. fold A B in Hmul.
  destruct (Hall (repeat (Some (f32_of_Z 0)) 4) eq_refl) as (_ & r1 & _ & _ & Hr1 & _ & _ & H1 & _).
  destruct (Hall r1 (holds_length (ex := f32_exact) 1 r1 _ H1)) as (r2 & _ & _ & Hr2 & _ & _ & H2 & _).
  destruct (Hall r2 (holds_length (ex := f32_exact) 1 r2 _ H2)) as (_ & _ & r3 & _ & _ & Hr3 & _ & _ & H3).
  unfold test_matmul_small, mbind, M_bind. rewrite (literals_ints 1 2 3 4), (literals_ints 5 6 7 8).
  fold A B. rewrite Hr1, (assert_eq_f32_done _ r1) by (by eapply holds_slice_eqb).
  rewrite Hr2, (assert_eq_f32_done _ r2) by (by eapply holds_slice_eqb).
  by rewrite Hr3, (assert_eq_f32_done _ r3) by (by eapply holds_slice_eqb).
Qed.

Lemma test_matmul_large_passes w : test_matmul_large fuel depth w = Done tt w.
Proof.
  unfold test_matmul_large. change (Z.shiftl 1 14) with (4 ^ Z.of_nat 7).
  rewrite !(vec_from_ints 7). set (A := at_index 7 _). set (B := at_index 7 _).
  assert (HA : bounded (2 ^ 7) A 100).
  { apply at_index_bounded. intros z _. pose proof (Z.mod_pos_bound z 101). lia. }
  assert (HB : bounded (2 ^ 7) B 107).
  { apply at_index_bounded. intros z _. pose proof (Z.mod_pos_bound z 101). lia. }
  set (zeros := repeat _ _). assert (Hz : length zeros = (4 ^ 7)%nat) by apply zeros_length.
  assert (Hall : ∀ d : list (option (@num f32)), length d = (4 ^ 7)%nat → _) by
    exact (λ d Hd, f32_agree fuel depth 7 A B 100 107 d d d w ltac:(lia) ltac:(simpl; lia) ltac:(lia)
      ltac:(lia) ltac:(lia) ltac:(lia) ltac:(lia) HA HB ltac:(reflexivity) Hd Hd Hd).
  destruct (Hall zeros Hz) as (q & r & _ & Hq & Hr & _ & Hqp & Hrp & _).
  destruct (Hall (zero_all (N := f32) r)) as (_ & _ & s & _ & _ & Hs & _ & _ & Hsp).
  { unfold zero_all. rewrite length_fmap. exact (holds_length (ex := f32_exact) 7 r _ Hrp). }
  clearbody A B zeros. clear Hall Hz. unfold mbind, M_bind, assert.
  change (MULT_CHUNK <? 4 ^ Z.of_nat 7) with true. cbn [mret M_ret].
  rewrite Hq, Hr, (assert_eq_f32_done r q) by (by eapply holds_slice_eqb).
  by rewrite Hs, (assert_eq_f32_done s q) by (by eapply holds_slice_eqb).
Qed.

Lemma test_splayed_counter_passes w : test_splayed_counter fuel w = Done tt w.
Proof.
  replace fuel with (9 + (fuel - 9))%nat by lia. reflexivity.
Qed.

(** C23: The two unit tests of matmul.rs pass: the counter of the splayed bits gives the eight items
    that are written down, and the three multiplications give the product that is written down
    for the small matrices, and results that compare as equal in [f32] on the large ones,
    whatever the order in which rayon runs the halves. *)
Theorem unit_tests_pass w :
  test_splayed_counter fuel w = Done tt w ∧ test_matmul fuel depth w = Done tt w.
Proof.
  split; [apply test_splayed_counter_passes|]. unfold test_matmul, mbind, M_bind.
  rewrite test_matmul_small_passes. apply test_matmul_large_passes.
Qed.
End Passes.

(** ** Witness *)

Lemma unit_tests_pass_witness :
  test_splayed_counter (W := unit) 200 tt = Done tt tt ∧
  test_matmul (ry := sim_rayon) (W := unit) 200 3 tt = Done tt tt.
Proof. apply (unit_tests_pass (ry := sim_rayon) (rl := sim_rayon_laws) 200 3 ltac:(lia) ltac:(lia) tt). Defined.
