(* ===== verification/Laplace.v ===== *)
(** * [examples/demo/src/tests/laplace.rs]: the Laplace iteration

    The iteration, the residual and the set-up of the grid ([tests/mod.rs]), over any number
    type.  Indices are those of a slice in memory and do not overflow; subtractions that
    can are checked. *)

From S2P Require Import Prelude Numeric Rayon Morton MatmulSpec.

Section Laplace.
Context {N : Num} {ry : Rayon} {W : Type}.
(** [0.25], [1.0], the comparison with [0.01] and the answer of the pool's [build]. *)
Context (quarter one : num) (below_limit : num → bool) (build : result unit unit).
(** The line that [laplace] prints, of the rounds and the residual. *)
Context (report : nat → num → M W unit).

Definition SUB_OVERFLOW : string := "attempt to subtract with overflow".

(** [v[i]], [v[i] = x] and [a - b] on [usize]. *)
Definition index (v : list num) (i : nat) : M W num := unwrap_opt BOUNDS (v !! i).
Definition set (v : list num) (i : nat) (x : num) : M W (list num) :=
  if i <? length v then mret (<[i := x]> v) else panic BOUNDS.
Definition sub (a b : nat) : M W nat := if b <=? a then mret (a - b) else panic SUB_OVERFLOW.

(** The mean of the four neighbours, as both functions compute it. *)
Definition neighbours (v : list num) (left right down up : nat) : M W num :=
  a ← index v left;
  b ← index v right;
  c ← index v down;
  d ← index v up;
  mret (nmul (nadd (nadd (nadd a b) c) d) quarter).

(** The sum of a row in [get_residual]. *)
Definition residual_row (matrix : list num) (size_x y : nat) : M W num :=
  hi ← sub size_x 1;
  for_range 1 (hi - 1) (λ x local_sum,
    new ← neighbours matrix (y * size_x + x - 1) (y * size_x + x + 1)
            ((y + 1) * size_x + x) ((y - 1) * size_x + x);
    old ← index matrix (y * size_x + x);
    let diff := nsub new old in
    mret (nadd local_sum (nmul diff diff))) nzero.

Definition get_residual (matrix : list num) (size_x size_y : nat) : M W num :=
  hi ← sub size_y 1;
  par_sum nzero nadd (residual_row matrix size_x) (seq 1 (hi - 1)).

(** [par_chunks_mut(n)]: pieces of [n] elements, the last one possibly shorter. *)
Fixpoint chunks_depth {A} (depth n : nat) (l : list A) : list (list A) :=
  match depth, l with
  | S depth', _ :: _ => take n l :: chunks_depth depth' n (drop n l)
  | _, _ => []
  end.
Definition chunks {A} (n : nat) (l : list A) : list (list A) := chunks_depth (length l) n l.

(** The body of the inner loop of [iteration]. *)
Definition chunk_cell (cur : list num) (size_x offset_base x : nat) (slice : list num)
    : M W (list num) :=
  new ← neighbours cur (offset_base + x - 1) (offset_base + x + 1)
          (offset_base + size_x + x) (offset_base - size_x + x);
  set slice x new.

(** The closure of [iteration] for one chunk. *)
Definition iteration_chunk (cur : list num) (size_x size_y chunk_index : nat) (slice : list num)
    : M W (list num) :=
  hi_y ← sub size_y 1;
  if (0 <? chunk_index) && (chunk_index <? hi_y) then
    let offset_base := chunk_index * size_x in
    hi ← sub size_x 1;
    for_range 1 (hi - 1) (chunk_cell cur size_x offset_base) slice
  else mret slice.

Definition iteration (cur next : list num) (size_x size_y : nat) : M W (list num) :=
  if size_y =? 0 then panic "chunk_size must not be zero"
  else
    cs ← par_update (iteration_chunk cur size_x size_y) (chunks size_y next);
    mret (concat cs).

(** How often [compute] iterates. *)
Definition rounds : nat := 1000.

(** One round of the loop of [compute]: the first buffer is read, the second written,
    then they change places. *)
Definition compute_round (size_x size_y : nat) (s : nat * list (list num))
    : M W ((nat * list (list num)) + (nat * list (list num))) :=
  let '(counter, matrix) := s in
  if counter <? rounds then
    match matrix with
    | current :: next :: rest =>
        next' ← iteration current next size_x size_y;
        mret (inl (counter + 1, next' :: current :: rest))
    | _ => panic BOUNDS
    end
  else mret (inr (counter, matrix)).

Definition compute (fuel : nat) (matrix : list (list num)) (size_x size_y : nat)
    : M W (nat * num) :=
  '(counter, matrix) ← loop fuel (compute_round size_x size_y) (0, matrix);
  m0 ← unwrap_opt BOUNDS (matrix !! 0);
  res ← get_residual m0 size_x size_y;
  mret (counter, res).

(** [matrix[0][i] = 1.0; matrix[1][i] = 1.0]. *)
Definition set_both (m : list num * list num) (i : nat) : M W (list num * list num) :=
  m0 ← set m.1 i one;
  m1 ← set m.2 i one;
  mret (m0, m1).

Definition matrix_setup (size_x size_y : nat) : M W (list (list num)) :=
  let zeros := repeat nzero (size_x * size_y) in
  m ← for_range 0 size_x (λ x m, set_both m x) (zeros, zeros);
  m ← for_range 0 size_x (λ x m, h ← sub size_y 1; set_both m (h * size_x + x)) m;
  m ← for_range 0 size_y (λ y m, set_both m (y * size_x)) m;
  m ← for_range 0 size_y (λ y m, i ← sub (y * size_x + size_x) 1; set_both m i) m;
  mret [m.1; m.2].

(** [laplace] of tests/mod.rs. *)
Definition laplace (fuel size_x size_y : nat) : M W (result unit unit) :=
  _ ← unwrap_res "called `Result::unwrap()` on an `Err` value" build;
  matrix ← matrix_setup size_x size_y;
  '(iterations, res) ← compute fuel matrix size_x size_y;
  _ ← report iterations res;
  mret (if below_limit res then Ok tt else Err tt).

(** ** The grid as a function *)

Definition entry (v : list num) (p : nat) : num := default nzero (v !! p).

(** What the iteration puts in row [y] and column [x]. *)
Definition stencil (v : list num) (n y x : nat) : num :=
  nmul (nadd (nadd (nadd (entry v (y * n + x - 1)) (entry v (y * n + x + 1)))
                (entry v ((y + 1) * n + x))) (entry v ((y - 1) * n + x))) quarter.

Definition inside (m n y x : nat) : bool := (0 <? y) && (y <? m - 1) && (0 <? x) && (x <? n - 1).

(** One step of Jacobi's method on a square grid: the entries inside become the means of their
    neighbours, those at the edge stay. *)
Definition jacobi (n : nat) (v : list num) : list num :=
  imap (λ p c, if inside n n (p / n) (p mod n) then stencil v n (p / n) (p mod n) else c) v.

Definition row_square_sum (v : list num) (n y : nat) : num :=
  foldl (λ s x, let diff := nsub (stencil v n y x) (entry v (y * n + x)) in nadd s (nmul diff diff))
    nzero (seq 1 (n - 1 - 1)).

(** A grid with ones at the edge. *)
Definition initial (size_x size_y : nat) : list num :=
  (λ p, if inside size_y size_x (p / size_x) (p mod size_x) then nzero else one) <$>
  seq 0 (size_x * size_y).

(** ** The chunks *)

Context {rl : RayonLaws ry}.

Lemma index_done (v : list num) i w : i < length v → index v i w = Done (entry v i) w.
Proof.
  intros Hi. unfold index, entry. destruct (lookup_lt_is_Some_2 v i Hi) as [x Hx]. by rewrite Hx.
Qed.

Lemma neighbours_done (v : list num) n y x w :
  1 ≤ y → 1 ≤ x → x + 1 < n → (y + 1) * n + x < length v →
  neighbours v (y * n + x - 1) (y * n + x + 1) ((y + 1) * n + x) ((y - 1) * n + x) w =
  Done (stencil v n y x) w.
Proof.
  intros Hy Hx Hn Hl. assert ((y - 1) * n ≤ y * n) by (apply Nat.mul_le_mono_r; lia).
  unfold neighbours, mbind, M_bind. by rewrite !index_done by lia.
Qed.

Lemma imap_keep {A} (f : nat → A → A) (l : list A) :
  (∀ i x, l !! i = Some x → f i x = x) → imap f l = l.
Proof.
  intros H. apply list_eq. intros i. rewrite list_lookup_imap.
  destruct (l !! i) as [x|] eqn:Hx; [|done]. simpl. by rewrite H.
Qed.

Lemma chunks_concat {A B} n (h : nat → nat → A → B) (l : list A) :
  0 < n →
  concat (imap (λ i s, imap (λ x v, h i x v) s) (chunks n l)) =
  imap (λ p v, h (p / n) (p mod n) v) l.
Proof.
  intros Hn. unfold chunks.
  assert (H : ∀ d (l : list A) i, length l ≤ d →
    concat (imap (λ j s, imap (λ x v, h (i + j) x v) s) (chunks_depth d n l)) =
    imap (λ p v, h (i + p / n) (p mod n) v) l); [|by apply (H _ _ 0)].
  clear l. induction d as [|d IH]; intros l i Hl; [by destruct l; [|simpl in Hl; lia]|].
  destruct l as [|a l]; [done|]. cbn [chunks_depth]. rewrite imap_cons. cbn [concat].
  rewrite <- (take_drop n (a :: l)) at 3. rewrite imap_app. f_equal.
  - apply imap_ext. intros p v Hp. simpl.
    apply lookup_lt_Some in Hp. rewrite length_take in Hp.
    rewrite Nat.div_small, Nat.mod_small by lia. done.
  - etrans; [|etrans; [apply (IH (drop n (a :: l)) (S i))|]].
    + f_equal. apply imap_ext. intros j s _. simpl. apply imap_ext. intros x v _. f_equal. lia.
    + rewrite length_drop. simpl in *. lia.
    + apply imap_ext. intros p v Hp. simpl. apply lookup_lt_Some in Hp.
      rewrite length_drop in Hp. rewrite length_take.
      replace (n `min` length (a :: l)) with n by lia.
      replace (n + p) with (p + 1 * n) by lia. rewrite Nat.div_add, Nat.Div0.mod_add by lia.
      f_equal. lia.
Qed.

Lemma chunks_lookup {A} n (l : list A) i s :
  0 < n → chunks n l !! i = Some s → s = take n (drop (i * n) l) ∧ i * n < length l.
Proof.
  intros Hn. unfold chunks. generalize (length l) at 1 as d. intros d. revert l i.
  induction d as [|d IH]; intros l i Hs; [by destruct i|].
  destruct l as [|a l]; [by destruct i|].
  cbn [chunks_depth] in Hs. destruct i as [|i].
  - simpl in Hs. simplify_eq. split; [by rewrite drop_0|simpl; lia].
  - simpl in Hs. apply IH in Hs as [-> Hl]. rewrite drop_drop, length_drop in *. split; [done|].
    simpl in *. lia.
Qed.

Lemma chunks_second {A} n (l : list A) : 0 < n → n < length l → is_Some (chunks n l !! 1).
Proof.
  intros Hn Hl. unfold chunks. destruct (length l) as [|[|d]] eqn:Hd; [lia|lia|].
  destruct l as [|a l]; [done|]. cbn [chunks_depth].
  destruct (drop n (a :: l)) eqn:He; [|done].
  apply (f_equal length) in He. rewrite length_drop in He. simpl in *. lia.
Qed.

(** The cells of a chunk that have been written when the loop has come to column [x]. *)
Definition chunk_upto (cur : list num) (n y x : nat) (slice : list num) : list num :=
  imap (λ c v, if (0 <? c) && (c <? x) then stencil cur n y c else v) slice.

Lemma chunk_upto_S cur n y x (slice : list num) :
  1 ≤ x → <[x := stencil cur n y x]> (chunk_upto cur n y x slice) = chunk_upto cur n y (x + 1) slice.
Proof.
  intros Hx. apply list_eq. intros c. unfold chunk_upto. destruct (decide (c = x)) as [->|Hne].
  - rewrite list_lookup_imap. destruct (slice !! x) as [v|] eqn:Hv; simpl.
    + rewrite list_lookup_insert_eq by (rewrite length_imap; by eapply lookup_lt_Some).
      rewrite (proj2 (Nat.ltb_lt 0 x)), (proj2 (Nat.ltb_lt x (x + 1))) by lia. done.
    + apply lookup_ge_None_2. rewrite length_insert, length_imap. by apply lookup_ge_None.
  - rewrite list_lookup_insert_ne, !list_lookup_imap by done.
    destruct (slice !! c) as [v|]; simpl; [|done]. f_equal.
    replace (c <? x + 1) with (c <? x); [done|].
    destruct (Nat.ltb_spec c x), (Nat.ltb_spec c (x + 1)); lia || done.
Qed.

(** The closure on a chunk that is long enough. *)
Lemma iteration_chunk_done cur size_x size_y i (slice : list num) w :
  1 ≤ size_x → 1 ≤ size_y → length cur = size_x * size_y → size_x - 1 ≤ length slice →
  iteration_chunk cur size_x size_y i slice w =
  Done (imap (λ x v, if inside size_y size_x i x then stencil cur size_x i x else v) slice) w.
Proof.
  intros Hsx Hsy Hcur Hs. unfold iteration_chunk, sub.
  rewrite !(proj2 (Nat.leb_le _ _)) by lia. unfold mbind at 1, M_bind at 1. simpl.
  destruct ((0 <? i) && (i <? size_y - 1)) eqn:Hi.
  2:{ unfold mret, M_ret. f_equal. symmetry. apply imap_keep. intros x v _.
      unfold inside. by rewrite Hi. }
  apply andb_true_iff in Hi as Hi'. destruct Hi' as [Hi0 Hi1].
  apply Nat.ltb_lt in Hi0, Hi1.
  assert (Hr : runs (W := W) (for_range 1 (size_x - 1 - 1) (chunk_cell cur size_x (i * size_x)) slice) (λ r, r = chunk_upto cur size_x i (1 + (size_x - 1 - 1)) slice)).
  { apply (for_range_runs (λ x r, r = chunk_upto cur size_x i x slice)).
    - intros x r Hx -> w'. eexists. split; [|by apply chunk_upto_S; lia].
      unfold chunk_cell. replace (i * size_x + size_x + x) with ((i + 1) * size_x + x) by lia.
      replace (i * size_x - size_x + x) with ((i - 1) * size_x + x) by nia.
      unfold mbind, M_bind. rewrite neighbours_done by nia.
      unfold set, chunk_upto at 1. rewrite length_imap, (proj2 (Nat.ltb_lt _ _)) by lia. done.
    - symmetry. apply imap_keep. intros c v _. destruct c; [done|].
      by rewrite (proj2 (Nat.ltb_ge (S c) 1)), andb_false_r by lia. }
  destruct (Hr w) as (r & Hr' & ->). etransitivity; [exact Hr'|]. f_equal.
  unfold chunk_upto. apply imap_ext. intros x v _. unfold inside. rewrite Hi, andb_true_l.
  destruct x as [|x]; [done|].
  replace (S x <? 1 + (size_x - 1 - 1)) with (S x <? size_x - 1); [done|].
  apply eq_true_iff_eq. rewrite !Nat.ltb_lt. lia.
Qed.

(** [iteration] on a grid that is at least as high as it is wide, less one: the value computed
    for row [c] and column [x] goes to position [c * size_y + x] of the flat buffer. *)
Lemma iteration_done cur next size_x size_y w :
  1 ≤ size_x → 1 ≤ size_y → size_x ≤ size_y + 1 →
  length cur = size_x * size_y → length next = size_x * size_y →
  iteration cur next size_x size_y w =
  Done (imap (λ p v, if inside size_y size_x (p / size_y) (p mod size_y)
                     then stencil cur size_x (p / size_y) (p mod size_y) else v) next) w.
Proof.
  intros Hsx Hsy Hle Hcur Hnext. unfold iteration.
  rewrite (proj2 (Nat.eqb_neq size_y 0)) by lia. unfold mbind, M_bind.
  rewrite (par_update_done _ (λ i s, imap (λ x v,
    if inside size_y size_x i x then stencil cur size_x i x else v) s)).
  - unfold mret, M_ret. f_equal.
    apply (chunks_concat size_y (λ i x v,
      if inside size_y size_x i x then stencil cur size_x i x else v) next). lia.
  - intros i s Hs. apply iteration_chunk_done; [done..|].
    apply chunks_lookup in Hs as [-> Hi]; [|lia].
    rewrite length_take, length_drop, Hnext.
    assert (i < size_x) by nia. assert ((i + 1) * size_y ≤ size_x * size_y) by nia. lia.
Qed.

(** On a grid that is wider the loop runs over the end of the chunk. *)
Definition tame {S} (m : M W S) : Prop :=
  ∀ w, (∃ s, m w = Done s w) ∨ (∃ msg, m w = Panicked msg w).

Lemma tame_ret {S} (s : S) : tame (mret s).
Proof. intros w. left. by exists s. Qed.

Lemma tame_bind {S T} (m : M W S) (k : S → M W T) :
  tame m → (∀ s, tame (k s)) → tame (mbind k m).
Proof.
  intros Hm Hk w. unfold mbind, M_bind. destruct (Hm w) as [[s ->]|[msg ->]]; [apply Hk|].
  right. by exists msg.
Qed.

Lemma tame_index v i : tame (index v i).
Proof. intros w. unfold index. destruct (v !! i) as [x|]; [left; by exists x|right; by eexists]. Qed.

Lemma tame_set v i x : tame (set v i x).
Proof. intros w. unfold set. destruct (i <? length v); [left|right]; by eexists. Qed.

Lemma tame_sub a b : tame (sub a b).
Proof. intros w. unfold sub. destruct (b <=? a); [left|right]; by eexists. Qed.

Lemma tame_for_range {S} from n (body : nat → S → M W S) s :
  (∀ x s, tame (body x s)) → tame (for_range from n body s).
Proof.
  intros Hb. revert from s. induction n as [|n IH]; intros from s; [apply tame_ret|].
  apply tame_bind; [apply Hb|intros s'; apply IH].
Qed.

Lemma tame_chunk_cell cur size_x offset_base x slice :
  tame (chunk_cell cur size_x offset_base x slice).
Proof.
  apply tame_bind; [|intros; apply tame_set].
  repeat (apply tame_bind; [apply tame_index|intros ?]). apply tame_ret.
Qed.

Lemma tame_iteration_chunk cur size_x size_y i slice :
  tame (iteration_chunk cur size_x size_y i slice).
Proof.
  apply tame_bind; [apply tame_sub|intros hi_y]. destruct (_ && _); [|apply tame_ret].
  apply tame_bind; [apply tame_sub|intros hi]. apply tame_for_range, tame_chunk_cell.
Qed.

(** A loop that returns has executed its body for each index. *)
Lemma for_range_done_inv {S} (I : S → Prop) from n (body : nat → S → M W S) s w r w' k :
  (∀ x s w s' w', I s → body x s w = Done s' w' → I s') →
  I s → for_range from n body s w = Done r w' → from ≤ k < from + n →
  ∃ s1 w1 s2 w2, I s1 ∧ body k s1 w1 = Done s2 w2.
Proof.
  intros Hb. revert from s w. induction n as [|n IH]; intros from s w Hs Hr Hk; [lia|].
  cbn [for_range] in Hr. unfold mbind, M_bind in Hr.
  destruct (body from s w) as [s' w1| | |] eqn:He; try done.
  destruct (decide (k = from)) as [->|Hne]; [by exists s, w, s', w1|].
  eapply (IH (Datatypes.S from)); [by eapply Hb|done|lia].
Qed.

Lemma chunk_cell_writes cur size_x offset_base x slice w r w' :
  chunk_cell cur size_x offset_base x slice w = Done r w' →
  x < length slice ∧ length r = length slice.
Proof.
  unfold chunk_cell, mbind, M_bind. destruct (neighbours _ _ _ _ _ w) as [v w1| | |]; try done.
  unfold set. destruct (Nat.ltb_spec x (length slice)); [|done].
  unfold mret, M_ret. intros [= <- _]. by rewrite length_insert.
Qed.

Lemma iteration_chunk_panics cur size_x size_y i (slice : list num) w :
  0 < i < size_y - 1 → size_y + 2 ≤ size_x → length slice ≤ size_y →
  ∃ msg, iteration_chunk cur size_x size_y i slice w = Panicked msg w.
Proof.
  intros Hi Hw Hl. destruct (tame_iteration_chunk cur size_x size_y i slice w) as [[r Hr]|]; [|done].
  exfalso. revert Hr. unfold iteration_chunk, sub.
  rewrite !(proj2 (Nat.leb_le _ _)) by lia. unfold mbind, M_bind, mret, M_ret.
  rewrite !(proj2 (Nat.ltb_lt _ _)) by lia. cbn [andb]. intros Hr.
  eapply (for_range_done_inv (λ s, length s = length slice)) with (k := size_y) in Hr
    as (s1 & w1 & s2 & w2 & H1 & H2); [| |done|lia].
  - apply chunk_cell_writes in H2. lia.
  - intros x s w1 s' w2 Hs Hc. apply chunk_cell_writes in Hc. lia.
Qed.

Lemma iteration_panics cur next size_x size_y w :
  3 ≤ size_y → size_y + 2 ≤ size_x → length next = size_x * size_y →
  ∃ msg, iteration cur next size_x size_y w = Panicked msg w.
Proof.
  intros Hy Hx Hn. unfold iteration. rewrite (proj2 (Nat.eqb_neq size_y 0)) by lia.
  unfold mbind, M_bind.
  destruct (par_update_panics (iteration_chunk cur size_x size_y) (chunks size_y next) w)
    as [msg Hm].
  - intros i s _. apply tame_iteration_chunk.
  - destruct (chunks_second size_y next) as [s Hs]; [lia|nia|].
    destruct (iteration_chunk_panics cur size_x size_y 1 s w) as [msg Hmsg]; [lia|lia| |].
    + apply chunks_lookup in Hs as [-> _]; [|lia]. rewrite length_take. lia.
    + by exists 1, s, msg.
  - rewrite Hm. by exists msg.
Qed.

(** ** Squares *)

(** The two buffers agree at the edge of the grid. *)
Definition same_edge (n : nat) (a b : list num) : Prop :=
  ∀ p, inside n n (p / n) (p mod n) = false → a !! p = b !! p.

Lemma jacobi_length n (v : list num) : length (jacobi n v) = length v.
Proof. apply length_imap. Qed.

Lemma iteration_square n cur next w :
  1 ≤ n → length cur = n * n → length next = n * n → same_edge n cur next →
  iteration cur next n n w = Done (jacobi n cur) w.
Proof.
  intros Hn Hcur Hnext He. rewrite iteration_done by lia. f_equal.
  apply list_eq_same_length with (n := n * n); [by rewrite jacobi_length|by rewrite length_imap|].
  intros p x y Hp Hx Hy. unfold jacobi in Hy. rewrite list_lookup_imap in Hx, Hy.
  destruct (cur !! p) as [c|] eqn:Hc; [|done]. destruct (next !! p) as [d|] eqn:Hd; [|done].
  simpl in Hx, Hy. destruct (inside n n (p / n) (p mod n)) eqn:Hi; [congruence|].
  specialize (He p Hi). congruence.
Qed.

Lemma same_edge_jacobi n (v : list num) : same_edge n (jacobi n v) v.
Proof.
  intros p Hi. unfold jacobi. rewrite list_lookup_imap, Hi. by destruct (v !! p).
Qed.

Lemma compute_round_step n k m0 m1 w :
  1 ≤ n → k < rounds → length m0 = n * n → length m1 = n * n → same_edge n m0 m1 →
  compute_round n n (k, [m0; m1]) w = Done (inl (k + 1, [jacobi n m0; m0])) w.
Proof.
  intros. unfold compute_round. rewrite (proj2 (Nat.ltb_lt k rounds)) by lia.
  unfold mbind, M_bind. by rewrite iteration_square.
Qed.

(** The loop of [compute]. *)
Lemma compute_loop fuel n m0 m1 w :
  1 ≤ n → rounds < fuel → length m0 = n * n → length m1 = n * n → same_edge n m0 m1 →
  ∃ m, loop fuel (compute_round n n) (0, [m0; m1]) w =
       Done (rounds, [Nat.iter rounds (jacobi n) m0; m]) w.
Proof.
  intros Hn Hfuel H0 H1 He.
  assert (Hgen : ∀ k m1 fuel, k ≤ rounds → rounds - k < fuel → length m1 = n * n →
    same_edge n (Nat.iter k (jacobi n) m0) m1 → length (Nat.iter k (jacobi n) m0) = n * n →
    ∃ m, loop fuel (compute_round n n) (k, [Nat.iter k (jacobi n) m0; m1]) w =
         Done (rounds, [Nat.iter rounds (jacobi n) m0; m]) w).
  2:{ by apply (Hgen 0 m1 fuel); [lia|lia|..]. }
  clear fuel Hfuel m1 H1 He. intros k m1 fuel Hk. remember (rounds - k) as r eqn:Hr.
  revert k m1 fuel Hk Hr. induction r as [|r IH]; intros k m1 fuel Hk Hr Hf H1 He Hl;
    (destruct fuel as [|fuel]; [lia|]); cbn [loop]; unfold mbind at 1, M_bind at 1.
  - assert (k = rounds) as -> by lia. exists m1. unfold compute_round.
    by rewrite Nat.ltb_irrefl.
  - rewrite compute_round_step by (done || lia).
    change (jacobi n (Nat.iter k (jacobi n) m0)) with (Nat.iter (S k) (jacobi n) m0).
    rewrite Nat.add_1_r. apply (IH (S k)); [lia|lia|lia|done| |]; cbn [Nat.iter].
    + apply same_edge_jacobi.
    + etransitivity; [apply jacobi_length|done].
Qed.

(** ** The residual *)

Lemma residual_row_done (v : list num) n y w :
  1 ≤ y → y + 1 < n → length v = n * n →
  residual_row v n y w = Done (row_square_sum v n y) w.
Proof.
  intros Hy Hn Hl. unfold residual_row, sub. rewrite (proj2 (Nat.leb_le 1 n)) by lia.
  unfold mbind at 1, M_bind at 1, mret, M_ret.
  apply (for_range_pure _ (λ s x, let diff := nsub (stencil v n y x) (entry v (y * n + x)) in
    nadd s (nmul diff diff))).
  intros x s Hx. unfold mbind, M_bind.
  assert ((y + 1) * n + x < length v) by (rewrite Hl; nia).
  rewrite neighbours_done by lia. rewrite index_done by lia. done.
Qed.

Lemma get_residual_done (v : list num) n w :
  1 ≤ n → length v = n * n →
  ∃ s, get_residual v n n w = Done s w ∧
       bracketing nzero nadd (row_square_sum v n <$> seq 1 (n - 1 - 1)) s.
Proof.
  intros Hn Hl. unfold get_residual, sub. rewrite (proj2 (Nat.leb_le 1 n)) by lia.
  unfold mbind, M_bind, mret, M_ret. apply par_sum_done.
  intros y Hy%list_elem_of_In%in_seq. apply residual_row_done; lia.
Qed.

(** ** The set-up *)

Definition marked (P : nat → bool) (l : nat) : list num :=
  (λ p, if P p then one else nzero) <$> seq 0 l.

Lemma marked_ext (P Q : nat → bool) l : (∀ p, p < l → P p = Q p) → marked P l = marked Q l.
Proof.
  intros H. apply list_fmap_ext. intros i p [-> Hp]%lookup_seq. by rewrite H.
Qed.

Lemma marked_insert (P : nat → bool) l i :
  i < l → <[i := one]> (marked P l) = marked (λ p, P p || (p =? i)) l.
Proof.
  intros Hi. apply list_eq. intros p. unfold marked.
  destruct (decide (p = i)) as [->|Hne].
  - rewrite list_lookup_insert_eq by (rewrite length_fmap, length_seq; lia).
    rewrite list_lookup_fmap, lookup_seq_lt by done. simpl. by rewrite Nat.eqb_refl, orb_true_r.
  - rewrite list_lookup_insert_ne, !list_lookup_fmap by done.
    destruct (seq 0 l !! p) as [q|] eqn:Hq; [|done]. apply lookup_seq in Hq as [-> _]. simpl.
    by rewrite (proj2 (Nat.eqb_neq p i)), orb_false_r.
Qed.

Lemma set_both_marked P l i w :
  i < l → set_both (marked P l, marked P l) i w =
  Done (marked (λ p, P p || (p =? i)) l, marked (λ p, P p || (p =? i)) l) w.
Proof.
  intros Hi. unfold set_both, set. cbn [fst snd].
  unfold marked at 1 3. rewrite length_fmap, length_seq, (proj2 (Nat.ltb_lt i l)) by done.
  unfold mbind, M_bind, mret, M_ret. by rewrite marked_insert.
Qed.

(** One of the loops: it marks the cells [g x]. *)
Lemma mark_loop (g : nat → nat) body P l from n w :
  (∀ x m w, from ≤ x < from + n → body x m w = set_both m (g x) w) →
  (∀ x, from ≤ x < from + n → g x < l) →
  let Q p := P p || existsb (λ x, p =? g x) (seq from n) in
  for_range from n body (marked P l, marked P l) w = Done (marked Q l, marked Q l) w.
Proof.
  revert from P. induction n as [|n IH]; intros from P Hb Hg Q.
  - cbn [for_range]. unfold mret, M_ret. by rewrite (marked_ext Q P)
      by (intros; unfold Q; simpl; apply orb_false_r).
  - cbn [for_range]. unfold mbind, M_bind. rewrite Hb, set_both_marked by (try apply Hg; lia).
    rewrite IH; [|intros; apply Hb; lia|intros; apply Hg; lia].
    by rewrite (marked_ext _ Q) by (intros p _; unfold Q; simpl; by rewrite orb_assoc).
Qed.

Lemma existsb_seq f from n :
  existsb f (seq from n) = true ↔ ∃ x, from ≤ x < from + n ∧ f x = true.
Proof.
  rewrite existsb_exists. split; intros (x & Hx & Hf); exists x; [|by rewrite in_seq].
  by rewrite in_seq in Hx.
Qed.

(** The four edges are what is not inside. *)
Lemma edges size_x size_y p :
  1 ≤ size_x → 1 ≤ size_y → p < size_x * size_y →
  existsb (λ x, p =? x) (seq 0 size_x) ||
  existsb (λ x, p =? (size_y - 1) * size_x + x) (seq 0 size_x) ||
  existsb (λ y, p =? y * size_x) (seq 0 size_y) ||
  existsb (λ y, p =? y * size_x + size_x - 1) (seq 0 size_y) =
  negb (inside size_y size_x (p / size_x) (p mod size_x)).
Proof.
  intros Hx Hy Hp. pose proof (Nat.div_mod p size_x ltac:(lia)) as Hdm.
  pose proof (Nat.mod_upper_bound p size_x ltac:(lia)) as Hm.
  set (q := p / size_x) in *. set (r := p mod size_x) in *. clearbody q r.
  assert (Hq : q < size_y) by nia. unfold inside.
  apply eq_true_iff_eq. rewrite !orb_true_iff, !existsb_seq, negb_true_iff.
  rewrite !andb_false_iff, !Nat.ltb_ge. setoid_rewrite Nat.eqb_eq. subst p. split.
  - intros [[[(x & Hx' & He)|(x & Hx' & He)]|(y & Hy' & He)]|(y & Hy' & He)].
    + assert (q = 0) by nia. lia.
    + assert (q = size_y - 1) by nia. lia.
    + assert (q = y) by nia. lia.
    + assert (q = y) by nia. lia.
  - intros [[[H|H]|H]|H].
    + left; left; left. exists r. nia.
    + left; left; right. exists r. assert (q = size_y - 1) as -> by lia. lia.
    + left; right. exists q. assert (r = 0) as -> by lia. lia.
    + right. exists q. assert (r = size_x - 1) as -> by lia. nia.
Qed.

Lemma matrix_setup_done size_x size_y w :
  1 ≤ size_x → 1 ≤ size_y →
  matrix_setup size_x size_y w = Done [initial size_x size_y; initial size_x size_y] w.
Proof.
  intros Hx Hy. unfold matrix_setup. set (l := size_x * size_y).
  assert (repeat nzero l = marked (λ _, false) l) as ->.
  { unfold marked. generalize 0 as k. induction l as [|l IH]; intros k; simpl; [done|].
    by rewrite (IH (S k)). }
  assert (size_x * 1 ≤ l) by (apply Nat.mul_le_mono_l; lia).
  assert ((size_y - 1) * size_x + size_x = l) as Hl by (unfold l; nia).
  unfold mbind at 1, M_bind at 1. rewrite (mark_loop (λ x, x)) by (done || lia).
  unfold mbind at 1, M_bind at 1. rewrite (mark_loop (λ x, (size_y - 1) * size_x + x));
    [|intros; unfold sub; by rewrite (proj2 (Nat.leb_le 1 size_y))|intros; lia].
  unfold mbind at 1, M_bind at 1. rewrite (mark_loop (λ y, y * size_x));
    [|done|intros; unfold l; nia].
  unfold mbind at 1, M_bind at 1. rewrite (mark_loop (λ y, y * size_x + size_x - 1));
    [|intros; unfold sub; by rewrite (proj2 (Nat.leb_le 1 _)) by lia|intros; unfold l; nia].
  unfold mret, M_ret. cbn [fst snd].
  assert (∀ P, (∀ p, p < l → P p = negb (inside size_y size_x (p / size_x) (p mod size_x))) →
    marked P l = initial size_x size_y) as He.
  { intros P HP. apply list_fmap_ext. intros i p [-> Hp]%lookup_seq. rewrite HP by done.
    by destruct (inside _ _ _ _). }
  by rewrite He by (intros; cbn [orb]; by apply edges).
Qed.

Lemma initial_length size_x size_y : length (initial size_x size_y) = size_x * size_y.
Proof. unfold initial. by rewrite length_fmap, length_seq. Qed.
End Laplace.

(** ** The test *)

(** C24: On a square grid the test runs for exactly 1000 rounds, each a step of Jacobi's method
    from the grid with ones at its edge, and answers by the residual of the last grid; only the
    order in which the rows' residuals are added is left to the thread pool. *)
Theorem laplace_computes_jacobi {N : Num} {ry : Rayon} {rl : RayonLaws ry} {W}
    quarter one below_limit report fuel n (w : W) :
  1 ≤ n → rounds < fuel →
  ∃ s, laplace quarter one below_limit (Ok tt) report fuel n n w =
         (_ ← report rounds s; mret (if below_limit s then Ok tt else Err tt)) w ∧
       let last := Nat.iter rounds (jacobi quarter n) (initial one n n) in
       bracketing nzero nadd (row_square_sum quarter last n <$> seq 1 (n - 1 - 1)) s.
Proof.
  intros Hn Hfuel. set (last := Nat.iter rounds (jacobi quarter n) (initial one n n)).
  assert (Hlast : length last = n * n).
  { unfold last. generalize rounds. intros k. rewrite <- (initial_length one n n).
    induction k as [|k IH]; [done|]. cbn [Nat.iter]. etransitivity; [apply jacobi_length|done]. }
  destruct (get_residual_done quarter last n w Hn Hlast) as (s & Hs & Hb).
  exists s. split; [|exact Hb]. unfold laplace, mbind, M_bind. cbn [unwrap_res mret M_ret].
  rewrite matrix_setup_done by done. unfold compute, mbind, M_bind.
  destruct (compute_loop quarter fuel n (initial one n n) (initial one n n) w) as [m ->];
    [done|done|apply initial_length|apply initial_length|done|].
  cbn [lookup list_lookup unwrap_opt mret M_ret]. fold last. by rewrite Hs.
Qed.

(** C25: On a grid of three rows or more that is at least two columns wider than high, the chunks
    of the parallel loop are too short for the rows, and the first round panics.  Up to one column
    more than rows an iteration does not panic, whatever is in the two buffers, and gives back a
    buffer of the same length. *)
Theorem laplace_wide_panics {N : Num} {ry : Rayon} {rl : RayonLaws ry} {W}
    quarter one below_limit report fuel size_x size_y (w : W) :
  0 < fuel → 3 ≤ size_y → 1 ≤ size_x →
  if decide (size_y + 2 ≤ size_x) then
    ∃ msg, laplace quarter one below_limit (Ok tt) report fuel size_x size_y w = Panicked msg w
  else
    ∀ cur next, length cur = size_x * size_y → length next = size_x * size_y →
      ∃ v, iteration quarter cur next size_x size_y w = Done v w ∧ length v = length next.
Proof.
  intros Hfuel Hy Hpos. destruct (decide _) as [Hx|Hx].
  2: { intros cur next Hcur Hnext. eexists. split; [by apply iteration_done; [exact rl|lia..]|]. by rewrite length_imap. }
  destruct fuel as [|fuel]; [lia|].
  destruct (iteration_panics quarter (initial one size_x size_y) (initial one size_x size_y)
    size_x size_y w Hy Hx (initial_length one _ _)) as [msg Hm].
  exists msg. unfold laplace, mbind, M_bind. cbn [unwrap_res mret M_ret].
  rewrite matrix_setup_done by lia. unfold compute, mbind, M_bind. cbn [loop].
  unfold mbind, M_bind, compute_round.
  change (0 <? rounds) with true. cbv beta iota. unfold mbind, M_bind. by rewrite Hm.
Qed.

(** ** Witnesses *)

(** The constants of the test as doubles. *)
Definition f64_quarter : @num f64 := SpecFloat.S754_finite false 4503599627370496 (-54).
Definition f64_one : @num f64 := SpecFloat.S754_finite false 4503599627370496 (-52).
Definition f64_limit : @num f64 := SpecFloat.S754_finite false 5764607523034235 (-59).
Definition f64_below (x : @num f64) : bool := SpecFloat.SFltb x f64_limit.

(** Inside the grid of four by four the zeros have become ones. *)
Lemma laplace_computes_jacobi_witness :
  laplace (N := f64) (ry := sim_rayon) f64_quarter f64_one f64_below (Ok tt) (λ _ _, mret tt) 1001 4 4 tt =
    Done (Ok tt) tt ∧
  ∃ s, laplace (N := f64) (ry := sim_rayon) f64_quarter f64_one f64_below (Ok tt) (λ _ _, mret tt) 1001 4 4 tt =
         ((_ ← mret tt; mret (if f64_below s then Ok tt else Err tt)) : M unit _) tt ∧
       let last := Nat.iter rounds (jacobi (N := f64) f64_quarter 4) (initial (N := f64) f64_one 4 4) in
       bracketing (@nzero f64) (@nadd f64)
         (row_square_sum (N := f64) f64_quarter last 4 <$> seq 1 (4 - 1 - 1)) s.
Proof.
  split; [vm_compute; reflexivity|].
  apply (laplace_computes_jacobi (N := f64) (ry := sim_rayon) (rl := sim_rayon_laws)
    f64_quarter f64_one f64_below (λ _ _, mret tt) 1001 4 tt); unfold rounds; lia.
Defined.

Lemma laplace_wide_panics_witness :
  (∃ msg, laplace (N := f64) (ry := sim_rayon) f64_quarter f64_one f64_below (Ok tt) (λ _ _, mret tt) 1001 5 3 tt =
     Panicked msg tt) ∧
  ∃ v, iteration (N := f64) (ry := sim_rayon) f64_quarter (replicate 12 f64_one) (replicate 12 f64_one) 4 3 tt =
    Done v tt ∧ length v = 12.
Proof.
  split.
  - apply (laplace_wide_panics (N := f64) (ry := sim_rayon) (rl := sim_rayon_laws)
      f64_quarter f64_one f64_below (λ _ _, mret tt) 1001 5 3 tt); lia.
  - apply (laplace_wide_panics (N := f64) (ry := sim_rayon) (rl := sim_rayon_laws)
      f64_quarter f64_one f64_below (λ _ _, mret tt) 1001 4 3 tt); [lia|lia|lia|reflexivity|reflexivity].
Defined.
