(* ===== verification/Demo.v ===== *)
(** * [examples/demo/src/main.rs] and [tests/mod.rs]: the demo program

    The tests of the demo and the [main] that runs and reports them.  The machine has files and an
    output; what else a test asks of the system is in the record [Host]: which file operations the
    kernel refuses, the answers of the thread builder and of the thread pool, the arguments and the
    variables, and the order in which threads come to print. *)

From Stdlib Require Import SpecFloat.
From S2P Require Import Prelude Utf8 Numeric Rayon Morton Matmul MatmulSpec MatmulDemo Laplace.

(** ** Files and output *)

(** A line is kept as the arguments of its [println!]. *)
Inductive piece : Type :=
| Lit (s : string)
| Str (bytes : list Z)
| Dec (n : Z)
| Flt (x : @num f64)
| Elapsed.  (* a measured time *)
Definition line : Type := list piece.

(** [std::io::ErrorKind], as far as the program can see it. *)
Inductive ErrorKind : Type := NotFound | InvalidData | Other | Refused (code : Z).

Inductive FileOp : Type :=
| OpOpen (path : string)
| OpCreate (path : string)
| OpRead (path : string)
| OpWrite (path : string)
| OpRemove (path : string).

Record Machine : Type := mkMachine {
  files : gmap string (list Z);
  stdout : list line;
}.

Definition set_files (f : gmap string (list Z) → gmap string (list Z)) (w : Machine) : Machine :=
  mkMachine (f (files w)) (stdout w).
Definition emit (ls : list line) (w : Machine) : Machine := mkMachine (files w) (stdout w ++ ls).

Record Host : Type := mkHost {
  fault : FileOp → option ErrorKind;
  spawn : nat → result unit unit;        (* the n-th thread of a test *)
  build : result unit unit;              (* [ThreadPoolBuilder::build] *)
  reorder : list line → list line;       (* the order in which threads print *)
  args : list (list Z);
  vars : list (list Z * list Z);
  thread_id : Z;
  num_cpus : Z;
  exp : @num f64 → @num f64;
  log : @num f64 → @num f64 → @num f64;
}.

(** ** Floating point *)

Definition fdiv (x y : @num f64) : @num f64 := SFdiv 53 1024 x y.
Definition of_u64 (n : Z) : @num f64 := SF_of_Z 53 1024 n.
Definition f64_half : @num f64 := S754_finite false 4503599627370496 (-53).
Definition f64_four : @num f64 := S754_finite false 4503599627370496 (-50).
Definition f64_3_41 : @num f64 := S754_finite false 7678637364666696 (-51).
Definition f64_tolerance : @num f64 := S754_finite false 5902958103587057 (-69).
Definition PI : @num f64 := S754_finite false 7074237752028440 (-51).
Definition E : @num f64 := S754_finite false 6121026514868073 (-51).

(** The value of the function at the middle of the [i]-th interval. *)
Definition pi_term (step : @num f64) (i : nat) : @num f64 :=
  let x := nmul (Num := f64) (nadd (Num := f64) (of_u64 (Z.of_nat i)) f64_half) step in
  fdiv f64_four (nadd (Num := f64) f64_one (nmul (Num := f64) x x)).

Section Demo.
Context (host : Host) {ry : Rayon}.

Definition println (l : line) : M Machine unit := modify (emit [l]).

(** The operator [?]. *)
Definition try {A B Er} (m : M Machine (result A Er)) (k : A → M Machine (result B Er))
    : M Machine (result B Er) :=
  r ← m;
  match r with Ok a => k a | Err e => mret (Err e) end.

(** An operation that the kernel may refuse. *)
Definition io {A} (op : FileOp) (m : M Machine (result A ErrorKind))
    : M Machine (result A ErrorKind) :=
  match fault host op with Some e => mret (Err e) | None => m end.

(** [File::open]; a file is known by its path. *)
Definition file_open (path : string) : M Machine (result string ErrorKind) :=
  io (OpOpen path)
    (fs ← gets files; mret (if decide (is_Some (fs !! path)) then Ok path else Err NotFound)).

(** [File::create] truncates. *)
Definition file_create (path : string) : M Machine (result string ErrorKind) :=
  io (OpCreate path) (_ ← modify (set_files (insert path [])); mret (Ok path)).

(** [read_to_string] of a file that was just opened. *)
Definition read_to_string (file : string) : M Machine (result (list Z) ErrorKind) :=
  io (OpRead file)
    (fs ← gets files; mret (map_err (λ _, InvalidData) (from_utf8 (default [] (fs !! file))))).

(** [write_all] to a file that was just created. *)
Definition write_all (file : string) (bytes : list Z) : M Machine (result unit ErrorKind) :=
  io (OpWrite file) (_ ← modify (set_files (alter (λ c, c ++ bytes) file)); mret (Ok tt)).

Definition remove_file (path : string) : M Machine (result unit ErrorKind) :=
  io (OpRemove path)
    (fs ← gets files;
     if decide (is_Some (fs !! path))
     then _ ← modify (set_files (delete path)); mret (Ok tt)
     else mret (Err NotFound)).

(** ** The tests *)

Definition UNWRAP : string := "called `Result::unwrap()` on an `Err` value".

Definition thread_creation : M Machine (result unit unit) :=
  _ ← unwrap_res UNWRAP (spawn host 0);
  _ ← for_range 0 10 (λ i _, unwrap_res UNWRAP (spawn host (S i))) tt;
  _ ← println [Lit "Time to create and to join a thread: "; Elapsed; Lit " ms"];
  mret (Ok tt).

(** The end of both computations of pi. *)
Definition pi_verdict (num_steps : Z) (sum : @num f64) : @num f64 * result unit unit :=
  let mypi := nmul (Num := f64) sum (fdiv f64_one (of_u64 num_steps)) in
  (mypi, if SFltb (SFabs (nsub (Num := f64) mypi PI)) f64_tolerance then Ok tt else Err tt).

Definition pi_sequential (num_steps : Z) : M Machine (result unit unit) :=
  let step := fdiv f64_one (of_u64 num_steps) in
  sum ← for_range 0 (Z.to_nat num_steps)
          (λ i sum, mret (nadd (Num := f64) sum (pi_term step i))) (@nzero f64);
  let '(mypi, r) := pi_verdict num_steps sum in
  _ ← println [Lit "Pi: "; Flt mypi; Lit " (sequential)"];
  mret r.

Definition pi_parallel (num_steps : Z) : M Machine (result unit unit) :=
  _ ← unwrap_res UNWRAP (build host);
  let step := fdiv f64_one (of_u64 num_steps) in
  sum ← par_sum (@nzero f64) (@nadd f64) (λ i, mret (pi_term step i)) (seq 0 (Z.to_nat num_steps));
  let '(mypi, r) := pi_verdict num_steps sum in
  _ ← println [Lit "Pi: "; Flt mypi; Lit " (with "; Dec (num_cpus host); Lit " threads)"];
  mret r.

Definition HOSTNAME : string := "/etc/hostname".
Definition FOO : string := "foo.txt".

Definition read_file : M Machine (result unit ErrorKind) :=
  try (file_open HOSTNAME) (λ file,
  try (read_to_string file) (λ contents,
    _ ← println [Lit "Hostname: "; Str contents];
    mret (Ok tt))).

(** ["Hello, world!"]. *)
Definition hello_world : list Z := [72; 101; 108; 108; 111; 44; 32; 119; 111; 114; 108; 100; 33]%Z.

Definition create_file : M Machine (result unit ErrorKind) :=
  try (file_create FOO) (λ file,
  try (write_all file hello_world) (λ _,
  try (file_open FOO) (λ file,
  try (read_to_string file) (λ contents,
  try (remove_file FOO) (λ _,
    mret (if decide (contents = hello_world) then Ok tt else Err Other)))))).

Definition print_argv : M Machine (result unit unit) :=
  _ ← modify (emit (imap (λ i a, [Lit "argument["; Dec (Z.of_nat i); Lit "] = "; Str a]) (args host)));
  mret (Ok tt).

Definition print_env : M Machine (result unit unit) :=
  _ ← modify (emit ((λ kv, [Str kv.1; Lit ": "; Str kv.2]) <$> vars host));
  mret (Ok tt).

(** The crab is given by its bytes, [unwrap_or_default] replaces what is not UTF-8. *)
Definition crab : list Z := [0xF0; 0x9F; 0xA6; 0x80]%Z.

Definition hello : M Machine (result unit unit) :=
  _ ← println [Lit "Hello, world!"];
  _ ← println [Lit "Привет мир!"];
  _ ← println [Lit "こんにちは世界"];
  _ ← println [Lit "你好，世界"];
  _ ← println [Lit "สวัสดีชาวโลก"];
  _ ← println [Lit "Chào thế giới"];
  _ ← println [Lit "Crab emoji: "; Str (match from_utf8 crab with Ok s => s | Err _ => [] end)];
  mret (Ok tt).

(** The multiplication of two [u64] is checked. *)
Definition arithmetic : M Machine (result unit unit) :=
  if (thread_id host * 3 <? 2 ^ 64)%Z then
    let x := nmul (Num := f64) (of_u64 (thread_id host * 3 mod 10)) f64_3_41 in
    let y := exp host x in
    let z := log host y E in
    _ ← println [Lit "x = "; Flt x; Lit ", e^x = "; Flt y; Lit ", ln(e^x) = "; Flt z];
    mret (Ok tt)
  else panic "attempt to multiply with overflow".

(** The children print in the order in which they come to run; all have when they are joined. *)
Definition threading : M Machine (result unit unit) :=
  _ ← for_range 0 2 (λ i _, unwrap_res "failed to spawn thread" (spawn host i)) tt;
  _ ← modify (emit (reorder host ((λ i : nat, [Lit "this is thread number "; Dec (Z.of_nat i)]) <$> seq 0 2)));
  mret (Ok tt).

Variables fuel depth : nat.

Definition laplace_report (iterations : nat) (res : @num f64) : M Machine unit :=
  println [Lit "Time to solve "; Elapsed; Lit " s, iterations "; Dec (Z.of_nat iterations);
           Lit ", residuum "; Flt res].

Definition laplace_test (size_x size_y : nat) : M Machine (result unit unit) :=
  laplace (N := f64) f64_quarter f64_one f64_below (build host) laplace_report fuel size_x size_y.

Definition matmul_test : M Machine (result unit unit) :=
  '(_, r) ← test_matmul_strassen fuel depth (build host);
  _ ← println [Lit "Time to multiply matrix "; Elapsed; Lit " s"];
  mret r.

(** ** The programs *)

Definition test_result {Er} (r : result unit Er) : string :=
  match r with Ok _ => "ok" | Err _ => "failed!" end.

(** [println!("Test {} ... {}", stringify!(name), test_result(name()))]. *)
Definition report_test {Er} (name : string) (t : M Machine (result unit Er)) : M Machine unit :=
  r ← t;
  println [Lit "Test "; Lit name; Lit " ... "; Lit (test_result r)].

Definition NUM_STEPS : Z := 5000000.

Definition main : M Machine unit :=
  _ ← report_test "hello" hello;
  _ ← report_test "arithmetic" arithmetic;
  _ ← report_test "print_argv" print_argv;
  _ ← report_test "print_env" print_env;
  _ ← report_test "read_file" read_file;
  _ ← report_test "create_file" create_file;
  _ ← report_test "threading" threading;
  _ ← report_test "pi_sequential" (pi_sequential NUM_STEPS);
  _ ← report_test "pi_parallel" (pi_parallel NUM_STEPS);
  _ ← report_test "laplace" (laplace_test 128 128);
  _ ← report_test "test_matmul_strassen" matmul_test;
  report_test "thread_creation" thread_creation.

(** [matrix_multiplication.rs] and [pi_sequential.rs]. *)
Definition main_matrix_multiplication : M Machine unit :=
  report_test "test_matmul_strassen" matmul_test.
Definition main_pi_sequential : M Machine unit :=
  report_test "pi_sequential" (pi_sequential NUM_STEPS).
End Demo.

(** ** What the tests do *)

Section Spec.
Context (host : Host) {ry : Rayon} {rl : RayonLaws ry}.
Implicit Types (w : Machine).

Lemma sum_terms {W} (add : @num f64 → nat → @num f64) n s (w : W) :
  for_range 0 n (λ i s, mret (add s i)) s w = Done (foldl add s (seq 0 n)) w.
Proof. by apply (for_range_pure _ add). Qed.

Lemma pi_sequential_done n w :
  pi_sequential n w =
  let terms := pi_term (fdiv f64_one (of_u64 n)) <$> seq 0 (Z.to_nat n) in
  let v := pi_verdict n (foldl (@nadd f64) (@nzero f64) terms) in
  Done v.2 (emit [[Lit "Pi: "; Flt v.1; Lit " (sequential)"]] w).
Proof.
  unfold pi_sequential. set (step := fdiv _ _). generalize (Z.to_nat n). intros k.
  unfold mbind at 1, M_bind at 1. rewrite (sum_terms (λ s i, nadd (Num := f64) s (pi_term step i))).
  assert (∀ l s, foldl (λ s i, nadd (Num := f64) s (pi_term step i)) s l =
                 foldl (@nadd f64) s (pi_term step <$> l)) as ->.
  { induction l as [|i l IH]; intros s; [done|]. apply IH. }
  cbv zeta. by destruct (pi_verdict _ _) as [v r].
Qed.

Lemma pi_parallel_done n w :
  build host = Ok tt →
  ∃ s, pi_parallel host n w =
         (let v := pi_verdict n s in
          Done v.2 (emit [[Lit "Pi: "; Flt v.1; Lit " (with "; Dec (num_cpus host); Lit " threads)"]] w)) ∧
       bracketing (@nzero f64) (@nadd f64)
         (pi_term (fdiv f64_one (of_u64 n)) <$> seq 0 (Z.to_nat n)) s.
Proof.
  intros Hb. unfold pi_parallel. rewrite Hb. set (step := fdiv _ _).
  generalize (Z.to_nat n). intros k.
  destruct (par_sum_done (@nzero f64) (@nadd f64) (λ i, mret (pi_term step i)) (pi_term step)
    (seq 0 k) w) as (s & Hs & Hbr); [done|].
  exists s. split; [|done]. unfold mbind at 1, M_bind at 1. cbn [unwrap_res mret M_ret].
  unfold mbind at 1, M_bind at 1. rewrite Hs. by destruct (pi_verdict n s) as [v r].
Qed.

(** The first error of a list of operations. *)
Fixpoint first_fault (ops : list FileOp) : option ErrorKind :=
  match ops with
  | [] => None
  | op :: ops => match fault host op with Some e => Some e | None => first_fault ops end
  end.

(** What [create_file] leaves of its file. *)
Definition left_behind : gmap string (list Z) → gmap string (list Z) :=
  match fault host (OpCreate FOO), fault host (OpWrite FOO),
        first_fault [OpOpen FOO; OpRead FOO; OpRemove FOO] with
  | Some _, _, _ => λ fs, fs
  | None, Some _, _ => insert FOO []
  | None, None, Some _ => insert FOO hello_world
  | None, None, None => delete FOO
  end.

Lemma create_file_done w :
  create_file host w =
  Done (match first_fault [OpCreate FOO; OpWrite FOO; OpOpen FOO; OpRead FOO; OpRemove FOO] with
        | Some e => Err e | None => Ok tt end)
       (set_files left_behind w).
Proof.
  destruct w as [fs out].
  unfold create_file, left_behind, try, file_create, write_all, file_open, read_to_string, remove_file, io,
    first_fault, set_files, mbind, M_bind, mret, M_ret, gets, modify.
  destruct (fault host (OpCreate FOO)); [done|]. cbn [files stdout].
  destruct (fault host (OpWrite FOO)); [done|]. cbn [files stdout].
  rewrite alter_insert_eq. cbn [app].
  destruct (fault host (OpOpen FOO)); [done|]. cbn [files].
  rewrite lookup_insert_eq, decide_True by done.
  destruct (fault host (OpRead FOO)); [done|]. cbn [files]. rewrite lookup_insert_eq. cbn [default].
  rewrite from_utf8_ascii by (repeat constructor; lia). cbn [map_err].
  destruct (fault host (OpRemove FOO)); [done|]. cbn [files].
  rewrite lookup_insert_eq, decide_True by done. rewrite decide_True by done. cbn [files stdout].
  by rewrite delete_insert_eq.
Qed.
End Spec.

(** ** What the program reports *)

(** The verdicts among the lines of the output. *)
Definition verdict_of (l : line) : option (string * string) :=
  match l with
  | [Lit a; Lit name; Lit b; Lit v] =>
      if decide (a = "Test " ∧ b = " ... ") then Some (name, v) else None
  | _ => None
  end.
Definition verdicts (w : Machine) : list (string * string) := omap verdict_of (stdout w).

(** A machine on which nothing is refused. *)
Record healthy (host : Host) : Prop := mkHealthy {
  no_fault op : fault host op = None;
  spawns i : spawn host i = Ok tt;
  builds : build host = Ok tt;
  reorders ls : reorder host ls ≡ₚ ls;
  id_fits : (thread_id host * 3 < 2 ^ 64)%Z;
}.

Section Main.
Context (host : Host) {ry : Rayon} {rl : RayonLaws ry} (Hh : healthy host).
Implicit Types (w : Machine).

(** A test returns, prints no verdict of its own and leaves the files as [f] says. *)
Definition returns {Er} (t : M Machine (result unit Er)) (v : string) w w' : Prop :=
  ∃ r, t w = Done r w' ∧ test_result r = v ∧ verdicts w' = verdicts w.

Lemma emit_emit ls1 ls2 w : emit ls2 (emit ls1 w) = emit (ls1 ++ ls2) w.
Proof. unfold emit. simpl. by rewrite app_assoc. Qed.

Lemma verdicts_emit ls w : verdicts (emit ls w) = verdicts w ++ omap verdict_of ls.
Proof. apply omap_app. Qed.

Lemma returns_emit {Er} (t : M Machine (result unit Er)) r ls w :
  t w = Done r (emit ls w) → omap verdict_of ls = [] → returns t (test_result r) w (emit ls w).
Proof. intros Ht Hl. exists r. by rewrite verdicts_emit, Hl, app_nil_r. Qed.

Lemma report_returns {Er} name (t : M Machine (result unit Er)) v w w' :
  returns t v w w' →
  ∃ w2, report_test name t w = Done tt w2 ∧ verdicts w2 = verdicts w ++ [(name, v)] ∧
        files w2 = files w'.
Proof.
  intros (r & Ht & <- & Hv). eexists. unfold report_test, mbind, M_bind. rewrite Ht.
  split; [reflexivity|]. by rewrite verdicts_emit, Hv.
Qed.

Lemma no_verdicts {A} (g : A → line) l : (∀ a, verdict_of (g a) = None) → omap verdict_of (g <$> l) = [].
Proof. intros H. induction l as [|a l IH]; [done|]. cbn. by rewrite H, IH. Qed.

Lemma hello_returns w : ∃ ls, returns hello "ok" w (emit ls w).
Proof.
  eexists. apply (returns_emit _ (Ok tt)).
  - unfold hello, println, mbind, M_bind, modify, mret, M_ret. rewrite !emit_emit. reflexivity.
  - done.
Qed.

Lemma arithmetic_returns w : ∃ ls, returns (arithmetic host) "ok" w (emit ls w).
Proof.
  eexists. apply (returns_emit _ (Ok tt)).
  - unfold arithmetic. rewrite (proj2 (Z.ltb_lt _ _) (id_fits _ Hh)). reflexivity.
  - done.
Qed.

Lemma print_argv_returns w : ∃ ls, returns (print_argv host) "ok" w (emit ls w).
Proof.
  eexists. apply (returns_emit _ (Ok tt)); [reflexivity|].
  generalize 0 as k, (args host). intros k l.
  assert (∀ h : nat → list Z → line, (∀ i a, verdict_of (h i a) = None) →
    omap verdict_of (imap h l) = []) as H.
  { induction l as [|a l IH]; intros h Hn; [done|]. cbn. rewrite Hn. apply IH. intros; apply Hn. }
  by apply H.
Qed.

Lemma print_env_returns w : ∃ ls, returns (print_env host) "ok" w (emit ls w).
Proof. eexists. apply (returns_emit _ (Ok tt)); [reflexivity|]. by apply no_verdicts. Qed.

Lemma read_file_returns name w :
  files w !! HOSTNAME = Some name → from_utf8 name = Ok name →
  ∃ ls, returns (read_file host) "ok" w (emit ls w).
Proof.
  intros Hf Hu. eexists. apply (returns_emit _ (Ok tt) [[Lit "Hostname: "; Str name]]); [|done].
  unfold read_file, try, file_open, read_to_string, io. rewrite !(no_fault _ Hh).
  unfold mbind, M_bind, gets, mret, M_ret. rewrite Hf, decide_True by done.
  rewrite (no_fault _ Hh), Hf. cbn [from_option id]. by rewrite Hu.
Qed.

Lemma create_file_returns w :
  returns (create_file host) "ok" w (set_files (delete FOO) w).
Proof.
  exists (Ok tt). rewrite create_file_done. unfold left_behind, first_fault.
  by rewrite !(no_fault _ Hh).
Qed.

Lemma for_range_unit n (f : nat → M Machine unit) w :
  (∀ i, f i w = Done tt w) → for_range 0 n (λ i _, f i) tt w = Done tt w.
Proof.
  intros H. generalize 0 as k. induction n as [|n IH]; intros k; [done|]. cbn [for_range].
  unfold mbind, M_bind. by rewrite H.
Qed.

Lemma threading_returns w : ∃ ls, returns (threading host) "ok" w (emit ls w).
Proof.
  eexists. apply (returns_emit _ (Ok tt)).
  - unfold threading. unfold mbind at 1, M_bind at 1.
    rewrite (for_range_unit 2 (λ i, unwrap_res "failed to spawn thread" (spawn host i)))
      by (intros i; by rewrite (spawns _ Hh)). reflexivity.
  - apply Permutation_nil. symmetry.
    etrans; [by apply omap_Permutation, (reorders _ Hh)|done].
Qed.

Lemma thread_creation_returns w : ∃ ls, returns (thread_creation host) "ok" w (emit ls w).
Proof.
  eexists. apply (returns_emit _ (Ok tt)).
  - unfold thread_creation. rewrite (spawns _ Hh). unfold mbind, M_bind. cbn [unwrap_res mret M_ret].
    rewrite (for_range_unit 10 (λ i, unwrap_res UNWRAP (spawn host (S i))))
      by (intros i; by rewrite (spawns _ Hh)). reflexivity.
  - done.
Qed.

Lemma pi_sequential_returns n w : ∃ v ls, returns (pi_sequential n) v w (emit ls w).
Proof. eexists _, _. apply returns_emit; [apply pi_sequential_done|done]. Qed.

Lemma pi_parallel_returns n w : ∃ v ls, returns (pi_parallel host n) v w (emit ls w).
Proof.
  destruct (pi_parallel_done host n w (builds _ Hh)) as (s & Hs & _).
  eexists _, _. apply returns_emit; [exact Hs|done].
Qed.

Lemma laplace_returns fuel w :
  rounds < fuel → ∃ v ls, returns (laplace_test host fuel 128 128) v w (emit ls w).
Proof.
  intros Hf. unfold laplace_test. rewrite (builds _ Hh).
  destruct (laplace_computes_jacobi (N := f64) f64_quarter f64_one f64_below laplace_report fuel 128 w)
    as (s & Hs & _); [lia|done|].
  eexists _, _. apply returns_emit; [rewrite Hs; reflexivity|done].
Qed.

Lemma matmul_returns fuel depth w :
  rounds < fuel → 5 ≤ depth → ∃ ls, returns (matmul_test host fuel depth) "ok" w (emit ls w).
Proof.
  intros Hf Hd. eexists. apply (returns_emit _ (Ok tt)).
  - unfold matmul_test. rewrite (builds _ Hh). unfold mbind, M_bind.
    destruct (demo_multiplies fuel depth w) as (z & -> & _); [unfold rounds in Hf; lia|lia|].
    reflexivity.
  - done.
Qed.
End Main.

(** The next test is reported, and leads to the world [w2]. *)
Ltac report name H w2 :=
  let He := fresh "Hrun" in let Hv := fresh "Hverd" in let Hf := fresh "Hfiles" in
  apply (report_returns name) in H as (w2 & He & Hv & Hf); rewrite He; clear He;
  simpl files in Hf.

(** ** Properties *)

(** The two computations of pi add up the same terms: the sequential one from the first to
    the last, the parallel one in some bracketing; both give the verdict of their sum. *)
Theorem pi_tests_same_terms (host : Host) {ry : Rayon} {rl : RayonLaws ry} n w :
  build host = Ok tt →
  let terms := pi_term (fdiv f64_one (of_u64 n)) <$> seq 0 (Z.to_nat n) in
  ∃ s, bracketing (@nzero f64) (@nadd f64) terms s ∧
    (∃ w', pi_parallel host n w = Done (pi_verdict n s).2 w') ∧
    (∃ w', pi_sequential n w = Done (pi_verdict n (foldl (@nadd f64) (@nzero f64) terms)).2 w').
Proof.
  intros Hb terms. destruct (pi_parallel_done host n w Hb) as (s & Hs & Hbr).
  exists s. split; [exact Hbr|]. split; [by eexists|].
  eexists. apply pi_sequential_done.
Qed.

(** [create_file] writes, reads back and removes its file.  It succeeds exactly when no step
    is refused, and leaves the files as they were, without [foo.txt]; the first refusal is its
    answer, and when it comes after the creation the file stays behind, empty if it was the
    writing that failed. *)
Theorem create_file_roundtrip (host : Host) w :
  create_file host w =
  Done (match first_fault host [OpCreate FOO; OpWrite FOO; OpOpen FOO; OpRead FOO; OpRemove FOO] with
        | Some e => Err e
        | None => Ok tt
        end)
       (set_files (left_behind host) w).
Proof. apply create_file_done. Qed.

(** C39: The demo program runs its twelve tests in order and reports each of them.  On a machine
    that refuses nothing every test passes, apart from the three that compare a floating-point
    result with a tolerance, and no file is left behind. *)
Theorem main_reports (host : Host) {ry : Rayon} {rl : RayonLaws ry} fuel depth name w :
  healthy host → files w !! HOSTNAME = Some name → from_utf8 name = Ok name →
  rounds < fuel → 5 ≤ depth →
  ∃ pi_seq pi_par lap w',
    main host fuel depth w = Done tt w' ∧ files w' = delete FOO (files w) ∧
    verdicts w' = verdicts w ++
      [("hello", "ok"); ("arithmetic", "ok"); ("print_argv", "ok"); ("print_env", "ok");
       ("read_file", "ok"); ("create_file", "ok"); ("threading", "ok");
       ("pi_sequential", pi_seq); ("pi_parallel", pi_par); ("laplace", lap);
       ("test_matmul_strassen", "ok"); ("thread_creation", "ok")].
Proof.
  intros Hh Hname Hutf Hfuel Hdepth. unfold main, mbind, M_bind.
  destruct (hello_returns w) as [l1 H1]. report "hello" H1 w1.
  destruct (arithmetic_returns host Hh w1) as [l2 H2]. report "arithmetic" H2 w2.
  destruct (print_argv_returns host w2) as [l3 H3]. report "print_argv" H3 w3.
  destruct (print_env_returns host w3) as [l4 H4]. report "print_env" H4 w4.
  destruct (read_file_returns host Hh name w4) as [l5 H5]; [congruence|done|].
  report "read_file" H5 w5.
  pose proof (create_file_returns host Hh w5) as H6. report "create_file" H6 w6.
  destruct (threading_returns host Hh w6) as [l7 H7]. report "threading" H7 w7.
  destruct (pi_sequential_returns NUM_STEPS w7) as (v8 & l8 & H8). report "pi_sequential" H8 w8.
  destruct (pi_parallel_returns host Hh NUM_STEPS w8) as (v9 & l9 & H9). report "pi_parallel" H9 w9.
  destruct (laplace_returns host Hh fuel w9 Hfuel) as (v10 & l10 & H10). report "laplace" H10 w10.
  destruct (matmul_returns host Hh fuel depth w10 Hfuel Hdepth) as [l11 H11].
  report "test_matmul_strassen" H11 w11.
  destruct (thread_creation_returns host Hh w11) as [l12 H12]. report "thread_creation" H12 w12.
  exists v8, v9, v10, w12. split; [done|]. split; [congruence|].
  repeat match goal with H : verdicts ?x = verdicts _ ++ [_] |- context [verdicts ?x] => rewrite H end.
  by rewrite <- !app_assoc.
Qed.

(** ** Witnesses *)

(** A machine with four processors that refuses nothing; the second thread prints first. *)
Definition sim_host : Host :=
  mkHost (λ _, None) (λ _, Ok tt) (Ok tt) (@rev line) [] [] 1 4 (λ x, x) (λ x _, x).

Lemma sim_host_healthy : healthy sim_host.
Proof. split; try done. intros ls. symmetry. apply Permutation_rev. Qed.

Definition sim_machine : Machine := mkMachine {[ HOSTNAME := hello_world ]} [].

(** A hundred steps give pi to the tolerance. *)
Lemma pi_tests_same_terms_witness :
  (∃ w', pi_sequential 100 sim_machine = Done (Ok tt) w') ∧
  let terms := pi_term (fdiv f64_one (of_u64 100)) <$> seq 0 (Z.to_nat 100) in
  ∃ s, bracketing (@nzero f64) (@nadd f64) terms s ∧
    (∃ w', pi_parallel (ry := sim_rayon) sim_host 100 sim_machine = Done (pi_verdict 100 s).2 w') ∧
    (∃ w', pi_sequential 100 sim_machine =
           Done (pi_verdict 100 (foldl (@nadd f64) (@nzero f64) terms)).2 w').
Proof.
  split; [eexists; vm_compute; reflexivity|].
  apply (pi_tests_same_terms sim_host (ry := sim_rayon) (rl := sim_rayon_laws) 100 sim_machine).
  reflexivity.
Defined.

Lemma main_reports_witness :
  ∃ pi_seq pi_par lap w',
    main (ry := sim_rayon) sim_host 1001 5 sim_machine = Done tt w' ∧
    files w' = delete FOO (files sim_machine) ∧
    verdicts w' = verdicts sim_machine ++
      [("hello", "ok"); ("arithmetic", "ok"); ("print_argv", "ok"); ("print_env", "ok");
       ("read_file", "ok"); ("create_file", "ok"); ("threading", "ok");
       ("pi_sequential", pi_seq); ("pi_parallel", pi_par); ("laplace", lap);
       ("test_matmul_strassen", "ok"); ("thread_creation", "ok")].
Proof.
  apply (main_reports sim_host (ry := sim_rayon) (rl := sim_rayon_laws) 1001 5 hello_world sim_machine);
    [exact sim_host_healthy|reflexivity|reflexivity|unfold rounds; lia|lia].
Defined.
