(* ===== verification/Micro.v ===== *)
(** * [benches/micro]: the micro benchmarks

    The benchmarks of system calls, of scheduling and of memory, and the [main] that runs them.
    The clock, the threads, the output and the C functions [memcpy] and [memset] are a class;
    the arithmetic of [u64] is checked. *)

From S2P Require Import Prelude.

(** The arguments of a [println!]; a measured throughput is left open. *)
Inductive piece : Type := Lit (s : string) | Num (n : Z) | Measured.

Class System (W : Type) : Type := {
  get_timestamp : M W Z;
  sys_getpid : M W unit;
  yield_now : M W unit;
  thread_spawn : M W unit → M W Z;
  thread_join : Z → M W (result unit unit);
  println : list piece → M W unit;
  (* destination, source and number of bytes *)
  memcpy : list Z → list Z → nat → list Z;
  memset : list Z → Z → nat → list Z;
}.

Section Benches.
Context {W : Type} {sys : System W}.

Definition NR_RUNS : nat := 1000.
Definition ROUNDS : nat := Z.to_nat 1000000.

Definition SUB_OVERFLOW : string := "attempt to subtract with overflow".
Definition JOIN : string := "called `Result::unwrap()` on an `Err` value".

(** [a - b] on [u64]. *)
Definition checked_sub (a b : Z) : M W Z :=
  if (b <=? a)%Z then mret (a - b)%Z else panic SUB_OVERFLOW.

(** [for _ in 0..n { body }]. *)
Definition times (n : nat) (body : M W unit) : M W unit := for_range 0 n (λ _ _, body) tt.

Definition bench_syscall : M W (result unit unit) :=
  _ ← sys_getpid;
  _ ← get_timestamp;
  start ← get_timestamp;
  _ ← times ROUNDS sys_getpid;
  stop ← get_timestamp;
  ticks ← checked_sub stop start;
  _ ← println [Lit "Time "; Num (ticks / Z.of_nat ROUNDS); Lit " for a system call (in ticks)"];
  mret (Ok tt).

Definition bench_sched_one_thread : M W (result unit unit) :=
  _ ← yield_now;
  _ ← yield_now;
  _ ← get_timestamp;
  start ← get_timestamp;
  _ ← times ROUNDS yield_now;
  stop ← get_timestamp;
  ticks ← checked_sub stop start;
  _ ← println [Lit "Scheduling time "; Num (ticks / Z.of_nat ROUNDS); Lit " ticks (1 thread)"];
  mret (Ok tt).

Definition nthreads : nat := 2.

Definition bench_sched_two_threads : M W (result unit unit) :=
  _ ← yield_now;
  _ ← yield_now;
  _ ← get_timestamp;
  start ← get_timestamp;
  threads ← for_range 0 (nthreads - 1)
    (λ _ threads, t ← thread_spawn (times ROUNDS yield_now); mret (threads ++ [t])) [];
  _ ← times ROUNDS yield_now;
  stop ← get_timestamp;
  ticks ← checked_sub stop start;
  _ ← for_range 0 (length threads) (λ i _,
        t ← unwrap_opt JOIN (threads !! i);
        r ← thread_join t;
        unwrap_res JOIN r) tt;
  _ ← println [Lit "Scheduling time "; Num (ticks / (Z.of_nat nthreads * Z.of_nat ROUNDS));
               Lit " ticks (2 threads)"];
  mret (Ok tt).

(** [copy_from_slice] of the standard library. *)
Definition COPY_LEN : string := "source slice length does not match destination slice length".
Definition copy_from_slice (dst src : list Z) : M W (list Z) :=
  if length dst =? length src then mret src else panic COPY_LEN.

Definition throughput (name : string) (n : nat) : M W unit :=
  println [Lit name; Num (Z.of_nat n); Measured].

(** The measured loops give the destination they leave behind. *)
Definition memcpy_builtin_runs (n : nat) : M W (list Z) :=
  let v1 := repeat 1%Z n in
  for_range 0 NR_RUNS (λ _ v2, copy_from_slice v2 v1) (repeat 0%Z n).
Definition memcpy_builtin (n : nat) : M W unit :=
  _ ← memcpy_builtin_runs n; throughput "memcpy_builtin:  " n.

Definition memset_builtin_runs (n : nat) : M W (list Z) :=
  for_range 0 NR_RUNS (λ _ v1, for_range 0 (length v1) (λ i dst, mret (<[i := 27%Z]> dst)) v1)
    (repeat 0%Z n).
Definition memset_builtin (n : nat) : M W unit :=
  _ ← memset_builtin_runs n; throughput "memset_builtin:  " n.

Definition memcpy_rust_runs (n : nat) : M W (list Z) :=
  let v1 := repeat 1%Z n in
  for_range 0 NR_RUNS (λ _ v2, mret (memcpy v2 v1 n)) (repeat 0%Z n).
Definition memcpy_rust (n : nat) : M W unit :=
  _ ← memcpy_rust_runs n; throughput "memcpy_rust:  " n.

Definition memset_rust_runs (n : nat) : M W (list Z) :=
  for_range 0 NR_RUNS (λ _ v1, mret (memset v1 27 n)) (repeat 0%Z n).
Definition memset_rust (n : nat) : M W unit :=
  _ ← memset_rust_runs n; throughput "memset_rust:  " n.

(** The block sizes that each of the four memory benchmarks is run with. *)
Definition BLOCKS : list nat := [Z.to_nat 4096; Z.to_nat 1048576; Z.to_nat (16 * 1048576)].
Fixpoint for_blocks (bench : nat → M W unit) (blocks : list nat) : M W unit :=
  match blocks with
  | [] => mret tt
  | n :: blocks => _ ← bench n; for_blocks bench blocks
  end.

Definition bench_mem : M W (result unit unit) :=
  _ ← for_blocks memcpy_builtin BLOCKS;
  _ ← for_blocks memset_builtin BLOCKS;
  _ ← for_blocks memcpy_rust BLOCKS;
  _ ← for_blocks memset_rust BLOCKS;
  mret (Ok tt).

Definition main : M W unit :=
  r ← bench_sched_one_thread; _ ← unwrap_res JOIN r;
  r ← bench_sched_two_threads; _ ← unwrap_res JOIN r;
  r ← bench_syscall; _ ← unwrap_res JOIN r;
  r ← bench_mem; unwrap_res JOIN r.
End Benches.

Lemma ROUNDS_pos : (0 < Z.of_nat ROUNDS)%Z.
Proof. unfold ROUNDS. lia. Qed.
Lemma NR_RUNS_pos : 0 < NR_RUNS.
Proof. unfold NR_RUNS. lia. Qed.
#[local] Opaque ROUNDS NR_RUNS.

(** ** What the benchmarks rely on *)

(** What can be told of a state: the clock, the lines printed, and the calls this thread has
    made. *)
Class Observed (W : Type) : Type := {
  clock : W → Z;
  out : W → list (list piece);
  yields : W → nat;
  getpids : W → nat;
}.

(** From [w] to [w'] time does not run backwards, [o] is printed, and the thread yields [y]
    times and asks for its process [g] times. *)
Definition after {W} {obs : Observed W} (w w' : W) (o : list (list piece)) (y g : nat) : Prop :=
  (clock w ≤ clock w')%Z ∧ out w' = out w ++ o ∧ yields w' = yields w + y ∧
  getpids w' = getpids w + g.

(** Every call does what it is for and nothing else that can be told. *)
Class SystemLaws {W : Type} {obs : Observed W} (sys : System W) : Type := {
  get_timestamp_spec w :
    wp true get_timestamp (λ t w', t = clock w' ∧ after w w' [] 0 0) (λ _ _, False) w;
  sys_getpid_spec w : wp true sys_getpid (λ _ w', True ∧ after w w' [] 0 1) (λ _ _, False) w;
  yield_now_spec w : wp true yield_now (λ _ w', True ∧ after w w' [] 1 0) (λ _ _, False) w;
  thread_spawn_spec body w :
    wp true (thread_spawn body) (λ _ w', True ∧ after w w' [] 0 0) (λ _ _, False) w;
  thread_join_spec t w :
    wp true (thread_join t) (λ _ w', True ∧ after w w' [] 0 0) (λ _ _, False) w;
  println_spec l w : wp true (println l) (λ _ w', True ∧ after w w' [l] 0 0) (λ _ _, False) w;
  memcpy_spec dst src n :
    n ≤ length dst → n ≤ length src → memcpy dst src n = take n src ++ drop n dst;
  memset_spec dst c n : n ≤ length dst → memset dst c n = repeat c n ++ drop n dst;
}.

Section Proofs.
Context {W : Type} {sys : System W} {obs : Observed W} {laws : SystemLaws sys}.
Implicit Types (w : W).

Lemma after_refl w : after w w [] 0 0.
Proof. unfold after. split_and!; [lia|by rewrite app_nil_r|lia|lia]. Qed.

Lemma after_trans w w1 w2 o1 o2 y1 y2 g1 g2 :
  after w w1 o1 y1 g1 → after w1 w2 o2 y2 g2 → after w w2 (o1 ++ o2) (y1 + y2) (g1 + g2).
Proof.
  intros (Hc1 & Ho1 & Hy1 & Hg1) (Hc2 & Ho2 & Hy2 & Hg2). unfold after.
  split_and!; [lia|by rewrite Ho2, Ho1, app_assoc|lia|lia].
Qed.

Lemma after_eq w w' o o' y y' g g' :
  after w w' o y g → o = o' → y = y' → g = g' → after w w' o' y' g'.
Proof. by intros H -> -> ->. Qed.

(** The next call, after all that was done since [w0]. *)
Lemma then_call {A} (m : M W A) P (Q : A → W → Prop) E w0 w o y g o' y' g' :
  after w0 w o y g →
  (∀ w, wp true m (λ a w', P a w' ∧ after w w' o' y' g') (λ _ _, False) w) →
  (∀ a w', P a w' → (clock w ≤ clock w')%Z → after w0 w' (o ++ o') (y + y') (g + g') → Q a w') →
  wp true m Q E w.
Proof.
  intros H0 Hm HQ. eapply wp_mono; [apply Hm| |done]. cbv beta. intros a w' [Ha Hw'].
  apply HQ; [done|apply Hw'|by eapply after_trans].
Qed.

Lemma times_spec (body : M W unit) n y g w :
  (∀ w, wp true body (λ _ w', True ∧ after w w' [] y g) (λ _ _, False) w) →
  wp true (times n body) (λ _ w', True ∧ after w w' [] (n * y) (n * g)) (λ _ _, False) w.
Proof.
  intros Hb. unfold times.
  apply (wp_for_range true (λ i _ w', True ∧ after w w' [] (i * y) (i * g)));
    [|split; [done|apply after_refl]].
  intros i _ w1 _ [_ Hw1]. eapply then_call; [done|apply Hb|]. intros _ w2 _ _ Hw2. split; [done|].
  simpl in *. by rewrite (Nat.add_comm y), (Nat.add_comm g).
Qed.

Lemma times_yield n w :
  wp true (times n yield_now) (λ _ w', True ∧ after w w' [] n 0) (λ _ _, False) w.
Proof.
  pose proof (times_spec yield_now n 1 0 w yield_now_spec) as H.
  by rewrite Nat.mul_1_r, Nat.mul_0_r in H.
Qed.

Lemma times_getpid n w :
  wp true (times n sys_getpid) (λ _ w', True ∧ after w w' [] 0 n) (λ _ _, False) w.
Proof.
  pose proof (times_spec sys_getpid n 0 1 w sys_getpid_spec) as H.
  by rewrite Nat.mul_1_r, Nat.mul_0_r in H.
Qed.

Lemma wp_checked_sub a b (Q : Z → W → Prop) E w :
  (b ≤ a)%Z → Q (a - b)%Z w → wp true (checked_sub a b) Q E w.
Proof. intros Hle HQ. unfold checked_sub. by rewrite (proj2 (Z.leb_le _ _) Hle). Qed.

(** The next call of a benchmark, with the law of the system that gives its effect. *)
#[local] Ltac call lem :=
  wp_run; eapply then_call; [eassumption|intros; apply lem|cbv beta].

Definition syscall_line (t : Z) : list piece :=
  [Lit "Time "; Num t; Lit " for a system call (in ticks)"].
Definition sched_line (threads : string) (t : Z) : list piece :=
  [Lit "Scheduling time "; Num t; Lit threads].

Lemma bench_syscall_spec w :
  wp true bench_syscall (λ r w', r = Ok tt ∧ ∃ t, (0 ≤ t)%Z ∧ after w w' [syscall_line t] 0 (1 + ROUNDS))
    (λ msg _, msg = JOIN) w.
Proof.
  pose proof (after_refl w) as H0. unfold bench_syscall.
  call sys_getpid_spec. intros _ w1 _ _ H1. call get_timestamp_spec. intros _ w2 _ _ H2.
  call get_timestamp_spec. intros start w3 -> _ H3. call (times_getpid ROUNDS).
  intros _ w4 _ Hc4 H4. call get_timestamp_spec. intros stop w5 -> Hc5 H5. wp_run.
  apply wp_checked_sub; [lia|]. call println_spec. intros _ w6 _ _ H6. wp_run.
  split; [done|]. eexists. split; [|eapply after_eq; [exact H6|done|lia..]]. apply Z.div_pos; [lia|apply ROUNDS_pos].
Qed.

Lemma bench_sched_one_thread_spec w :
  wp true bench_sched_one_thread (λ r w', r = Ok tt ∧ ∃ t, (0 ≤ t)%Z ∧
      after w w' [sched_line " ticks (1 thread)" t] (2 + ROUNDS) 0)
    (λ msg _, msg = JOIN) w.
Proof.
  pose proof (after_refl w) as H0. unfold bench_sched_one_thread.
  call yield_now_spec. intros _ w1 _ _ H1. call yield_now_spec. intros _ w2 _ _ H2.
  call get_timestamp_spec. intros _ w3 _ _ H3. call get_timestamp_spec. intros start w4 -> _ H4.
  call (times_yield ROUNDS). intros _ w5 _ Hc5 H5. call get_timestamp_spec.
  intros stop w6 -> Hc6 H6. wp_run. apply wp_checked_sub; [lia|]. call println_spec.
  intros _ w7 _ _ H7. wp_run. split; [done|]. eexists.
  split; [|eapply after_eq; [exact H7|done|lia..]].
  apply Z.div_pos; [lia|apply ROUNDS_pos].
Qed.

Lemma bench_sched_two_threads_spec w :
  wp true bench_sched_two_threads (λ r w', r = Ok tt ∧ ∃ t, (0 ≤ t)%Z ∧
      after w w' [sched_line " ticks (2 threads)" t] (2 + ROUNDS) 0)
    (λ msg _, msg = JOIN) w.
Proof.
  pose proof (after_refl w) as H0. unfold bench_sched_two_threads. cbn [nthreads Nat.sub for_range].
  call yield_now_spec. intros _ w1 _ _ H1. call yield_now_spec. intros _ w2 _ _ H2.
  call get_timestamp_spec. intros _ w3 _ _ H3. call get_timestamp_spec. intros start w4 -> _ H4.
  call thread_spawn_spec. intros tid w5 _ Hc5 H5. call (times_yield ROUNDS).
  intros _ w6 _ Hc6 H6. call get_timestamp_spec. intros stop w7 -> Hc7 H7. wp_run.
  apply wp_checked_sub; [lia|]. call thread_join_spec. intros [[]|] w8 _ _ H8; wp_run; [|done].
  call println_spec. intros _ w9 _ _ H9. wp_run. split; [done|]. eexists.
  split; [|eapply after_eq; [exact H9|done|lia..]].
  apply Z.div_pos; [lia|apply Z.mul_pos_pos; [done|apply ROUNDS_pos]].
Qed.

(** ** The memory benchmarks *)

(** What is the same after every round is so at the end, which at least one round reaches. *)
Lemma runs_spec (body : list Z → M W (list Z)) n a b w :
  0 < n → (∀ v, length v = length a → body v w = Done b w) → length b = length a →
  for_range 0 n (λ _ v, body v) a w = Done b w.
Proof.
  intros Hn Hbody Hlen. destruct n as [|n]; [lia|]. clear Hn. cbn [for_range].
  unfold mbind, M_bind. rewrite Hbody by done. generalize 1 as i.
  induction n as [|n IH]; intros i; [done|]. cbn [for_range]. unfold mbind, M_bind.
  rewrite Hbody by done. apply IH.
Qed.

Lemma fill_spec (x : Z) (filled rest : list Z) w :
  for_range (length filled) (length rest) (λ i dst, mret (<[i := x]> dst)) (filled ++ rest) w =
  Done (filled ++ repeat x (length rest)) w.
Proof.
  revert filled. induction rest as [|y rest IH]; intros filled; [done|]. cbn [length for_range].
  unfold mbind, M_bind, mret at 1, M_ret at 1.
  rewrite insert_app_r_alt, Nat.sub_diag by lia. simpl.
  specialize (IH (filled ++ [x])). rewrite length_app, <- !app_assoc, Nat.add_comm in IH. exact IH.
Qed.

Lemma memory_runs n w :
  memcpy_builtin_runs n w = Done (repeat 1%Z n) w ∧
  memset_builtin_runs n w = Done (repeat 27%Z n) w ∧
  memcpy_rust_runs n w = Done (repeat 1%Z n) w ∧
  memset_rust_runs n w = Done (repeat 27%Z n) w.
Proof.
  pose proof NR_RUNS_pos as Hr.
  unfold memcpy_builtin_runs, memset_builtin_runs, memcpy_rust_runs, memset_rust_runs.
  split_and!; (apply runs_spec; [done| |by rewrite !repeat_length]); intros v; rewrite repeat_length;
    intros Hv.
  - unfold copy_from_slice. by rewrite repeat_length, Hv, Nat.eqb_refl.
  - pose proof (fill_spec 27 [] v w) as H. simpl in H. by rewrite H, Hv.
  - rewrite memcpy_spec by (rewrite ?repeat_length; lia). unfold mret, M_ret. f_equal.
    rewrite take_ge, drop_ge, app_nil_r by (rewrite ?repeat_length; lia). done.
  - rewrite memset_spec by lia. unfold mret, M_ret. f_equal. by rewrite drop_ge, app_nil_r by lia.
Qed.

Definition block_line (name : string) (n : nat) : list piece :=
  [Lit name; Num (Z.of_nat n); Measured].

#[local] Opaque memcpy_builtin_runs memset_builtin_runs memcpy_rust_runs memset_rust_runs.

(** The three sizes of one memory benchmark, whose loop is [runs]. *)
Lemma blocks_spec name (runs : nat → M W (list Z)) (fill : nat → list Z) blocks w :
  (∀ n w, runs n w = Done (fill n) w) →
  wp true (for_blocks (λ n, _ ← runs n; throughput name n) blocks)
    (λ _ w', True ∧ after w w' (block_line name <$> blocks) 0 0) (λ _ _, False) w.
Proof.
  intros Hruns. revert w. induction blocks as [|n blocks IH]; intros w; cbn [for_blocks].
  { split; [done|apply after_refl]. }
  wp_run. unfold wp at 1. rewrite Hruns. pose proof (after_refl w) as H0.
  eapply then_call; [exact H0|intros; apply println_spec|cbv beta]. intros _ w1 _ _ H1.
  eapply then_call; [exact H1|apply IH|cbv beta]. intros _ w2 _ _ H2. split; [done|].
  by eapply after_eq.
Qed.

Definition MEMORY_BENCHES : list string :=
  ["memcpy_builtin:  "; "memset_builtin:  "; "memcpy_rust:  "; "memset_rust:  "].

Definition memory_lines : list (list piece) :=
  name ← MEMORY_BENCHES; block_line name <$> BLOCKS.

Lemma bench_mem_spec w :
  wp true bench_mem (λ r w', r = Ok tt ∧
      after w w' memory_lines 0 0) (λ msg _, msg = JOIN) w.
Proof.
  pose proof (after_refl w) as H0. unfold bench_mem, memory_lines. generalize BLOCKS as blocks. intros blocks.
  call (λ w, blocks_spec "memcpy_builtin:  " _ (λ n, repeat 1%Z n) blocks w
               (λ n w, proj1 (memory_runs n w))). intros _ w1 _ _ H1.
  call (λ w, blocks_spec "memset_builtin:  " _ (λ n, repeat 27%Z n) blocks w
               (λ n w, proj1 (proj2 (memory_runs n w)))). intros _ w2 _ _ H2.
  call (λ w, blocks_spec "memcpy_rust:  " _ (λ n, repeat 1%Z n) blocks w
               (λ n w, proj1 (proj2 (proj2 (memory_runs n w))))). intros _ w3 _ _ H3.
  call (λ w, blocks_spec "memset_rust:  " _ (λ n, repeat 27%Z n) blocks w
               (λ n w, proj2 (proj2 (proj2 (memory_runs n w))))). intros _ w4 _ _ H4.
  wp_run. split; [done|]. eapply after_eq; [exact H4| |done..].
  by rewrite app_nil_r, <- !app_assoc.
Qed.

#[local] Opaque memory_lines bench_sched_one_thread bench_sched_two_threads bench_syscall bench_mem.

(** A benchmark that succeeds, in front of the rest of [main]. *)
Lemma then_bench {A} (bench : M W (result unit unit)) (rest : M W A) (P : W → Prop) Q E w :
  wp true bench (λ r w', r = Ok tt ∧ P w') E w → (∀ w', P w' → wp true rest Q E w') →
  wp true (r ← bench; _ ← unwrap_res JOIN r; rest) Q E w.
Proof.
  intros Hb Hrest. apply wp_bind. eapply wp_conseq; [exact Hb|]. cbv beta.
  intros r w' [-> HP]. by apply Hrest.
Qed.

Lemma last_bench (bench : M W (result unit unit)) (P : W → Prop) Q E w :
  wp true bench (λ r w', r = Ok tt ∧ P w') E w → (∀ w', P w' → Q tt w') →
  wp true (r ← bench; unwrap_res JOIN r) Q E w.
Proof.
  intros Hb HQ. apply wp_bind. eapply wp_conseq; [exact Hb|]. cbv beta.
  intros r w' [-> HP]. by apply HQ.
Qed.

(** C40: The micro benchmarks run to the end, unless a thread they wait for has failed: they
    print the two scheduling times, the time of a system call and the twelve memory
    throughputs, in this order, with times that are not negative; the thread itself has
    yielded [ROUNDS + 2] times in each scheduling benchmark and asked for its process
    [ROUNDS + 1] times.  The memory benchmarks leave the whole destination filled. *)
Theorem main_measures w :
  wp true main (λ _ w', ∃ t1 t2 t3, (0 ≤ t1 ∧ 0 ≤ t2 ∧ 0 ≤ t3)%Z ∧
      after w w' ([sched_line " ticks (1 thread)" t1; sched_line " ticks (2 threads)" t2;
                   syscall_line t3] ++ memory_lines)
        (2 * (ROUNDS + 2)) (ROUNDS + 1)) (λ msg _, msg = JOIN) w ∧
  ∀ n, memcpy_builtin_runs n w = Done (repeat 1%Z n) w ∧
    memset_builtin_runs n w = Done (repeat 27%Z n) w ∧
    memcpy_rust_runs n w = Done (repeat 1%Z n) w ∧
    memset_rust_runs n w = Done (repeat 27%Z n) w.
Proof.
  split; [|intros n; apply memory_runs]. unfold main.
  eapply then_bench; [apply bench_sched_one_thread_spec|]. intros w1 (t1 & Ht1 & H1).
  eapply then_bench; [apply bench_sched_two_threads_spec|]. intros w2 (t2 & Ht2 & H2).
  eapply then_bench; [apply bench_syscall_spec|]. intros w3 (t3 & Ht3 & H3).
  eapply last_bench; [apply bench_mem_spec|]. intros w4 H4. exists t1, t2, t3. split; [done|].
  eapply after_eq;
    [eapply after_trans; [exact H1|eapply after_trans; [exact H2|eapply after_trans; [exact H3|exact H4]]]
    |done|lia..].
Qed.
End Proofs.

(** ** Witness *)

(** A machine whose clock counts the calls. *)
Record SimMachine : Type := mkSimMachine {
  sm_clock : Z;
  sm_out : list (list piece);
  sm_yields : nat;
  sm_pids : nat;
}.

Definition sim_call {A} (a : SimMachine → A) (o : list (list piece)) (y g : nat) : M SimMachine A :=
  λ w, Done (a w) (mkSimMachine (sm_clock w + 1) (sm_out w ++ o) (sm_yields w + y) (sm_pids w + g)).

#[export] Instance sim_system : System SimMachine := {|
  get_timestamp := λ w, Done (sm_clock w) w;
  sys_getpid := sim_call (λ _, tt) [] 0 1;
  yield_now := sim_call (λ _, tt) [] 1 0;
  thread_spawn _ := sim_call (λ _, 1%Z) [] 0 0;
  thread_join _ := sim_call (λ _, Ok tt) [] 0 0;
  println l := sim_call (λ _, tt) [l] 0 0;
  memcpy dst src n := take n src ++ drop n dst;
  memset dst c n := repeat c n ++ drop n dst;
|}.

#[export] Instance sim_observed : Observed SimMachine :=
  {| clock := sm_clock; out := sm_out; yields := sm_yields; getpids := sm_pids |}.

#[export] Instance sim_system_laws : SystemLaws sim_system.
Proof.
  split; try done; intros; unfold wp, after; simpl;
    split_and!; try done; rewrite ?app_nil_r; lia || done.
Defined.

Lemma main_measures_witness :
  wp true main (λ _ w', ∃ t1 t2 t3, (0 ≤ t1 ∧ 0 ≤ t2 ∧ 0 ≤ t3)%Z ∧
      after (mkSimMachine 0 [] 0 0) w'
        ([sched_line " ticks (1 thread)" t1; sched_line " ticks (2 threads)" t2;
          syscall_line t3] ++ memory_lines)
        (2 * (ROUNDS + 2)) (ROUNDS + 1)) (λ msg _, msg = JOIN) (mkSimMachine 0 [] 0 0).
Proof. exact (proj1 (main_measures (mkSimMachine 0 [] 0 0))). Defined.
