(* ===== verification/Httpd.v ===== *)
(** * [examples/httpd] and [examples/hello_world]

    The two small examples.  The crate tiny_http is a class: a server, an iterator of requests,
    the construction of a response, and the answer to a request. *)

From S2P Require Import Prelude Utf8.
From Stdlib Require Import Ascii.
From Stdlib Require String.

(** The bytes of an ASCII literal. *)
Definition bytes_of (s : string) : list Z :=
  (λ c, Z.of_N (N_of_ascii c)) <$> String.list_ascii_of_string s.

Class Http (W : Type) : Type := {
  Request : Type;
  Response : Type;
  HeaderField : Type;
  http : string → M W (result unit unit);
  next_request : M W (option Request);
  response_from_string : list Z → Response;
  with_status_code : Z → Response → Response;
  with_header : HeaderField → list Z → Response → Response;
  parse_field : string → result HeaderField unit;
  respond : Request → Response → M W (result unit unit);
  println : string → M W unit;
}.

Section Programs.
Context {W : Type} {srv : Http W}.
Variable fuel : nat.

Definition UNWRAP : string := "called `Result::unwrap()` on an `Err` value".

(** examples/hello_world. *)
Definition main_hello_world : M W unit := println "Hello World!".

(** [AsciiString::from_ascii]. *)
Definition from_ascii (bs : list Z) : result (list Z) unit :=
  if forallb (λ b, (b <? 128)%Z) bs then Ok bs else Err tt.

Definition crab : list Z := [0xF0; 0x9F; 0xA6; 0x80]%Z.
Definition text : list Z :=
  bytes_of "Hello from RustyHermit " ++ match from_utf8 crab with Ok s => s | Err _ => [] end.

(** The response to every request. *)
Definition page : M W Response :=
  field ← unwrap_res UNWRAP (parse_field "Content-Type");
  value ← unwrap_res UNWRAP (from_ascii (bytes_of "text/plain; charset=utf8"));
  mret (with_header field value (with_status_code 200 (response_from_string text))).

(** A round of the loop over [incoming_requests]; the result of [respond] is ignored. *)
Definition serve_round (_ : unit) : M W (unit + unit) :=
  o ← next_request;
  match o with
  | None => mret (inr tt)
  | Some rq =>
      response ← page;
      _ ← respond rq response;
      mret (inl tt)
  end.

(** examples/httpd. *)
Definition main_httpd : M W unit :=
  r ← http "0.0.0.0:9975";
  _ ← unwrap_res UNWRAP r;
  _ ← println "Now listening on port 9975";
  loop fuel serve_round tt.
End Programs.

(** The requests still to come are finitely many, and what was answered is recorded. *)
Class HttpLaws {W : Type} (srv : Http W) : Type := {
  to_come : W → list Request;
  answered : W → list (Request * Response);
  http_spec a w : wp true (http a) (λ _ w', to_come w' = to_come w ∧ answered w' = answered w)
    (λ _ _, False) w;
  println_spec s w : wp true (println s) (λ _ w', to_come w' = to_come w ∧ answered w' = answered w)
    (λ _ _, False) w;
  next_request_spec w : wp true next_request (λ o w', answered w' = answered w ∧
    match to_come w with [] => o = None | rq :: rqs => o = Some rq ∧ to_come w' = rqs end)
    (λ _ _, False) w;
  respond_spec rq r w : wp true (respond rq r) (λ _ w', to_come w' = to_come w ∧
    answered w' = answered w ++ [(rq, r)]) (λ _ _, False) w;
  content_type : HeaderField;
  parse_content_type : parse_field "Content-Type" = Ok content_type;
}.

Section Serve.
Context {W : Type} {srv : Http W} {laws : HttpLaws srv}.
Implicit Types (w : W).

Definition the_page : Response :=
  with_header content_type (bytes_of "text/plain; charset=utf8")
    (with_status_code 200 (response_from_string (bytes_of "Hello from RustyHermit " ++ crab))).

Lemma page_done w : page w = Done the_page w.
Proof. unfold page, mbind, M_bind. by rewrite parse_content_type. Qed.

(** Every request is answered exactly once, in order, with status 200 and the greeting, whose
    crab is valid UTF-8; when the address is refused the server panics. *)
Theorem httpd_answers_all fuel w :
  length (to_come w) < fuel →
  wp true (main_httpd fuel)
    (λ _ w', answered w' = answered w ++ ((λ rq, (rq, the_page)) <$> to_come w))
    (λ msg _, msg = UNWRAP) w.
Proof.
  intros Hfuel. unfold main_httpd. wp_run. eapply wp_mono; [apply http_spec| |done]. cbv beta.
  intros [[]|] w1 [Ht1 Ha1]; wp_run; [|done]. eapply wp_mono; [apply println_spec| |done].
  cbv beta. intros _ w2 [Ht2 Ha2]. set (answer := λ rq, (rq, the_page)).
  apply (wp_loop true (λ _ w', answered w' ++ (answer <$> to_come w') =
           answered w ++ (answer <$> to_come w)) (λ _ w', length (to_come w'))).
  - intros [] w3 HI. unfold serve_round. wp_run. eapply wp_mono; [apply next_request_spec| |done].
    cbv beta. intros o w4 [Ha4 Hn]. destruct (to_come w3) as [|rq rqs]; simpl in HI.
    + subst o. wp_run. rewrite app_nil_r in HI. congruence.
    + destruct Hn as [-> Ht4]. wp_run. unfold wp at 1. rewrite page_done. wp_run.
      eapply wp_mono; [apply respond_spec| |done]. cbv beta. intros _ w5 [Ht5 Ha5]. wp_run.
      rewrite Ha5, Ha4, Ht5, Ht4, <- app_assoc. split; [exact HI|]. simpl. lia.
  - by rewrite Ha2, Ha1, Ht2, Ht1.
  - intros _. by rewrite Ht2, Ht1.
Qed.
End Serve.

(** ** Witness *)

(** A world of requests to come and answers given. *)
Record SimWeb : Type := mkSimWeb {
  sw_to_come : list nat;
  sw_answered : list (nat * (Z * list Z));
}.

#[export] Instance sim_http : Http SimWeb := {|
  Request := nat;
  Response := Z * list Z;
  HeaderField := string;
  http a := mret (if String.eqb a "0.0.0.0:9975" then Ok tt else Err tt);
  next_request := λ w, match sw_to_come w with
    | [] => Done None w
    | rq :: rqs => Done (Some rq) (mkSimWeb rqs (sw_answered w))
    end;
  response_from_string s := (500%Z, s);
  with_status_code c r := (c, r.2);
  with_header _ _ r := r;
  parse_field s := Ok s;
  respond rq r := λ w, Done (Err tt) (mkSimWeb (sw_to_come w) (sw_answered w ++ [(rq, r)]));
  println _ := mret tt;
|}.

#[export] Instance sim_http_laws : HttpLaws sim_http.
Proof.
  refine {| to_come := sw_to_come; answered := sw_answered; content_type := "Content-Type"%string |};
    try done. intros w. unfold wp; simpl. by destruct (sw_to_come w).
Defined.

Lemma httpd_answers_all_witness :
  wp true (main_httpd 4) (λ _ w', sw_answered w' =
      (λ rq, (rq, the_page)) <$> [1; 2; 3]) (λ msg _, msg = UNWRAP) (mkSimWeb [1; 2; 3] []).
Proof. refine (httpd_answers_all 4 (mkSimWeb [1; 2; 3] []) _). simpl. lia. Defined.
